(** * Marble: ingestion and retrieval pipeline

    A shallow embedding of the chunker ([api/src/lib/chunk.ts]), the embedding
    and chat clients ([api/src/lib/openai.ts]), the vector store adapter
    ([api/src/lib/vectorize.ts]), the ingestion orchestrator
    ([api/src/lib/ingest.ts]) and the chat route ([api/src/routes/chat.ts]),
    with the properties of the specification stated and settled on it. *)

From Stdlib Require Import String Ascii.
From Stdlib Require Import List ZArith NArith QArith Lia Lqa Bool.
From Stdlib Require Import Sorted Permutation.
Import ListNotations.

Set Implicit Arguments.
Local Open Scope Z_scope.

(** ** JavaScript strings

    A JavaScript string is a sequence of UTF-16 code units; [length], [slice],
    indexing and [===] on single characters all work on code units. *)

Definition char := N.
Definition jsstring := list char.

Definition char_of_ascii (a : ascii) : char := N_of_ascii a.

(** [str "abc"] is the JavaScript string with the same (ASCII) characters. *)
Definition str (s : string) : jsstring := map char_of_ascii (list_ascii_of_string s).

Definition len {A} (l : list A) : Z := Z.of_nat (length l).

Definition char_eqb (a b : char) : bool := N.eqb a b.

Fixpoint jsstring_eqb (a b : jsstring) : bool :=
  match a, b with
  | [], [] => true
  | x :: a', y :: b' => char_eqb x y && jsstring_eqb a' b'
  | _, _ => false
  end.

Definition jsstring_eq_dec (a b : jsstring) : {a = b} + {a <> b} :=
  list_eq_dec N.eq_dec a b.

(** [String.prototype.slice(from, to)]: negative arguments count from the end,
    both are clamped to the string, an empty span gives the empty string. *)
Definition slice_index (n i : Z) : Z :=
  if i <? 0 then Z.max (n + i) 0 else Z.min i n.

Definition slice {A} (s : list A) (from to : Z) : list A :=
  let n := len s in
  let a := slice_index n from in
  let b := slice_index n to in
  firstn (Z.to_nat (Z.max (b - a) 0)) (skipn (Z.to_nat a) s).

(** [String.prototype.startsWith]. *)
Fixpoint startsWith (s prefix : jsstring) {struct prefix} : bool :=
  match prefix, s with
  | [], _ => true
  | p :: prefix', c :: s' => char_eqb c p && startsWith s' prefix'
  | _ :: _, [] => false
  end.

(** WhiteSpace and LineTerminator code units of ECMAScript: what [trim]
    strips and what [\s] matches. *)
Definition isLineTerminator (c : char) : bool :=
  match c with
  | 10%N | 13%N | 8232%N | 8233%N => true
  | _ => false
  end.

Definition isWhiteSpace (c : char) : bool :=
  match c with
  | 9%N | 11%N | 12%N | 32%N | 160%N | 5760%N | 8239%N | 8287%N | 12288%N | 65279%N => true
  | _ => ((8192 <=? c) && (c <=? 8202))%N || isLineTerminator c
  end.

Fixpoint trimStart (s : jsstring) : jsstring :=
  match s with
  | c :: s' => if isWhiteSpace c then trimStart s' else s
  | [] => []
  end.

Definition trimEnd (s : jsstring) : jsstring := rev (trimStart (rev s)).

Definition trim (s : jsstring) : jsstring := trimEnd (trimStart s).

(** ** The chunker ([chunkText] and its helpers) *)

Module Chunk.

Record ChunkOptions := { chunkSize : Z; overlap : Z }.

Record TextChunk := {
  content : jsstring;
  startLine : Z;
  endLine : Z;
  index : Z
}.

Definition NEWLINE : char := 10%N.

(** The [for] loop of [buildLineOffsets], from character [i] on. *)
Fixpoint buildLineOffsets_from (i : Z) (source : jsstring) : list Z :=
  match source with
  | [] => []
  | c :: rest =>
      if char_eqb c NEWLINE
      then (i + 1) :: buildLineOffsets_from (i + 1) rest
      else buildLineOffsets_from (i + 1) rest
  end.

Definition buildLineOffsets (source : jsstring) : list Z :=
  0 :: buildLineOffsets_from 0 source.

Definition MAX_SAFE_INTEGER : Z := 2 ^ 53 - 1.

(** [offsets[i]]; [None] is JavaScript's [undefined]. *)
Definition at_index (offsets : list Z) (i : Z) : option Z :=
  if i <? 0 then None else nth_error offsets (Z.to_nat i).

(** The [while (low <= high)] loop of [locateLine].  A comparison with
    [undefined] is false.  [None] means the fuel ran out before the loop
    ended. *)
Fixpoint locate_loop (fuel : nat) (offsets : list Z) (charIndex low high : Z) : option Z :=
  match fuel with
  | O => None
  | S fuel' =>
      if low <=? high then
        let mid := (low + high) / 2 in
        let start := at_index offsets mid in
        let nextStart :=
          if mid + 1 <? len offsets then at_index offsets (mid + 1)
          else Some MAX_SAFE_INTEGER in
        if match start with Some s => charIndex <? s | None => false end then
          locate_loop fuel' offsets charIndex low (mid - 1)
        else if match nextStart with Some s => s <=? charIndex | None => false end then
          locate_loop fuel' offsets charIndex (mid + 1) high
        else Some (mid + 1)
      else Some (len offsets)
  end.

(** Every iteration removes at least one index from [low..high], so
    [length offsets + 1] iterations are always enough (lemma
    [locateLine_returns]). *)
Definition locateLine (offsets : list Z) (charIndex : Z) : option Z :=
  locate_loop (S (length offsets)) offsets charIndex 0 (len offsets - 1).

Inductive Thrown := ChunkSizeMustBePositive.

(** The [for (let position = 0; position < source.length; )] loop of
    [chunkText]; [chunks] is the array built so far.  [None] means the fuel
    ran out. *)
Fixpoint chunk_loop (fuel : nat) (source : jsstring) (chunkSize overlap : Z)
    (offsets : list Z) (position index : Z) (chunks : list TextChunk)
    : option (list TextChunk) :=
  match fuel with
  | O => None
  | S fuel' =>
      if position <? len source then
        let end_ := Z.min (len source) (position + chunkSize) in
        let content := slice source position end_ in
        match locateLine offsets position with
        | None => None
        | Some startLine =>
            let lastCharIndex := if position <? end_ then end_ - 1 else position in
            match locateLine offsets lastCharIndex with
            | None => None
            | Some endLine =>
                let chunks' :=
                  chunks ++ [{| content := content; startLine := startLine;
                                endLine := endLine; index := index |}] in
                if end_ =? len source then Some chunks'
                else chunk_loop fuel' source chunkSize overlap offsets
                       (Z.max 0 (end_ - overlap)) (index + 1) chunks'
            end
        end
      else Some chunks
  end.

(** [chunkText source options], run for at most [fuel] iterations of its
    loop: [None] when the loop is still running after [fuel] iterations,
    [Some (inl _)] when it throws, [Some (inr chunks)] when it returns. *)
Definition chunkText (fuel : nat) (source : jsstring) (options : ChunkOptions)
    : option (Thrown + list TextChunk) :=
  if chunkSize options <=? 0 then Some (inl ChunkSizeMustBePositive)
  else
    match chunk_loop fuel source (chunkSize options) (overlap options)
            (buildLineOffsets source) 0 0 [] with
    | None => None
    | Some chunks => Some (inr chunks)
    end.

End Chunk.

(** Notions used to state the chunker's properties. *)
Module ChunkSpec.
Import Chunk.

(** The number of line starts at or before [charIndex]: the 1-based line
    that holds the character. *)
Definition lineOf (offsets : list Z) (charIndex : Z) : Z :=
  len (filter (fun o => o <=? charIndex) offsets).

(** [l[i]] on an offset table, for indices known to be in range. *)
Definition zth (l : list Z) (i : Z) : Z := nth (Z.to_nat i) l 0.

(** The chunks' contents put end to end, every chunk but the first without
    its first [overlap] characters. *)
Definition unoverlap (overlap : Z) (c : TextChunk) : jsstring :=
  skipn (Z.to_nat overlap) (content c).

Definition stitch (overlap : Z) (chunks : list TextChunk) : jsstring :=
  match chunks with
  | [] => []
  | first :: rest => content first ++ concat (map (unoverlap overlap) rest)
  end.

(** The source of the specification's worked example. *)
Definition example_source : jsstring :=
  str "Line one" ++ [NEWLINE] ++ str "Line two" ++ [NEWLINE] ++ str "Line three".

Definition example_options : ChunkOptions := {| chunkSize := 9; overlap := 2 |}.

End ChunkSpec.

(** ** JavaScript values

    What [response.json()] and [JSON.parse] produce, plus [undefined] (the
    value of a missing property).  JSON numbers are kept as rationals. *)

Module Js.

#[local] Unset Elimination Schemes.
Inductive value :=
| VUndefined
| VNull
| VBool (b : bool)
| VNum (q : Q)
| VStr (s : jsstring)
| VArr (items : list value)
| VObj (fields : list (jsstring * value)).
#[local] Set Elimination Schemes.

(** Truthiness: [undefined], [null], [false], [0] and [''] are falsy. *)
Definition truthy (v : value) : bool :=
  match v with
  | VUndefined | VNull => false
  | VBool b => b
  | VNum q => negb (Qeq_bool q 0)
  | VStr s => match s with [] => false | _ => true end
  | VArr _ | VObj _ => true
  end.

Definition nullish (v : value) : bool :=
  match v with VUndefined | VNull => true | _ => false end.

(** [a ?? b]. *)
Definition coalesce (a b : value) : value := if nullish a then b else a.

Fixpoint lookup (k : jsstring) (fields : list (jsstring * value)) : value :=
  match fields with
  | [] => VUndefined
  | (k', v) :: rest => if jsstring_eqb k k' then v else lookup k rest
  end.

(** [v?.k] for the property names the code reads: only plain objects carry
    them; arrays, strings, numbers and booleans give [undefined]. *)
Definition prop (v : value) (k : string) : value :=
  match v with
  | VObj fields => lookup (str k) fields
  | _ => VUndefined
  end.

Definition isArray (v : value) : bool :=
  match v with VArr _ => true | _ => false end.

Definition isString (v : value) : bool :=
  match v with VStr _ => true | _ => false end.

Definition isNumber (v : value) : bool :=
  match v with VNum _ => true | _ => false end.

(** [typeof v === 'object']: objects, arrays and [null]. *)
Definition typeofObject (v : value) : bool :=
  match v with VObj _ | VArr _ | VNull => true | _ => false end.

Definition items (v : value) : list value :=
  match v with VArr l => l | _ => [] end.

(** [a[0]] on an array. *)
Definition first (a : value) : value := nth 0 (items a) VUndefined.

End Js.

(** ** Errors *)

Inductive Message :=
| Text (s : string)
| EmbeddingRequestFailed (status : Z) (body : jsstring)
| ChatRequestFailed (status : Z) (body : jsstring)
| FailedToParseEmbeddings (inner : Message)
| FailedToEmbedLookup (inner : Message)
| EmbeddingCountMismatch (got expected : Z)
| SchemaMessage
| EngineMessage.

(** What a call can throw.  [TypeError] and [SyntaxError] are raised by the
    JavaScript engine (a property read on [null] or [undefined], a body that
    is not JSON, a rejected [fetch]); [StoreError] by the database or the
    vector index. *)
Inductive Failure :=
| HTTPException (status : Z) (message : Message)
| OpenAIError (message : Message)
| Error (message : Message)
| TypeError
| SyntaxError
| StoreError.

(** [e?.message || String(e)]. *)
Definition message_of (e : Failure) : Message :=
  match e with
  | HTTPException _ m | OpenAIError m | Error m => m
  | TypeError | SyntaxError | StoreError => EngineMessage
  end.

Definition isOpenAIError (e : Failure) : bool :=
  match e with OpenAIError _ => true | _ => false end.

(** ** The runtime: bindings, platform functions and stores *)

Inductive Visibility := Public | Private.

Definition Visibility_eqb (a b : Visibility) : bool :=
  match a, b with
  | Public, Public | Private, Private => true
  | _, _ => false
  end.

Inductive HttpReply :=
| FetchRejected
| NotOk (status : Z) (body : jsstring)
| OkJson (payload : Js.value)
| OkNotJson.

Record ContextBlock := {
  ctx_folderName : jsstring;
  ctx_fileName : jsstring;
  ctx_startLine : Z;
  ctx_endLine : Z;
  ctx_content : jsstring
}.

(** The body posted to the responses endpoint: the model, the system
    instruction, the context blocks rendered into the second system message
    (grounded answers only) and the user's question.  The requested output
    format is the constant [JSON_SCHEMA_FORMAT]. *)
Record ResponsesRequest := {
  req_model : jsstring;
  req_instruction : string;
  req_context : option (list ContextBlock);
  req_question : jsstring
}.

Record FileRecord := {
  file_id : jsstring;
  file_folder_id : jsstring;
  file_owner_id : jsstring;
  file_visibility : Visibility;
  file_name : jsstring;
  file_r2_key : jsstring;
  file_ready : bool
}.

Record FolderRecord := {
  folder_id : jsstring;
  folder_name : jsstring
}.

Record FileWithFolder := {
  fw_file : FileRecord;
  fw_folder_name : jsstring
}.

Record ChunkRecord := {
  chunk_id : jsstring;
  chunk_file_id : jsstring;
  chunk_folder_id : jsstring;
  chunk_owner_id : jsstring;
  chunk_visibility : Visibility;
  chunk_index : Z;
  chunk_start_line : Z;
  chunk_end_line : Z;
  chunk_content : jsstring
}.

Record ChunkWithContext := {
  cw_chunk : ChunkRecord;
  cw_file_name : jsstring;
  cw_folder_name : jsstring
}.

Record MessageRecord := {
  msg_id : jsstring;
  msg_user_id : jsstring;
  msg_question : jsstring;
  msg_answer : jsstring;
  msg_citations : jsstring
}.

(** The worker's bindings ([MarbleBindings]) that are plain values, and the
    platform functions the code calls: [JSON.parse] ([None] when it throws),
    [JSON.stringify], [fetch] against the two provider endpoints,
    [crypto.randomUUID] (the n-th identifier drawn), and the vector index's
    similarity score and its check of a vector's shape. *)
Record Env := {
  OPENAI_API_KEY : option jsstring;
  OPENAI_MODEL : option jsstring;
  OPENAI_EMBEDDING_MODEL : option jsstring;
  VECTOR_TOP_K : option jsstring;
  CHUNK_SIZE : option jsstring;
  CHUNK_OVERLAP : option jsstring;
  JSON_parse : jsstring -> option Js.value;
  JSON_stringify : Js.value -> jsstring;
  fetch_embeddings : jsstring -> list jsstring -> HttpReply;
  fetch_responses : ResponsesRequest -> HttpReply;
  randomUUID : nat -> jsstring;
  similarity : Js.value -> Js.value -> Q;
  index_accepts : Js.value -> bool
}.

(** [a ?? b] on an optional binding or field. *)
Definition orElse {A} (a : option A) (b : A) : A :=
  match a with Some x => x | None => b end.

Definition orElseOpt {A} (a b : option A) : option A :=
  match a with Some _ => a | None => b end.

(** [!s] for an optional string: [undefined] and [''] are falsy. *)
Definition falsy (s : option jsstring) : bool :=
  match s with None | Some [] => true | Some _ => false end.

(** [Array.prototype.sort((a, b) => b.score - a.score)]: a stable sort,
    highest score first. *)
Section SortDesc.
Context {A : Type} (score : A -> Q).

Fixpoint insert_desc (x : A) (l : list A) : list A :=
  match l with
  | [] => [x]
  | y :: l' =>
      if Qle_bool (score y) (score x) then x :: y :: l'
      else y :: insert_desc x l'
  end.

Fixpoint sort_desc (l : list A) : list A :=
  match l with
  | [] => []
  | x :: l' => insert_desc x (sort_desc l')
  end.

(** [a] may stand before [b] in a list sorted highest score first. *)
Definition descending (a b : A) : Prop := (score b <= score a)%Q.
End SortDesc.

(** [Array.prototype.slice(0, k)] for a count [k >= 0]. *)
Definition take {A} (k : Z) (l : list A) : list A := slice l 0 k.

(** The Numbers [Number.parseInt] can return: [NaN], an infinity, or a
    double whose value is an integer. *)
Inductive Number :=
| NaN
| Infinity (negative : bool)
| Finite (z : Z).

(** The double nearest to the integer [z], exponent unbounded: integers of
    up to 53 significant bits are doubles; a longer one is rounded to 53
    significant bits, a tie going to the even mantissa. *)
Definition roundToDouble (z : Z) : Z :=
  let a := Z.abs z in
  let bits := Z.log2 a + 1 in
  if bits <=? 53 then z
  else
    let shift := bits - 53 in
    let mantissa := Z.shiftr a shift in
    let rest := a - Z.shiftl mantissa shift in
    let half := Z.shiftl 1 (shift - 1) in
    let mantissa' :=
      if (half <? rest) || ((rest =? half) && Z.odd mantissa) then mantissa + 1
      else mantissa in
    Z.sgn z * Z.shiftl mantissa' shift.

(** The Number value of the integer [z]: the nearest double, an infinity
    once that reaches 2^1024. *)
Definition toNumber (z : Z) : Number :=
  let d := roundToDouble z in
  if Z.abs d <? 2 ^ 1024 then Finite d else Infinity (d <? 0).

(** The value of a decimal digit. *)
Definition digit_of (c : char) : option Z :=
  if ((48 <=? c) && (c <=? 57))%N then Some (Z.of_N c - 48) else None.

(** The integer written by the digits read so far, [acc], and the leading
    digits of [s]; [None] when there is no digit. *)
Fixpoint parse_digits (acc : option Z) (s : jsstring) : option Z :=
  match s with
  | [] => acc
  | c :: s' =>
      match digit_of c with
      | Some d => parse_digits (Some (10 * orElse acc 0 + d)) s'
      | None => acc
      end
  end.

Definition numberOf (digits : option Z) (negative : bool) : Number :=
  match digits with
  | None => NaN
  | Some n => toNumber (if negative then - n else n)
  end.

(** [Number.parseInt(s, 10)]: leading white space, an optional sign, then
    decimal digits, read as the nearest double (as the worker's runtime
    does, whatever the number of digits); no digit gives [NaN]. *)
Definition parseInt10 (s : jsstring) : Number :=
  match trimStart s with
  | 45%N :: digits => numberOf (parse_digits None digits) true
  | 43%N :: digits => numberOf (parse_digits None digits) false
  | digits => numberOf (parse_digits None digits) false
  end.

(** [Number.isFinite]. *)
Definition isFinite (n : Number) : bool :=
  match n with Finite _ => true | _ => false end.

(** The value of a finite Number. *)
Definition valueOf (n : Number) : Z :=
  match n with Finite z => z | _ => 0 end.

(** ** The vector store adapter ([api/src/lib/vectorize.ts]) *)

Module Vectorize.
Import Js.

Record VectorMetadata := {
  chunkId : jsstring;
  fileId : jsstring;
  folderId : jsstring;
  folderName : jsstring;
  fileName : jsstring;
  startLine : Z;
  endLine : Z;
  visibility : Visibility;
  ownerId : jsstring
}.

(** [VectorMatch extends VectorMetadata] with a [score]. *)
Record VectorMatch := {
  metadata : VectorMetadata;
  score : Q
}.

(** Metadata as the index holds and returns it ([Partial<VectorMetadata>]):
    any field may be missing. *)
Record StoredMetadata := {
  s_chunkId : option jsstring;
  s_fileId : option jsstring;
  s_folderId : option jsstring;
  s_folderName : option jsstring;
  s_fileName : option jsstring;
  s_startLine : option Z;
  s_endLine : option Z;
  s_visibility : option Visibility;
  s_ownerId : option jsstring
}.

Definition stored_of (m : VectorMetadata) : StoredMetadata :=
  {| s_chunkId := Some (chunkId m); s_fileId := Some (fileId m);
     s_folderId := Some (folderId m); s_folderName := Some (folderName m);
     s_fileName := Some (fileName m); s_startLine := Some (startLine m);
     s_endLine := Some (endLine m); s_visibility := Some (visibility m);
     s_ownerId := Some (ownerId m) |}.

(** One vector of an upsert: [{ id, values, metadata }]. *)
Record VectorRecord := {
  vec_id : jsstring;
  vec_values : value;
  vec_metadata : option StoredMetadata
}.

(** One entry of a query response's [matches], as [buildMatch] reads it. *)
Record RawMatch := {
  raw_id : option jsstring;
  raw_chunkId : option jsstring;
  raw_score : option Q;
  raw_metadata : option StoredMetadata
}.

(** The two generations of the index binding.  Generation A keeps every
    vector under the namespace it was upserted with; generation B keeps one
    global set and may or may not offer [remove] and [deleteByIds]. *)
Inductive Binding :=
| NamespacedIndex (entries : list (jsstring * VectorRecord))
| GlobalIndex (has_remove has_deleteByIds : bool) (entries : list VectorRecord).

Record Capabilities := {
  cap_remove : bool;
  cap_describe : bool;
  cap_insert : bool;
  cap_upsert_length : nat;
  cap_deleteByIds : bool
}.

Definition capabilities (binding : Binding) : Capabilities :=
  match binding with
  | NamespacedIndex _ =>
      {| cap_remove := false; cap_describe := false; cap_insert := false;
         cap_upsert_length := 2; cap_deleteByIds := false |}
  | GlobalIndex r d _ =>
      {| cap_remove := r; cap_describe := true; cap_insert := true;
         cap_upsert_length := 1; cap_deleteByIds := d |}
  end.

Definition partitionForVisibility (visibility : Visibility) (ownerId : jsstring) : jsstring :=
  match visibility with
  | Public => str "public"
  | Private => str "user:" ++ ownerId
  end.

Definition isV2 (binding : Binding) : bool :=
  let caps := capabilities binding in
  if cap_remove caps then true
  else if cap_describe caps then true
  else if cap_insert caps then true
  else if Nat.eqb (cap_upsert_length caps) 1 then true
  else if cap_deleteByIds caps then true
  else false.

(** *** The index

    The vector index is an external service, not code of the repository; its
    behaviour is taken from section 4.3 of the specification.  Generation A
    partitions the vectors by the namespace string passed on every call;
    generation B has one global space and selects by a metadata filter at
    query time.  A query ranks the selected vectors by similarity to the
    query vector and returns the best [topK] with their stored metadata; an
    upsert replaces the vector of the same id (in the same namespace, for
    generation A) or adds it. *)

Record MetadataFilter := {
  filter_visibility : option Visibility;
  filter_ownerId : option jsstring
}.

Definition filter_has_keys (f : MetadataFilter) : bool :=
  match filter_visibility f, filter_ownerId f with
  | None, None => false
  | _, _ => true
  end.

(** Modelled from the spec: the index's metadata filter (generation B), an
    equality test on the filtered fields of the stored metadata. *)
Definition satisfies (f : MetadataFilter) (r : VectorRecord) : bool :=
  (match filter_visibility f with
   | None => true
   | Some v =>
       match vec_metadata r with
       | Some m => match s_visibility m with Some v' => Visibility_eqb v v' | None => false end
       | None => false
       end
   end) &&
  (match filter_ownerId f with
   | None => true
   | Some o =>
       match vec_metadata r with
       | Some m => match s_ownerId m with Some o' => jsstring_eqb o o' | None => false end
       | None => false
       end
   end).

(** Modelled from the spec: the match the index returns for a stored
    vector, with its similarity to the query as score. *)
Definition answer_of (env : Env) (query : value) (r : VectorRecord) : RawMatch :=
  {| raw_id := Some (vec_id r);
     raw_chunkId := None;
     raw_score := Some (similarity env query (vec_values r));
     raw_metadata := vec_metadata r |}.

(** Modelled from the spec: the index's ranking, best [topK] by similarity. *)
Definition rank (env : Env) (query : value) (topK : Z) (candidates : list VectorRecord)
    : list RawMatch :=
  take topK
    (map (answer_of env query)
       (sort_desc (fun r => similarity env query (vec_values r)) candidates)).

Definition in_namespace (ns : jsstring) (e : jsstring * VectorRecord) : bool :=
  jsstring_eqb (fst e) ns.

(** Modelled from the spec: the index's
    [binding.query(namespace, { vector, topK, ... })] of generation A. *)
Definition index_query_namespaced (env : Env) (binding : Binding)
    (ns : jsstring) (query : value) (topK : Z) : Failure + list RawMatch :=
  match binding with
  | NamespacedIndex entries =>
      if index_accepts env query
      then inr (rank env query topK (map snd (filter (in_namespace ns) entries)))
      else inl StoreError
  | GlobalIndex _ _ _ => inl TypeError
  end.

(** Modelled from the spec: the index's
    [binding.query(vector, { topK, filter, ... })] of generation B; [None] is
    a call without [filter]. *)
Definition index_query_global (env : Env) (binding : Binding)
    (query : value) (topK : Z) (filter_ : option MetadataFilter) : Failure + list RawMatch :=
  match binding with
  | GlobalIndex _ _ entries =>
      if index_accepts env query
      then inr (rank env query topK
                  (match filter_ with
                   | Some f => filter (satisfies f) entries
                   | None => entries
                   end))
      else inl StoreError
  | NamespacedIndex _ => inl TypeError
  end.

(** Modelled from the spec: the index stores a vector, replacing the one of
    the same id in the same namespace. *)
Fixpoint put_namespaced (ns : jsstring) (r : VectorRecord)
    (entries : list (jsstring * VectorRecord)) : list (jsstring * VectorRecord) :=
  match entries with
  | [] => [(ns, r)]
  | (ns', r') :: rest =>
      if jsstring_eqb ns' ns && jsstring_eqb (vec_id r') (vec_id r)
      then (ns, r) :: rest
      else (ns', r') :: put_namespaced ns r rest
  end.

(** Modelled from the spec: the index stores a vector, replacing the one of
    the same id. *)
Fixpoint put_global (r : VectorRecord) (entries : list VectorRecord) : list VectorRecord :=
  match entries with
  | [] => [r]
  | r' :: rest =>
      if jsstring_eqb (vec_id r') (vec_id r) then r :: rest
      else r' :: put_global r rest
  end.

(** Modelled from the spec: the index's [binding.upsert(namespace, vectors)]
    of generation A, one vector. *)
Definition index_upsert_namespaced (env : Env) (binding : Binding)
    (ns : jsstring) (r : VectorRecord) : Failure + Binding :=
  match binding with
  | NamespacedIndex entries =>
      if index_accepts env (vec_values r)
      then inr (NamespacedIndex (put_namespaced ns r entries))
      else inl StoreError
  | GlobalIndex _ _ _ => inl TypeError
  end.

(** Modelled from the spec: the index's [binding.upsert(vectors)] of
    generation B, one vector. *)
Definition index_upsert_global (env : Env) (binding : Binding)
    (r : VectorRecord) : Failure + Binding :=
  match binding with
  | GlobalIndex rm del entries =>
      if index_accepts env (vec_values r)
      then inr (GlobalIndex rm del (put_global r entries))
      else inl StoreError
  | NamespacedIndex _ => inl TypeError
  end.

Definition listed (ids : list jsstring) (id : jsstring) : bool :=
  existsb (jsstring_eqb id) ids.

(** Modelled from the spec: the index's [binding.delete(namespace, ids)] of
    generation A. *)
Definition index_delete_namespaced (binding : Binding) (ns : jsstring)
    (ids : list jsstring) : Failure + Binding :=
  match binding with
  | NamespacedIndex entries =>
      inr (NamespacedIndex
             (filter (fun e => negb (in_namespace ns e && listed ids (vec_id (snd e))))
                entries))
  | GlobalIndex _ _ _ => inl TypeError
  end.

(** Modelled from the spec: the index's [binding.remove(ids)] and
    [binding.deleteByIds(ids)] of generation B. *)
Definition index_delete_global (binding : Binding) (ids : list jsstring)
    : Failure + Binding :=
  match binding with
  | GlobalIndex rm del entries =>
      inr (GlobalIndex rm del (filter (fun r => negb (listed ids (vec_id r))) entries))
  | NamespacedIndex _ => inl TypeError
  end.

(** *** The adapter *)

Definition upsertChunkVector (env : Env) (binding : Binding)
    (chunkId : jsstring) (embedding : value) (metadata : VectorMetadata)
    : Failure + Binding :=
  let vector := {| vec_id := chunkId; vec_values := embedding;
                   vec_metadata := Some (stored_of metadata) |} in
  if isV2 binding then index_upsert_global env binding vector
  else
    let namespace := partitionForVisibility (visibility metadata) (ownerId metadata) in
    index_upsert_namespaced env binding namespace vector.

Definition deleteChunkVectors (binding : Binding) (chunkIds : list jsstring)
    (visibility : Visibility) (ownerId : jsstring) : Failure + Binding :=
  match chunkIds with
  | [] => inr binding
  | _ =>
      if isV2 binding then
        if cap_remove (capabilities binding) then index_delete_global binding chunkIds
        else if cap_deleteByIds (capabilities binding) then index_delete_global binding chunkIds
        else inl (Error (Text "Vectorize binding does not support delete/remove"))
      else
        let namespace := partitionForVisibility visibility ownerId in
        index_delete_namespaced binding namespace chunkIds
  end.

Record QueryOptions := {
  vector : value;
  topK : Z;
  namespace : jsstring
}.

Definition filterFromNamespace (ns : jsstring) : MetadataFilter :=
  if jsstring_eqb ns (str "public")
  then {| filter_visibility := Some Public; filter_ownerId := None |}
  else if startsWith ns (str "user:")
  then {| filter_visibility := Some Private;
          filter_ownerId := Some (slice ns (len (str "user:")) (len ns)) |}
  else {| filter_visibility := None; filter_ownerId := None |}.

(** [metadata?.field]. *)
Definition field {A} (m : option StoredMetadata) (f : StoredMetadata -> option A) : option A :=
  match m with Some m => f m | None => None end.

(** The closure [buildMatch] of [queryNamespace]; [None] is a missing
    entry of [matches] on input and [null] on output. *)
Definition buildMatch (options : QueryOptions) (raw : option RawMatch) : option VectorMatch :=
  match raw with
  | None => None
  | Some raw =>
      let meta := raw_metadata raw in
      let cid := orElseOpt (field meta s_chunkId)
                   (orElseOpt (raw_chunkId raw) (raw_id raw)) in
      if falsy cid then None
      else
        let vis :=
          orElse (field meta s_visibility)
            (if jsstring_eqb (namespace options) (str "public") then Public else Private) in
        let owner :=
          orElse (field meta s_ownerId)
            (if Visibility_eqb vis Private && startsWith (namespace options) (str "user:")
             then slice (namespace options) (len (str "user:")) (len (namespace options))
             else []) in
        Some {| metadata :=
                  {| chunkId := orElse cid [];
                     fileId := orElse (field meta s_fileId) [];
                     folderId := orElse (field meta s_folderId) [];
                     folderName := orElse (field meta s_folderName) [];
                     fileName := orElse (field meta s_fileName) [];
                     startLine := orElse (field meta s_startLine) 0;
                     endLine := orElse (field meta s_endLine) 0;
                     visibility := vis;
                     ownerId := owner |};
                score := orElse (raw_score raw) 0%Q |}
  end.

(** [(response?.matches ?? []).map(buildMatch).filter(Boolean)]. *)
Fixpoint buildMatches (options : QueryOptions) (raws : list RawMatch) : list VectorMatch :=
  match raws with
  | [] => []
  | raw :: rest =>
      match buildMatch options (Some raw) with
      | Some m => m :: buildMatches options rest
      | None => buildMatches options rest
      end
  end.

Definition queryNamespace (env : Env) (binding : Binding) (options : QueryOptions)
    : Failure + list VectorMatch :=
  if isV2 binding then
    let filter_ := filterFromNamespace (namespace options) in
    match index_query_global env binding (vector options) (topK options) (Some filter_) with
    | inl e => inl e
    | inr response =>
        let matches := buildMatches options response in
        match matches with
        | [] =>
            if filter_has_keys filter_ then
              (* retry without the metadata filter *)
              match index_query_global env binding (vector options) (topK options) None with
              | inl e => inl e
              | inr response' => inr (buildMatches options response')
              end
            else inr matches
        | _ :: _ => inr matches
        end
    end
  else
    match index_query_namespaced env binding (namespace options)
            (vector options) (topK options) with
    | inl e => inl e
    | inr rV1 => inr (buildMatches options rV1)
    end.

Definition publicNamespace : jsstring := str "public".

Definition privateNamespace (ownerId : jsstring) : jsstring := str "user:" ++ ownerId.

End Vectorize.

(** ** Stores and effects

    What a request can change: the rows of the relational store, the objects
    of the blob store, the vector index, the identifiers drawn from
    [crypto.randomUUID] and the requests sent to the language model. *)

Record World := {
  files : list FileRecord;
  folders : list FolderRecord;
  chunks : list ChunkRecord;
  messages : list MessageRecord;
  objects : list (jsstring * jsstring);
  MARBLE_VECTORS : Vectorize.Binding;
  uuids_drawn : nat;
  responses_sent : list ResponsesRequest
}.

Definition with_files (fs : list FileRecord) (w : World) : World :=
  {| files := fs; folders := folders w; chunks := chunks w; messages := messages w;
     objects := objects w; MARBLE_VECTORS := MARBLE_VECTORS w;
     uuids_drawn := uuids_drawn w; responses_sent := responses_sent w |}.

Definition with_chunks (cs : list ChunkRecord) (w : World) : World :=
  {| files := files w; folders := folders w; chunks := cs; messages := messages w;
     objects := objects w; MARBLE_VECTORS := MARBLE_VECTORS w;
     uuids_drawn := uuids_drawn w; responses_sent := responses_sent w |}.

Definition with_messages (ms : list MessageRecord) (w : World) : World :=
  {| files := files w; folders := folders w; chunks := chunks w; messages := ms;
     objects := objects w; MARBLE_VECTORS := MARBLE_VECTORS w;
     uuids_drawn := uuids_drawn w; responses_sent := responses_sent w |}.

Definition with_vectors (b : Vectorize.Binding) (w : World) : World :=
  {| files := files w; folders := folders w; chunks := chunks w; messages := messages w;
     objects := objects w; MARBLE_VECTORS := b;
     uuids_drawn := uuids_drawn w; responses_sent := responses_sent w |}.

Definition with_uuids_drawn (n : nat) (w : World) : World :=
  {| files := files w; folders := folders w; chunks := chunks w; messages := messages w;
     objects := objects w; MARBLE_VECTORS := MARBLE_VECTORS w;
     uuids_drawn := n; responses_sent := responses_sent w |}.

Definition with_responses_sent (rs : list ResponsesRequest) (w : World) : World :=
  {| files := files w; folders := folders w; chunks := chunks w; messages := messages w;
     objects := objects w; MARBLE_VECTORS := MARBLE_VECTORS w;
     uuids_drawn := uuids_drawn w; responses_sent := rs |}.

(** An [async] function of the worker: it reads and changes the stores and
    either returns or throws. *)
Definition M (A : Type) : Type := World -> World * (Failure + A).

Definition ret {A} (a : A) : M A := fun w => (w, inr a).

Definition throw {A} (e : Failure) : M A := fun w => (w, inl e).

Definition bind {A B} (m : M A) (k : A -> M B) : M B :=
  fun w =>
    match m w with
    | (w', inr a) => k a w'
    | (w', inl e) => (w', inl e)
    end.

(** [try { m } catch (e) { handler e }]. *)
Definition catch {A} (m : M A) (handler : Failure -> M A) : M A :=
  fun w =>
    match m w with
    | (w', inl e) => handler e w'
    | r => r
    end.

Definition lift {A} (r : Failure + A) : M A := fun w => (w, r).

Definition gets {A} (f : World -> A) : M A := fun w => (w, inr (f w)).

Definition modify (f : World -> World) : M unit := fun w => (f w, inr tt).

Declare Scope effect_scope.
Delimit Scope effect_scope with effect.
Notation "x <- m ;; k" := (bind m (fun x => k))
  (at level 61, m at next level, right associativity) : effect_scope.
Notation "m ;; k" := (bind m (fun _ => k))
  (at level 61, right associativity) : effect_scope.
Local Open Scope effect_scope.

(** [crypto.randomUUID()]. *)
Definition freshUUID (env : Env) : M jsstring :=
  fun w => (with_uuids_drawn (S (uuids_drawn w)) w, inr (randomUUID env (uuids_drawn w))).

(** ** The relational store ([api/src/lib/db.ts]) *)

Module Db.

(** Modelled from the spec: [getFileById] of [db.ts] is missing from the
    sources; the relational store's file lookup returns the file row with
    its folder's name (for denormalization), as [getFile] of [db.ts] does
    with its join. *)
Definition getFileById (fileId : jsstring) : M (option FileWithFolder) :=
  gets (fun w =>
    hd_error
      (flat_map
         (fun f =>
            if jsstring_eqb (file_id f) fileId then
              map (fun d => {| fw_file := f; fw_folder_name := folder_name d |})
                (filter (fun d => jsstring_eqb (folder_id d) (file_folder_id f)) (folders w))
            else [])
         (files w))).

Definition updateFileStatus (fileId : jsstring) (ready : bool) : M unit :=
  modify (fun w =>
    with_files
      (map (fun f =>
              if jsstring_eqb (file_id f) fileId then
                {| file_id := file_id f; file_folder_id := file_folder_id f;
                   file_owner_id := file_owner_id f; file_visibility := file_visibility f;
                   file_name := file_name f; file_r2_key := file_r2_key f;
                   file_ready := ready |}
              else f)
         (files w)) w).

(** [INSERT INTO chunks]: the primary key [id] must be new. *)
Definition insertChunk (record : ChunkRecord) : M unit :=
  fun w =>
    if existsb (fun c => jsstring_eqb (chunk_id c) (chunk_id record)) (chunks w)
    then (w, inl StoreError)
    else (with_chunks (chunks w ++ [record]) w, inr tt).

Definition deleteChunksForFile (fileId : jsstring) : M (list jsstring) :=
  fun w =>
    let chunkIds :=
      map chunk_id (filter (fun c => jsstring_eqb (chunk_file_id c) fileId) (chunks w)) in
    (with_chunks (filter (fun c => negb (jsstring_eqb (chunk_file_id c) fileId)) (chunks w)) w,
     inr chunkIds).

Definition getChunksByIds (chunkIds : list jsstring) : M (list ChunkWithContext) :=
  match chunkIds with
  | [] => ret []
  | _ =>
      gets (fun w =>
        flat_map
          (fun c =>
             if existsb (jsstring_eqb (chunk_id c)) chunkIds then
               flat_map
                 (fun f =>
                    if jsstring_eqb (file_id f) (chunk_file_id c) then
                      map (fun d => {| cw_chunk := c; cw_file_name := file_name f;
                                       cw_folder_name := folder_name d |})
                        (filter (fun d => jsstring_eqb (folder_id d) (chunk_folder_id c))
                           (folders w))
                    else [])
                 (files w)
             else [])
          (chunks w))
  end.

(** [INSERT INTO messages]: the primary key [id] must be new. *)
Definition recordChat (data : MessageRecord) : M unit :=
  fun w =>
    if existsb (fun m => jsstring_eqb (msg_id m) (msg_id data)) (messages w)
    then (w, inl StoreError)
    else (with_messages (messages w ++ [data]) w, inr tt).

(** [env.MARBLE_FILES.get(key)] followed by [object.text()]. *)
Definition getObjectText (key : jsstring) : M (option jsstring) :=
  gets (fun w =>
    option_map snd (find (fun o => jsstring_eqb (fst o) key) (objects w))).

End Db.

(** ** The provider clients ([api/src/lib/openai.ts]) *)

Module OpenAI.
Import Js.

Record ChatResult := {
  answer : jsstring;
  citations : list value
}.

(** [array.map(f)] for an [f] that may throw a [TypeError] ([None]). *)
Fixpoint map_all {A B} (f : A -> option B) (l : list A) : option (list B) :=
  match l with
  | [] => Some []
  | x :: l' =>
      match f x with
      | None => None
      | Some y => option_map (cons y) (map_all f l')
      end
  end.

(** [item.embedding]: a [TypeError] on [null] and [undefined]. *)
Definition embedding_of (item : value) : option value :=
  if nullish item then None else Some (prop item "embedding").

(** [createEmbeddings(env, input)]: the array [payload.data.map(item =>
    item.embedding)]. *)
Definition createEmbeddings (env : Env) (input : list jsstring) : Failure + value :=
  if falsy (OPENAI_API_KEY env)
  then inl (OpenAIError (Text "Missing OPENAI_API_KEY binding"))
  else
    let model := orElse (OPENAI_EMBEDDING_MODEL env) (str "text-embedding-3-small") in
    match fetch_embeddings env model input with
    | FetchRejected => inl TypeError
    | NotOk status body => inl (OpenAIError (EmbeddingRequestFailed status body))
    | OkNotJson => inl SyntaxError
    | OkJson payload =>
        if nullish payload then inl TypeError
        else
          match prop payload "data" with
          | VArr data =>
              match map_all embedding_of data with
              | Some embeddings => inr (VArr embeddings)
              | None => inl TypeError
              end
          | _ => inl TypeError
          end
    end.

Definition citation_ok (item : value) : bool :=
  truthy item && typeofObject item &&
  isString (prop item "folder") && isString (prop item "file") &&
  isArray (prop item "lines").

(** [normalizeChatResult(candidate)]: [None] when reading [candidate.answer]
    throws ([candidate] is [null] or [undefined]), [Some None] for [null]. *)
Definition normalizeChatResult (candidate : value) : option (option ChatResult) :=
  if nullish candidate then None
  else
    let answer := match prop candidate "answer" with VStr s => Some s | _ => None end in
    let citationsRaw := prop candidate "citations" in
    if falsy answer && negb (isArray citationsRaw) then Some None
    else
      let citations :=
        if isArray citationsRaw then filter citation_ok (items citationsRaw) else [] in
      Some (Some {| answer := orElse answer []; citations := citations |}).

Fixpoint extract_from_objects (objects : list value) : option ChatResult :=
  match objects with
  | [] => None
  | candidate :: rest =>
      if truthy candidate && typeofObject candidate then
        match normalizeChatResult candidate with
        | Some (Some result) => Some result
        | _ => extract_from_objects rest
        end
      else extract_from_objects rest
  end.

Fixpoint extract_from_strings (env : Env) (strings : list jsstring) : option ChatResult :=
  match strings with
  | [] => None
  | text :: rest =>
      match
        match JSON_parse env text with
        | Some parsed => normalizeChatResult parsed
        | None => None
        end
      with
      | Some (Some result) => Some result
      | Some None => extract_from_strings env rest
      | None =>
          (* the catch block *)
          match trim text with
          | [] => extract_from_strings env rest
          | _ => Some {| answer := text; citations := [] |}
          end
      end
  end.

Definition extractChatResultFromCandidates (env : Env)
    (objects : list value) (strings : list jsstring) : option ChatResult :=
  match extract_from_objects objects with
  | Some result => Some result
  | None => extract_from_strings env strings
  end.

(** [block.output_json ?? block.json ?? block.data ?? block.value ??
    block.response_json ?? block.parsed]. *)
Definition jsonLike (block : value) : value :=
  coalesce (prop block "output_json")
    (coalesce (prop block "json")
       (coalesce (prop block "data")
          (coalesce (prop block "value")
             (coalesce (prop block "response_json") (prop block "parsed"))))).

Definition isBlock (block : value) : bool := truthy block && typeofObject block.

Definition string_eqb_value (v : value) (s : string) : bool :=
  match v with VStr t => jsstring_eqb t (str s) | _ => false end.

(** What one content block adds to [candidates]; [typed] tells whether the
    [block.type] clause applies (blocks of [payload.output] only). *)
Definition block_candidates (typed : bool) (block : value) : list value :=
  if isBlock block then
    (if truthy (jsonLike block) then [jsonLike block] else []) ++
    (if typed && (string_eqb_value (prop block "type") "output_json_schema"
                  || string_eqb_value (prop block "type") "output_json")
     then
       let inner := coalesce (coalesce (prop block "content") (prop block "schema")) VNull in
       if truthy inner then [inner] else []
     else [])
  else [].

(** What one content block adds to [stringCandidates]. *)
Definition block_strings (block : value) : list jsstring :=
  if isBlock block then
    match prop block "text" with VStr s => [s] | _ => [] end
  else [].

(** The blocks of one entry of [payload.output]; reading [content] of a
    [null] entry throws. *)
Definition entry_blocks (entry : value) : option (list value) :=
  if nullish entry then None
  else Some (if isArray (prop entry "content") then items (prop entry "content") else []).

(** [output_text]: a string, or the strings of an array. *)
Definition output_text_strings (v : value) : list jsstring :=
  match v with
  | VStr s => [s]
  | VArr l => flat_map (fun item => match item with VStr s => [s] | _ => [] end) l
  | _ => []
  end.

(** The part of [callResponses] after [response.json()]. *)
Definition parseResponsesPayload (env : Env) (payload : value) : Failure + ChatResult :=
  if nullish payload then inl TypeError
  else
    let output := if isArray (prop payload "output") then items (prop payload "output") else [] in
    match map_all entry_blocks output with
    | None => inl TypeError
    | Some blockLists =>
        let outputBlocks := concat blockLists in
        let responseMessage := coalesce (prop payload "response") (prop payload "message") in
        let responseBlocks :=
          if isArray (prop responseMessage "content")
          then items (prop responseMessage "content") else [] in
        let candidates :=
          flat_map (block_candidates true) outputBlocks ++
          flat_map (block_candidates false) responseBlocks in
        let stringCandidates :=
          flat_map block_strings outputBlocks ++
          flat_map block_strings responseBlocks ++
          output_text_strings (prop responseMessage "output_text") ++
          output_text_strings (prop payload "output_text") in
        match extractChatResultFromCandidates env candidates stringCandidates with
        | None =>
            inr {| answer := str "I had trouble parsing the model response.";
                   citations := [] |}
        | Some parsedResult => inr parsedResult
        end
    end.

Definition callResponses (env : Env) (body : ResponsesRequest) : M ChatResult :=
  if falsy (OPENAI_API_KEY env)
  then throw (OpenAIError (Text "Missing OPENAI_API_KEY binding"))
  else
    modify (fun w => with_responses_sent (responses_sent w ++ [body]) w) ;;
    match fetch_responses env body with
    | FetchRejected => throw TypeError
    | NotOk status error => throw (OpenAIError (ChatRequestFailed status error))
    | OkNotJson => throw SyntaxError
    | OkJson payload => lift (parseResponsesPayload env payload)
    end.

Definition NOTHING_RELEVANT : jsstring :=
  str "I couldn't find anything relevant in your Marble files.".

Definition generateStructuredAnswer (env : Env) (question : jsstring)
    (contexts : list ContextBlock) : M ChatResult :=
  match contexts with
  | [] => ret {| answer := NOTHING_RELEVANT; citations := [] |}
  | _ =>
      let model := orElse (OPENAI_MODEL env) (str "gpt-4.1-mini") in
      callResponses env
        {| req_model := model;
           req_instruction := "You are Marble, an assistant that answers questions about uploaded .txt files. Do not fabricate information. When citing, ensure the citations array includes the exact folder, file, and inclusive line range used.";
           req_context := Some contexts;
           req_question := question |}
  end.

Definition generateGeneralAnswer (env : Env) (question : jsstring) : M ChatResult :=
  let model := orElse (OPENAI_MODEL env) (str "gpt-4.1-mini") in
  callResponses env
    {| req_model := model;
       req_instruction := "You are Marble, a friendly assistant. Answer conversationally. If you are not explicitly given lookup context, respond from general knowledge and set the citations array to empty.";
       req_context := None;
       req_question := question |}.

End OpenAI.

(** ** The ingestion orchestrator ([api/src/lib/ingest.ts]) *)

Module Ingest.
Import Js.

Definition parseNumber (value : option jsstring) (fallback : Z) : Z :=
  let parsed := if falsy value then NaN else parseInt10 (orElse value []) in
  if isFinite parsed then valueOf parsed else fallback.

Definition normalizeEmbeddings (maybe : value) : Failure + list value :=
  if truthy maybe && isArray (prop maybe "data") then
    match OpenAI.map_all OpenAI.embedding_of (items (prop maybe "data")) with
    | Some embeddings => inr embeddings
    | None => inl TypeError
    end
  else if isArray maybe && isArray (first maybe) then inr (items maybe)
  else if isArray maybe && isNumber (first maybe) then inr [maybe]
  else if truthy maybe && isArray (prop maybe "vectors") then inr (items (prop maybe "vectors"))
  else inl (Error (Text "Embedding response not in a known format")).

Local Open Scope effect_scope.

Definition upsertChunkVector (env : Env) (chunkId : jsstring) (embedding : value)
    (metadata : Vectorize.VectorMetadata) : M unit :=
  fun w =>
    match Vectorize.upsertChunkVector env (MARBLE_VECTORS w) chunkId embedding metadata with
    | inl e => (w, inl e)
    | inr binding => (with_vectors binding w, inr tt)
    end.

Definition deleteChunkVectors (chunkIds : list jsstring) (visibility : Visibility)
    (ownerId : jsstring) : M unit :=
  fun w =>
    match Vectorize.deleteChunkVectors (MARBLE_VECTORS w) chunkIds visibility ownerId with
    | inl e => (w, inl e)
    | inr binding => (with_vectors binding w, inr tt)
    end.

(** [embeddings[index]]. *)
Definition embedding_at (embeddings : list value) (index : Z) : value :=
  nth (Z.to_nat index) embeddings VUndefined.

(** The [for (let index = 0; index < chunks.length; index += 1)] loop, from
    [index] on; [remaining] are the chunks not yet written. *)
Fixpoint insert_loop (env : Env) (file : FileWithFolder) (embeddings : list value)
    (index : Z) (remaining : list Chunk.TextChunk) (insertedChunks : Z) : M Z :=
  match remaining with
  | [] => ret insertedChunks
  | chunk :: rest =>
      chunkId <- freshUUID env ;;
      Db.insertChunk
        {| chunk_id := chunkId;
           chunk_file_id := file_id (fw_file file);
           chunk_folder_id := file_folder_id (fw_file file);
           chunk_owner_id := file_owner_id (fw_file file);
           chunk_visibility := file_visibility (fw_file file);
           chunk_index := index;
           chunk_start_line := Chunk.startLine chunk;
           chunk_end_line := Chunk.endLine chunk;
           chunk_content := Chunk.content chunk |} ;;
      upsertChunkVector env chunkId (embedding_at embeddings index)
        {| Vectorize.chunkId := chunkId;
           Vectorize.fileId := file_id (fw_file file);
           Vectorize.folderId := file_folder_id (fw_file file);
           Vectorize.folderName := fw_folder_name file;
           Vectorize.fileName := file_name (fw_file file);
           Vectorize.startLine := Chunk.startLine chunk;
           Vectorize.endLine := Chunk.endLine chunk;
           Vectorize.visibility := file_visibility (fw_file file);
           Vectorize.ownerId := file_owner_id (fw_file file) |} ;;
      insert_loop env file embeddings (index + 1) rest (insertedChunks + 1)
  end.

(** Lines 59-87: the embedding call, its normalization and the count check. *)
Definition embedChunks (env : Env) (chunks : list Chunk.TextChunk) : Failure + list value :=
  match OpenAI.createEmbeddings env (map Chunk.content chunks) with
  | inl error =>
      if isOpenAIError error then inl (HTTPException 502 (message_of error))
      else inl (HTTPException 500 (message_of error))
  | inr rawEmbeddings =>
      match normalizeEmbeddings rawEmbeddings with
      | inl e => inl (HTTPException 500 (FailedToParseEmbeddings (message_of e)))
      | inr embeddings =>
          if negb (len embeddings =? len chunks)
          then inl (HTTPException 500 (EmbeddingCountMismatch (len embeddings) (len chunks)))
          else inr embeddings
      end
  end.

(** Lines 89-154: replace the stored chunks and vectors, mark the file ready. *)
Definition replaceChunks (env : Env) (file : FileWithFolder)
    (chunks : list Chunk.TextChunk) (embeddings : list value) : M Z :=
  existing <- Db.deleteChunksForFile (file_id (fw_file file)) ;;
  match existing with
  | [] => ret tt
  | _ => deleteChunkVectors existing (file_visibility (fw_file file))
           (file_owner_id (fw_file file))
  end ;;
  insertedChunks <- insert_loop env file embeddings 0 chunks 0 ;;
  Db.updateFileStatus (file_id (fw_file file)) true ;;
  ret insertedChunks.

(** [ingestFileById(env, fileId, actingUserId)], with [fuel] iterations
    allowed to [chunkText]; [None] when [chunkText] is still running after
    them. *)
Definition ingestFileById (fuel : nat) (env : Env) (fileId actingUserId : jsstring)
    (w : World) : option (World * (Failure + Z)) :=
  match Db.getFileById fileId w with
  | (_, inl e) => Some (w, inl e)
  | (_, inr None) => Some (w, inl (HTTPException 404 (Text "File not found")))
  | (_, inr (Some file)) =>
      if negb (jsstring_eqb (file_owner_id (fw_file file)) actingUserId)
      then Some (w, inl (HTTPException 403 (Text "You can only ingest your own files")))
      else
        match Db.getObjectText (file_r2_key (fw_file file)) w with
        | (_, inl e) => Some (w, inl e)
        | (_, inr None) =>
            Some (w, inl (HTTPException 404 (Text "Uploaded object not found in R2")))
        | (_, inr (Some text)) =>
            let chunkSize := parseNumber (CHUNK_SIZE env) 1500 in
            let overlap := parseNumber (CHUNK_OVERLAP env) 200 in
            match Chunk.chunkText fuel text
                    {| Chunk.chunkSize := chunkSize; Chunk.overlap := overlap |} with
            | None => None
            | Some (inl Chunk.ChunkSizeMustBePositive) =>
                Some (w, inl (Error (Text "chunkSize must be > 0")))
            | Some (inr []) =>
                Some (w, inl (HTTPException 400 (Text "No content found to ingest")))
            | Some (inr chunks) =>
                match embedChunks env chunks with
                | inl e => Some (w, inl e)
                | inr embeddings => Some (replaceChunks env file chunks embeddings w)
                end
            end
        end
  end.

End Ingest.

(** ** The chat route ([api/src/routes/chat.ts]) *)

Module Chat.
Import Js.

Definition normalizeQuestionEmbedding (maybe : value) : Failure + value :=
  if truthy maybe && isArray (prop maybe "data")
     && truthy (prop (first (prop maybe "data")) "embedding")
  then inr (prop (first (prop maybe "data")) "embedding")
  else if isArray maybe && isArray (first maybe) then inr (first maybe)
  else if isArray maybe && isNumber (first maybe) then inr maybe
  else if truthy maybe && isArray (prop maybe "vectors")
          && isArray (first (prop maybe "vectors"))
  then inr (first (prop maybe "vectors"))
  else inl (Error (Text "Question embedding not in a known format")).

Definition parseTopK (value : option jsstring) : Z :=
  let parsed := if falsy value then NaN else parseInt10 (orElse value []) in
  if isFinite parsed && (0 <? valueOf parsed) then valueOf parsed else 8.

(** [chatInput.safeParse(body)]: an object whose [question] is a string of
    at least one character. *)
Definition chatInput (body : value) : option jsstring :=
  match body with
  | VObj _ =>
      match prop body "question" with
      | VStr (c :: s) => Some (c :: s)
      | _ => None
      end
  | _ => None
  end.

(** Case folding of the [i] flag on ASCII letters. *)
Definition fold_case (c : char) : char :=
  if ((65 <=? c) && (c <=? 90))%N then (c + 32)%N else c.

Fixpoint skipWhiteSpace (s : jsstring) : jsstring :=
  match s with
  | c :: s' => if isWhiteSpace c then skipWhiteSpace s' else s
  | [] => []
  end.

(** [rawQuestion.match(...)] against the lookup pattern: the command
    [/lookup] in any letter case at the start, any white space, then the
    captured rest of the question, which may hold no line terminator (the
    dot matches none and the dollar only the end of the question). *)
Definition lookupMatch (rawQuestion : jsstring) : option jsstring :=
  let command := str "/lookup" in
  if startsWith (map fold_case rawQuestion) command
  then
    let captured := skipWhiteSpace (skipn (length command) rawQuestion) in
    if existsb isLineTerminator captured then None else Some captured
  else None.

Record ContextSource := {
  order : Z;
  src_chunkId : jsstring;
  src_folderName : jsstring;
  src_fileName : jsstring;
  src_startLine : Z;
  src_endLine : Z;
  src_content : jsstring
}.

Record ChatResponse := {
  resp_id : jsstring;
  resp_answer : jsstring;
  resp_citations : list value;
  resp_sources : list ContextSource
}.

(** A JavaScript [Map] with string keys: [set] on a present key keeps the
    key's place. *)
Section JsMap.
Context {V : Type}.

Fixpoint map_get (k : jsstring) (m : list (jsstring * V)) : option V :=
  match m with
  | [] => None
  | (k', v) :: rest => if jsstring_eqb k' k then Some v else map_get k rest
  end.

Fixpoint map_set (k : jsstring) (v : V) (m : list (jsstring * V)) : list (jsstring * V) :=
  match m with
  | [] => [(k, v)]
  | (k', v') :: rest =>
      if jsstring_eqb k' k then (k, v) :: rest else (k', v') :: map_set k v rest
  end.
End JsMap.

Record MergedEntry := {
  entry_score : Q;
  entry_match : Vectorize.VectorMatch
}.

Definition chunkIdOf (e : MergedEntry) : jsstring :=
  Vectorize.chunkId (Vectorize.metadata (entry_match e)).

(** The body of [results.flat().forEach(...)]. *)
Definition merge_step (merged : list (jsstring * MergedEntry)) (m : Vectorize.VectorMatch)
    : list (jsstring * MergedEntry) :=
  let key := Vectorize.chunkId (Vectorize.metadata m) in
  let entry := {| entry_score := Vectorize.score m; entry_match := m |} in
  match map_get key merged with
  | None => map_set key entry merged
  | Some prev =>
      if negb (Qle_bool (Vectorize.score m) (entry_score prev))
      then map_set key entry merged
      else merged
  end.

Definition mergeByBestScore (results : list (list Vectorize.VectorMatch))
    : list (jsstring * MergedEntry) :=
  fold_left merge_step (concat results) [].

(** [Array.from(merged.values()).sort((a, b) => b.score - a.score)
      .slice(0, topK)]. *)
Definition topMatches (results : list (list Vectorize.VectorMatch)) (topK : Z)
    : list MergedEntry :=
  take topK (sort_desc entry_score (map snd (mergeByBestScore results))).

(** One namespace query of [Promise.all]: an error counts as no match. *)
Definition queryOrEmpty (env : Env) (binding : Vectorize.Binding)
    (namespace embedding : _) (topK : Z) : list Vectorize.VectorMatch :=
  match Vectorize.queryNamespace env binding
          {| Vectorize.namespace := namespace; Vectorize.vector := embedding;
             Vectorize.topK := topK |} with
  | inl _ => []
  | inr matches => matches
  end.

(** [topMatches.map((e, index) => ...).filter(Boolean)], from [index] on. *)
Fixpoint contexts_from (byId : list (jsstring * ChunkWithContext)) (index : Z)
    (entries : list MergedEntry) : list ContextSource :=
  match entries with
  | [] => []
  | e :: rest =>
      match map_get (chunkIdOf e) byId with
      | None => contexts_from byId (index + 1) rest
      | Some ch =>
          {| order := index;
             src_chunkId := chunk_id (cw_chunk ch);
             src_folderName := cw_folder_name ch;
             src_fileName := cw_file_name ch;
             src_startLine := chunk_start_line (cw_chunk ch);
             src_endLine := chunk_end_line (cw_chunk ch);
             src_content := chunk_content (cw_chunk ch) |}
          :: contexts_from byId (index + 1) rest
      end
  end.

Definition block_of (cxt : ContextSource) : ContextBlock :=
  {| ctx_folderName := src_folderName cxt; ctx_fileName := src_fileName cxt;
     ctx_startLine := src_startLine cxt; ctx_endLine := src_endLine cxt;
     ctx_content := src_content cxt |}.

Local Open Scope effect_scope.

Definition nothingRelevant (env : Env) : M ChatResponse :=
  chatId <- freshUUID env ;;
  ret {| resp_id := chatId; resp_answer := OpenAI.NOTHING_RELEVANT;
         resp_citations := []; resp_sources := [] |}.

(** The branch [if (!isLookup)] of [handleChat]. *)
Definition answerFreeform (env : Env) (user_id rawQuestion : jsstring) : M ChatResponse :=
  chatId <- freshUUID env ;;
  structured <- OpenAI.generateGeneralAnswer env rawQuestion ;;
  Db.recordChat
    {| msg_id := chatId; msg_user_id := user_id; msg_question := rawQuestion;
       msg_answer := OpenAI.answer structured;
       msg_citations := JSON_stringify env (VArr (OpenAI.citations structured)) |} ;;
  ret {| resp_id := chatId; resp_answer := OpenAI.answer structured;
         resp_citations := OpenAI.citations structured; resp_sources := [] |}.

(** The matches ranked for [lookupQuery]: steps 1 to 3 of the lookup. *)
Definition retrieve (env : Env) (user_id lookupQuery : jsstring) : M (list MergedEntry) :=
  embedding <-
    lift (match
            match OpenAI.createEmbeddings env [lookupQuery] with
            | inl e => inl e
            | inr raw => normalizeQuestionEmbedding raw
            end
          with
          | inl e => inl (HTTPException 500 (FailedToEmbedLookup (message_of e)))
          | inr embedding => inr embedding
          end) ;;
  let topK := parseTopK (VECTOR_TOP_K env) in
  binding <- gets MARBLE_VECTORS ;;
  let results :=
    [ queryOrEmpty env binding Vectorize.publicNamespace embedding topK;
      queryOrEmpty env binding (Vectorize.privateNamespace user_id) embedding topK ] in
  ret (topMatches results topK).

(** The contexts resolved for the ranked matches: step 4 of the lookup. *)
Definition resolveContexts (matches : list MergedEntry) : M (list ContextSource) :=
  chunks <- Db.getChunksByIds (map chunkIdOf matches) ;;
  let byId := fold_left (fun m ch => map_set (chunk_id (cw_chunk ch)) ch m) chunks [] in
  ret (contexts_from byId 0 matches).

(** The lookup branch of [handleChat], from [lookupQuery] on. *)
Definition answerLookup (env : Env) (user_id rawQuestion lookupQuery : jsstring)
    : M ChatResponse :=
  matches <- retrieve env user_id lookupQuery ;;
  match map chunkIdOf matches with
  | [] => nothingRelevant env
  | _ =>
      contexts <- resolveContexts matches ;;
      match contexts with
      | [] => nothingRelevant env
      | _ =>
          structured <- OpenAI.generateStructuredAnswer env lookupQuery (map block_of contexts) ;;
          chatId <- freshUUID env ;;
          Db.recordChat
            {| msg_id := chatId; msg_user_id := user_id; msg_question := rawQuestion;
               msg_answer := OpenAI.answer structured;
               msg_citations := JSON_stringify env (VArr (OpenAI.citations structured)) |} ;;
          ret {| resp_id := chatId; resp_answer := OpenAI.answer structured;
                 resp_citations := OpenAI.citations structured;
                 resp_sources := contexts |}
      end
  end.

(** [handleChat(c)] for the authenticated user [user_id] and the request
    body [requestBody] ([None] when the body is not JSON). *)
Definition handleChat (env : Env) (user_id : jsstring) (requestBody : option value)
    : M ChatResponse :=
  match requestBody with
  | None => throw SyntaxError
  | Some body =>
      match chatInput body with
      | None => throw (HTTPException 400 SchemaMessage)
      | Some question =>
          match trim question with
          | [] => throw (HTTPException 400 (Text "Question cannot be empty"))
          | rawQuestion =>
              match lookupMatch rawQuestion with
              | None => answerFreeform env user_id rawQuestion
              | Some captured =>
                  match trim captured with
                  | [] => throw (HTTPException 400 (Text "Lookup query cannot be empty"))
                  | lookupQuery => answerLookup env user_id rawQuestion lookupQuery
                  end
              end
          end
      end
  end.

End Chat.

(** ** Notions and examples used to state the properties *)

Module Examples.
Import Js.

(** The chunk ids present in a list of matches, each once. *)
Definition distinct_ids (matches : list Vectorize.VectorMatch) : list jsstring :=
  nodup jsstring_eq_dec (map (fun m => Vectorize.chunkId (Vectorize.metadata m)) matches).

(** A match for chunk [id] with the given score, as a namespace query
    returns it. *)
Definition example_match (id : string) (s : Q) : Vectorize.VectorMatch :=
  {| Vectorize.metadata :=
       {| Vectorize.chunkId := str id; Vectorize.fileId := str "file-1";
          Vectorize.folderId := str "public-root"; Vectorize.folderName := str "Org Shared";
          Vectorize.fileName := str "handbook.txt"; Vectorize.startLine := 1;
          Vectorize.endLine := 4; Vectorize.visibility := Public;
          Vectorize.ownerId := str "user-1" |};
     Vectorize.score := s |}.

Definition idOf (m : Vectorize.VectorMatch) : jsstring :=
  Vectorize.chunkId (Vectorize.metadata m).

(** What holds of the [Map] once the matches [seen] went through the
    [forEach]. *)
Record merged_ok (seen : list Vectorize.VectorMatch) (acc : list (jsstring * Chat.MergedEntry))
  : Prop := {
  keys_once : NoDup (map fst acc);
  entries_seen : forall k e, In (k, e) acc ->
      k = Chat.chunkIdOf e /\ In (Chat.entry_match e) seen /\
      Chat.entry_score e = Vectorize.score (Chat.entry_match e);
  best_kept : forall m, In m seen ->
      exists e, In (idOf m, e) acc /\ (Vectorize.score m <= Chat.entry_score e)%Q
}.

(** [s] between double quotes. *)
Definition quoted (s : string) : jsstring := [34%N] ++ str s ++ [34%N].

(** A citation as the model words it. *)
Definition example_citation : value :=
  VObj [(str "folder", VStr (str "Org Shared"));
        (str "file", VStr (str "handbook.txt"));
        (str "lines", VArr [VNum 1; VNum 4])].

(** A model answer that cites a file: the parsed value and its JSON text. *)
Definition citing_answer : value :=
  VObj [(str "answer", VStr (str "Hello! Marble lets the org chat with shared text files."));
        (str "citations", VArr [example_citation])].

Definition citing_text : jsstring :=
  str "{" ++ quoted "answer" ++ str ":"
    ++ quoted "Hello! Marble lets the org chat with shared text files." ++ str ","
    ++ quoted "citations" ++ str ":[{" ++ quoted "folder" ++ str ":" ++ quoted "Org Shared"
    ++ str "," ++ quoted "file" ++ str ":" ++ quoted "handbook.txt" ++ str ","
    ++ quoted "lines" ++ str ":[1,4]}]}".

(** The JSON text of the citation list of that answer. *)
Definition citations_text : jsstring :=
  str "[{" ++ quoted "folder" ++ str ":" ++ quoted "Org Shared"
    ++ str "," ++ quoted "file" ++ str ":" ++ quoted "handbook.txt" ++ str ","
    ++ quoted "lines" ++ str ":[1,4]}]".

(** A runtime for worked examples: the providers answer with the given
    replies, every vector is as similar as any other, identifiers are
    ["1"], ["11"], ["111"], ...; [JSON.parse] reads the one JSON text of the
    examples, [citing_text], and [JSON.stringify] writes the two citation
    lists of the examples, the empty one and that of [citing_answer]. *)
Definition test_env (embeddings responses : HttpReply) : Env :=
  {| OPENAI_API_KEY := Some (str "test-key");
     OPENAI_MODEL := Some (str "gpt-4.1-mini");
     OPENAI_EMBEDDING_MODEL := Some (str "text-embedding-3-small");
     VECTOR_TOP_K := Some (str "8");
     CHUNK_SIZE := Some (str "1200");
     CHUNK_OVERLAP := Some (str "200");
     JSON_parse := fun s => if jsstring_eqb s citing_text then Some citing_answer else None;
     JSON_stringify :=
       fun v => match v with
                | VArr [] => str "[]"
                | _ => citations_text
                end;
     fetch_embeddings := fun _ _ => embeddings;
     fetch_responses := fun _ => responses;
     randomUUID := fun n => repeat 49%N (S n);
     similarity := fun _ _ => 1%Q;
     index_accepts := fun _ => true |}.

Definition alice : jsstring := str "alice".
Definition bob : jsstring := str "bob".

(** The metadata of a chunk of a private file of [owner]. *)
Definition private_metadata (id : string) (owner : jsstring) : Vectorize.VectorMetadata :=
  {| Vectorize.chunkId := str id; Vectorize.fileId := str "file-1";
     Vectorize.folderId := str "private-root"; Vectorize.folderName := str "My Space";
     Vectorize.fileName := str "notes.txt"; Vectorize.startLine := 1;
     Vectorize.endLine := 3; Vectorize.visibility := Private;
     Vectorize.ownerId := owner |}.

Definition unit_vector : value := VArr [VNum 1; VNum 0; VNum 0].

(** A query against [owner]'s private namespace. *)
Definition private_query (owner : jsstring) (query : value) (topK : Z)
    : Vectorize.QueryOptions :=
  {| Vectorize.vector := query; Vectorize.topK := topK;
     Vectorize.namespace := Vectorize.privateNamespace owner |}.

(** The four provider shapes, as the specification words them: an object
    with a [data] list of objects carrying an [embedding] field, a list of
    numeric lists, a flat numeric list, a wrapper object with a [vectors]
    field. *)
Definition numeric_list (v : value) : bool :=
  match v with VArr l => forallb isNumber l | _ => false end.

Definition has_field (k : string) (v : value) : bool :=
  match v with
  | VObj fields => existsb (fun f => jsstring_eqb (fst f) (str k)) fields
  | _ => false
  end.

Definition shape_data (v : value) : bool :=
  match v with
  | VObj _ =>
      match prop v "data" with
      | VArr l => forallb (has_field "embedding") l
      | _ => false
      end
  | _ => false
  end.

Definition shape_list_of_lists (v : value) : bool :=
  match v with VArr l => forallb numeric_list l | _ => false end.

Definition shape_flat_list (v : value) : bool := numeric_list v.

Definition shape_vectors (v : value) : bool := has_field "vectors" v.

Definition known_shape (v : value) : bool :=
  shape_data v || shape_list_of_lists v || shape_flat_list v || shape_vectors v.

(** What [normalizeEmbeddings] looks at: the kind of the value, of its
    [data] and [vectors] properties and of its first element. *)
Definition sniffed (v : value) : bool :=
  (truthy v && isArray (prop v "data"))
  || (isArray v && (isArray (first v) || isNumber (first v)))
  || (truthy v && isArray (prop v "vectors")).

Definition UNKNOWN_FORMAT : Failure :=
  Error (Text "Embedding response not in a known format").

(** What [normalizeQuestionEmbedding] looks at: as [sniffed], and the first
    item of [data] and of [vectors]. *)
Definition sniffed_question (v : value) : bool :=
  (truthy v && isArray (prop v "data")
   && truthy (prop (first (prop v "data")) "embedding"))
  || (isArray v && (isArray (first v) || isNumber (first v)))
  || (truthy v && isArray (prop v "vectors") && isArray (first (prop v "vectors"))).

Definition UNKNOWN_QUESTION_FORMAT : Failure :=
  Error (Text "Question embedding not in a known format").

(** The embedding provider answers with the vectors [vectors], one
    [{ embedding }] item each, in its [data] list. *)
Definition provider_returns (payload : value) (vectors : list (list Q)) : Prop :=
  nullish payload = false /\
  exists data,
    prop payload "data" = VArr data /\
    Forall2 (fun d v => nullish d = false /\ prop d "embedding" = VArr (map VNum v))
      data vectors.

Definition vector_value (v : list Q) : value := VArr (map VNum v).

(** The outcome of the embedding stage when the provider returns a number
    of vectors different from the number of chunks. *)
Definition mismatch_failure (vectors : list (list Q)) (chunks : list Chunk.TextChunk)
    : Failure :=
  match vectors with
  | [] => HTTPException 500 (FailedToParseEmbeddings (message_of UNKNOWN_FORMAT))
  | _ => HTTPException 500 (EmbeddingCountMismatch (len vectors) (len chunks))
  end.

(** The reply of the responses endpoint that carries this text in an
    [output_text] block, as in the repository's chat test. *)
Definition citing_reply : HttpReply :=
  OkJson (VObj [(str "output",
                 VArr [VObj [(str "content",
                              VArr [VObj [(str "type", VStr (str "output_text"));
                                          (str "text", VStr citing_text)]])]])]).

(** The runtime of the repository's chat test: the model cites a file. *)
Definition citing_env : Env := test_env FetchRejected citing_reply.

Definition question_body (question : string) : value :=
  VObj [(str "question", VStr (str question))].

(** The fixed response of a lookup that found nothing. *)
Definition nothing_relevant_response (id : jsstring) : Chat.ChatResponse :=
  {| Chat.resp_id := id; Chat.resp_answer := OpenAI.NOTHING_RELEVANT;
     Chat.resp_citations := []; Chat.resp_sources := [] |}.

(** The request [generateGeneralAnswer] sends for [question]. *)
Definition general_request (env : Env) (question : jsstring) : ResponsesRequest :=
  {| req_model := orElse (OPENAI_MODEL env) (str "gpt-4.1-mini");
     req_instruction := "You are Marble, a friendly assistant. Answer conversationally. If you are not explicitly given lookup context, respond from general knowledge and set the citations array to empty.";
     req_context := None;
     req_question := question |}.

(** A stored chat record comes with a request to the language model. *)
Definition recorded_with_request (w w' : World) : Prop :=
  messages w' = messages w \/
  exists record request,
    messages w' = messages w ++ [record] /\
    responses_sent w' = responses_sent w ++ [request].

(** The scenario of the repository's ingest test: one private file of
    [user-1] in [private-root], its text in the blob store, nothing ingested
    yet, a generation-A index. *)
Definition example_key : jsstring := str "users/user-1/private-root/file-1-notes.txt".

Definition example_file : FileRecord :=
  {| file_id := str "file-1"; file_folder_id := str "private-root";
     file_owner_id := str "user-1"; file_visibility := Private;
     file_name := str "notes.txt"; file_r2_key := example_key; file_ready := false |}.

Definition example_world : World :=
  {| files := [example_file];
     folders := [ {| folder_id := str "private-root"; folder_name := str "My Space" |} ];
     chunks := []; messages := [];
     objects := [(example_key, ChunkSpec.example_source)];
     MARBLE_VECTORS := Vectorize.NamespacedIndex [];
     uuids_drawn := 0; responses_sent := [] |}.

(** A provider reply carrying the given embeddings. *)
Definition embeddings_reply (vectors : list (list Q)) : HttpReply :=
  OkJson (VObj [(str "object", VStr (str "list"));
                (str "data",
                 VArr (map (fun v => VObj [(str "embedding", VArr (map VNum v))]) vectors))]).

(** A runtime for lookups: one embedding for the question, the citing
    model. *)
Definition lookup_env : Env := test_env (embeddings_reply [[1; 1; 1]%Q]) citing_reply.

(** An index that still holds a public vector of a chunk whose record is
    gone from the relational store, and a private vector of [bob] next to
    one of [alice]. *)
Definition dangling_world : World :=
  with_vectors
    (Vectorize.NamespacedIndex
       [(Vectorize.publicNamespace,
         {| Vectorize.vec_id := str "chunk-9"; Vectorize.vec_values := unit_vector;
            Vectorize.vec_metadata := None |})])
    example_world.

Definition shared_index : list Vectorize.VectorRecord :=
  [ {| Vectorize.vec_id := str "c1"; Vectorize.vec_values := unit_vector;
       Vectorize.vec_metadata := Some (Vectorize.stored_of (private_metadata "c1" alice)) |};
    {| Vectorize.vec_id := str "c2"; Vectorize.vec_values := unit_vector;
       Vectorize.vec_metadata := Some (Vectorize.stored_of (private_metadata "c2" bob)) |} ].

(** The stores after the example file was ingested with one embedding. *)
Definition example_world_ingested : World :=
  Eval vm_compute in
    match Ingest.ingestFileById 28 (test_env (embeddings_reply [[1; 1; 1]%Q]) FetchRejected)
            (str "file-1") (str "user-1") example_world with
    | Some (w, _) => w
    | None => example_world
    end.

End Examples.

(** ** Further notions used to state properties of the chunker *)

Module ChunkLayout.
Import Chunk.

Definition isNewline (c : char) : bool := char_eqb c NEWLINE.

(** The 1-based line that holds the character at index [i]: one more than
    the number of newlines before it. *)
Definition lineNumber (source : jsstring) (i : Z) : Z :=
  1 + len (filter isNewline (firstn (Z.to_nat i) source)).

(** Where the [k]-th window starts when every window advances by
    [chunkSize - overlap]. *)
Definition windowStart (options : ChunkOptions) (k : Z) : Z :=
  k * (chunkSize options - overlap options).

Definition windowEnd (source : jsstring) (options : ChunkOptions) (k : Z) : Z :=
  Z.min (len source) (windowStart options k + chunkSize options).

(** The chunk of the [k]-th window. *)
Definition window (source : jsstring) (options : ChunkOptions) (k : Z) : TextChunk :=
  {| content := slice source (windowStart options k) (windowStart options k + chunkSize options);
     startLine := lineNumber source (windowStart options k);
     endLine := lineNumber source (windowEnd source options k - 1);
     index := k |}.

(** The chunks of the first [n] windows. *)
Definition windows (source : jsstring) (options : ChunkOptions) (n : nat) : list TextChunk :=
  map (fun k => window source options (Z.of_nat k)) (seq 0 n).

End ChunkLayout.

(** ** Further notions used to state properties of the vector store adapter *)

Module VectorizeSpec.
Import Vectorize.

(** Every vector the index holds. *)
Definition stored_records (binding : Binding) : list VectorRecord :=
  match binding with
  | NamespacedIndex entries => map snd entries
  | GlobalIndex _ _ entries => entries
  end.

(** The vectors a query against [ns] can reach: those stored under [ns] on
    generation A, all of them on generation B. *)
Definition reachable_records (binding : Binding) (ns : jsstring) : list VectorRecord :=
  match binding with
  | NamespacedIndex entries => map snd (filter (in_namespace ns) entries)
  | GlobalIndex _ _ entries => entries
  end.

(** The filter that selects a partition. *)
Definition partition_filter (visibility : Visibility) (ownerId : jsstring) : MetadataFilter :=
  {| filter_visibility := Some visibility;
     filter_ownerId := match visibility with Private => Some ownerId | Public => None end |}.

End VectorizeSpec.

(** ** What the ingestion loop writes for one chunk *)

Module IngestSpec.

(** The metadata of the vector written next to the chunk row [row] of
    [file]. *)
Definition metadataFor (file : FileWithFolder) (row : ChunkRecord) : Vectorize.VectorMetadata :=
  {| Vectorize.chunkId := chunk_id row;
     Vectorize.fileId := file_id (fw_file file);
     Vectorize.folderId := file_folder_id (fw_file file);
     Vectorize.folderName := fw_folder_name file;
     Vectorize.fileName := file_name (fw_file file);
     Vectorize.startLine := chunk_start_line row;
     Vectorize.endLine := chunk_end_line row;
     Vectorize.visibility := file_visibility (fw_file file);
     Vectorize.ownerId := file_owner_id (fw_file file) |}.

(** The vector written next to [row]: the embedding at the row's chunk
    index, under the row's id. *)
Definition vectorFor (embeddings : list Js.value) (file : FileWithFolder) (row : ChunkRecord)
    : Vectorize.VectorRecord :=
  {| Vectorize.vec_id := chunk_id row;
     Vectorize.vec_values := Ingest.embedding_at embeddings (chunk_index row);
     Vectorize.vec_metadata := Some (Vectorize.stored_of (metadataFor file row)) |}.

(** The rows written for the chunks [remaining], the first with the
    [drawn]-th identifier and the chunk index [index]. *)
Fixpoint rows_from (env : Env) (file : FileWithFolder) (drawn : nat) (index : Z)
    (remaining : list Chunk.TextChunk) : list ChunkRecord :=
  match remaining with
  | [] => []
  | chunk :: rest =>
      {| chunk_id := randomUUID env drawn;
         chunk_file_id := file_id (fw_file file);
         chunk_folder_id := file_folder_id (fw_file file);
         chunk_owner_id := file_owner_id (fw_file file);
         chunk_visibility := file_visibility (fw_file file);
         chunk_index := index;
         chunk_start_line := Chunk.startLine chunk;
         chunk_end_line := Chunk.endLine chunk;
         chunk_content := Chunk.content chunk |}
      :: rows_from env file (S drawn) (index + 1) rest
  end.

(** The chunk a row was written for. *)
Definition chunkOf (row : ChunkRecord) : Chunk.TextChunk :=
  {| Chunk.content := chunk_content row;
     Chunk.startLine := chunk_start_line row;
     Chunk.endLine := chunk_end_line row;
     Chunk.index := chunk_index row |}.

(** The rows of one file, in the order of the table. *)
Definition rowsOfFile (fileId : jsstring) (rows : list ChunkRecord) : list ChunkRecord :=
  filter (fun c => jsstring_eqb (chunk_file_id c) fileId) rows.

Definition rowsOfOthers (fileId : jsstring) (rows : list ChunkRecord) : list ChunkRecord :=
  filter (fun c => negb (jsstring_eqb (chunk_file_id c) fileId)) rows.

End IngestSpec.

(** ** Notions used to state properties of the chat route *)

Module ChatSpec.

(** The stores of documents are the same in [w] and [w']: the file, folder
    and chunk tables, the stored objects and the vector index. *)
Definition same_documents (w w' : World) : Prop :=
  files w' = files w /\ folders w' = folders w /\ chunks w' = chunks w /\
  objects w' = objects w /\ MARBLE_VECTORS w' = MARBLE_VECTORS w.

(** The context source [s] shows the chunk row [c] of the file [f] in the
    folder [d]. *)
Definition shows (s : Chat.ContextSource) (c : ChunkRecord) (f : FileRecord)
    (d : FolderRecord) : Prop :=
  Chat.src_chunkId s = chunk_id c /\
  Chat.src_content s = chunk_content c /\
  Chat.src_startLine s = chunk_start_line c /\
  Chat.src_endLine s = chunk_end_line c /\
  Chat.src_fileName s = file_name f /\
  Chat.src_folderName s = folder_name d /\
  file_id f = chunk_file_id c /\
  folder_id d = chunk_folder_id c.

End ChatSpec.

(** ** Object keys ([api/src/lib/storage.ts]) *)

Module Storage.

Definition DASH : char := 45%N.

(** [.replace(/\s+/g, '-')]: every maximal run of white space becomes one
    dash; [inRun] tells that the previous character was white space. *)
Fixpoint replaceWhiteSpaceRuns (inRun : bool) (s : jsstring) : jsstring :=
  match s with
  | [] => []
  | c :: s' =>
      if isWhiteSpace c then
        if inRun then replaceWhiteSpaceRuns true s'
        else DASH :: replaceWhiteSpaceRuns true s'
      else c :: replaceWhiteSpaceRuns false s'
  end.

(** The characters the second [replace] keeps: letters, digits, underscore,
    dot and dash. *)
Definition isNameChar (c : char) : bool :=
  ((97 <=? c) && (c <=? 122) || (65 <=? c) && (c <=? 90) || (48 <=? c) && (c <=? 57)
   || (c =? 95) || (c =? 46) || (c =? 45))%N.

(** [.replace(/-+/g, '-')]: every run of dashes becomes one dash. *)
Fixpoint collapseDashes (inRun : bool) (s : jsstring) : jsstring :=
  match s with
  | [] => []
  | c :: s' =>
      if char_eqb c DASH then
        if inRun then collapseDashes true s'
        else DASH :: collapseDashes true s'
      else c :: collapseDashes false s'
  end.

(** [toLowerCase] on the characters that are left: only the letters A to Z
    change. *)
Definition lowerChar (c : char) : char :=
  if ((65 <=? c) && (c <=? 90))%N then (c + 32)%N else c.

Definition toLowerCase (s : jsstring) : jsstring := map lowerChar s.

Definition sanitizeFileName (fileName : jsstring) : jsstring :=
  match trim fileName with
  | [] => str "untitled.txt"
  | trimmed =>
      let normalized :=
        collapseDashes false (filter isNameChar (replaceWhiteSpaceRuns false trimmed)) in
      match toLowerCase normalized with
      | [] => str "untitled.txt"
      | lowered => lowered
      end
  end.

(** A character of a sanitized name: a lower-case letter, a digit,
    underscore, dot or dash. *)
Definition isSafeChar (c : char) : bool :=
  ((97 <=? c) && (c <=? 122) || (48 <=? c) && (c <=? 57)
   || (c =? 95) || (c =? 46) || (c =? 45))%N.

End Storage.

(** ** Deleting a file ([api/src/routes/delete-file.ts]) *)

Definition with_objects (os : list (jsstring * jsstring)) (w : World) : World :=
  {| files := files w; folders := folders w; chunks := chunks w; messages := messages w;
     objects := os; MARBLE_VECTORS := MARBLE_VECTORS w;
     uuids_drawn := uuids_drawn w; responses_sent := responses_sent w |}.

Module DeleteFile.
Local Open Scope effect_scope.

(** The awaited calls to the stores that reject while a request is served
    (an outage of the relational store, the blob store or the vector
    index); the route catches none of them. *)
Record Outage := {
  lookup_rejects : bool;
  object_delete_rejects : bool;
  chunk_delete_rejects : bool;
  file_delete_rejects : bool;
  index_delete_rejects : bool
}.

Definition no_outage : Outage :=
  {| lookup_rejects := false; object_delete_rejects := false;
     chunk_delete_rejects := false; file_delete_rejects := false;
     index_delete_rejects := false |}.

(** An awaited call that rejects, leaving its store as it was, or runs. *)
Definition rejecting {A} (rejects : bool) (m : M A) : M A :=
  if rejects then throw StoreError else m.

(** [getFile] of [db.ts]: the file row with the name of its folder. *)
Definition getFile (fileId : jsstring) : M (option FileWithFolder) :=
  gets (fun w =>
    hd_error
      (flat_map
         (fun f =>
            if jsstring_eqb (file_id f) fileId then
              map (fun d => {| fw_file := f; fw_folder_name := folder_name d |})
                (filter (fun d => jsstring_eqb (folder_id d) (file_folder_id f)) (folders w))
            else [])
         (files w))).

(** [deleteFile] of [db.ts]: [DELETE FROM files WHERE id = ?1]; the chunk
    rows that reference the file go with it ([ON DELETE CASCADE] in the
    schema).  The statement may reject. *)
Definition deleteFile (rejects : bool) (fileId : jsstring) : M unit :=
  rejecting rejects
    (modify (fun w =>
       with_chunks (filter (fun c => negb (jsstring_eqb (chunk_file_id c) fileId)) (chunks w))
         (with_files (filter (fun f => negb (jsstring_eqb (file_id f) fileId)) (files w)) w))).

(** [env.MARBLE_FILES.delete(key)]; the call may reject. *)
Definition deleteObject (rejects : bool) (key : jsstring) : M unit :=
  rejecting rejects
    (modify (fun w =>
       with_objects (filter (fun o => negb (jsstring_eqb (fst o) key)) (objects w)) w)).

(** [handleDeleteFile(c)] for the authenticated user [user_id] and the
    route parameter [fileId], under the outage [outage]; it answers
    [{ deleted: true }]. *)
Definition handleDeleteFile (outage : Outage) (user_id fileId : jsstring) : M unit :=
  file <- rejecting (lookup_rejects outage) (getFile fileId) ;;
  match file with
  | None => throw (HTTPException 404 (Text "File not found"))
  | Some file =>
      if negb (jsstring_eqb (file_owner_id (fw_file file)) user_id)
      then throw (HTTPException 403 (Text "You can only delete your own files"))
      else
        deleteObject (object_delete_rejects outage) (file_r2_key (fw_file file)) ;;
        chunkIds <- rejecting (chunk_delete_rejects outage) (Db.deleteChunksForFile fileId) ;;
        deleteFile (file_delete_rejects outage) fileId ;;
        match chunkIds with
        | [] => ret tt
        | _ =>
            rejecting (index_delete_rejects outage)
              (Ingest.deleteChunkVectors chunkIds (file_visibility (fw_file file))
                 (file_owner_id (fw_file file)))
        end
  end.

End DeleteFile.

(** ** Further worked examples *)

Module MoreExamples.
Import Examples.

(** A runtime whose overlap setting is as large as its chunk size. *)
Definition misconfigured_env : Env :=
  {| OPENAI_API_KEY := Some (str "test-key");
     OPENAI_MODEL := None;
     OPENAI_EMBEDDING_MODEL := None;
     VECTOR_TOP_K := None;
     CHUNK_SIZE := Some (str "5");
     CHUNK_OVERLAP := Some (str "5");
     JSON_parse := JSON_parse (test_env FetchRejected FetchRejected);
     JSON_stringify := JSON_stringify (test_env FetchRejected FetchRejected);
     fetch_embeddings := fun _ _ => embeddings_reply [[1; 1; 1]%Q];
     fetch_responses := fun _ => FetchRejected;
     randomUUID := fun n => repeat 49%N (S n);
     similarity := fun _ _ => 1%Q;
     index_accepts := fun _ => true |}.

End MoreExamples.

(** ** The ingestion route ([api/src/routes/ingest.ts]) *)

Module IngestRoute.
Import Js.
Local Open Scope effect_scope.

(** [ingestInput.safeParse(input)]: an object whose [fileId] is a string of
    at least one character. *)
Definition ingestInput (input : value) : option jsstring :=
  match input with
  | VObj _ =>
      match prop input "fileId" with
      | VStr (c :: s) => Some (c :: s)
      | _ => None
      end
  | _ => None
  end.

(** [handleIngest(c)] for the authenticated user [user_id] and the request
    body [input] ([None] when the body is not JSON), with [fuel] iterations
    allowed to [chunkText].  The route has its own copies of [parseNumber]
    and [normalizeEmbeddings], the same text as those of the library, and
    its own loop over the chunks, the same text as the library's. *)
Definition handleIngest (fuel : nat) (env : Env) (user_id : jsstring) (input : option value)
    (w : World) : option (World * (Failure + Z)) :=
  match input with
  | None => Some (w, inl SyntaxError)
  | Some input =>
      match ingestInput input with
      | None => Some (w, inl (HTTPException 400 SchemaMessage))
      | Some fileId =>
          match DeleteFile.getFile fileId w with
          | (_, inl e) => Some (w, inl e)
          | (_, inr None) => Some (w, inl (HTTPException 404 (Text "File not found")))
          | (_, inr (Some file)) =>
              if negb (jsstring_eqb (file_owner_id (fw_file file)) user_id)
              then Some (w, inl (HTTPException 403 (Text "You can only ingest your own files")))
              else
                match Db.getObjectText (file_r2_key (fw_file file)) w with
                | (_, inl e) => Some (w, inl e)
                | (_, inr None) =>
                    Some (w, inl (HTTPException 404 (Text "Uploaded object not found in R2")))
                | (_, inr (Some text)) =>
                    let chunkSize := Ingest.parseNumber (CHUNK_SIZE env) 1500 in
                    let overlap := Ingest.parseNumber (CHUNK_OVERLAP env) 200 in
                    match Chunk.chunkText fuel text
                            {| Chunk.chunkSize := chunkSize; Chunk.overlap := overlap |} with
                    | None => None
                    | Some (inl Chunk.ChunkSizeMustBePositive) =>
                        Some (w, inl (Error (Text "chunkSize must be > 0")))
                    | Some (inr []) =>
                        Some (w, inl (HTTPException 400 (Text "No content found to ingest")))
                    | Some (inr chunks) =>
                        match OpenAI.createEmbeddings env (map Chunk.content chunks) with
                        | inl error =>
                            Some (w, inl (HTTPException
                                            (if isOpenAIError error then 502 else 500)
                                            (message_of error)))
                        | inr rawEmbeddings =>
                            match Ingest.normalizeEmbeddings rawEmbeddings with
                            | inl e =>
                                Some (w, inl (HTTPException 500
                                                (FailedToParseEmbeddings (message_of e))))
                            | inr embeddings =>
                                if negb (len embeddings =? len chunks) then
                                  Some (w, inl (HTTPException 500
                                                  (EmbeddingCountMismatch (len embeddings)
                                                     (len chunks))))
                                else
                                  Some
                                    ((existing <- Db.deleteChunksForFile (file_id (fw_file file)) ;;
                                      match existing with
                                      | [] => ret tt
                                      | _ =>
                                          Ingest.deleteChunkVectors existing
                                            (file_visibility (fw_file file))
                                            (file_owner_id (fw_file file))
                                      end ;;
                                      insertedChunks <-
                                        Ingest.insert_loop env file embeddings 0 chunks 0 ;;
                                      Db.updateFileStatus (file_id (fw_file file)) true ;;
                                      ret insertedChunks) w)
                            end
                        end
                    end
                end
          end
      end
  end.

End IngestRoute.

(** ** Notions used to state the retrieval of an ingested file *)

Module RetrievalSpec.
Import Vectorize.

(** The chunk id under which a stored vector comes back from a query: the
    [chunkId] of its metadata, else its own id. *)
Definition chunkIdOfRecord (r : VectorRecord) : jsstring :=
  orElse (orElseOpt (field (vec_metadata r) s_chunkId) (Some (vec_id r))) [].

End RetrievalSpec.

(** ** The stores a deletion passes through *)

Module DeleteSpec.

Definition without_object (key : jsstring) (w : World) : World :=
  with_objects (filter (fun o => negb (jsstring_eqb (fst o) key)) (objects w)) w.

Definition without_chunks (fileId : jsstring) (w : World) : World :=
  with_chunks (IngestSpec.rowsOfOthers fileId (chunks w)) w.

Definition without_file (fileId : jsstring) (w : World) : World :=
  with_files (filter (fun f => negb (jsstring_eqb (file_id f) fileId)) (files w)) w.

End DeleteSpec.

(** * Properties *)

Unset Implicit Arguments.

(** * The model on small inputs *)

Module Checks.
Import Js Examples.

Example slice_middle : slice (str "abcdef") 2 4 = str "cd".
Proof. reflexivity. Qed.

Example slice_negative : slice (str "abcdef") (-2) 6 = str "ef".
Proof. reflexivity. Qed.

Example trim_both_ends : trim (str "  /lookup x ") = str "/lookup x".
Proof. reflexivity. Qed.

Example offsets_of_example : Chunk.buildLineOffsets ChunkSpec.example_source = [0; 9; 18].
Proof. reflexivity. Qed.

Example locateLine_on_newline :
  Chunk.locateLine [0; 9; 18] 8 = Some 1 /\ Chunk.locateLine [0; 9; 18] 9 = Some 2 /\
  Chunk.locateLine [0; 9; 18] 27 = Some 3.
Proof. repeat split. Qed.

Example chunkText_rejects_zero_size :
  Chunk.chunkText 10 (str "abc") {| Chunk.chunkSize := 0; Chunk.overlap := 0 |}
  = Some (inl Chunk.ChunkSizeMustBePositive).
Proof. reflexivity. Qed.

Example chunkText_of_nothing :
  Chunk.chunkText 10 [] {| Chunk.chunkSize := 9; Chunk.overlap := 2 |} = Some (inr []).
Proof. reflexivity. Qed.

Example parseInt10_examples :
  parseInt10 (str " 42px") = Finite 42 /\ parseInt10 (str "-7") = Finite (-7) /\
  parseInt10 (str "px") = NaN /\ parseInt10 [] = NaN.
Proof. repeat split. Qed.

(** Beyond 2^53 the digits are read as the nearest double, and from
    2^1024 - 2^970 on as [Infinity]. *)
Example parseInt10_rounds :
  parseInt10 (str "9007199254740993") = Finite 9007199254740992 /\
  parseInt10 (str "9007199254740995") = Finite 9007199254740996 /\
  toNumber (2 ^ 1024 - 2 ^ 970 - 1) = Finite (2 ^ 1024 - 2 ^ 971) /\
  toNumber (2 ^ 1024 - 2 ^ 970) = Infinity false /\
  toNumber (2 ^ 1024 - 1) = Infinity false /\
  parseInt10 (str "1" ++ repeat 48%N 309) = Infinity false /\
  parseInt10 (str "-1" ++ repeat 48%N 309) = Infinity true.
Proof. repeat split; vm_compute; reflexivity. Qed.

Example parseNumber_examples :
  Ingest.parseNumber None 1500 = 1500 /\ Ingest.parseNumber (Some (str "1200")) 1500 = 1200 /\
  Ingest.parseNumber (Some (str "many")) 200 = 200 /\
  Ingest.parseNumber (Some (str "1" ++ repeat 48%N 309)) 200 = 200.
Proof. repeat split; vm_compute; reflexivity. Qed.

Example parseTopK_examples :
  Chat.parseTopK None = 8 /\ Chat.parseTopK (Some (str "12")) = 12 /\
  Chat.parseTopK (Some (str "0")) = 8 /\ Chat.parseTopK (Some (str "-3")) = 8 /\
  Chat.parseTopK (Some (str "9007199254740993")) = 9007199254740992 /\
  Chat.parseTopK (Some (str "1" ++ repeat 48%N 309)) = 8.
Proof. repeat split; vm_compute; reflexivity. Qed.

Example lookupMatch_examples :
  Chat.lookupMatch (str "/LookUp  what is x") = Some (str "what is x") /\
  Chat.lookupMatch (str "/lookup") = Some [] /\
  Chat.lookupMatch (str "tell me /lookup") = None /\
  Chat.lookupMatch (str "/lookup a" ++ [10%N] ++ str "b") = None.
Proof. repeat split. Qed.

Example namespaces :
  Vectorize.partitionForVisibility Private alice = Vectorize.privateNamespace alice /\
  Vectorize.partitionForVisibility Public alice = Vectorize.publicNamespace /\
  Vectorize.filterFromNamespace (str "user:alice")
  = {| Vectorize.filter_visibility := Some Private; Vectorize.filter_ownerId := Some alice |}.
Proof. repeat split. Qed.

Example normalizeChatResult_keeps_wellformed_citations :
  OpenAI.normalizeChatResult
    (VObj [(str "answer", VStr (str "ok"));
           (str "citations", VArr [example_citation; VStr (str "handbook.txt"); VNull])])
  = Some (Some {| OpenAI.answer := str "ok"; OpenAI.citations := [example_citation] |}).
Proof. reflexivity. Qed.

Example ingest_of_example_file :
  Ingest.ingestFileById 28 (test_env (embeddings_reply [[1; 1; 1]%Q]) FetchRejected)
    (str "file-1") (str "user-1") example_world
  = Some (example_world_ingested, inr 1) /\
  len (chunks example_world_ingested) = 1.
Proof. split; vm_compute; reflexivity. Qed.

Example ingest_by_another_user :
  Ingest.ingestFileById 28 (test_env (embeddings_reply [[1; 1; 1]%Q]) FetchRejected)
    (str "file-1") (str "user-2") example_world
  = Some (example_world,
          inl (HTTPException 403 (Text "You can only ingest your own files"))).
Proof. reflexivity. Qed.

End Checks.

(** * Facts about the chunker *)

Module ChunkFacts.
Import Chunk ChunkSpec.

Lemma len_nonneg {A} (l : list A) : 0 <= len l.
Proof. unfold len. lia. Qed.

Lemma len_cons {A} (x : A) l : len (x :: l) = len l + 1.
Proof. unfold len. simpl length. lia. Qed.

Lemma len_app {A} (l1 l2 : list A) : len (l1 ++ l2) = len l1 + len l2.
Proof. unfold len. rewrite length_app. lia. Qed.

Lemma at_index_in_range l i :
  0 <= i < len l -> at_index l i = Some (zth l i).
Proof.
  intros H. unfold at_index, zth.
  destruct (Z.ltb_spec i 0); [lia|].
  apply nth_error_nth'. unfold len in H. lia.
Qed.

Lemma zth_cons_succ x l i : 0 < i -> zth (x :: l) i = zth l (i - 1).
Proof.
  intros H. unfold zth.
  replace (Z.to_nat i) with (S (Z.to_nat (i - 1))) by lia. reflexivity.
Qed.

Lemma lineOf_cons c x l :
  lineOf (x :: l) c = (if x <=? c then 1 else 0) + lineOf l c.
Proof.
  unfold lineOf. simpl. destruct (x <=? c); [rewrite len_cons|]; lia.
Qed.

Lemma lineOf_nonneg l c : 0 <= lineOf l c.
Proof. apply len_nonneg. Qed.

(** A list split at [k] into entries at most [c] and entries above [c] has
    exactly [k] entries at or before [c]. *)
Lemma lineOf_split c : forall l k,
  0 <= k <= len l ->
  (forall i, 0 <= i < k -> zth l i <= c) ->
  (forall i, k <= i < len l -> c < zth l i) ->
  lineOf l c = k.
Proof.
  induction l as [|x l IH]; intros k Hk Hlo Hhi.
  - unfold len in Hk. simpl in Hk. unfold lineOf. simpl. unfold len. simpl. lia.
  - rewrite lineOf_cons. rewrite len_cons in Hk.
    destruct (Z.eq_dec k 0) as [->|Hk0].
    + assert (c < x) by (apply (Hhi 0); rewrite len_cons; pose proof (len_nonneg l); lia).
      destruct (Z.leb_spec x c); [lia|].
      rewrite (IH 0); [lia|pose proof (len_nonneg l); lia|intros i Hi; lia|].
      intros i Hi. specialize (Hhi (i + 1)). rewrite len_cons in Hhi.
      rewrite zth_cons_succ in Hhi by lia.
      replace (i + 1 - 1) with i in Hhi by lia. apply Hhi. lia.
    + assert (x <= c) by (apply (Hlo 0); lia).
      destruct (Z.leb_spec x c); [|lia].
      rewrite (IH (k - 1)); [lia|lia| |].
      * intros i Hi. specialize (Hlo (i + 1)).
        rewrite zth_cons_succ in Hlo by lia.
        replace (i + 1 - 1) with i in Hlo by lia. apply Hlo. lia.
      * intros i Hi. specialize (Hhi (i + 1)). rewrite len_cons in Hhi.
        rewrite zth_cons_succ in Hhi by lia.
        replace (i + 1 - 1) with i in Hhi by lia. apply Hhi. lia.
Qed.

Lemma lineOf_mono l : forall c c', c <= c' -> lineOf l c <= lineOf l c'.
Proof.
  induction l as [|x l IH]; intros c c' H.
  - unfold lineOf. simpl. lia.
  - rewrite !lineOf_cons. specialize (IH c c' H).
    destruct (Z.leb_spec x c), (Z.leb_spec x c'); lia.
Qed.

Lemma sorted_zth_mono l :
  StronglySorted Z.lt l ->
  forall i j, 0 <= i -> i <= j -> j < len l -> zth l i <= zth l j.
Proof.
  induction 1 as [|x l Hs IH Hall]; intros i j Hi Hij Hj.
  - unfold len in Hj. simpl in Hj. lia.
  - rewrite len_cons in Hj.
    destruct (Z.eq_dec i 0) as [->|Hi0].
    + destruct (Z.eq_dec j 0) as [->|Hj0]; [lia|].
      rewrite (zth_cons_succ x l j) by lia.
      change (zth (x :: l) 0) with x.
      rewrite Forall_forall in Hall.
      assert (x < zth l (j - 1)); [|lia].
      apply Hall. apply nth_In. unfold len in Hj. lia.
    + rewrite !zth_cons_succ by lia. apply IH; lia.
Qed.

(** The binary search of [locateLine] on a strictly increasing offset table:
    under the loop invariant it returns the line of [c], whatever the fuel
    above the width of the interval. *)
Lemma locate_loop_spec offsets c :
  StronglySorted Z.lt offsets ->
  forall fuel low high,
    0 <= low -> high < len offsets ->
    Z.max 0 (high - low + 1) < Z.of_nat fuel ->
    (forall i, 0 <= i <= low -> i < len offsets -> zth offsets i <= c) ->
    (forall i, high < i < len offsets -> c < zth offsets i) ->
    locate_loop fuel offsets c low high = Some (lineOf offsets c).
Proof.
  intros Hs. induction fuel as [|fuel IH]; intros low high Hlow Hhigh Hfuel I1 I2.
  - lia.
  - cbn [locate_loop]. destruct (Z.leb_spec low high) as [Hle|Hgt].
    + set (mid := (low + high) / 2).
      assert (Hmid : low <= mid <= high).
      { unfold mid. split.
        - apply Z.div_le_lower_bound; lia.
        - apply Z.div_le_upper_bound; lia. }
      rewrite (at_index_in_range offsets mid) by lia.
      destruct (Z.ltb_spec c (zth offsets mid)) as [Hlt|Hge].
      * apply IH; try lia.
        -- intros i Hi Hil. apply I1; lia.
        -- intros i Hi.
           assert (zth offsets mid <= zth offsets i); [|lia].
           apply sorted_zth_mono; auto; lia.
      * destruct (Z.ltb_spec (mid + 1) (len offsets)) as [Hin|Hout].
        -- rewrite (at_index_in_range offsets (mid + 1)) by lia.
           destruct (Z.leb_spec (zth offsets (mid + 1)) c) as [Hnx|Hnx].
           ++ apply IH; try lia.
              ** intros i Hi Hil.
                 assert (zth offsets i <= zth offsets (mid + 1)); [|lia].
                 apply sorted_zth_mono; auto; lia.
              ** intros i Hi. apply I2. lia.
           ++ f_equal. symmetry. apply lineOf_split; try lia.
              ** intros i Hi.
                 assert (zth offsets i <= zth offsets mid); [|lia].
                 apply sorted_zth_mono; auto; lia.
              ** intros i Hi.
                 assert (zth offsets (mid + 1) <= zth offsets i); [|lia].
                 apply sorted_zth_mono; auto; lia.
        -- destruct (Z.leb_spec MAX_SAFE_INTEGER c) as [Hbig|Hsmall].
           ++ apply IH; try lia.
              intros i Hi Hil.
              assert (zth offsets i <= zth offsets mid); [|lia].
              apply sorted_zth_mono; auto; lia.
           ++ f_equal. symmetry. apply lineOf_split; try lia.
              intros i Hi.
              assert (zth offsets i <= zth offsets mid); [|lia].
              apply sorted_zth_mono; auto; lia.
    + f_equal. symmetry.
      destruct (Z.ltb_spec low (len offsets)) as [Hin|Hout].
      * exfalso. specialize (I1 low). specialize (I2 low). lia.
      * apply lineOf_split; try lia.
        -- pose proof (len_nonneg offsets). lia.
        -- intros i Hi. apply I1; lia.
Qed.

(** [locateLine] always returns: the fuel it is given is never used up. *)
Lemma locate_loop_returns offsets c : forall fuel low high,
  Z.max 0 (high - low + 1) < Z.of_nat fuel ->
  exists line, locate_loop fuel offsets c low high = Some line.
Proof.
  induction fuel as [|fuel IH]; intros low high Hfuel.
  - lia.
  - cbn [locate_loop]. destruct (Z.leb_spec low high) as [Hle|Hgt]; [|eauto].
    set (mid := (low + high) / 2).
    assert (Hmid : low <= mid <= high).
    { unfold mid. split.
      - apply Z.div_le_lower_bound; lia.
      - apply Z.div_le_upper_bound; lia. }
    destruct (match at_index offsets mid with Some s => c <? s | None => false end).
    + apply IH. lia.
    + destruct (match (if mid + 1 <? len offsets then at_index offsets (mid + 1)
                       else Some MAX_SAFE_INTEGER)
                with Some s => s <=? c | None => false end).
      * apply IH. lia.
      * eauto.
Qed.

Lemma locateLine_returns offsets c : exists line, locateLine offsets c = Some line.
Proof.
  unfold locateLine. apply locate_loop_returns.
  unfold len. lia.
Qed.

Lemma locateLine_spec offsets c :
  StronglySorted Z.lt offsets ->
  offsets <> [] -> zth offsets 0 <= c ->
  locateLine offsets c = Some (lineOf offsets c).
Proof.
  intros Hs Hne H0. unfold locateLine.
  apply locate_loop_spec; auto; try lia.
  - unfold len. lia.
  - intros i Hi _. replace i with 0 by lia. exact H0.
Qed.

Lemma buildLineOffsets_from_sorted : forall source i,
  StronglySorted Z.lt (buildLineOffsets_from i source) /\
  Forall (fun o => i < o) (buildLineOffsets_from i source).
Proof.
  induction source as [|ch rest IH]; intros i; simpl.
  - split; constructor.
  - destruct (IH (i + 1)) as [Hs Hall].
    assert (Hall' : Forall (fun o => i < o) (buildLineOffsets_from (i + 1) rest)).
    { eapply Forall_impl; [|exact Hall]. simpl. intros; lia. }
    destruct (char_eqb ch NEWLINE).
    + split; constructor; auto. lia.
    + split; auto.
Qed.

Lemma buildLineOffsets_sorted source : StronglySorted Z.lt (buildLineOffsets source).
Proof.
  unfold buildLineOffsets. destruct (buildLineOffsets_from_sorted source 0).
  constructor; auto.
Qed.

Lemma locateLine_buildLineOffsets source c :
  0 <= c ->
  locateLine (buildLineOffsets source) c = Some (lineOf (buildLineOffsets source) c).
Proof.
  intros Hc. apply locateLine_spec.
  - apply buildLineOffsets_sorted.
  - discriminate.
  - exact Hc.
Qed.

End ChunkFacts.

Module ChunkLoopFacts.
Import Chunk ChunkSpec ChunkFacts.

Lemma slice_in_range {A} (s : list A) a b :
  0 <= a -> a <= b -> b <= len s ->
  slice s a b = firstn (Z.to_nat (b - a)) (skipn (Z.to_nat a) s).
Proof.
  intros Ha Hab Hb. unfold slice, slice_index.
  destruct (Z.ltb_spec a 0); [lia|]. destruct (Z.ltb_spec b 0); [lia|].
  rewrite !Z.min_l by lia. rewrite Z.max_l by lia. reflexivity.
Qed.

Lemma slice_to_end {A} (s : list A) a :
  0 <= a -> a <= len s -> slice s a (len s) = skipn (Z.to_nat a) s.
Proof.
  intros Ha Hb. rewrite slice_in_range by lia.
  apply firstn_all2. rewrite length_skipn. unfold len. lia.
Qed.

(** The array under construction is only appended to. *)
Lemma chunk_loop_acc source cs ov offsets : forall fuel position idx acc,
  chunk_loop fuel source cs ov offsets position idx acc =
  option_map (app acc) (chunk_loop fuel source cs ov offsets position idx []).
Proof.
  induction fuel as [|fuel IH]; intros position idx acc; cbn [chunk_loop].
  - reflexivity.
  - destruct (position <? len source); [|simpl; now rewrite app_nil_r].
    destruct (locateLine offsets position) as [sl|]; [|reflexivity].
    destruct (locateLine offsets _) as [el|]; [|reflexivity].
    destruct (_ =? len source); [reflexivity|].
    rewrite IH. rewrite (IH _ _ ([] ++ _)).
    destruct (chunk_loop fuel source cs ov offsets _ _ []) as [rest|]; simpl; [|reflexivity].
    now rewrite <- app_assoc.
Qed.

(** More fuel never changes a result that was reached. *)
Lemma chunk_loop_fuel_mono source cs ov offsets : forall fuel position idx acc chunks,
  chunk_loop fuel source cs ov offsets position idx acc = Some chunks ->
  forall fuel', (fuel <= fuel')%nat ->
  chunk_loop fuel' source cs ov offsets position idx acc = Some chunks.
Proof.
  induction fuel as [|fuel IH]; intros position idx acc chunks H fuel' Hle.
  - discriminate.
  - destruct fuel' as [|fuel']; [lia|].
    cbn [chunk_loop] in *.
    destruct (position <? len source); [|exact H].
    destruct (locateLine offsets position) as [sl|]; [|discriminate].
    destruct (locateLine offsets _) as [el|]; [|discriminate].
    destruct (_ =? len source); [exact H|].
    eapply IH; [exact H|lia].
Qed.

(** The loop from a window start [position] that a previous window already
    covered up to [position + ov]: it returns, and the chunks it adds cover
    the rest of the source. *)
Lemma chunk_loop_covers source cs ov :
  0 <= ov < cs ->
  forall fuel position idx,
    0 <= position -> position + ov < len source ->
    len source - position <= Z.of_nat fuel ->
    exists init final,
      chunk_loop fuel source cs ov (buildLineOffsets source) position idx []
        = Some (init ++ [final]) /\
      concat (map (unoverlap ov) (init ++ [final]))
        = skipn (Z.to_nat (position + ov)) source /\
      Forall (fun c => startLine c <= endLine c) (init ++ [final]) /\
      exists p, 0 <= p < len source /\
                content final = slice source p (len source) /\
                p + len (content final) = len source.
Proof.
  intros Hov. induction fuel as [|fuel IH]; intros position idx Hp Hcov Hfuel.
  - lia.
  - cbn [chunk_loop].
    destruct (Z.ltb_spec position (len source)) as [Hlt|]; [|lia].
    set (e := Z.min (len source) (position + cs)).
    assert (He : position < e <= len source) by (unfold e; lia).
    rewrite (locateLine_buildLineOffsets source position) by lia.
    destruct (Z.ltb_spec position e) as [_|]; [|lia].
    rewrite (locateLine_buildLineOffsets source (e - 1)) by lia.
    set (c := {| content := slice source position e;
                 startLine := lineOf (buildLineOffsets source) position;
                 endLine := lineOf (buildLineOffsets source) (e - 1);
                 index := idx |}).
    assert (Hlines : startLine c <= endLine c).
    { simpl. apply lineOf_mono. lia. }
    destruct (Z.eqb_spec e (len source)) as [Hend|Hmore].
    + exists [], c. simpl. repeat split.
      * unfold unoverlap. simpl. rewrite app_nil_r. rewrite Hend.
        rewrite slice_to_end by lia. rewrite skipn_skipn. f_equal. lia.
      * constructor; auto.
      * exists position. rewrite Hend. split; [lia|]. split; [reflexivity|].
        rewrite slice_to_end by lia. unfold len. rewrite length_skipn.
        unfold len in *. lia.
    + assert (Hepc : e = position + cs) by (unfold e; lia).
      rewrite Z.max_r by lia.
      rewrite chunk_loop_acc.
      destruct (IH (e - ov) (idx + 1)) as (init & final & Hrun & Hcat & Hall & Hlast);
        try lia.
      rewrite Hrun. exists (c :: init), final. simpl. repeat split.
      * rewrite Hcat. unfold unoverlap. simpl.
        rewrite slice_in_range by lia.
        rewrite skipn_firstn_comm, skipn_skipn.
        replace (Z.to_nat (e - ov + ov)) with
          (Z.to_nat (e - position) - Z.to_nat ov + (Z.to_nat ov + Z.to_nat position))%nat by lia.
        rewrite <- (skipn_skipn (Z.to_nat (e - position) - Z.to_nat ov)).
        rewrite firstn_skipn. f_equal. lia.
      * constructor; auto.
      * exact Hlast.
Qed.

End ChunkLoopFacts.

Module ChunkTheorems.
Import Chunk ChunkSpec ChunkFacts ChunkLoopFacts.

Lemma chunkText_fuel_mono fuel source options r :
  chunkText fuel source options = Some r ->
  forall fuel', (fuel <= fuel')%nat -> chunkText fuel' source options = Some r.
Proof.
  unfold chunkText. intros H fuel' Hle.
  destruct (chunkSize options <=? 0); [exact H|].
  destruct (chunk_loop fuel _ _ _ _ _ _ _) as [chunks|] eqn:E; [|discriminate].
  now rewrite (chunk_loop_fuel_mono _ _ _ _ _ _ _ _ _ E _ Hle).
Qed.

(** With [0 < chunkSize <= overlap] and a source longer than one window the
    window start stays at 0: the loop never ends. *)
Lemma chunk_loop_stalls source cs ov offsets :
  0 < cs -> cs <= ov -> cs < len source ->
  forall fuel idx acc, chunk_loop fuel source cs ov offsets 0 idx acc = None.
Proof.
  intros Hcs Hov Hlen. induction fuel as [|fuel IH]; intros idx acc; cbn [chunk_loop].
  - reflexivity.
  - destruct (Z.ltb_spec 0 (len source)); [|lia].
    destruct (locateLine offsets 0); [|reflexivity].
    destruct (locateLine offsets _); [|reflexivity].
    rewrite Z.min_r by lia.
    destruct (Z.eqb_spec (0 + cs) (len source)); [lia|].
    rewrite Z.max_l by lia. apply IH.
Qed.

(** C2 (the code's behaviour at the inputs the claim covers): for
    [0 < chunkSize <= overlap] and a source longer than [chunkSize],
    [chunkText] has not returned after any number of iterations; it pushes the
    first window again and again.  No guard forces the window start forward. *)
Theorem chunkText_never_returns_when_overlap_ge_chunkSize :
  forall source options,
    0 < chunkSize options -> chunkSize options <= overlap options ->
    chunkSize options < len source ->
    forall fuel, chunkText fuel source options = None.
Proof.
  intros source options Hcs Hov Hlen fuel. unfold chunkText.
  destruct (Z.leb_spec (chunkSize options) 0); [lia|].
  now rewrite chunk_loop_stalls.
Qed.

Lemma chunkText_never_returns_witness :
  chunkText 1000 (str "abc") {| chunkSize := 1; overlap := 1 |} = None.
Proof.
  apply (chunkText_never_returns_when_overlap_ge_chunkSize
           (str "abc") {| chunkSize := 1; overlap := 1 |});
    vm_compute; congruence.
Defined.

(** C4: for a non-empty source, [chunkSize > 0] and [0 <= overlap < chunkSize],
    [chunkText] returns (after at most [source.length] iterations) chunks
    whose contents, each but the first without its first [overlap]
    characters, concatenate to the source; every chunk has
    [startLine <= endLine]; and the last chunk ends at [source.length]. *)
Theorem chunkText_reconstructs_source :
  forall source options,
    source <> [] ->
    0 < chunkSize options ->
    0 <= overlap options < chunkSize options ->
    exists chunks,
      (forall fuel, (length source <= fuel)%nat ->
         chunkText fuel source options = Some (inr chunks)) /\
      stitch (overlap options) chunks = source /\
      Forall (fun c => startLine c <= endLine c) chunks /\
      exists init final p,
        chunks = init ++ [final] /\
        0 <= p < len source /\
        content final = slice source p (len source) /\
        p + len (content final) = len source.
Proof.
  intros source [cs ov] Hne Hcs Hov. simpl in *.
  assert (Hlen : 0 < len source).
  { destruct source; [congruence|]. rewrite len_cons. pose proof (len_nonneg source). lia. }
  assert (Hrun : exists chunks,
    chunk_loop (length source) source cs ov (buildLineOffsets source) 0 0 [] = Some chunks /\
    stitch ov chunks = source /\
    Forall (fun c => startLine c <= endLine c) chunks /\
    exists init final p,
      chunks = init ++ [final] /\ 0 <= p < len source /\
      content final = slice source p (len source) /\
      p + len (content final) = len source).
  { destruct (length source) as [|fuel] eqn:Efuel; [unfold len in Hlen; lia|].
    cbn [chunk_loop].
    destruct (Z.ltb_spec 0 (len source)) as [_|]; [|lia].
    set (e := Z.min (len source) (0 + cs)).
    assert (He : 0 < e <= len source) by (unfold e; lia).
    rewrite (locateLine_buildLineOffsets source 0) by lia.
    destruct (Z.ltb_spec 0 e) as [_|]; [|lia].
    rewrite (locateLine_buildLineOffsets source (e - 1)) by lia.
    set (c := {| content := slice source 0 e;
                 startLine := lineOf (buildLineOffsets source) 0;
                 endLine := lineOf (buildLineOffsets source) (e - 1);
                 index := 0 |}).
    assert (Hlines : startLine c <= endLine c).
    { simpl. apply lineOf_mono. lia. }
    destruct (Z.eqb_spec e (len source)) as [Hend|Hmore].
    - exists [c]. simpl. repeat split.
      + rewrite app_nil_r, Hend. now rewrite slice_to_end by lia.
      + constructor; auto.
      + exists [], c, 0. simpl. rewrite Hend. repeat split; try lia.
        rewrite slice_to_end by lia. reflexivity.
    - assert (Hecs : e = cs) by (unfold e; lia).
      rewrite Z.max_r by lia. rewrite chunk_loop_acc.
      destruct (chunk_loop_covers source cs ov Hov fuel (e - ov) (0 + 1))
        as (init & final & Hloop & Hcat & Hall & Hlast); try lia.
      { unfold len in *. lia. }
      rewrite Hloop. exists (c :: init ++ [final]). simpl. repeat split.
      + rewrite Hcat. rewrite slice_in_range by lia. simpl.
        replace (Z.to_nat (e - ov + ov)) with (Z.to_nat (e - 0)) by lia.
        apply firstn_skipn.
      + constructor; auto.
      + destruct Hlast as (p & Hp & Hcontent & Hsum).
        exists (c :: init), final, p. repeat split; auto; lia. }
  destruct Hrun as (chunks & Hloop & Hstitch & Hall & Hlast).
  exists chunks. repeat split; auto.
  intros fuel Hfuel. unfold chunkText. simpl.
  destruct (Z.leb_spec cs 0); [lia|].
  now rewrite (chunk_loop_fuel_mono _ _ _ _ _ _ _ _ _ Hloop _ Hfuel).
Qed.

Lemma chunkText_reconstructs_source_witness :
  exists chunks,
    (forall fuel, (length example_source <= fuel)%nat ->
       chunkText fuel example_source example_options = Some (inr chunks)) /\
    stitch (overlap example_options) chunks = example_source /\
    Forall (fun c => startLine c <= endLine c) chunks /\
    exists init final p,
      chunks = init ++ [final] /\
      0 <= p < len example_source /\
      content final = slice example_source p (len example_source) /\
      p + len (content final) = len example_source.
Proof.
  apply (chunkText_reconstructs_source example_source example_options).
  - discriminate.
  - reflexivity.
  - split; [discriminate | reflexivity].
Defined.

Lemma example_run :
  forall fuel, (4 <= fuel)%nat ->
    chunkText fuel example_source example_options =
    Some (inr [ {| content := str "Line one" ++ [NEWLINE];
                   startLine := 1; endLine := 1; index := 0 |};
                {| content := str "e" ++ [NEWLINE] ++ str "Line tw";
                   startLine := 1; endLine := 2; index := 1 |};
                {| content := str "two" ++ [NEWLINE] ++ str "Line ";
                   startLine := 2; endLine := 3; index := 2 |};
                {| content := str "e three";
                   startLine := 3; endLine := 3; index := 3 |} ]).
Proof.
  intros fuel Hfuel.
  apply (chunkText_fuel_mono 4 example_source example_options); [|exact Hfuel].
  vm_compute. reflexivity.
Qed.

(** C5, as the code computes it: on the 28-character example with
    [chunkSize = 9] and [overlap = 2] the first chunk is the 9 characters
    ["Line one\n"], with [startLine = 1] and [endLine = 1]: the newline that
    closes the window belongs to line 1. *)
Theorem chunkText_example_first_chunk :
  len example_source = 28 /\
  len (str "Line one" ++ [NEWLINE]) = 9 /\
  exists rest,
    forall fuel, (4 <= fuel)%nat ->
      chunkText fuel example_source example_options =
      Some (inr ({| content := str "Line one" ++ [NEWLINE];
                    startLine := 1; endLine := 1; index := 0 |} :: rest)).
Proof.
  split; [reflexivity|]. split; [reflexivity|].
  eexists. exact example_run.
Qed.

(** C5 as stated fails: the first chunk of the example has [endLine = 1],
    not 2. *)
Lemma chunkText_example_endLine_is_not_2 :
  exists first rest,
    chunkText 28 example_source example_options = Some (inr (first :: rest)) /\
    content first = str "Line one" ++ [NEWLINE] /\
    startLine first = 1 /\ endLine first = 1 /\ endLine first <> 2.
Proof.
  eexists. eexists. split; [apply example_run; repeat constructor|].
  repeat split. discriminate.
Qed.

End ChunkTheorems.

(** * Facts about strings, sorting and maps *)

Module BasicFacts.

Lemma jsstring_eqb_eq a : forall b, jsstring_eqb a b = true <-> a = b.
Proof.
  induction a as [|x a IH]; destruct b as [|y b]; simpl; split; try congruence; intros H.
  - apply andb_true_iff in H. destruct H as [Hxy Hab].
    apply N.eqb_eq in Hxy. apply IH in Hab. congruence.
  - injection H as -> ->. apply andb_true_iff. split.
    + apply N.eqb_refl.
    + now apply IH.
Qed.

Lemma jsstring_eqb_refl a : jsstring_eqb a a = true.
Proof. now apply jsstring_eqb_eq. Qed.

Lemma jsstring_eqb_neq a b : jsstring_eqb a b = false <-> a <> b.
Proof.
  split.
  - intros H E. apply jsstring_eqb_eq in E. congruence.
  - intros H. destruct (jsstring_eqb a b) eqn:E; [|reflexivity].
    apply jsstring_eqb_eq in E. contradiction.
Qed.

Lemma jsstring_eqb_sym a b : jsstring_eqb a b = jsstring_eqb b a.
Proof.
  destruct (jsstring_eqb b a) eqn:E.
  - apply jsstring_eqb_eq in E. subst. apply jsstring_eqb_refl.
  - apply jsstring_eqb_neq in E. apply jsstring_eqb_neq. congruence.
Qed.

Lemma take_firstn {A} (l : list A) k : 0 <= k -> take k l = firstn (Z.to_nat k) l.
Proof.
  intros Hk. unfold take, slice, slice_index.
  destruct (Z.ltb_spec 0 0); [lia|]. destruct (Z.ltb_spec k 0); [lia|].
  assert (0 <= len l) by (unfold len; lia).
  rewrite (Z.min_l 0) by lia. rewrite Z.sub_0_r. simpl skipn.
  rewrite Z.max_l by lia.
  destruct (Z.le_gt_cases k (len l)).
  - now rewrite Z.min_l by lia.
  - rewrite Z.min_r by lia. unfold len in *.
    rewrite !firstn_all2; auto; lia.
Qed.

Lemma In_firstn {A} n (l : list A) x : In x (firstn n l) -> In x l.
Proof.
  intros H. rewrite <- (firstn_skipn n l). apply in_or_app. now left.
Qed.

Lemma In_skipn {A} n (l : list A) x : In x (skipn n l) -> In x l.
Proof.
  intros H. rewrite <- (firstn_skipn n l). apply in_or_app. now right.
Qed.

Lemma In_slice {A} (l : list A) a b x : In x (slice l a b) -> In x l.
Proof.
  unfold slice. intros H. apply In_firstn in H. eapply In_skipn; eauto.
Qed.

Section SortFacts.
Context {A : Type} (score : A -> Q).

Lemma insert_desc_perm x l : Permutation (insert_desc score x l) (x :: l).
Proof.
  induction l as [|y l IH]; simpl; [reflexivity|].
  destruct (Qle_bool (score y) (score x)); [reflexivity|].
  rewrite IH. apply perm_swap.
Qed.

Lemma sort_desc_perm l : Permutation (sort_desc score l) l.
Proof.
  induction l as [|x l IH]; simpl; [reflexivity|].
  rewrite insert_desc_perm. now constructor.
Qed.

Lemma insert_desc_sorted x l :
  StronglySorted (descending score) l -> StronglySorted (descending score) (insert_desc score x l).
Proof.
  induction 1 as [|y l Hs IH Hall]; simpl.
  - repeat constructor.
  - destruct (Qle_bool (score y) (score x)) eqn:E.
    + apply Qle_bool_iff in E. constructor; [constructor; auto|].
      constructor; [exact E|].
      eapply Forall_impl; [|exact Hall]. unfold descending. intros z Hz.
      eapply Qle_trans; eauto.
    + constructor; [exact IH|].
      assert (Hyx : (score x <= score y)%Q).
      { destruct (Qlt_le_dec (score x) (score y)) as [Hlt|Hle].
        - now apply Qlt_le_weak.
        - apply Qle_bool_iff in Hle. congruence. }
      eapply Permutation_Forall; [symmetry; apply insert_desc_perm|].
      constructor; auto.
Qed.

Lemma sort_desc_sorted l : StronglySorted (descending score) (sort_desc score l).
Proof.
  induction l as [|x l IH]; simpl; [constructor|].
  now apply insert_desc_sorted.
Qed.

Lemma sorted_firstn n l :
  StronglySorted (descending score) l -> StronglySorted (descending score) (firstn n l).
Proof.
  intros H. revert n. induction H as [|y l Hs IH Hall]; intros [|n]; simpl;
    try constructor; auto.
  rewrite Forall_forall in *. intros z Hz. apply Hall. eapply In_firstn; eauto.
Qed.

Lemma sorted_split_le n l :
  StronglySorted (descending score) l ->
  forall a b, In a (firstn n l) -> In b (skipn n l) -> (score b <= score a)%Q.
Proof.
  intros H. revert n. induction H as [|y l Hs IH Hall]; intros [|n] a b Ha Hb;
    simpl in *; try contradiction.
  destruct Ha as [->|Ha].
  - rewrite Forall_forall in Hall. apply Hall. eapply In_skipn; eauto.
  - eapply IH; eauto.
Qed.
End SortFacts.

Section MapFacts.
Context {V : Type}.
Implicit Types (m : list (jsstring * V)) (k : jsstring) (v : V).

Lemma map_get_In m k v : Chat.map_get k m = Some v -> In (k, v) m.
Proof.
  induction m as [|[k' v'] m IH]; simpl; [discriminate|].
  destruct (jsstring_eqb k' k) eqn:E.
  - apply jsstring_eqb_eq in E. intros [= ->]. left. congruence.
  - intros H. right. auto.
Qed.

Lemma map_get_None m k : Chat.map_get k m = None -> ~ In k (map fst m).
Proof.
  induction m as [|[k' v'] m IH]; simpl; [tauto|].
  destruct (jsstring_eqb k' k) eqn:E; [discriminate|].
  apply jsstring_eqb_neq in E. intros H [Hk|Hk]; [congruence|]. now apply IH.
Qed.

Lemma In_map_get m k v : NoDup (map fst m) -> In (k, v) m -> Chat.map_get k m = Some v.
Proof.
  induction m as [|[k' v'] m IH]; simpl; [tauto|].
  intros Hnd [H|H].
  - injection H as -> ->. now rewrite jsstring_eqb_refl.
  - inversion Hnd as [|? ? Hnotin Hnd']; subst.
    destruct (jsstring_eqb k' k) eqn:E.
    + apply jsstring_eqb_eq in E. subst. exfalso. apply Hnotin.
      change k with (fst (k, v)). now apply in_map.
    + auto.
Qed.

Lemma map_set_absent m k v : ~ In k (map fst m) -> Chat.map_set k v m = m ++ [(k, v)].
Proof.
  induction m as [|[k' v'] m IH]; simpl; [reflexivity|].
  intros H. destruct (jsstring_eqb k' k) eqn:E.
  - apply jsstring_eqb_eq in E. tauto.
  - f_equal. apply IH. tauto.
Qed.

Lemma map_set_keys_present m k v :
  In k (map fst m) -> map fst (Chat.map_set k v m) = map fst m.
Proof.
  induction m as [|[k' v'] m IH]; simpl; [tauto|].
  intros H. destruct (jsstring_eqb k' k) eqn:E; simpl.
  - apply jsstring_eqb_eq in E. congruence.
  - f_equal. apply IH. destruct H as [H|H]; [|exact H].
    apply jsstring_eqb_neq in E. congruence.
Qed.

Lemma In_map_set m k v k' v' :
  In (k', v') (Chat.map_set k v m) -> (k', v') = (k, v) \/ In (k', v') m.
Proof.
  induction m as [|[k0 v0] m IH]; simpl.
  - intros [H|[]]. left. congruence.
  - destruct (jsstring_eqb k0 k); intros [H|H].
    + left. now symmetry.
    + right. now right.
    + right. now left.
    + destruct (IH H); [now left|right; now right].
Qed.

Lemma map_set_In_same m k v : In (k, v) (Chat.map_set k v m).
Proof.
  induction m as [|[k0 v0] m IH]; simpl; [now left|].
  destruct (jsstring_eqb k0 k); [now left|now right].
Qed.

Lemma map_set_In_other m k v k' v' :
  k' <> k -> In (k', v') m -> In (k', v') (Chat.map_set k v m).
Proof.
  intros Hne. induction m as [|[k0 v0] m IH]; simpl; [tauto|].
  destruct (jsstring_eqb k0 k) eqn:E; intros [H|H].
  - apply jsstring_eqb_eq in E. congruence.
  - now right.
  - now left.
  - right. auto.
Qed.
End MapFacts.

End BasicFacts.

(** * Merging and ranking the matches *)

Module MergeFacts.
Import BasicFacts Chat Examples.

Lemma NoDup_values {V} (m : list (jsstring * V)) k v v' :
  NoDup (map fst m) -> In (k, v) m -> In (k, v') m -> v = v'.
Proof.
  intros Hnd H1 H2.
  apply (In_map_get _ _ _ Hnd) in H1. apply (In_map_get _ _ _ Hnd) in H2. congruence.
Qed.

Lemma merge_step_ok seen acc m :
  merged_ok seen acc -> merged_ok (seen ++ [m]) (merge_step acc m).
Proof.
  intros [Hnd Hent Hbest]. unfold merge_step. fold (idOf m).
  set (entry := {| entry_score := Vectorize.score m; entry_match := m |}).
  assert (Hentry : idOf m = chunkIdOf entry /\ In (entry_match entry) (seen ++ [m]) /\
                   entry_score entry = Vectorize.score (entry_match entry)).
  { repeat split. apply in_or_app. right. now left. }
  assert (Hold : forall k e, In (k, e) acc ->
            k = chunkIdOf e /\ In (entry_match e) (seen ++ [m]) /\
            entry_score e = Vectorize.score (entry_match e)).
  { intros k e H. destruct (Hent k e H) as (? & ? & ?). repeat split; auto.
    apply in_or_app. now left. }
  destruct (map_get (idOf m) acc) as [prev|] eqn:Eget.
  - pose proof (map_get_In _ _ _ Eget) as Hprev.
    assert (Hkey : In (idOf m) (map fst acc)).
    { change (idOf m) with (fst (idOf m, prev)). now apply in_map. }
    destruct (Qle_bool (Vectorize.score m) (entry_score prev)) eqn:Ecmp; simpl.
    + (* the stored entry stays *)
      apply Qle_bool_iff in Ecmp. constructor; auto.
      intros m' Hin. apply in_app_or in Hin. destruct Hin as [Hin|[<-|[]]].
      * now apply Hbest.
      * eauto.
    + (* the new match replaces it *)
      assert (Hlt : (entry_score prev <= Vectorize.score m)%Q).
      { destruct (Qlt_le_dec (entry_score prev) (Vectorize.score m)) as [H|H].
        - now apply Qlt_le_weak.
        - apply Qle_bool_iff in H. congruence. }
      constructor.
      * now rewrite map_set_keys_present.
      * intros k e H. apply In_map_set in H. destruct H as [[= -> ->]|H]; auto.
      * intros m' Hin. apply in_app_or in Hin. destruct Hin as [Hin|[<-|[]]].
        -- destruct (Hbest m' Hin) as (e & He & Hle).
           destruct (jsstring_eq_dec (idOf m') (idOf m)) as [Heq|Hne].
           ++ exists entry. rewrite Heq. split; [apply map_set_In_same|].
              rewrite Heq in He. rewrite (NoDup_values _ _ _ _ Hnd He Hprev) in Hle.
              simpl. eapply Qle_trans; eauto.
           ++ exists e. split; [now apply map_set_In_other|exact Hle].
        -- exists entry. split; [apply map_set_In_same|apply Qle_refl].
  - pose proof (map_get_None _ _ Eget) as Hnew.
    rewrite map_set_absent by exact Hnew. constructor.
    + rewrite map_app. simpl.
      apply NoDup_app; auto; [repeat constructor; simpl; tauto|].
      intros k Hk [<-|[]]. contradiction.
    + intros k e H. apply in_app_or in H. destruct H as [H|[[= <- <-]|[]]]; auto.
    + intros m' Hin. apply in_app_or in Hin. destruct Hin as [Hin|[<-|[]]].
      * destruct (Hbest m' Hin) as (e & He & Hle). exists e. split; auto.
        apply in_or_app. now left.
      * exists entry. split; [|apply Qle_refl]. apply in_or_app. right. now left.
Qed.

Lemma fold_merge_ok : forall rest seen acc,
  merged_ok seen acc -> merged_ok (seen ++ rest) (fold_left merge_step rest acc).
Proof.
  induction rest as [|m rest IH]; intros seen acc H; simpl.
  - now rewrite app_nil_r.
  - replace (seen ++ m :: rest) with ((seen ++ [m]) ++ rest)
      by (rewrite <- app_assoc; reflexivity).
    apply IH. now apply merge_step_ok.
Qed.

Lemma mergeByBestScore_ok results :
  merged_ok (concat results) (mergeByBestScore results).
Proof.
  unfold mergeByBestScore. apply (fold_merge_ok (concat results) [] []).
  constructor; simpl; [constructor|tauto|tauto].
Qed.

Lemma merged_ids results :
  map chunkIdOf (map snd (mergeByBestScore results)) = map fst (mergeByBestScore results).
Proof.
  destruct (mergeByBestScore_ok results) as [_ H _].
  induction (mergeByBestScore results) as [|[k e] l IH]; simpl; [reflexivity|].
  f_equal.
  - symmetry. apply (H k e). now left.
  - apply IH. intros k' e' Hin. apply H. now right.
Qed.

Lemma NoDup_firstn {A} n (l : list A) : NoDup l -> NoDup (firstn n l).
Proof.
  intros H. rewrite <- (firstn_skipn n l) in H. now apply NoDup_app_remove_r in H.
Qed.

Lemma parseTopK_positive value : 0 < parseTopK value.
Proof.
  unfold parseTopK.
  destruct (isFinite _ && (0 <? valueOf _)) eqn:E; [|lia].
  apply andb_true_iff in E. destruct E as [_ E]. now apply Z.ltb_lt in E.
Qed.

End MergeFacts.

Module MergeTheorems.
Import BasicFacts Chat Examples MergeFacts.

(** C8: the matches of the public and the private namespace are merged by
    chunk id, keeping for each id the match with the highest score (each id
    once: scores 0.4 and 0.9 give one entry with 0.9); the merged entries are
    sorted by descending score and cut to the first K, where K is 8 when
    [VECTOR_TOP_K] is not set; and this ranking of the two namespace results
    is what the lookup branch of the chat handler retrieves. *)
Theorem merge_by_best_score_and_rank :
  forall (publicMatches privateMatches : list Vectorize.VectorMatch)
         (configured : option jsstring),
    let all := publicMatches ++ privateMatches in
    let K := parseTopK configured in
    let top := topMatches [publicMatches; privateMatches] K in
    NoDup (map chunkIdOf top) /\
    (forall e, In e top ->
       In (entry_match e) all /\
       entry_score e = Vectorize.score (entry_match e) /\
       forall m, In m all -> idOf m = chunkIdOf e ->
                 (Vectorize.score m <= entry_score e)%Q) /\
    StronglySorted (descending entry_score) top /\
    len top = Z.min K (len (distinct_ids all)) /\
    (forall m, In m all -> ~ In (idOf m) (map chunkIdOf top) ->
       len top = K /\ forall e, In e top -> (Vectorize.score m <= entry_score e)%Q) /\
    parseTopK None = 8 /\
    topMatches [[example_match "chunk-1" 0.4]; [example_match "chunk-1" 0.9]] 8
      = [ {| entry_score := 0.9; entry_match := example_match "chunk-1" 0.9 |} ] /\
    (forall env uid lookupQuery w w1 ranked,
       retrieve env uid lookupQuery w = (w1, inr ranked) ->
       exists embedding,
         ranked =
         topMatches
           [ queryOrEmpty env (MARBLE_VECTORS w) Vectorize.publicNamespace embedding
               (parseTopK (VECTOR_TOP_K env));
             queryOrEmpty env (MARBLE_VECTORS w) (Vectorize.privateNamespace uid) embedding
               (parseTopK (VECTOR_TOP_K env)) ]
           (parseTopK (VECTOR_TOP_K env))).
Proof.
  intros publicMatches privateMatches configured all K top.
  assert (HK : 0 < K) by apply parseTopK_positive.
  assert (Hall : concat [publicMatches; privateMatches] = all).
  { simpl. now rewrite app_nil_r. }
  pose proof (mergeByBestScore_ok [publicMatches; privateMatches]) as Hok.
  rewrite Hall in Hok. destruct Hok as [Hnd Hent Hbest].
  set (ML := mergeByBestScore [publicMatches; privateMatches]) in *.
  set (sorted := sort_desc entry_score (map snd ML)).
  assert (Hperm : Permutation sorted (map snd ML)) by apply sort_desc_perm.
  assert (Hsorted : StronglySorted (descending entry_score) sorted)
    by apply sort_desc_sorted.
  assert (Htop : top = firstn (Z.to_nat K) sorted).
  { unfold top, topMatches. fold ML. fold sorted. apply take_firstn. lia. }
  assert (Hids : map chunkIdOf (map snd ML) = map fst ML) by apply merged_ids.
  assert (HndS : NoDup (map chunkIdOf sorted)).
  { eapply Permutation_NoDup; [apply Permutation_map; symmetry; exact Hperm|].
    now rewrite Hids. }
  assert (Hin_top : forall e, In e top -> In (chunkIdOf e, e) ML).
  { intros e He. rewrite Htop in He. apply In_firstn in He.
    apply (Permutation_in _ Hperm) in He. apply in_map_iff in He.
    destruct He as ([k e'] & <- & Hin). simpl.
    destruct (Hent k e' Hin) as (-> & _). exact Hin. }
  assert (Hlen_merged : len (map snd ML) = len (distinct_ids all)).
  { unfold len. f_equal. rewrite length_map, <- (length_map fst).
    apply Permutation_length. apply NoDup_Permutation; auto.
    - apply NoDup_nodup.
    - intros k. unfold distinct_ids. rewrite nodup_In. split.
      + intros Hk. apply in_map_iff in Hk. destruct Hk as ([k' e] & <- & Hin). simpl.
        destruct (Hent k' e Hin) as (-> & Hseen & _).
        apply in_map_iff. exists (entry_match e). split; auto.
      + intros Hk. apply in_map_iff in Hk. destruct Hk as (m & <- & Hm).
        destruct (Hbest m Hm) as (e & He & _).
        apply in_map_iff. exists (idOf m, e). split; [reflexivity|exact He]. }
  assert (Hdropped : forall m, In m all -> ~ In (idOf m) (map chunkIdOf top) ->
            exists e', In e' (skipn (Z.to_nat K) sorted) /\
                       (Vectorize.score m <= entry_score e')%Q).
  { intros m Hm Hout. destruct (Hbest m Hm) as (e' & He' & Hle).
    exists e'. split; [|exact Hle].
    assert (Hs : In e' sorted).
    { apply (Permutation_in _ (Permutation_sym Hperm)).
      apply in_map_iff. exists (idOf m, e'). split; [reflexivity|exact He']. }
    rewrite <- (firstn_skipn (Z.to_nat K) sorted) in Hs.
    apply in_app_or in Hs. destruct Hs as [Hs|Hs]; [|exact Hs].
    exfalso. apply Hout. rewrite Htop.
    destruct (Hent _ _ He') as (-> & _). now apply in_map. }
  split; [|split; [|split; [|split; [|split; [|split; [|split]]]]]].
  - rewrite Htop, <- firstn_map. now apply NoDup_firstn.
  - intros e He. pose proof (Hin_top e He) as Hin.
    destruct (Hent _ _ Hin) as (_ & Hseen & Hscore).
    split; [exact Hseen|]. split; [exact Hscore|].
    intros m Hm Hid. destruct (Hbest m Hm) as (e' & He' & Hle).
    rewrite Hid in He'.
    now rewrite (NoDup_values _ _ _ _ Hnd Hin He').
  - rewrite Htop. now apply sorted_firstn.
  - rewrite Htop, <- Hlen_merged. unfold len.
    rewrite length_firstn, (Permutation_length Hperm). lia.
  - intros m Hm Hout. destruct (Hdropped m Hm Hout) as (e' & Hs & Hle). split.
    + rewrite Htop. unfold len. rewrite length_firstn.
      assert (length (skipn (Z.to_nat K) sorted) <> 0)%nat
        by (destruct (skipn (Z.to_nat K) sorted); [contradiction|discriminate]).
      rewrite length_skipn in *. lia.
    + intros e He. eapply Qle_trans; [exact Hle|].
      rewrite Htop in He. eapply (sorted_split_le entry_score); eauto.
  - reflexivity.
  - vm_compute. reflexivity.
  - intros env uid lookupQuery w w1 ranked. unfold retrieve, bind, lift, gets, ret.
    destruct (match _ with inl e => inl _ | inr embedding => inr embedding end)
      as [e|embedding]; [discriminate|].
    intros [= _ <-]. now exists embedding.
Qed.

Lemma merge_by_best_score_and_rank_witness :
  let publicMatches := [example_match "chunk-1" 0.4; example_match "chunk-2" 0.7] in
  let privateMatches := [example_match "chunk-1" 0.9] in
  let top := topMatches [publicMatches; privateMatches] (parseTopK None) in
  In {| entry_score := 0.9; entry_match := example_match "chunk-1" 0.9 |} top /\
  (Vectorize.score (example_match "chunk-1" 0.4) <= 0.9)%Q.
Proof.
  intros publicMatches privateMatches top.
  assert (Hin : In {| entry_score := 0.9; entry_match := example_match "chunk-1" 0.9 |} top)
    by (vm_compute; left; reflexivity).
  split; [exact Hin|].
  destruct (merge_by_best_score_and_rank publicMatches privateMatches None)
    as (_ & Hbest & _).
  apply (proj2 (proj2 (Hbest _ Hin)) (example_match "chunk-1" 0.4)).
  - now left.
  - reflexivity.
Defined.

End MergeTheorems.

(** * Namespace isolation in the vector store adapter *)

Module VectorizeFacts.
Import Js BasicFacts Vectorize Examples.

Lemma isV2_global rm del entries : isV2 (GlobalIndex rm del entries) = true.
Proof. unfold isV2. simpl. now destruct rm. Qed.

Lemma isV2_namespaced entries : isV2 (NamespacedIndex entries) = false.
Proof. reflexivity. Qed.

Lemma privateNamespace_inj A B : privateNamespace A = privateNamespace B -> A = B.
Proof. unfold privateNamespace. apply app_inv_head. Qed.

Lemma owner_of_privateNamespace B :
  slice (privateNamespace B) (len (str "user:")) (len (privateNamespace B)) = B.
Proof.
  rewrite ChunkLoopFacts.slice_to_end.
  - reflexivity.
  - vm_compute. discriminate.
  - unfold privateNamespace. rewrite ChunkFacts.len_app.
    pose proof (ChunkFacts.len_nonneg B). lia.
Qed.

Lemma filterFromNamespace_private B :
  filterFromNamespace (privateNamespace B) =
  {| filter_visibility := Some Private; filter_ownerId := Some B |}.
Proof.
  unfold filterFromNamespace.
  change (jsstring_eqb (privateNamespace B) (str "public")) with false.
  change (startsWith (privateNamespace B) (str "user:")) with true.
  cbv iota. now rewrite owner_of_privateNamespace.
Qed.

Lemma satisfies_private B r :
  satisfies {| filter_visibility := Some Private; filter_ownerId := Some B |} r = true ->
  field (vec_metadata r) s_visibility = Some Private /\
  field (vec_metadata r) s_ownerId = Some B.
Proof.
  unfold satisfies, field. simpl. destruct (vec_metadata r) as [m|]; [|discriminate].
  intros H. apply andb_true_iff in H. destruct H as [Hv Ho].
  destruct (s_visibility m) as [[|]|]; try discriminate.
  destruct (s_ownerId m) as [o|]; try discriminate.
  apply jsstring_eqb_eq in Ho. now subst.
Qed.

(** An upsert under one namespace leaves what is stored under another. *)
Lemma put_namespaced_other ns ns' r entries :
  ns <> ns' ->
  filter (in_namespace ns') (put_namespaced ns r entries) = filter (in_namespace ns') entries.
Proof.
  intros Hne. induction entries as [|[n0 r0] entries IH]; simpl.
  - unfold in_namespace. simpl.
    destruct (jsstring_eqb ns ns') eqn:E; [|reflexivity].
    apply jsstring_eqb_eq in E. contradiction.
  - destruct (jsstring_eqb n0 ns && jsstring_eqb (vec_id r0) (vec_id r)) eqn:E; simpl.
    + apply andb_true_iff in E. destruct E as [E _]. apply jsstring_eqb_eq in E. subst n0.
      unfold in_namespace. simpl.
      destruct (jsstring_eqb ns ns') eqn:E'; [|reflexivity].
      apply jsstring_eqb_eq in E'. contradiction.
    + now rewrite IH.
Qed.

Lemma In_rank env query topK candidates raw :
  In raw (rank env query topK candidates) ->
  exists r, In r candidates /\ raw = answer_of env query r.
Proof.
  unfold rank, take. intros H. apply In_slice in H. apply in_map_iff in H.
  destruct H as (r & <- & Hr). exists r. split; [|reflexivity].
  eapply Permutation_in; [apply sort_desc_perm|exact Hr].
Qed.

Lemma In_buildMatches options raws m :
  In m (buildMatches options raws) ->
  exists raw, In raw raws /\ buildMatch options (Some raw) = Some m.
Proof.
  induction raws as [|raw raws IH]; [simpl; tauto|].
  cbn [buildMatches].
  destruct (buildMatch options (Some raw)) as [m'|] eqn:E.
  - intros [<-|H].
    + exists raw. split; [now left|exact E].
    + destruct (IH H) as (raw' & ? & ?). exists raw'. split; [now right|assumption].
  - intros H. destruct (IH H) as (raw' & ? & ?). exists raw'. split; [now right|assumption].
Qed.

(** A match built from a vector whose stored metadata names an owner and a
    visibility reports exactly those. *)
Lemma buildMatch_reports options env query r m v o :
  field (vec_metadata r) s_visibility = Some v ->
  field (vec_metadata r) s_ownerId = Some o ->
  buildMatch options (Some (answer_of env query r)) = Some m ->
  visibility (metadata m) = v /\ ownerId (metadata m) = o.
Proof.
  unfold buildMatch, answer_of. simpl. intros Hv Ho.
  destruct (falsy _); [discriminate|].
  intros [= <-]. simpl. rewrite Hv, Ho. simpl. auto.
Qed.

End VectorizeFacts.

Module VectorizeTheorems.
Import Js BasicFacts Vectorize Examples VectorizeFacts.

(** Where private partitions are kept apart.  For owners [A <> B] and any
    query against [user:B]: on generation A an upsert under [user:A] changes
    no result of the query, and every match comes from a vector stored under
    [user:B]; on generation B, when the filtered query yields at least one
    usable match, every match returned comes from a vector whose metadata
    says private and owner [B], while a vector upserted for [A] is stored
    with owner [A]. *)
Theorem private_namespace_isolation :
  forall (env : Env) (A B : jsstring) (query : value) (k : Z),
    A <> B ->
    let optionsB := private_query B query k in
    (forall entries chunkId embedding metadata binding',
       visibility metadata = Private -> ownerId metadata = A ->
       upsertChunkVector env (NamespacedIndex entries) chunkId embedding metadata
         = inr binding' ->
       queryNamespace env binding' optionsB
         = queryNamespace env (NamespacedIndex entries) optionsB) /\
    (forall entries matches m,
       queryNamespace env (NamespacedIndex entries) optionsB = inr matches ->
       In m matches ->
       exists r, In (privateNamespace B, r) entries /\
                 buildMatch optionsB (Some (answer_of env query r)) = Some m) /\
    (forall rm del entries response,
       index_query_global env (GlobalIndex rm del entries) query k
         (Some (filterFromNamespace (privateNamespace B))) = inr response ->
       buildMatches optionsB response <> [] ->
       queryNamespace env (GlobalIndex rm del entries) optionsB
         = inr (buildMatches optionsB response) /\
       forall m, In m (buildMatches optionsB response) ->
         visibility (metadata m) = Private /\ ownerId (metadata m) = B /\
         exists r, In r entries /\
                   field (vec_metadata r) s_visibility = Some Private /\
                   field (vec_metadata r) s_ownerId = Some B /\
                   buildMatch optionsB (Some (answer_of env query r)) = Some m) /\
    (forall rm del entries chunkId embedding metadata binding',
       ownerId metadata = A ->
       upsertChunkVector env (GlobalIndex rm del entries) chunkId embedding metadata
         = inr binding' ->
       exists entries',
         binding' = GlobalIndex rm del entries' /\
         exists r, In r entries' /\ vec_id r = chunkId /\
                   field (vec_metadata r) s_ownerId = Some A /\
                   field (vec_metadata r) s_ownerId <> Some B).
Proof.
  intros env A B query k HAB optionsB.
  split; [|split; [|split]].
  - intros entries chunkId embedding metadata binding' Hvis Hown Hup.
    unfold upsertChunkVector in Hup. rewrite isV2_namespaced in Hup.
    unfold index_upsert_namespaced in Hup. cbn [vec_values] in Hup.
    destruct (index_accepts env embedding); [|discriminate].
    injection Hup as <-. rewrite Hvis, Hown.
    unfold queryNamespace. rewrite isV2_namespaced.
    unfold index_query_namespaced.
    change (partitionForVisibility Private A) with (privateNamespace A).
    cbn [namespace optionsB private_query].
    rewrite put_namespaced_other; [reflexivity|].
    intros E. apply privateNamespace_inj in E. contradiction.
  - intros entries matches m Hq Hin.
    unfold queryNamespace in Hq. rewrite isV2_namespaced in Hq.
    unfold index_query_namespaced in Hq.
    destruct (index_accepts env (vector optionsB)); [|discriminate].
    injection Hq as <-.
    apply In_buildMatches in Hin. destruct Hin as (raw & Hraw & Hbuild).
    apply In_rank in Hraw. destruct Hraw as (r & Hr & ->).
    apply in_map_iff in Hr. destruct Hr as ([ns r'] & Heq & Hr). simpl in Heq. subst r'.
    apply filter_In in Hr. destruct Hr as [Hr Hns].
    unfold in_namespace in Hns. simpl in Hns. apply jsstring_eqb_eq in Hns. subst ns.
    exists r. split; [exact Hr|exact Hbuild].
  - intros rm del entries response Hq Hne.
    split.
    + unfold queryNamespace. rewrite isV2_global.
      change (vector optionsB) with query. change (topK optionsB) with k.
      change (namespace optionsB) with (privateNamespace B).
      rewrite Hq. destruct (buildMatches optionsB response); [contradiction|reflexivity].
    + intros m Hin.
      apply In_buildMatches in Hin. destruct Hin as (raw & Hraw & Hbuild).
      unfold index_query_global in Hq.
      destruct (index_accepts env query); [|discriminate].
      injection Hq as <-.
      apply In_rank in Hraw. destruct Hraw as (r & Hr & ->).
      apply filter_In in Hr. destruct Hr as [Hr Hsat].
      rewrite filterFromNamespace_private in Hsat.
      apply satisfies_private in Hsat. destruct Hsat as [Hv Ho].
      destruct (buildMatch_reports _ _ _ _ _ _ _ Hv Ho Hbuild) as [Hmv Hmo].
      split; [exact Hmv|]. split; [exact Hmo|].
      exists r. auto.
  - intros rm del entries chunkId embedding metadata binding' Hown Hup.
    unfold upsertChunkVector in Hup. rewrite isV2_global in Hup.
    unfold index_upsert_global in Hup. cbn [vec_values] in Hup.
    destruct (index_accepts env embedding); [|discriminate].
    injection Hup as <-. eexists. split; [reflexivity|].
    set (r := {| vec_id := chunkId; vec_values := embedding;
                 vec_metadata := Some (stored_of metadata) |}).
    exists r. split.
    { clear. induction entries as [|r' entries IH]; cbn [put_global]; [now left|].
      destruct (jsstring_eqb _ _); [now left|now right]. }
    split; [reflexivity|].
    simpl. rewrite Hown. split; [reflexivity|].
    intros E. apply HAB. now injection E.
Qed.

Lemma private_namespace_isolation_witness :
  alice <> bob /\
  queryNamespace (test_env FetchRejected FetchRejected)
    (NamespacedIndex [(privateNamespace alice,
                       {| vec_id := str "c1"; vec_values := unit_vector;
                          vec_metadata := Some (stored_of (private_metadata "c1" alice)) |})])
    (private_query bob unit_vector 8)
  = queryNamespace (test_env FetchRejected FetchRejected) (NamespacedIndex [])
      (private_query bob unit_vector 8) /\
  queryNamespace (test_env FetchRejected FetchRejected) (GlobalIndex true true shared_index)
    (private_query bob unit_vector 8)
  = inr [ {| metadata := private_metadata "c2" bob; score := 1 |} ].
Proof.
  assert (H : alice <> bob) by discriminate.
  pose proof (private_namespace_isolation (test_env FetchRejected FetchRejected)
                alice bob unit_vector 8 H) as (HA & _ & HB & _).
  split; [exact H|]. split.
  - apply (HA [] (str "c1") unit_vector (private_metadata "c1" alice)); reflexivity.
  - refine (proj1 (HB true true shared_index
                     [answer_of (test_env FetchRejected FetchRejected) unit_vector
                        {| vec_id := str "c2"; vec_values := unit_vector;
                           vec_metadata := Some (stored_of (private_metadata "c2" bob)) |}]
                     _ _)).
    + vm_compute. reflexivity.
    + vm_compute. discriminate.
Defined.

End VectorizeTheorems.

(** * Normalization of embedding responses *)

Module NormalizeTheorems.
Import Js BasicFacts Examples Ingest.

Lemma map_all_embedding data :
  Forall (fun d => nullish d = false) data ->
  OpenAI.map_all OpenAI.embedding_of data = Some (map (fun d => prop d "embedding") data).
Proof.
  induction 1 as [|d data Hd _ IH]; simpl; [reflexivity|].
  unfold OpenAI.embedding_of at 1. rewrite Hd. now rewrite IH.
Qed.

(** C9 as stated fails in both directions: a list whose first element is a
    numeric list is passed through whatever follows it, and an empty list,
    which is vacuously a list of numeric lists, is refused. *)
Lemma normalizeEmbeddings_shapes_not_exact :
  (known_shape (VArr [VArr [VNum 1]; VStr (str "x")]) = false /\
   normalizeEmbeddings (VArr [VArr [VNum 1]; VStr (str "x")])
     = inr [VArr [VNum 1]; VStr (str "x")]) /\
  (known_shape (VArr []) = true /\ normalizeEmbeddings (VArr []) = inl UNKNOWN_FORMAT).
Proof. repeat split. Qed.

Lemma map_all_null data :
  Exists (fun d => nullish d = true) data ->
  OpenAI.map_all OpenAI.embedding_of data = None.
Proof.
  induction data as [|d data IH]; intros H; inversion H; subst; simpl.
  - unfold OpenAI.embedding_of. now rewrite H1.
  - destruct (OpenAI.embedding_of d); [|reflexivity]. now rewrite IH.
Qed.

Lemma prop_is_of_object v k : prop v k <> VUndefined -> exists fields, v = VObj fields.
Proof. destruct v; simpl; try congruence. eauto. Qed.

Lemma isArray_items v : isArray v = true -> v = VArr (items v).
Proof. destruct v; simpl; try discriminate. reflexivity. Qed.

Lemma isArray_prop v k : isArray (prop v k) = true -> exists fields, v = VObj fields.
Proof.
  intros H. apply (prop_is_of_object v k). intros E. rewrite E in H. discriminate.
Qed.

(** C9, amended.  Both normalizers look only at the value, at its [data]
    and [vectors] properties and at their first element, and try four forms
    in this order.  [normalizeEmbeddings]: an object with a [data] list
    gives the [embedding] field of every item in order, and a [TypeError]
    when an item is [null] or [undefined]; a list whose first element is a
    list is returned as it is; a list whose first element is a number is
    wrapped as one vector; an object with a [vectors] list and no [data]
    list gives that list.  [normalizeQuestionEmbedding]: a [data] list whose
    first item has a truthy [embedding] gives it; a list whose first element
    is a list gives that element; a list whose first element is a number is
    returned as it is; otherwise a [vectors] list whose first element is a
    list gives that element.  Each throws its explicit error exactly when
    none of its four tests passes: the empty list for both, a [vectors] list
    of numbers for the second only. *)
Theorem normalizeEmbeddings_shapes :
  ((forall fields data,
      prop (VObj fields) "data" = VArr data ->
      (Forall (fun d => nullish d = false) data ->
       normalizeEmbeddings (VObj fields) = inr (map (fun d => prop d "embedding") data)) /\
      (Exists (fun d => nullish d = true) data ->
       normalizeEmbeddings (VObj fields) = inl TypeError)) /\
   (forall v rest, normalizeEmbeddings (VArr (VArr v :: rest)) = inr (VArr v :: rest)) /\
   (forall q rest,
      normalizeEmbeddings (VArr (VNum q :: rest)) = inr [VArr (VNum q :: rest)]) /\
   (forall fields vectors,
      isArray (prop (VObj fields) "data") = false ->
      prop (VObj fields) "vectors" = VArr vectors ->
      normalizeEmbeddings (VObj fields) = inr vectors) /\
   (forall v, normalizeEmbeddings v = inl UNKNOWN_FORMAT <-> sniffed v = false) /\
   (forall v,
      sniffed v = true ->
      (exists fields data, v = VObj fields /\ prop v "data" = VArr data) \/
      (exists x rest, v = VArr (x :: rest) /\ (isArray x = true \/ isNumber x = true)) \/
      (exists fields vectors,
         v = VObj fields /\ isArray (prop v "data") = false /\
         prop v "vectors" = VArr vectors))) /\
  ((forall fields d data,
      prop (VObj fields) "data" = VArr (d :: data) ->
      truthy (prop d "embedding") = true ->
      Chat.normalizeQuestionEmbedding (VObj fields) = inr (prop d "embedding")) /\
   (forall v rest, Chat.normalizeQuestionEmbedding (VArr (VArr v :: rest)) = inr (VArr v)) /\
   (forall q rest,
      Chat.normalizeQuestionEmbedding (VArr (VNum q :: rest)) = inr (VArr (VNum q :: rest))) /\
   (forall fields v rest,
      isArray (prop (VObj fields) "data")
        && truthy (prop (first (prop (VObj fields) "data")) "embedding") = false ->
      prop (VObj fields) "vectors" = VArr (VArr v :: rest) ->
      Chat.normalizeQuestionEmbedding (VObj fields) = inr (VArr v)) /\
   (forall v,
      Chat.normalizeQuestionEmbedding v = inl UNKNOWN_QUESTION_FORMAT <->
      sniffed_question v = false) /\
   (forall v, sniffed_question v = true ->
              exists e, Chat.normalizeQuestionEmbedding v = inr e) /\
   (forall v,
      sniffed_question v = true ->
      (exists fields d data,
         v = VObj fields /\ prop v "data" = VArr (d :: data) /\
         truthy (prop d "embedding") = true) \/
      (exists x rest, v = VArr (x :: rest) /\ (isArray x = true \/ isNumber x = true)) \/
      (exists fields x rest,
         v = VObj fields /\
         isArray (prop v "data") && truthy (prop (first (prop v "data")) "embedding") = false /\
         prop v "vectors" = VArr (VArr x :: rest)))) /\
  (forall q rest,
     normalizeEmbeddings (VObj [(str "vectors", VArr (VNum q :: rest))])
       = inr (VNum q :: rest) /\
     Chat.normalizeQuestionEmbedding (VObj [(str "vectors", VArr (VNum q :: rest))])
       = inl UNKNOWN_QUESTION_FORMAT) /\
  (normalizeEmbeddings (VArr []) = inl UNKNOWN_FORMAT /\
   Chat.normalizeQuestionEmbedding (VArr []) = inl UNKNOWN_QUESTION_FORMAT).
Proof.
  split; [|split].
  - split; [|split; [|split; [|split; [|split]]]].
    + intros fields data Hdata. unfold normalizeEmbeddings. rewrite Hdata. simpl. split.
      * intros Hall. now rewrite map_all_embedding.
      * intros Hnull. now rewrite map_all_null.
    + reflexivity.
    + reflexivity.
    + intros fields vectors Hdata Hvec. unfold normalizeEmbeddings.
      rewrite Hdata, Hvec. reflexivity.
    + intros v. unfold normalizeEmbeddings, sniffed, UNKNOWN_FORMAT.
      destruct (truthy v && isArray (prop v "data")) eqn:E1.
      * simpl. destruct (OpenAI.map_all _ _); split; discriminate.
      * destruct (isArray v && isArray (first v)) eqn:E2.
        -- apply andb_true_iff in E2. destruct E2 as [-> ->]. simpl. split; discriminate.
        -- destruct (isArray v && isNumber (first v)) eqn:E3.
           ++ apply andb_true_iff in E3. destruct E3 as [-> ->]. simpl.
              rewrite orb_true_r. split; discriminate.
           ++ assert (E23 : isArray v && (isArray (first v) || isNumber (first v)) = false).
              { destruct (isArray v); simpl in *; [now rewrite E2, E3|reflexivity]. }
              rewrite E23. simpl.
              destruct (truthy v && isArray (prop v "vectors")); split; congruence.
    + intros v. unfold sniffed. intros H.
      destruct (isArray (prop v "data")) eqn:Hdata.
      { left. destruct (isArray_prop _ _ Hdata) as [fields ->].
        exists fields, (items (prop (VObj fields) "data")).
        split; [reflexivity|]. now apply isArray_items. }
      rewrite andb_false_r in H. cbn [orb] in H.
      apply orb_true_iff in H. destruct H as [H|H].
      * right. left. apply andb_true_iff in H. destruct H as [Harr Hfirst].
        destruct v as [| | | | |l|]; try discriminate.
        destruct l as [|x rest]; [discriminate|].
        exists x, rest. split; [reflexivity|]. now apply orb_true_iff in Hfirst.
      * right. right. apply andb_true_iff in H. destruct H as [_ Hvec].
        destruct (isArray_prop _ _ Hvec) as [fields ->].
        exists fields, (items (prop (VObj fields) "vectors")).
        split; [reflexivity|]. split; [first [exact Hdata|reflexivity]|]. now apply isArray_items.
  - split; [|split; [|split; [|split; [|split; [|split]]]]].
    + intros fields d data Hdata Htruthy. unfold Chat.normalizeQuestionEmbedding.
      rewrite Hdata. unfold first. cbn [items nth truthy isArray andb].
      now rewrite Htruthy.
    + reflexivity.
    + reflexivity.
    + intros fields v rest Hdata Hvec. unfold Chat.normalizeQuestionEmbedding.
      cbn [truthy isArray andb] in *. rewrite Hdata, Hvec. reflexivity.
    + intros v. unfold Chat.normalizeQuestionEmbedding, sniffed_question,
        UNKNOWN_QUESTION_FORMAT.
      destruct (truthy v && isArray (prop v "data")
                && truthy (prop (first (prop v "data")) "embedding")) eqn:E1.
      * simpl. split; discriminate.
      * destruct (isArray v && isArray (first v)) eqn:E2.
        -- apply andb_true_iff in E2. destruct E2 as [-> ->]. simpl. split; discriminate.
        -- destruct (isArray v && isNumber (first v)) eqn:E3.
           ++ apply andb_true_iff in E3. destruct E3 as [-> ->]. simpl.
              rewrite orb_true_r. split; discriminate.
           ++ assert (E23 : isArray v && (isArray (first v) || isNumber (first v)) = false).
              { destruct (isArray v); simpl in *; [now rewrite E2, E3|reflexivity]. }
              rewrite E23. simpl.
              destruct (truthy v && isArray (prop v "vectors")
                        && isArray (first (prop v "vectors"))); split; congruence.
    + intros v. unfold Chat.normalizeQuestionEmbedding, sniffed_question.
      destruct (truthy v && isArray (prop v "data")
                && truthy (prop (first (prop v "data")) "embedding")); [eauto|].
      destruct (isArray v && isArray (first v)) eqn:E2; [eauto|].
      destruct (isArray v && isNumber (first v)) eqn:E3; [eauto|].
      assert (E23 : isArray v && (isArray (first v) || isNumber (first v)) = false).
      { destruct (isArray v); simpl in *; [now rewrite E2, E3|reflexivity]. }
      rewrite E23. simpl.
      destruct (truthy v && isArray (prop v "vectors")
                && isArray (first (prop v "vectors"))); [eauto|discriminate].
    + intros v. unfold sniffed_question. intros H.
      destruct (isArray (prop v "data")
                && truthy (prop (first (prop v "data")) "embedding")) eqn:Hdata.
      { left. apply andb_true_iff in Hdata. destruct Hdata as [Hdata Htruthy].
        destruct (isArray_prop _ _ Hdata) as [fields ->].
        pose proof (isArray_items _ Hdata) as Hitems.
        destruct (items (prop (VObj fields) "data")) as [|d data] eqn:Hlist.
        - unfold first in Htruthy. rewrite Hlist in Htruthy. discriminate.
        - exists fields, d, data. split; [reflexivity|]. split; [exact Hitems|].
          unfold first in Htruthy. now rewrite Hlist in Htruthy. }
      rewrite <- andb_assoc, Hdata, andb_false_r in H. cbn [orb] in H.
      apply orb_true_iff in H. destruct H as [H|H].
      * right. left. apply andb_true_iff in H. destruct H as [Harr Hfirst].
        destruct v as [| | | | |l|]; try discriminate.
        destruct l as [|x rest]; [discriminate|].
        exists x, rest. split; [reflexivity|]. now apply orb_true_iff in Hfirst.
      * right. right. apply andb_true_iff in H. destruct H as [H Hfirst].
        apply andb_true_iff in H. destruct H as [_ Hvec].
        destruct (isArray_prop _ _ Hvec) as [fields ->].
        pose proof (isArray_items _ Hvec) as Hitems.
        destruct (items (prop (VObj fields) "vectors")) as [|x rest] eqn:Hlist.
        { unfold first in Hfirst. rewrite Hlist in Hfirst. discriminate. }
        unfold first in Hfirst. rewrite Hlist in Hfirst. cbn [nth] in Hfirst.
        destruct x as [| | | | |x|]; try discriminate.
        exists fields, x, rest. split; [reflexivity|].
        split; [first [exact Hdata|reflexivity]|exact Hitems].
  - split; [intros q rest; split; reflexivity|split; reflexivity].
Qed.

Lemma normalizeEmbeddings_shapes_witness :
  normalizeEmbeddings
    (VObj [(str "data", VArr [VObj [(str "embedding", VArr [VNum 1; VNum 2])];
                              VObj [(str "embedding", VArr [VNum 3; VNum 4])]])])
  = inr [VArr [VNum 1; VNum 2]; VArr [VNum 3; VNum 4]] /\
  normalizeEmbeddings (VObj [(str "data", VArr [VNull])]) = inl TypeError /\
  normalizeEmbeddings
    (VObj [(str "data", VArr [VObj [(str "embedding", VArr [VNum 1])]]);
           (str "vectors", VArr [VArr [VNum 2]])])
  = inr [VArr [VNum 1]] /\
  Chat.normalizeQuestionEmbedding
    (VObj [(str "data", VArr [VObj [(str "embedding", VArr [VNum 1; VNum 2])]])])
  = inr (VArr [VNum 1; VNum 2]) /\
  Chat.normalizeQuestionEmbedding
    (VObj [(str "data", VArr []); (str "vectors", VArr [VArr [VNum 2]; VArr [VNum 3]])])
  = inr (VArr [VNum 2]).
Proof.
  destruct normalizeEmbeddings_shapes as ((Hdata & _) & (Hfirst & _ & _ & Hvectors & _) & _).
  split; [|split; [|split; [|split]]].
  - apply (proj1 (Hdata
             [(str "data", VArr [VObj [(str "embedding", VArr [VNum 1; VNum 2])];
                                 VObj [(str "embedding", VArr [VNum 3; VNum 4])]])]
             [VObj [(str "embedding", VArr [VNum 1; VNum 2])];
              VObj [(str "embedding", VArr [VNum 3; VNum 4])]] eq_refl)).
    repeat constructor.
  - apply (proj2 (Hdata [(str "data", VArr [VNull])] [VNull] eq_refl)).
    now constructor.
  - apply (proj1 (Hdata
             [(str "data", VArr [VObj [(str "embedding", VArr [VNum 1])]]);
              (str "vectors", VArr [VArr [VNum 2]])]
             [VObj [(str "embedding", VArr [VNum 1])]] eq_refl)).
    repeat constructor.
  - apply (Hfirst
             [(str "data", VArr [VObj [(str "embedding", VArr [VNum 1; VNum 2])]])]
             (VObj [(str "embedding", VArr [VNum 1; VNum 2])]) [] eq_refl).
    reflexivity.
  - apply (Hvectors
             [(str "data", VArr []); (str "vectors", VArr [VArr [VNum 2]; VArr [VNum 3]])]
             [VNum 2] [VArr [VNum 3]]); reflexivity.
Defined.

End NormalizeTheorems.

(** * The ingestion orchestrator *)

Module IngestTheorems.
Import Js BasicFacts Examples Ingest.

Lemma createEmbeddings_of_provider env input payload vectors :
  falsy (OPENAI_API_KEY env) = false ->
  fetch_embeddings env (orElse (OPENAI_EMBEDDING_MODEL env) (str "text-embedding-3-small"))
    input = OkJson payload ->
  provider_returns payload vectors ->
  OpenAI.createEmbeddings env input = inr (VArr (map vector_value vectors)).
Proof.
  intros Hkey Hfetch (Hpayload & data & Hdata & Hitems).
  unfold OpenAI.createEmbeddings. rewrite Hkey, Hfetch, Hpayload, Hdata.
  assert (Hall : OpenAI.map_all OpenAI.embedding_of data = Some (map vector_value vectors)).
  { clear Hdata. induction Hitems as [|d v data vectors [Hd He] _ IH];
      cbn [OpenAI.map_all map]; [reflexivity|].
    unfold OpenAI.embedding_of at 1. rewrite Hd, He, IH. reflexivity. }
  now rewrite Hall.
Qed.

Lemma normalizeEmbeddings_of_vectors vectors :
  normalizeEmbeddings (VArr (map vector_value vectors)) =
  match vectors with
  | [] => inl UNKNOWN_FORMAT
  | _ => inr (map vector_value vectors)
  end.
Proof. destruct vectors; reflexivity. Qed.

(** C6 as stated fails when the provider returns no vector at all: the
    one-chunk example file is then refused with the parse error, not with the
    count-mismatch error. *)
Lemma zero_vectors_is_not_a_count_mismatch :
  let env := test_env (embeddings_reply []) FetchRejected in
  provider_returns (VObj [(str "object", VStr (str "list")); (str "data", VArr [])]) [] /\
  (exists chunk,
     Chunk.chunkText 28 ChunkSpec.example_source
       {| Chunk.chunkSize := 1200; Chunk.overlap := 200 |} = Some (inr [chunk])) /\
  ingestFileById 28 env (str "file-1") (str "user-1") example_world
    = Some (example_world,
            inl (HTTPException 500
                   (FailedToParseEmbeddings
                      (Text "Embedding response not in a known format")))) /\
  ingestFileById 28 env (str "file-1") (str "user-1") example_world
    <> Some (example_world, inl (HTTPException 500 (EmbeddingCountMismatch 0 1))).
Proof.
  split; [|split; [|split]].
  - split; [reflexivity|]. exists []. split; [reflexivity|constructor].
  - eexists. vm_compute. reflexivity.
  - vm_compute. reflexivity.
  - vm_compute. discriminate.
Qed.

(** C6, amended: when the file chunks to [n] chunks and the provider returns
    [m <> n] vectors, [ingestFileById] fails with status 500 and leaves every
    store as it was: with the count-mismatch error when [m >= 1], with the
    parse error when [m = 0].  The embeddings are never cut or padded. *)
Theorem count_mismatch_is_fatal :
  forall fuel env fileId actingUserId w file text chunks payload vectors,
    Db.getFileById fileId w = (w, inr (Some file)) ->
    file_owner_id (fw_file file) = actingUserId ->
    Db.getObjectText (file_r2_key (fw_file file)) w = (w, inr (Some text)) ->
    Chunk.chunkText fuel text
      {| Chunk.chunkSize := parseNumber (CHUNK_SIZE env) 1500;
         Chunk.overlap := parseNumber (CHUNK_OVERLAP env) 200 |} = Some (inr chunks) ->
    chunks <> [] ->
    falsy (OPENAI_API_KEY env) = false ->
    fetch_embeddings env (orElse (OPENAI_EMBEDDING_MODEL env) (str "text-embedding-3-small"))
      (map Chunk.content chunks) = OkJson payload ->
    provider_returns payload vectors ->
    len vectors <> len chunks ->
    ingestFileById fuel env fileId actingUserId w
      = Some (w, inl (mismatch_failure vectors chunks)).
Proof.
  intros fuel env fileId actingUserId w file text chunks payload vectors
    Hfile Howner Hobject Hchunks Hne Hkey Hfetch Hprov Hlen.
  unfold ingestFileById. rewrite Hfile, Howner, jsstring_eqb_refl. simpl negb. cbv iota.
  rewrite Hobject, Hchunks.
  destruct chunks as [|c chunks]; [congruence|].
  unfold embedChunks.
  rewrite (createEmbeddings_of_provider _ _ _ _ Hkey Hfetch Hprov).
  rewrite normalizeEmbeddings_of_vectors.
  destruct vectors as [|v vectors]; [reflexivity|].
  assert (Hl : len (map vector_value (v :: vectors)) = len (v :: vectors)).
  { unfold len. now rewrite length_map. }
  rewrite Hl. destruct (Z.eqb_spec (len (v :: vectors)) (len (c :: chunks))); [contradiction|].
  reflexivity.
Qed.

Lemma count_mismatch_is_fatal_witness :
  ingestFileById 28 (test_env (embeddings_reply [[1; 1; 1]; [2; 2; 2]]%Q) FetchRejected)
    (str "file-1") (str "user-1") example_world
  = Some (example_world, inl (HTTPException 500 (EmbeddingCountMismatch 2 1))).
Proof.
  apply (count_mismatch_is_fatal 28
           (test_env (embeddings_reply [[1; 1; 1]; [2; 2; 2]]%Q) FetchRejected)
           (str "file-1") (str "user-1") example_world
           {| fw_file := example_file; fw_folder_name := str "My Space" |}
           ChunkSpec.example_source
           [ {| Chunk.content := ChunkSpec.example_source; Chunk.startLine := 1;
                Chunk.endLine := 3; Chunk.index := 0 |} ]
           (VObj [(str "object", VStr (str "list"));
                  (str "data",
                   VArr [VObj [(str "embedding", VArr [VNum 1; VNum 1; VNum 1])];
                         VObj [(str "embedding", VArr [VNum 2; VNum 2; VNum 2])]])])
           [[1; 1; 1]; [2; 2; 2]]%Q).
  - reflexivity.
  - reflexivity.
  - reflexivity.
  - vm_compute. reflexivity.
  - discriminate.
  - reflexivity.
  - reflexivity.
  - split; [reflexivity|]. eexists. split; [reflexivity|].
    repeat constructor.
  - vm_compute. discriminate.
Defined.

(** C7: [ingestFileById] either fails with every store unchanged, or it
    reached the replacement of the file's chunks and vectors, and then the
    embedding call, the normalization and the count check had all
    succeeded.  So when any of the three fails, the run is an error and the
    stored chunk records and vectors are the previous ones. *)
Theorem replacement_only_after_embeddings :
  forall fuel env fileId actingUserId w w' r,
    ingestFileById fuel env fileId actingUserId w = Some (w', r) ->
    (((exists e, r = inl e) /\ w' = w) \/
     (exists file text pieces raw embeddings,
        Db.getFileById fileId w = (w, inr (Some file)) /\
        Db.getObjectText (file_r2_key (fw_file file)) w = (w, inr (Some text)) /\
        Chunk.chunkText fuel text
          {| Chunk.chunkSize := parseNumber (CHUNK_SIZE env) 1500;
             Chunk.overlap := parseNumber (CHUNK_OVERLAP env) 200 |} = Some (inr pieces) /\
        OpenAI.createEmbeddings env (map Chunk.content pieces) = inr raw /\
        normalizeEmbeddings raw = inr embeddings /\
        len embeddings = len pieces /\
        (w', r) = replaceChunks env file pieces embeddings w)) /\
    (forall file text pieces,
       Db.getFileById fileId w = (w, inr (Some file)) ->
       Db.getObjectText (file_r2_key (fw_file file)) w = (w, inr (Some text)) ->
       Chunk.chunkText fuel text
         {| Chunk.chunkSize := parseNumber (CHUNK_SIZE env) 1500;
            Chunk.overlap := parseNumber (CHUNK_OVERLAP env) 200 |} = Some (inr pieces) ->
       (forall raw embeddings,
          OpenAI.createEmbeddings env (map Chunk.content pieces) = inr raw ->
          normalizeEmbeddings raw = inr embeddings ->
          len embeddings <> len pieces) ->
       (exists e, r = inl e) /\ chunks w' = chunks w /\
       MARBLE_VECTORS w' = MARBLE_VECTORS w).
Proof.
  intros fuel env fileId actingUserId w w' r Hrun.
  assert (Hmain :
    ((exists e, r = inl e) /\ w' = w) \/
    (exists file text pieces raw embeddings,
        Db.getFileById fileId w = (w, inr (Some file)) /\
        Db.getObjectText (file_r2_key (fw_file file)) w = (w, inr (Some text)) /\
        Chunk.chunkText fuel text
          {| Chunk.chunkSize := parseNumber (CHUNK_SIZE env) 1500;
             Chunk.overlap := parseNumber (CHUNK_OVERLAP env) 200 |} = Some (inr pieces) /\
        OpenAI.createEmbeddings env (map Chunk.content pieces) = inr raw /\
        normalizeEmbeddings raw = inr embeddings /\
        len embeddings = len pieces /\
        (w', r) = replaceChunks env file pieces embeddings w)).
  { unfold ingestFileById in Hrun.
    destruct (Db.getFileById fileId w) as [w1 [e|[file|]]] eqn:Hfile;
      try (injection Hrun as <- <-; left; eauto).
    assert (w1 = w) by (unfold Db.getFileById, gets in Hfile; congruence). subst w1.
    destruct (negb _); [injection Hrun as <- <-; left; eauto|].
    destruct (Db.getObjectText _ w) as [w2 [e|[text|]]] eqn:Hobject;
      try (injection Hrun as <- <-; left; eauto).
    assert (w2 = w) by (unfold Db.getObjectText, gets in Hobject; congruence). subst w2.
    destruct (Chunk.chunkText fuel text _) as [[[]|pieces]|] eqn:Hchunks;
      [injection Hrun as <- <-; left; eauto| |discriminate].
    destruct pieces as [|c pieces]; [injection Hrun as <- <-; left; eauto|].
    destruct (embedChunks env (c :: pieces)) as [e|embeddings] eqn:Hembed;
      [injection Hrun as <- <-; left; eauto|].
    injection Hrun as Hreplace.
    right. unfold embedChunks in Hembed.
    destruct (OpenAI.createEmbeddings env _) as [e|raw] eqn:Hraw.
    { destruct (isOpenAIError e); discriminate. }
    destruct (normalizeEmbeddings raw) as [e|embeddings'] eqn:Hnorm; [discriminate|].
    destruct (Z.eqb_spec (len embeddings') (len (c :: pieces))) as [Heq|]; [|discriminate].
    injection Hembed as <-.
    exists file, text, (c :: pieces), raw, embeddings'. repeat split; auto. }
  split; [exact Hmain|].
  intros file text pieces Hfile Hobject Hchunks Hfail.
  destruct Hmain as [[He ->]|Hdone]; [auto|].
  destruct Hdone as (file' & text' & pieces' & raw & embeddings & Hfile' & Hobject' &
                     Hchunks' & Hraw & Hnorm & Hlen & _).
  rewrite Hfile in Hfile'. injection Hfile' as <-.
  rewrite Hobject in Hobject'. injection Hobject' as <-.
  rewrite Hchunks in Hchunks'. injection Hchunks' as <-.
  exfalso. exact (Hfail raw embeddings Hraw Hnorm Hlen).
Qed.

Lemma replacement_only_after_embeddings_witness :
  let env := test_env (embeddings_reply [[1; 1; 1]]%Q) FetchRejected in
  ingestFileById 28 env (str "file-1") (str "user-1") example_world
    = Some (example_world_ingested, inr 1) /\
  (((exists e, @inr Failure Z 1 = inl e) /\ example_world_ingested = example_world) \/
   (exists file text pieces raw embeddings,
      Db.getFileById (str "file-1") example_world = (example_world, inr (Some file)) /\
      Db.getObjectText (file_r2_key (fw_file file)) example_world
        = (example_world, inr (Some text)) /\
      Chunk.chunkText 28 text
        {| Chunk.chunkSize := parseNumber (CHUNK_SIZE env) 1500;
           Chunk.overlap := parseNumber (CHUNK_OVERLAP env) 200 |} = Some (inr pieces) /\
      OpenAI.createEmbeddings env (map Chunk.content pieces) = inr raw /\
      normalizeEmbeddings raw = inr embeddings /\
      len embeddings = len pieces /\
      (example_world_ingested, inr 1) = replaceChunks env file pieces embeddings example_world)).
Proof.
  intros env.
  assert (Hrun : ingestFileById 28 env (str "file-1") (str "user-1") example_world
                 = Some (example_world_ingested, inr 1)) by (vm_compute; reflexivity).
  split; [exact Hrun|].
  exact (proj1 (replacement_only_after_embeddings 28 env (str "file-1") (str "user-1")
                  example_world example_world_ingested (inr 1) Hrun)).
Defined.

End IngestTheorems.

(** * The chat route: what each step changes *)

Module ChatFacts.
Import Js BasicFacts Examples Chat.

Lemma retrieve_reads_only env uid q w w1 r :
  retrieve env uid q w = (w1, r) -> w1 = w.
Proof.
  unfold retrieve, bind, lift, gets, ret.
  destruct (match _ with inl e => inl _ | inr embedding => inr embedding end);
    intros [= <- _]; reflexivity.
Qed.

Lemma resolveContexts_reads_only matches w w1 r :
  resolveContexts matches w = (w1, r) -> w1 = w /\ exists contexts, r = inr contexts.
Proof.
  unfold resolveContexts, bind, Db.getChunksByIds.
  destruct (map chunkIdOf matches); unfold ret, gets; intros [= <- <-]; eauto.
Qed.

Lemma nothingRelevant_run env w :
  nothingRelevant env w =
  (with_uuids_drawn (S (uuids_drawn w)) w,
   inr (nothing_relevant_response (randomUUID env (uuids_drawn w)))).
Proof. reflexivity. Qed.

Lemma callResponses_effect env body w w' res :
  OpenAI.callResponses env body w = (w', res) ->
  messages w' = messages w /\ uuids_drawn w' = uuids_drawn w /\
  ((responses_sent w' = responses_sent w /\ exists e, res = inl e) \/
   responses_sent w' = responses_sent w ++ [body]).
Proof.
  unfold OpenAI.callResponses.
  destruct (falsy (OPENAI_API_KEY env)).
  - unfold throw. intros [= <- <-]. split; [reflexivity|]. split; [reflexivity|]. left. eauto.
  - unfold bind, modify, throw, lift.
    destruct (fetch_responses env body); intros [= <- _]; simpl; auto.
Qed.

Lemma recordChat_effect data w w' res :
  Db.recordChat data w = (w', res) ->
  (w' = w /\ res = inl StoreError) \/
  (w' = with_messages (messages w ++ [data]) w /\ res = inr tt).
Proof.
  unfold Db.recordChat. destruct (existsb _ _); intros [= <- <-]; auto.
Qed.

Lemma answerFreeform_records env uid q w w' r :
  answerFreeform env uid q w = (w', r) -> recorded_with_request w w'.
Proof.
  unfold answerFreeform, bind at 1, freshUUID. unfold bind at 1.
  destruct (OpenAI.generateGeneralAnswer env q _) as [w1 [e|structured]] eqn:Hcall.
  - apply callResponses_effect in Hcall. destruct Hcall as (Hm & _).
    intros [= <- _]. left. exact Hm.
  - apply callResponses_effect in Hcall. destruct Hcall as (Hm & _ & [[_ [e He]]|Hsent]);
      [discriminate|].
    unfold bind. destruct (Db.recordChat _ w1) as [w2 [e|[]]] eqn:Hrec;
      apply recordChat_effect in Hrec; destruct Hrec as [[-> Hr]|[-> Hr]]; try discriminate.
    + intros [= <- _]. left. exact Hm.
    + unfold ret. intros [= <- _]. right. simpl. rewrite Hm. simpl in Hsent.
      eauto.
Qed.

Lemma answerLookup_records env uid rawQuestion q w w' r :
  answerLookup env uid rawQuestion q w = (w', r) -> recorded_with_request w w'.
Proof.
  unfold answerLookup, bind at 1.
  destruct (retrieve env uid q w) as [w1 [e|matches]] eqn:Hret;
    apply retrieve_reads_only in Hret; subst w1.
  - intros [= <- _]. now left.
  - destruct (map chunkIdOf matches) eqn:Hids.
    + rewrite nothingRelevant_run. intros [= <- _]. now left.
    + unfold bind at 1.
      destruct (resolveContexts matches w) as [w2 rc] eqn:Hres.
      apply resolveContexts_reads_only in Hres. destruct Hres as (-> & contexts & ->).
      destruct contexts as [|cxt contexts].
      * rewrite nothingRelevant_run. intros [= <- _]. now left.
      * unfold bind at 1.
        destruct (OpenAI.generateStructuredAnswer env q _ w) as [w3 [e|structured]] eqn:Hcall;
          cbn [map OpenAI.generateStructuredAnswer] in Hcall;
          apply callResponses_effect in Hcall.
        -- destruct Hcall as (Hm & _). intros [= <- _]. left. exact Hm.
        -- destruct Hcall as (Hm & _ & [[_ [e He]]|Hsent]); [discriminate|].
           unfold bind at 1, freshUUID. unfold bind at 1.
           destruct (Db.recordChat _ _) as [w4 [e|[]]] eqn:Hrec;
             apply recordChat_effect in Hrec; destruct Hrec as [[-> Hr]|[-> Hr]];
             try discriminate.
           ++ intros [= <- _]. left. exact Hm.
           ++ unfold ret. intros [= <- _]. right. simpl. rewrite Hm. eauto.
Qed.

Lemma handleChat_records env uid requestBody w w' r :
  handleChat env uid requestBody w = (w', r) -> recorded_with_request w w'.
Proof.
  unfold handleChat.
  destruct requestBody as [body|]; [|intros [= <- _]; now left].
  destruct (chatInput body) as [question|]; [|intros [= <- _]; now left].
  destruct (trim question) as [|c rawQuestion] eqn:Htrim; [intros [= <- _]; now left|].
  destruct (lookupMatch (c :: rawQuestion)) as [captured|].
  - destruct (trim captured) as [|c' lookupQuery]; [intros [= <- _]; now left|].
    apply answerLookup_records.
  - apply answerFreeform_records.
Qed.

End ChatFacts.

Module ChatTheorems.
Import Js BasicFacts Examples Chat ChatFacts.

Lemma normalizeChatResult_citations candidate result :
  OpenAI.normalizeChatResult candidate = Some (Some result) ->
  OpenAI.citations result
    = filter OpenAI.citation_ok (items (prop candidate "citations")).
Proof.
  unfold OpenAI.normalizeChatResult.
  destruct (nullish candidate); [discriminate|].
  destruct (falsy _ && negb _); [discriminate|].
  intros [= <-]. simpl.
  destruct (prop candidate "citations"); reflexivity.
Qed.

Lemma normalizeChatResult_ok candidate result :
  OpenAI.normalizeChatResult candidate = Some (Some result) ->
  Forall (fun c => OpenAI.citation_ok c = true) (OpenAI.citations result).
Proof.
  intros H. rewrite (normalizeChatResult_citations _ _ H).
  apply Forall_forall. intros x Hx. apply filter_In in Hx. apply Hx.
Qed.

Lemma extract_from_objects_ok objects result :
  OpenAI.extract_from_objects objects = Some result ->
  Forall (fun c => OpenAI.citation_ok c = true) (OpenAI.citations result).
Proof.
  induction objects as [|candidate rest IH]; simpl; [discriminate|].
  destruct (truthy candidate && typeofObject candidate); [|exact IH].
  destruct (OpenAI.normalizeChatResult candidate) as [[res|]|] eqn:E; try exact IH.
  intros [= <-]. eapply normalizeChatResult_ok; eauto.
Qed.

Lemma extract_from_strings_ok env strings result :
  OpenAI.extract_from_strings env strings = Some result ->
  Forall (fun c => OpenAI.citation_ok c = true) (OpenAI.citations result).
Proof.
  induction strings as [|text rest IH]; simpl; [discriminate|].
  destruct (match JSON_parse env text with
            | Some parsed => OpenAI.normalizeChatResult parsed
            | None => None
            end) as [[res|]|] eqn:E.
  - intros [= <-]. destruct (JSON_parse env text); [|discriminate].
    eapply normalizeChatResult_ok; eauto.
  - exact IH.
  - destruct (trim text); [exact IH|]. intros [= <-]. constructor.
Qed.

Lemma parseResponsesPayload_ok env payload result :
  OpenAI.parseResponsesPayload env payload = inr result ->
  Forall (fun c => OpenAI.citation_ok c = true) (OpenAI.citations result).
Proof.
  unfold OpenAI.parseResponsesPayload.
  destruct (nullish payload); [discriminate|].
  destruct (OpenAI.map_all _ _); [|discriminate].
  unfold OpenAI.extractChatResultFromCandidates.
  destruct (OpenAI.extract_from_objects _) as [res|] eqn:Eo.
  - intros [= <-]. eapply extract_from_objects_ok; eauto.
  - destruct (OpenAI.extract_from_strings env _) as [res|] eqn:Es.
    + intros [= <-]. eapply extract_from_strings_ok; eauto.
    + intros [= <-]. constructor.
Qed.

(** Whenever a freeform question is answered, the response carries the
    citations of the parsed model output, which are the well-formed items
    (objects with string [folder] and [file] and an array [lines]) of the
    [citations] array the model sent; its sources are empty. *)
Lemma handleChat_freeform_returns :
  forall env uid body question w w' response,
    chatInput body = Some question ->
    lookupMatch (trim question) = None ->
    handleChat env uid (Some body) w = (w', inr response) ->
    (exists payload result,
       fetch_responses env (general_request env (trim question)) = OkJson payload /\
       OpenAI.parseResponsesPayload env payload = inr result /\
       resp_citations response = OpenAI.citations result /\
       resp_answer response = OpenAI.answer result) /\
    Forall (fun c => OpenAI.citation_ok c = true) (resp_citations response) /\
    resp_sources response = [] /\
    (forall candidate result,
       OpenAI.normalizeChatResult candidate = Some (Some result) ->
       OpenAI.citations result
         = filter OpenAI.citation_ok (items (prop candidate "citations"))).
Proof.
  intros env uid body question w w' response Hinput Hfree Hrun.
  unfold handleChat in Hrun. rewrite Hinput in Hrun.
  destruct (trim question) as [|c rawQuestion] eqn:Htrim; [discriminate|].
  rewrite Hfree in Hrun.
  unfold answerFreeform, bind at 1, freshUUID in Hrun. unfold bind at 1 in Hrun.
  unfold OpenAI.generateGeneralAnswer, OpenAI.callResponses in Hrun.
  fold (general_request env (c :: rawQuestion)) in Hrun.
  destruct (falsy (OPENAI_API_KEY env)); [discriminate|].
  unfold bind at 1, modify in Hrun.
  destruct (fetch_responses env (general_request env (c :: rawQuestion)))
    as [| | payload |] eqn:Hfetch; try discriminate.
  unfold lift in Hrun.
  destruct (OpenAI.parseResponsesPayload env payload) as [e|result] eqn:Hparse;
    [discriminate|].
  unfold bind in Hrun.
  destruct (Db.recordChat _ _) as [w2 [e|[]]]; [discriminate|].
  unfold ret in Hrun. injection Hrun as _ <-. simpl.
  split; [|split; [|split]].
  - exists payload, result. auto.
  - eapply parseResponsesPayload_ok; eauto.
  - reflexivity.
  - apply normalizeChatResult_citations.
Qed.

(** C3 fails: [handleChat] does not empty the citations of a freeform
    answer.  For a question without the lookup command, let the model be
    reachable and its reply parse to a result with at least one citation
    (the prompt of [generateGeneralAnswer] asks for an empty array, yet the
    model is free to send one).  Then [handleChat] answers, and its response
    carries exactly these citations: a non-empty citation list next to
    empty sources, where the repository's chat test expects the empty list. *)
Theorem freeform_citations_are_not_emptied :
  forall env uid body question w payload result,
    chatInput body = Some question ->
    trim question <> [] ->
    lookupMatch (trim question) = None ->
    falsy (OPENAI_API_KEY env) = false ->
    fetch_responses env (general_request env (trim question)) = OkJson payload ->
    OpenAI.parseResponsesPayload env payload = inr result ->
    OpenAI.citations result <> [] ->
    ~ In (randomUUID env (uuids_drawn w)) (map msg_id (messages w)) ->
    exists w' response,
      handleChat env uid (Some body) w = (w', inr response) /\
      resp_citations response = OpenAI.citations result /\
      resp_citations response <> [] /\
      resp_sources response = [].
Proof.
  intros env uid body question w payload result
         Hinput Hquestion Hfree Hkey Hfetch Hparse Hcited Hfresh.
  unfold handleChat. rewrite Hinput.
  destruct (trim question) as [|c rawQuestion] eqn:Htrim; [congruence|].
  rewrite Hfree.
  unfold answerFreeform, bind at 1, freshUUID. unfold bind at 1.
  unfold OpenAI.generateGeneralAnswer, OpenAI.callResponses.
  fold (general_request env (c :: rawQuestion)).
  rewrite Hkey. unfold bind at 1, modify. rewrite Hfetch.
  unfold lift. rewrite Hparse. unfold bind, Db.recordChat.
  cbn [messages with_responses_sent with_uuids_drawn msg_id].
  assert (Hnew : existsb
                   (fun m => jsstring_eqb (msg_id m) (randomUUID env (uuids_drawn w)))
                   (messages w) = false).
  { apply not_true_is_false. intros Hex. apply existsb_exists in Hex.
    destruct Hex as (m & Hm & Hid). apply jsstring_eqb_eq in Hid.
    apply Hfresh. rewrite <- Hid. now apply in_map. }
  rewrite Hnew. unfold ret.
  eexists. eexists. split; [reflexivity|].
  cbn [resp_citations resp_sources]. auto.
Qed.

Lemma freeform_citations_are_not_emptied_witness :
  lookupMatch (trim (str "Hello there!")) = None /\
  exists w' response,
    handleChat citing_env (str "user-1") (Some (question_body "Hello there!")) example_world
      = (w', inr response) /\
    resp_citations response = [example_citation] /\
    resp_citations response <> [] /\
    resp_sources response = [].
Proof.
  split; [reflexivity|].
  apply (freeform_citations_are_not_emptied citing_env (str "user-1")
           (question_body "Hello there!") (str "Hello there!") example_world
           (match citing_reply with OkJson payload => payload | _ => VNull end)
           {| OpenAI.answer :=
                str "Hello! Marble lets the org chat with shared text files.";
              OpenAI.citations := [example_citation] |}).
  - reflexivity.
  - discriminate.
  - reflexivity.
  - reflexivity.
  - reflexivity.
  - vm_compute. reflexivity.
  - discriminate.
  - vm_compute. intros [].
Defined.

(** C10: a lookup that short-circuits, because no match is left or because
    no matched chunk id resolves to a stored chunk, returns the fixed
    "nothing relevant" response and stores no chat record (nor calls the
    language model); whenever [handleChat] stores a chat record, it has sent
    a request to the language model. *)
Theorem lookup_short_circuit_records_nothing :
  forall env uid requestBody w w' r,
    handleChat env uid requestBody w = (w', r) ->
    recorded_with_request w w' /\
    (forall body question captured matches,
       requestBody = Some body ->
       chatInput body = Some question ->
       lookupMatch (trim question) = Some captured ->
       trim captured <> [] ->
       retrieve env uid (trim captured) w = (w, inr matches) ->
       (matches = [] \/ resolveContexts matches w = (w, inr [])) ->
       r = inr (nothing_relevant_response (randomUUID env (uuids_drawn w))) /\
       messages w' = messages w /\
       responses_sent w' = responses_sent w).
Proof.
  intros env uid requestBody w w' r Hrun.
  split; [eapply handleChat_records; eauto|].
  intros body question captured matches -> Hinput Hlookup Hquery Hretrieve Hshort.
  unfold handleChat in Hrun. rewrite Hinput in Hrun.
  destruct (trim question) as [|c rawQuestion]; [discriminate|].
  rewrite Hlookup in Hrun.
  destruct (trim captured) as [|c' lookupQuery]; [congruence|].
  unfold answerLookup, bind at 1 in Hrun. rewrite Hretrieve in Hrun.
  assert (Hnothing : nothingRelevant env w = (w', r) ->
            r = inr (nothing_relevant_response (randomUUID env (uuids_drawn w))) /\
            messages w' = messages w /\ responses_sent w' = responses_sent w).
  { rewrite nothingRelevant_run. intros [= <- <-]. auto. }
  destruct (map chunkIdOf matches) eqn:Hids; [exact (Hnothing Hrun)|].
  destruct Hshort as [->|Hres]; [discriminate|].
  unfold bind at 1 in Hrun. rewrite Hres in Hrun. exact (Hnothing Hrun).
Qed.

Lemma lookup_short_circuit_records_nothing_witness :
  (handleChat lookup_env (str "user-1") (Some (question_body "/lookup What does Marble do?"))
     example_world
   = (with_uuids_drawn 1 example_world, inr (nothing_relevant_response (str "1"))) /\
   messages (with_uuids_drawn 1 example_world) = messages example_world /\
   responses_sent (with_uuids_drawn 1 example_world) = responses_sent example_world) /\
  (handleChat lookup_env (str "user-1") (Some (question_body "/lookup What does Marble do?"))
     dangling_world
   = (with_uuids_drawn 1 dangling_world, inr (nothing_relevant_response (str "1"))) /\
   messages (with_uuids_drawn 1 dangling_world) = messages dangling_world /\
   responses_sent (with_uuids_drawn 1 dangling_world) = responses_sent dangling_world).
Proof.
  split.
  - assert (Hrun : handleChat lookup_env (str "user-1")
                     (Some (question_body "/lookup What does Marble do?")) example_world
                   = (with_uuids_drawn 1 example_world,
                      inr (nothing_relevant_response (str "1"))))
      by (vm_compute; reflexivity).
    split; [exact Hrun|].
    apply (proj2 (lookup_short_circuit_records_nothing lookup_env (str "user-1") _
                    example_world _ _ Hrun)
             (question_body "/lookup What does Marble do?")
             (str "/lookup What does Marble do?") (str "What does Marble do?") []).
    + reflexivity.
    + reflexivity.
    + reflexivity.
    + discriminate.
    + vm_compute. reflexivity.
    + now left.
  - assert (Hrun : handleChat lookup_env (str "user-1")
                     (Some (question_body "/lookup What does Marble do?")) dangling_world
                   = (with_uuids_drawn 1 dangling_world,
                      inr (nothing_relevant_response (str "1"))))
      by (vm_compute; reflexivity).
    split; [exact Hrun|].
    eapply (proj2 (lookup_short_circuit_records_nothing lookup_env (str "user-1") _
                     dangling_world _ _ Hrun)
              (question_body "/lookup What does Marble do?")
              (str "/lookup What does Marble do?") (str "What does Marble do?")).
    + reflexivity.
    + reflexivity.
    + reflexivity.
    + discriminate.
    + vm_compute. reflexivity.
    + right. vm_compute. reflexivity.
Defined.

End ChatTheorems.

(** * The layout of the chunks *)

Module ChunkLayoutFacts.
Import Chunk ChunkSpec ChunkFacts ChunkLoopFacts ChunkLayout.

Lemma lineOf_all_above l c : Forall (fun o => c < o) l -> lineOf l c = 0.
Proof.
  induction 1 as [|x l Hx _ IH]; [reflexivity|].
  rewrite lineOf_cons, IH. destruct (Z.leb_spec x c); lia.
Qed.

Lemma lineOf_offsets_from : forall source base i,
  base <= i ->
  lineOf (buildLineOffsets_from base source) i
  = len (filter isNewline (firstn (Z.to_nat (i - base)) source)).
Proof.
  induction source as [|c rest IH]; intros base i Hle.
  - simpl. now rewrite firstn_nil.
  - destruct (Z.eq_dec i base) as [->|Hne].
    + rewrite Z.sub_diag. simpl firstn. simpl filter.
      apply lineOf_all_above.
      destruct (buildLineOffsets_from_sorted (c :: rest) base) as [_ H]. exact H.
    + replace (Z.to_nat (i - base)) with (S (Z.to_nat (i - (base + 1)))) by lia.
      cbn [firstn filter buildLineOffsets_from]. unfold isNewline at 1.
      destruct (char_eqb c NEWLINE).
      * rewrite lineOf_cons, len_cons, IH by lia.
        destruct (Z.leb_spec (base + 1) i); lia.
      * apply IH. lia.
Qed.

Lemma lineOf_lineNumber source i :
  0 <= i -> lineOf (buildLineOffsets source) i = lineNumber source i.
Proof.
  intros Hi. unfold buildLineOffsets, lineNumber.
  rewrite lineOf_cons, lineOf_offsets_from by lia.
  rewrite Z.sub_0_r. destruct (Z.leb_spec 0 i); lia.
Qed.

Lemma slice_clamped {A} (s : list A) a b :
  0 <= b -> slice s a (Z.min (len s) b) = slice s a b.
Proof.
  intros Hb. unfold slice, slice_index.
  pose proof (len_nonneg s).
  destruct (Z.ltb_spec (Z.min (len s) b) 0); [lia|].
  destruct (Z.ltb_spec b 0); [lia|].
  replace (Z.min (Z.min (len s) b) (len s)) with (Z.min b (len s)) by lia.
  reflexivity.
Qed.

Lemma windows_succ source options n :
  windows source options (S n)
  = window source options 0 :: map (fun k => window source options (Z.of_nat (S k))) (seq 0 n).
Proof.
  unfold windows. cbn [seq map]. f_equal. rewrite <- seq_shift, map_map. reflexivity.
Qed.

(** The loop from the start of window [idx] builds the windows from [idx]
    on, and stops at the first one that reaches the end of the source. *)
Lemma chunk_loop_windows source options :
  0 <= overlap options < chunkSize options ->
  forall fuel idx,
    0 <= idx -> windowStart options idx < len source ->
    len source - windowStart options idx <= Z.of_nat fuel ->
    exists n,
      chunk_loop fuel source (chunkSize options) (overlap options)
        (buildLineOffsets source) (windowStart options idx) idx []
      = Some (map (fun k => window source options (idx + Z.of_nat k)) (seq 0 (S n))) /\
      len source <= windowStart options (idx + Z.of_nat n) + chunkSize options /\
      forall k, idx <= k < idx + Z.of_nat n ->
                windowStart options k + chunkSize options < len source.
Proof.
  intros Hov. set (cs := chunkSize options). set (ov := overlap options).
  assert (Hstep : forall k, windowStart options (k + 1) = windowStart options k + (cs - ov)).
  { intros k. unfold windowStart. fold cs ov. lia. }
  induction fuel as [|fuel IH]; intros idx Hidx Hp Hfuel.
  - lia.
  - set (p := windowStart options idx) in *.
    assert (Hp0 : 0 <= p) by (unfold p, windowStart; fold cs ov; nia).
    cbn [chunk_loop].
    destruct (Z.ltb_spec p (len source)) as [_|]; [|lia].
    set (e := Z.min (len source) (p + cs)).
    assert (He : p < e <= len source) by (unfold e; lia).
    rewrite (locateLine_buildLineOffsets source p) by lia.
    destruct (Z.ltb_spec p e) as [_|]; [|lia].
    rewrite (locateLine_buildLineOffsets source (e - 1)) by lia.
    rewrite !lineOf_lineNumber by lia.
    assert (Hc : {| content := slice source p e; startLine := lineNumber source p;
                    endLine := lineNumber source (e - 1); index := idx |}
                 = window source options (idx + Z.of_nat 0)).
    { unfold window, windowEnd. rewrite Z.add_0_r. fold p cs. fold e.
      f_equal. unfold e. apply slice_clamped. lia. }
    rewrite Hc.
    destruct (Z.eqb_spec e (len source)) as [Hend|Hmore].
    + exists 0%nat. cbn [seq map app]. rewrite Z.add_0_r. fold p cs.
      split; [reflexivity|]. split; [unfold e in Hend; lia|]. intros k Hk. lia.
    + assert (Hepc : e = p + cs) by (unfold e; lia).
      rewrite Z.max_r by lia. rewrite chunk_loop_acc.
      replace (e - ov) with (windowStart options (idx + 1)) by (rewrite Hstep; fold p; lia).
      destruct (IH (idx + 1)) as (n & Hrun & Hlast & Hbefore).
      * lia.
      * rewrite Hstep. fold p. lia.
      * rewrite Hstep. fold p. lia.
      * rewrite Hrun. exists (S n). split; [|split].
        -- cbn [option_map app]. f_equal.
           change (seq 0 (S (S n))) with (0%nat :: seq 1 (S n)).
           cbn [map]. f_equal. rewrite <- seq_shift, map_map.
           apply map_ext. intros k. f_equal. lia.
        -- replace (idx + Z.of_nat (S n)) with (idx + 1 + Z.of_nat n) by lia. exact Hlast.
        -- intros k Hk. destruct (Z.eq_dec k idx) as [->|Hne].
           ++ fold p. lia.
           ++ apply Hbefore. lia.
Qed.

End ChunkLayoutFacts.

Module ChunkLayoutTheorems.
Import Chunk ChunkSpec ChunkFacts ChunkLoopFacts ChunkLayout ChunkLayoutFacts.

(** X1: on the offset table of a source, the binary search of [locateLine]
    returns for every index [i >= 0] the 1-based line of that character: one
    more than the number of newlines before it (the last line for an index
    past the end). *)
Theorem locateLine_is_line_number :
  forall source i,
    0 <= i ->
    locateLine (buildLineOffsets source) i = Some (lineNumber source i).
Proof.
  intros source i Hi.
  rewrite locateLine_buildLineOffsets by exact Hi.
  now rewrite lineOf_lineNumber.
Qed.

Lemma locateLine_is_line_number_witness :
  locateLine (buildLineOffsets example_source) 17 = Some 2.
Proof.
  apply (locateLine_is_line_number example_source 17). discriminate.
Defined.

Lemma chunkText_windows_run source options :
  source <> [] -> 0 <= overlap options < chunkSize options ->
  exists n,
    chunkText (length source) source options = Some (inr (windows source options (S n))) /\
    len source <= windowStart options (Z.of_nat n) + chunkSize options /\
    forall k, 0 <= k < Z.of_nat n -> windowStart options k + chunkSize options < len source.
Proof.
  intros Hne Hov.
  assert (Hlen : 0 < len source).
  { destruct source; [congruence|]. rewrite len_cons. pose proof (len_nonneg source). lia. }
  destruct (chunk_loop_windows source options Hov (length source) 0) as (n & Hrun & Hlast & Hk).
  - lia.
  - unfold windowStart. lia.
  - unfold windowStart, len. lia.
  - exists n. unfold chunkText.
    destruct (Z.leb_spec (chunkSize options) 0); [lia|].
    change (windowStart options 0) with 0 in Hrun. rewrite Hrun.
    split; [reflexivity|]. split; [exact Hlast|exact Hk].
Qed.

(** X2: for a non-empty source and [0 <= overlap < chunkSize], chunk [k] of
    [chunkText] is the window that starts at [k * (chunkSize - overlap)]: its
    content is the (at most [chunkSize]) characters from there, its lines are
    the lines of its first and last character, its index is [k]; and the
    chunks stop with the first window that reaches the end of the source. *)
Theorem chunkText_is_windows :
  forall source options,
    source <> [] ->
    0 <= overlap options < chunkSize options ->
    exists n,
      (forall fuel, (length source <= fuel)%nat ->
         chunkText fuel source options = Some (inr (windows source options (S n)))) /\
      len source <= windowStart options (Z.of_nat n) + chunkSize options /\
      (forall k, 0 <= k < Z.of_nat n ->
         windowStart options k + chunkSize options < len source).
Proof.
  intros source options Hne Hov.
  destruct (chunkText_windows_run source options Hne Hov) as (n & Hrun & Hlast & Hk).
  exists n. split; [|split; assumption].
  intros fuel Hfuel.
  exact (ChunkTheorems.chunkText_fuel_mono _ _ _ _ Hrun fuel Hfuel).
Qed.

Lemma chunkText_is_windows_witness :
  exists n,
    (forall fuel, (length example_source <= fuel)%nat ->
       chunkText fuel example_source example_options
       = Some (inr (windows example_source example_options (S n)))) /\
    len example_source <= windowStart example_options (Z.of_nat n) + chunkSize example_options /\
    (forall k, 0 <= k < Z.of_nat n ->
       windowStart example_options k + chunkSize example_options < len example_source).
Proof.
  apply (chunkText_is_windows example_source example_options).
  - discriminate.
  - split; [discriminate|reflexivity].
Defined.

Lemma chunkText_result_is_windows fuel source options chunks :
  source <> [] -> 0 <= overlap options < chunkSize options ->
  chunkText fuel source options = Some (inr chunks) ->
  exists n, chunks = windows source options (S n) /\
            len source <= windowStart options (Z.of_nat n) + chunkSize options /\
            forall k, 0 <= k < Z.of_nat n ->
                      windowStart options k + chunkSize options < len source.
Proof.
  intros Hne Hov Hrun.
  destruct (chunkText_windows_run source options Hne Hov) as (n & Hrun' & Hlast & Hk).
  exists n. split; [|split; assumption].
  pose proof (ChunkTheorems.chunkText_fuel_mono _ _ _ _ Hrun (Nat.max fuel (length source))
                (Nat.le_max_l _ _)) as H1.
  pose proof (ChunkTheorems.chunkText_fuel_mono _ _ _ _ Hrun' (Nat.max fuel (length source))
                (Nat.le_max_r _ _)) as H2.
  congruence.
Qed.

Lemma firstn_plus {A} (a b : nat) : forall l : list A,
  firstn (a + b) l = firstn a l ++ firstn b (skipn a l).
Proof.
  induction a as [|a IH]; intros l; [reflexivity|].
  destruct l as [|x l]; simpl; [now rewrite firstn_nil|]. now rewrite IH.
Qed.

Lemma lineNumber_mono source i j : i <= j -> lineNumber source i <= lineNumber source j.
Proof.
  intros Hij. unfold lineNumber.
  destruct (Z.le_gt_cases j 0) as [Hj|Hj].
  - replace (Z.to_nat i) with 0%nat by lia. replace (Z.to_nat j) with 0%nat by lia. lia.
  - replace (Z.to_nat j) with (Z.to_nat i + (Z.to_nat j - Z.to_nat i))%nat by lia.
    rewrite firstn_plus, filter_app, len_app.
    pose proof (len_nonneg (filter isNewline
      (firstn (Z.to_nat j - Z.to_nat i) (skipn (Z.to_nat i) source)))). lia.
Qed.

Lemma lineNumber_step source i : lineNumber source (i + 1) <= lineNumber source i + 1.
Proof.
  unfold lineNumber.
  destruct (Z.lt_ge_cases i 0) as [Hi|Hi].
  - replace (Z.to_nat (i + 1)) with 0%nat by lia. replace (Z.to_nat i) with 0%nat by lia. lia.
  - replace (Z.to_nat (i + 1)) with (Z.to_nat i + 1)%nat by lia.
    rewrite firstn_plus, filter_app, len_app.
    assert (len (filter isNewline (firstn 1 (skipn (Z.to_nat i) source))) <= 1); [|lia].
    destruct (skipn (Z.to_nat i) source) as [|c rest]; simpl; [unfold len; simpl; lia|].
    destruct (isNewline c); unfold len; simpl; lia.
Qed.

Lemma lineNumber_no_newline source i :
  Forall (fun c => isNewline c = false) source -> lineNumber source i = 1.
Proof.
  intros H. unfold lineNumber.
  assert (Hf : filter isNewline (firstn (Z.to_nat i) source) = []).
  { assert (Hall : Forall (fun c => isNewline c = false) (firstn (Z.to_nat i) source)).
    { apply Forall_forall. intros c Hc. rewrite Forall_forall in H. apply H.
      rewrite <- (firstn_skipn (Z.to_nat i) source). apply in_or_app. now left. }
    induction Hall as [|c l Hc _ IH]; simpl; [reflexivity|]. now rewrite Hc. }
  now rewrite Hf.
Qed.

(** X3: a source without a newline is one line: every chunk [chunkText]
    returns for it has [startLine = endLine = 1]. *)
Theorem single_line_chunks :
  forall fuel source options chunks,
    source <> [] ->
    0 <= overlap options < chunkSize options ->
    Forall (fun c => isNewline c = false) source ->
    chunkText fuel source options = Some (inr chunks) ->
    Forall (fun c => startLine c = 1 /\ endLine c = 1) chunks.
Proof.
  intros fuel source options chunks Hne Hov Hline Hrun.
  destruct (chunkText_result_is_windows _ _ _ _ Hne Hov Hrun) as (n & -> & _).
  unfold windows. apply Forall_forall. intros c Hc. apply in_map_iff in Hc.
  destruct Hc as (k & <- & _). simpl. now rewrite !lineNumber_no_newline.
Qed.

Lemma single_line_chunks_witness :
  Forall (fun c => startLine c = 1 /\ endLine c = 1)
    [ {| content := str "Line"; startLine := 1; endLine := 1; index := 0 |};
      {| content := str "ne o"; startLine := 1; endLine := 1; index := 1 |};
      {| content := str " one"; startLine := 1; endLine := 1; index := 2 |} ].
Proof.
  apply (single_line_chunks 8 (str "Line one") {| chunkSize := 4; overlap := 2 |}).
  - discriminate.
  - split; [discriminate|reflexivity].
  - repeat constructor.
  - vm_compute. reflexivity.
Defined.

(** X4: the line ranges of the chunks leave no line out: the first chunk
    starts on line 1, each next chunk starts no earlier than the one before
    it and at most one line after that one's last line, and the last chunk
    ends on the line of the source's last character. *)
Theorem chunk_lines_cover_the_source :
  forall fuel source options chunks,
    source <> [] ->
    0 <= overlap options < chunkSize options ->
    chunkText fuel source options = Some (inr chunks) ->
    (exists first rest, chunks = first :: rest /\ startLine first = 1) /\
    (forall before c c' after,
       chunks = before ++ c :: c' :: after ->
       startLine c <= startLine c' <= endLine c + 1 /\ endLine c <= endLine c') /\
    (exists init final,
       chunks = init ++ [final] /\ endLine final = lineNumber source (len source - 1)).
Proof.
  intros fuel source options chunks Hne Hov Hrun.
  destruct (chunkText_result_is_windows _ _ _ _ Hne Hov Hrun) as (n & -> & Hlast & Hbefore).
  assert (Hstep : forall k, windowStart options (k + 1)
                            = windowStart options k + (chunkSize options - overlap options)).
  { intros k. unfold windowStart. lia. }
  split; [|split].
  - rewrite windows_succ. eexists. eexists. split; [reflexivity|]. reflexivity.
  - intros before c c' after Heq.
    assert (Hk : exists k, (S k < S n)%nat /\ c = window source options (Z.of_nat k) /\
                           c' = window source options (Z.of_nat (S k))).
    { exists (length before).
      assert (Hlen : length (windows source options (S n)) = S n)
        by (unfold windows; now rewrite length_map, length_seq).
      assert (Hlt : (S (length before) < S n)%nat).
      { rewrite <- Hlen, Heq, length_app. simpl. lia. }
      assert (Hnth : forall j d, (j < S n)%nat ->
                nth j (windows source options (S n)) d = window source options (Z.of_nat j)).
      { intros j d Hj. unfold windows.
        rewrite (nth_indep _ d (window source options (Z.of_nat 0)))
          by (rewrite length_map, length_seq; exact Hj).
        rewrite (map_nth (fun k => window source options (Z.of_nat k)) (seq 0 (S n)) 0%nat j).
        now rewrite seq_nth. }
      split; [exact Hlt|]. split.
      - rewrite <- (Hnth (length before) c) by lia. rewrite Heq.
        rewrite app_nth2 by lia. now rewrite Nat.sub_diag.
      - rewrite <- (Hnth (S (length before)) c) by lia. rewrite Heq.
        rewrite app_nth2 by lia.
        replace (S (length before) - length before)%nat with 1%nat by lia. reflexivity. }
    destruct Hk as (k & Hkn & -> & ->).
    replace (Z.of_nat (S k)) with (Z.of_nat k + 1) by lia.
    unfold window. cbn [startLine endLine].
    assert (Hfull : windowStart options (Z.of_nat k) + chunkSize options < len source)
      by (apply Hbefore; lia).
    assert (Hk0 : 0 <= windowStart options (Z.of_nat k)) by (unfold windowStart; nia).
    unfold windowEnd. rewrite !Hstep.
    rewrite (Z.min_r (len source) (windowStart options (Z.of_nat k) + chunkSize options)) by lia.
    split; [split|].
    + apply lineNumber_mono. lia.
    + eapply Z.le_trans; [|apply lineNumber_step].
      apply lineNumber_mono. lia.
    + apply lineNumber_mono. lia.
  - exists (windows source options n), (window source options (Z.of_nat n)). split.
    + unfold windows. rewrite seq_S, map_app. reflexivity.
    + unfold window. cbn [endLine]. unfold windowEnd. f_equal.
      rewrite Z.min_l by lia. reflexivity.
Qed.

Lemma chunk_lines_cover_the_source_witness :
  exists chunks,
    chunkText 28 example_source example_options = Some (inr chunks) /\
    (exists first rest, chunks = first :: rest /\ startLine first = 1) /\
    (exists init final,
       chunks = init ++ [final] /\
       endLine final = lineNumber example_source (len example_source - 1)).
Proof.
  destruct (chunkText 28 example_source example_options) as [[t|chunks]|] eqn:Hrun;
    try (vm_compute in Hrun; discriminate).
  exists chunks. split; [reflexivity|].
  assert (Hne : example_source <> []) by discriminate.
  assert (Hov : 0 <= overlap example_options < chunkSize example_options)
    by (split; [discriminate|reflexivity]).
  destruct (chunk_lines_cover_the_source 28 example_source example_options chunks
              Hne Hov Hrun) as (H1 & _ & H3).
  split; assumption.
Defined.

End ChunkLayoutTheorems.

(** * The vector store adapter: upsert, query and delete together *)

Module VectorizeMoreFacts.
Import Js BasicFacts Vectorize VectorizeSpec Examples VectorizeFacts.

Lemma filterFromNamespace_partition v o :
  filterFromNamespace (partitionForVisibility v o) = partition_filter v o.
Proof.
  destruct v.
  - reflexivity.
  - apply (filterFromNamespace_private o).
Qed.

Lemma rank_keeps_all env query k candidates r :
  len candidates <= k -> In r candidates ->
  In (answer_of env query r) (rank env query k candidates).
Proof.
  intros Hk Hr. unfold rank.
  assert (Hk0 : 0 <= k) by (pose proof (ChunkFacts.len_nonneg candidates); lia).
  rewrite take_firstn by exact Hk0.
  rewrite firstn_all2.
  - apply in_map. eapply Permutation_in; [symmetry; apply sort_desc_perm|exact Hr].
  - rewrite length_map. rewrite (Permutation_length (sort_desc_perm _ candidates)).
    unfold len in Hk. lia.
Qed.

Lemma buildMatches_keeps options raws raw m :
  In raw raws -> buildMatch options (Some raw) = Some m -> In m (buildMatches options raws).
Proof.
  induction raws as [|raw' raws IH]; [intros []|].
  intros [->|Hin] Hbuild; cbn [buildMatches].
  - rewrite Hbuild. now left.
  - destruct (buildMatch options (Some raw')); [right|]; auto.
Qed.

Lemma buildMatch_of_upserted env options query chunkId embedding metadata :
  Vectorize.chunkId metadata <> [] ->
  buildMatch options
    (Some (answer_of env query
             {| vec_id := chunkId; vec_values := embedding;
                vec_metadata := Some (stored_of metadata) |}))
  = Some {| Vectorize.metadata := metadata; score := similarity env query embedding |}.
Proof.
  intros Hid. unfold buildMatch, answer_of. cbn.
  destruct metadata as [cid fid fo fon fin sl el vis own]. cbn in *.
  destruct cid as [|c cid]; [congruence|]. reflexivity.
Qed.

Lemma buildMatch_has_chunkId options raw m :
  buildMatch options raw = Some m -> Vectorize.chunkId (metadata m) <> [].
Proof.
  unfold buildMatch. destruct raw as [raw|]; [|discriminate].
  destruct (orElseOpt _ _) as [[|c cid]|]; cbn [falsy]; try discriminate.
  intros [= <-]. discriminate.
Qed.

Lemma In_put_namespaced ns r entries : In (ns, r) (put_namespaced ns r entries).
Proof.
  induction entries as [|[ns' r'] entries IH]; cbn [put_namespaced]; [now left|].
  destruct (_ && _); [now left|now right].
Qed.

Lemma In_put_global r entries : In r (put_global r entries).
Proof.
  induction entries as [|r' entries IH]; cbn [put_global]; [now left|].
  destruct (jsstring_eqb _ _); [now left|now right].
Qed.

Lemma satisfies_partition v o chunkId embedding metadata :
  visibility metadata = v -> ownerId metadata = o ->
  satisfies (partition_filter v o)
    {| vec_id := chunkId; vec_values := embedding;
       vec_metadata := Some (stored_of metadata) |} = true.
Proof.
  intros <- <-. unfold satisfies, partition_filter. cbn.
  destruct (visibility metadata); cbn; [reflexivity|].
  apply jsstring_eqb_refl.
Qed.

(** Every match a query returns is built from a vector the query can
    reach. *)
Lemma queryNamespace_origin env binding options matches m :
  queryNamespace env binding options = inr matches -> In m matches ->
  exists r, In r (reachable_records binding (namespace options)) /\
            buildMatch options (Some (answer_of env (vector options) r)) = Some m.
Proof.
  unfold queryNamespace. destruct binding as [entries|rm del entries].
  - rewrite isV2_namespaced. unfold index_query_namespaced.
    destruct (index_accepts env (vector options)); [|discriminate].
    intros [= <-] Hin. apply In_buildMatches in Hin. destruct Hin as (raw & Hraw & Hbuild).
    apply In_rank in Hraw. destruct Hraw as (r & Hr & ->). eauto.
  - rewrite isV2_global. unfold index_query_global.
    destruct (index_accepts env (vector options)); [|discriminate].
    assert (Hfrom : forall candidates,
              (forall r, In r candidates -> In r entries) ->
              In m (buildMatches options (rank env (vector options) (topK options) candidates)) ->
              exists r, In r entries /\
                        buildMatch options (Some (answer_of env (vector options) r)) = Some m).
    { intros candidates Hsub Hin. apply In_buildMatches in Hin.
      destruct Hin as (raw & Hraw & Hbuild).
      apply In_rank in Hraw. destruct Hraw as (r & Hr & ->). eauto. }
    destruct (buildMatches options (rank _ _ _ (filter _ entries))) as [|m0 ms] eqn:Hfiltered.
    + destruct (filter_has_keys _); intros [= <-] Hin; [|contradiction].
      apply (Hfrom entries); auto.
    + intros [= <-] Hin. rewrite <- Hfiltered in Hin.
      apply (Hfrom (filter (satisfies (filterFromNamespace (namespace options))) entries)); auto.
      intros r Hr. apply filter_In in Hr. apply Hr.
Qed.

(** After a successful delete, no vector that a query against the
    partition can reach has one of the deleted ids. *)
Lemma deleteChunkVectors_gone binding chunkIds visibility ownerId binding' :
  deleteChunkVectors binding chunkIds visibility ownerId = inr binding' ->
  forall r,
    In r (reachable_records binding' (partitionForVisibility visibility ownerId)) ->
    listed chunkIds (vec_id r) = false.
Proof.
  intros Hdel.
  unfold deleteChunkVectors in Hdel. destruct chunkIds as [|id ids]; [reflexivity|].
  destruct binding as [entries|rm del entries].
  - rewrite isV2_namespaced in Hdel. cbn [index_delete_namespaced] in Hdel.
    injection Hdel as <-. cbn [reachable_records]. intros r Hr.
    apply in_map_iff in Hr. destruct Hr as ([ns r'] & Heq & Hr). cbn in Heq. subst r'.
    apply filter_In in Hr. destruct Hr as [Hr Hns].
    apply filter_In in Hr. destruct Hr as [_ Hkeep]. cbn [snd] in Hkeep.
    rewrite Hns in Hkeep. cbn in Hkeep. now apply negb_true_iff in Hkeep.
  - rewrite isV2_global in Hdel. cbn [capabilities cap_remove cap_deleteByIds] in Hdel.
    assert (Hglobal : index_delete_global (GlobalIndex rm del entries) (id :: ids)
                      = inr binding').
    { destruct rm; [exact Hdel|]. destruct del; [exact Hdel|discriminate]. }
    cbn [index_delete_global] in Hglobal. injection Hglobal as <-.
    cbn [reachable_records]. intros r Hr. apply filter_In in Hr.
    destruct Hr as [_ Hkeep]. now apply negb_true_iff in Hkeep.
Qed.

End VectorizeMoreFacts.

Module IsolationTheorems.
Import Js BasicFacts Vectorize VectorizeSpec Examples VectorizeFacts VectorizeMoreFacts.

(** C1 fails on generation B: [queryNamespace] leaks a private vector
    across owners.  Let [A <> B], let a vector be upserted for [A] with full
    metadata (visibility private, owner [A], a chunk id) into a generation B
    index that holds no private vector of [B], and let the index rank it
    among the best [k] of all the vectors it holds.  Then the query against
    [user:B] finds nothing under its metadata filter, is retried without the
    filter, and returns the vector of [A], reported with the metadata of
    [A]. *)
Theorem private_vector_leaks_through_unfiltered_retry :
  forall (env : Env) (A B : jsstring) rm del entries chunkId embedding metadata binding'
         (query : value) (k : Z),
    A <> B ->
    Vectorize.chunkId metadata <> [] ->
    visibility metadata = Private ->
    ownerId metadata = A ->
    upsertChunkVector env (GlobalIndex rm del entries) chunkId embedding metadata
      = inr binding' ->
    (forall r, In r entries ->
               satisfies (filterFromNamespace (privateNamespace B)) r = false) ->
    index_accepts env query = true ->
    In (answer_of env query
          {| vec_id := chunkId; vec_values := embedding;
             vec_metadata := Some (stored_of metadata) |})
       (rank env query k (stored_records binding')) ->
    exists matches,
      queryNamespace env binding' (private_query B query k) = inr matches /\
      In {| Vectorize.metadata := metadata; score := similarity env query embedding |}
         matches.
Proof.
  intros env A B rm del entries chunkId embedding metadata binding' query k
         HAB Hid Hvis Hown Hup Hnone Haccepts Hranked.
  unfold upsertChunkVector in Hup. rewrite isV2_global in Hup.
  unfold index_upsert_global in Hup. cbn [vec_values] in Hup.
  destruct (index_accepts env embedding); [|discriminate].
  injection Hup as <-. cbn [stored_records] in Hranked.
  set (mine := {| vec_id := chunkId; vec_values := embedding;
                  vec_metadata := Some (stored_of metadata) |}) in *.
  assert (Hfiltered : filter (satisfies (filterFromNamespace (privateNamespace B)))
                        (put_global mine entries) = []).
  { assert (Hmine : satisfies (filterFromNamespace (privateNamespace B)) mine = false).
    { rewrite filterFromNamespace_private. unfold satisfies, mine. cbn.
      rewrite Hvis, Hown. cbn.
      destruct (jsstring_eqb B A) eqn:E; [|reflexivity].
      apply jsstring_eqb_eq in E. congruence. }
    clear Hranked. induction entries as [|r entries IH]; cbn [put_global].
    - cbn [filter]. now rewrite Hmine.
    - destruct (jsstring_eqb (vec_id r) (vec_id mine)); cbn [filter].
      + rewrite Hmine.
        clear IH. induction entries as [|r' entries IH]; [reflexivity|].
        cbn [filter]. rewrite (Hnone r') by (right; now left).
        apply IH. intros r0 Hr0. apply Hnone. destruct Hr0; [now left|right; now right].
      + rewrite (Hnone r) by now left.
        apply IH. intros r0 Hr0. apply Hnone. now right. }
  exists (buildMatches (private_query B query k)
            (rank env query k (put_global mine entries))).
  split.
  - unfold queryNamespace. rewrite isV2_global.
    cbn [vector topK namespace private_query].
    unfold index_query_global. rewrite Haccepts, Hfiltered.
    assert (Hempty : rank env query k [] = []).
    { unfold rank. cbn. now destruct k. }
    rewrite Hempty. cbn [buildMatches].
    rewrite filterFromNamespace_private. reflexivity.
  - apply (buildMatches_keeps _ _ _ _ Hranked).
    apply buildMatch_of_upserted. exact Hid.
Qed.

Lemma private_vector_leaks_through_unfiltered_retry_witness :
  let env := test_env FetchRejected FetchRejected in
  alice <> bob /\
  visibility (private_metadata "c1" alice) = Private /\
  ownerId (private_metadata "c1" alice) = alice /\
  upsertChunkVector env (GlobalIndex true true []) (str "c1") unit_vector
    (private_metadata "c1" alice)
  = inr (GlobalIndex true true
           [ {| vec_id := str "c1"; vec_values := unit_vector;
                vec_metadata := Some (stored_of (private_metadata "c1" alice)) |} ]) /\
  exists matches,
    queryNamespace env
      (GlobalIndex true true
         [ {| vec_id := str "c1"; vec_values := unit_vector;
              vec_metadata := Some (stored_of (private_metadata "c1" alice)) |} ])
      (private_query bob unit_vector 8) = inr matches /\
    In {| Vectorize.metadata := private_metadata "c1" alice;
          score := similarity env unit_vector unit_vector |} matches.
Proof.
  intros env.
  split; [discriminate|]. split; [reflexivity|]. split; [reflexivity|].
  split; [vm_compute; reflexivity|].
  apply (private_vector_leaks_through_unfiltered_retry env alice bob true true []
           (str "c1") unit_vector (private_metadata "c1" alice)).
  - discriminate.
  - discriminate.
  - reflexivity.
  - reflexivity.
  - vm_compute. reflexivity.
  - intros r [].
  - reflexivity.
  - vm_compute. left. reflexivity.
Defined.

End IsolationTheorems.

Module VectorizeMoreTheorems.
Import Js BasicFacts Vectorize VectorizeSpec Examples VectorizeFacts VectorizeMoreFacts.

(** X5: a vector upserted with a non-empty chunk id is found again by a
    query against the partition of its own metadata, on either generation of
    the index, with its metadata unchanged and its similarity as score
    (provided the index accepts the query vector and [topK] is at least the
    number of stored vectors). *)
Theorem upserted_vector_is_found :
  forall env binding chunkId embedding metadata binding' query k,
    upsertChunkVector env binding chunkId embedding metadata = inr binding' ->
    Vectorize.chunkId metadata <> [] ->
    index_accepts env query = true ->
    len (stored_records binding') <= k ->
    exists matches,
      queryNamespace env binding'
        {| vector := query; topK := k;
           namespace := partitionForVisibility (visibility metadata) (ownerId metadata) |}
      = inr matches /\
      In {| Vectorize.metadata := metadata; score := similarity env query embedding |} matches.
Proof.
  intros env binding chunkId embedding metadata binding' query k Hup Hid Hquery Hk.
  set (ns := partitionForVisibility (visibility metadata) (ownerId metadata)).
  set (options := {| vector := query; topK := k; namespace := ns |}).
  set (vec := {| vec_id := chunkId; vec_values := embedding;
                 vec_metadata := Some (stored_of metadata) |}).
  pose proof (buildMatch_of_upserted env options query chunkId embedding metadata Hid) as Hbuild.
  fold vec in Hbuild.
  unfold upsertChunkVector in Hup. fold vec ns in Hup.
  destruct binding as [entries|rm del entries].
  - rewrite isV2_namespaced in Hup. unfold index_upsert_namespaced in Hup.
    destruct (index_accepts env (vec_values vec)); [|discriminate].
    injection Hup as <-. unfold queryNamespace. rewrite isV2_namespaced.
    unfold index_query_namespaced. cbn [vector topK namespace options]. rewrite Hquery.
    eexists. split; [reflexivity|].
    eapply buildMatches_keeps; [|exact Hbuild].
    apply rank_keeps_all.
    + cbn [stored_records] in Hk. unfold len in *. rewrite length_map in *.
      pose proof (filter_length_le (in_namespace ns) (put_namespaced ns vec entries)). lia.
    + apply in_map_iff. exists (ns, vec). split; [reflexivity|].
      apply filter_In. split; [apply In_put_namespaced|].
      unfold in_namespace. apply jsstring_eqb_refl.
  - rewrite isV2_global in Hup. unfold index_upsert_global in Hup.
    destruct (index_accepts env (vec_values vec)); [|discriminate].
    injection Hup as <-. unfold queryNamespace. rewrite isV2_global.
    unfold index_query_global. cbn [vector topK namespace options]. rewrite Hquery.
    unfold ns. rewrite filterFromNamespace_partition.
    assert (Hin : In {| Vectorize.metadata := metadata;
                        score := similarity env query embedding |}
                    (buildMatches options
                       (rank env query k
                          (filter (satisfies (partition_filter (visibility metadata)
                                                (ownerId metadata)))
                             (put_global vec entries))))).
    { eapply buildMatches_keeps; [|exact Hbuild].
      apply rank_keeps_all.
      - cbn [stored_records] in Hk. unfold len in *.
        pose proof (filter_length_le
                      (satisfies (partition_filter (visibility metadata) (ownerId metadata)))
                      (put_global vec entries)). lia.
      - apply filter_In. split; [apply In_put_global|].
        now apply satisfies_partition. }
    destruct (buildMatches options _) as [|m0 ms] eqn:E; [contradiction|].
    eexists. split; [reflexivity|exact Hin].
Qed.

Lemma upserted_vector_is_found_witness :
  exists matches,
    queryNamespace (test_env FetchRejected FetchRejected)
      (GlobalIndex true true
         (put_global {| vec_id := str "c3"; vec_values := unit_vector;
                        vec_metadata := Some (stored_of (private_metadata "c3" bob)) |}
            shared_index))
      {| vector := unit_vector; topK := 8;
         namespace := partitionForVisibility Private bob |}
    = inr matches /\
    In {| Vectorize.metadata := private_metadata "c3" bob; score := 1 |} matches.
Proof.
  apply (upserted_vector_is_found (test_env FetchRejected FetchRejected)
           (GlobalIndex true true shared_index) (str "c3") unit_vector
           (private_metadata "c3" bob) _ unit_vector 8).
  - reflexivity.
  - discriminate.
  - reflexivity.
  - vm_compute. discriminate.
Defined.

(** X6: after [deleteChunkVectors] succeeded for the ids [chunkIds] of a
    partition, no query against that partition returns a match built from a
    vector with one of these ids, on either generation; the vectors with
    other ids are all still stored. *)
Theorem deleted_vectors_are_not_returned :
  forall env binding chunkIds visibility ownerId binding',
    deleteChunkVectors binding chunkIds visibility ownerId = inr binding' ->
    (forall options matches m,
       namespace options = partitionForVisibility visibility ownerId ->
       queryNamespace env binding' options = inr matches ->
       In m matches ->
       exists r, In r (reachable_records binding' (namespace options)) /\
                 listed chunkIds (vec_id r) = false /\
                 buildMatch options (Some (answer_of env (vector options) r)) = Some m) /\
    (forall r, In r (stored_records binding) -> listed chunkIds (vec_id r) = false ->
               In r (stored_records binding')).
Proof.
  intros env binding chunkIds visibility ownerId binding' Hdel.
  pose proof (deleteChunkVectors_gone _ _ _ _ _ Hdel) as Hgone.
  split.
  - intros options matches m Hns Hq Hin.
    destruct (queryNamespace_origin _ _ _ _ _ Hq Hin) as (r & Hr & Hbuild).
    exists r. split; [exact Hr|]. split; [|exact Hbuild].
    apply Hgone. now rewrite <- Hns.
  - intros r Hr Hkeep. unfold deleteChunkVectors in Hdel.
    destruct chunkIds as [|id ids]; [now injection Hdel as <-|].
    destruct binding as [entries|rm del entries].
    + rewrite isV2_namespaced in Hdel. cbn [index_delete_namespaced] in Hdel.
      injection Hdel as <-. cbn [stored_records] in *.
      apply in_map_iff in Hr. destruct Hr as (e & <- & He).
      apply in_map. apply filter_In. split; [exact He|].
      cbv beta. unfold listed in *. cbn [existsb] in *. rewrite Hkeep.
      now rewrite andb_false_r.
    + rewrite isV2_global in Hdel. cbn [capabilities cap_remove cap_deleteByIds] in Hdel.
      assert (Hglobal : index_delete_global (GlobalIndex rm del entries) (id :: ids)
                        = inr binding').
      { destruct rm; [exact Hdel|]. destruct del; [exact Hdel|discriminate]. }
      cbn [index_delete_global] in Hglobal. injection Hglobal as <-.
      cbn [stored_records] in *. apply filter_In. split; [exact Hr|].
      cbv beta. unfold listed in *. cbn [existsb] in *. now rewrite Hkeep.
Qed.

Lemma deleted_vectors_are_not_returned_witness :
  queryNamespace (test_env FetchRejected FetchRejected)
    (GlobalIndex true true
       [ {| vec_id := str "c1"; vec_values := unit_vector;
            vec_metadata := Some (stored_of (private_metadata "c1" alice)) |} ])
    (private_query bob unit_vector 8)
  = inr [ {| Vectorize.metadata := private_metadata "c1" alice; score := 1 |} ] /\
  In {| vec_id := str "c1"; vec_values := unit_vector;
        vec_metadata := Some (stored_of (private_metadata "c1" alice)) |}
    (stored_records
       (GlobalIndex true true
          [ {| vec_id := str "c1"; vec_values := unit_vector;
               vec_metadata := Some (stored_of (private_metadata "c1" alice)) |} ])).
Proof.
  assert (Hdel : deleteChunkVectors (GlobalIndex true true shared_index) [str "c2"] Private bob
                 = inr (GlobalIndex true true
                          [ {| vec_id := str "c1"; vec_values := unit_vector;
                               vec_metadata :=
                                 Some (stored_of (private_metadata "c1" alice)) |} ]))
    by (vm_compute; reflexivity).
  destruct (deleted_vectors_are_not_returned (test_env FetchRejected FetchRejected)
              _ _ _ _ _ Hdel) as [_ Hkept].
  split; [vm_compute; reflexivity|].
  apply Hkept; [now left|reflexivity].
Defined.

(** X7: no match returned by [queryNamespace] has an empty chunk id:
    entries of the index's answer without a usable chunk id are dropped. *)
Theorem matches_have_a_chunk_id :
  forall env binding options matches m,
    queryNamespace env binding options = inr matches ->
    In m matches ->
    Vectorize.chunkId (metadata m) <> [].
Proof.
  intros env binding options matches m Hq Hin.
  destruct (queryNamespace_origin _ _ _ _ _ Hq Hin) as (r & _ & Hbuild).
  eapply buildMatch_has_chunkId; eauto.
Qed.

Lemma matches_have_a_chunk_id_witness :
  Vectorize.chunkId (private_metadata "c2" bob) <> [].
Proof.
  apply (matches_have_a_chunk_id (test_env FetchRejected FetchRejected)
           (GlobalIndex true true shared_index) (private_query bob unit_vector 8)
           [ {| Vectorize.metadata := private_metadata "c2" bob; score := 1 |} ]
           {| Vectorize.metadata := private_metadata "c2" bob; score := 1 |}).
  - vm_compute. reflexivity.
  - now left.
Defined.

(** X8: the partition names do not collide: equal names mean equal
    visibility and, for private partitions, equal owner (a private name is
    never the public one, whatever the owner id); and the metadata filter
    read back from a partition's name selects that visibility and owner. *)
Theorem partitions_do_not_collide :
  forall visibility ownerId,
    filterFromNamespace (partitionForVisibility visibility ownerId)
      = partition_filter visibility ownerId /\
    (forall visibility' ownerId',
       partitionForVisibility visibility ownerId = partitionForVisibility visibility' ownerId' ->
       visibility = visibility' /\ (visibility = Private -> ownerId = ownerId')).
Proof.
  intros visibility ownerId. split; [apply filterFromNamespace_partition|].
  intros visibility' ownerId' Heq.
  destruct visibility, visibility'; cbn in Heq; try discriminate.
  - split; [reflexivity|discriminate].
  - split; [reflexivity|]. intros _. now apply (privateNamespace_inj ownerId ownerId').
Qed.

End VectorizeMoreTheorems.

(** * Ingestion: what a run writes *)

Module IngestFacts.
Import Js BasicFacts Examples Ingest IngestSpec VectorizeSpec.

Lemma getFileById_reads fileId w w1 r :
  Db.getFileById fileId w = (w1, r) -> w1 = w.
Proof. unfold Db.getFileById, gets. congruence. Qed.

Lemma getFileById_found fileId w file :
  Db.getFileById fileId w = (w, inr (Some file)) ->
  In (fw_file file) (files w) /\ file_id (fw_file file) = fileId.
Proof.
  unfold Db.getFileById, gets. intros [= H].
  destruct (flat_map _ (files w)) as [|x l] eqn:Hflat; [discriminate|].
  injection H as ->.
  assert (Hin : In file (flat_map
                 (fun f =>
                    if jsstring_eqb (file_id f) fileId then
                      map (fun d => {| fw_file := f; fw_folder_name := folder_name d |})
                        (filter (fun d => jsstring_eqb (folder_id d) (file_folder_id f))
                           (folders w))
                    else [])
                 (files w))) by (rewrite Hflat; now left).
  apply in_flat_map in Hin. destruct Hin as (f & Hf & Hin).
  destruct (jsstring_eqb (file_id f) fileId) eqn:Hid; [|contradiction].
  apply in_map_iff in Hin. destruct Hin as (d & <- & _). cbn.
  split; [exact Hf|]. now apply jsstring_eqb_eq.
Qed.

(** The ways a run of [ingestFileById] can go: refused before anything is
    written, or on to the replacement, for the owner only. *)
Lemma ingest_cases fuel env fileId actingUserId w w' r :
  ingestFileById fuel env fileId actingUserId w = Some (w', r) ->
  ((exists e, r = inl e) /\ w' = w) \/
  (exists file text pieces raw embeddings,
      Db.getFileById fileId w = (w, inr (Some file)) /\
      file_owner_id (fw_file file) = actingUserId /\
      Db.getObjectText (file_r2_key (fw_file file)) w = (w, inr (Some text)) /\
      Chunk.chunkText fuel text
        {| Chunk.chunkSize := parseNumber (CHUNK_SIZE env) 1500;
           Chunk.overlap := parseNumber (CHUNK_OVERLAP env) 200 |} = Some (inr pieces) /\
      pieces <> [] /\
      OpenAI.createEmbeddings env (map Chunk.content pieces) = inr raw /\
      normalizeEmbeddings raw = inr embeddings /\
      len embeddings = len pieces /\
      replaceChunks env file pieces embeddings w = (w', r)).
Proof.
  intros Hrun. unfold ingestFileById in Hrun.
  destruct (Db.getFileById fileId w) as [w1 [e|[file|]]] eqn:Hfile;
    try (injection Hrun as <- <-; left; eauto).
  pose proof (getFileById_reads _ _ _ _ Hfile). subst w1.
  destruct (jsstring_eqb (file_owner_id (fw_file file)) actingUserId) eqn:Howner; cbn [negb] in Hrun;
    [|injection Hrun as <- <-; left; eauto].
  apply jsstring_eqb_eq in Howner.
  destruct (Db.getObjectText _ w) as [w2 [e|[text|]]] eqn:Hobject;
    try (injection Hrun as <- <-; left; eauto).
  assert (w2 = w) by (unfold Db.getObjectText, gets in Hobject; congruence). subst w2.
  destruct (Chunk.chunkText fuel text _) as [[[]|pieces]|] eqn:Hchunks;
    [injection Hrun as <- <-; left; eauto| |discriminate].
  destruct pieces as [|c pieces]; [injection Hrun as <- <-; left; eauto|].
  destruct (embedChunks env (c :: pieces)) as [e|embeddings] eqn:Hembed;
    [injection Hrun as <- <-; left; eauto|].
  injection Hrun as Hreplace.
  right. unfold embedChunks in Hembed.
  destruct (OpenAI.createEmbeddings env _) as [e|raw] eqn:Hraw.
  { destruct (isOpenAIError e); discriminate. }
  destruct (normalizeEmbeddings raw) as [e|embeddings'] eqn:Hnorm; [discriminate|].
  destruct (Z.eqb_spec (len embeddings') (len (c :: pieces))) as [Heq|]; [|discriminate].
  injection Hembed as <-.
  exists file, text, (c :: pieces), raw, embeddings'.
  repeat split; auto. discriminate.
Qed.

(** The stores a run of the loop leaves alone, whatever its outcome, and
    the rows it adds. *)
Lemma insert_loop_frame env file embeddings : forall remaining index acc w w' r,
  insert_loop env file embeddings index remaining acc w = (w', r) ->
  files w' = files w /\ folders w' = folders w /\ messages w' = messages w /\
  objects w' = objects w /\ responses_sent w' = responses_sent w /\
  exists rows, chunks w' = chunks w ++ rows /\
               Forall (fun c => chunk_file_id c = file_id (fw_file file)) rows.
Proof.
  induction remaining as [|piece rest IH]; intros index acc w w' r.
  - cbn. unfold ret. intros [= <- _]. repeat (split; [reflexivity|]).
    exists []. now rewrite app_nil_r.
  - cbn [insert_loop]. unfold bind at 1, freshUUID. unfold bind at 1.
    unfold Db.insertChunk at 1. cbn [chunks with_uuids_drawn chunk_id].
    destruct (existsb _ (chunks w)).
    { intros [= <- _]. cbn. repeat (split; [reflexivity|]). exists []. now rewrite app_nil_r. }
    unfold bind at 1. unfold upsertChunkVector at 1.
    destruct (Vectorize.upsertChunkVector _ _ _ _ _) as [e|binding].
    { intros [= <- _]. cbn. repeat (split; [reflexivity|]).
      eexists. split; [reflexivity|]. repeat constructor. }
    intros Hrest. apply IH in Hrest. cbn in Hrest.
    destruct Hrest as (Hf & Hd & Hm & Ho & Hs & rows & Hrows & Hall).
    repeat (split; [assumption|]).
    eexists. rewrite Hrows, <- app_assoc. split; [reflexivity|].
    constructor; [reflexivity|exact Hall].
Qed.

Lemma put_namespaced_keeps ns r ns' r' entries :
  In (ns', r') entries -> Vectorize.vec_id r' <> Vectorize.vec_id r ->
  In (ns', r') (Vectorize.put_namespaced ns r entries).
Proof.
  intros Hin Hne. induction entries as [|[ns0 r0] entries IH]; [contradiction|].
  cbn [Vectorize.put_namespaced].
  destruct (jsstring_eqb ns0 ns && jsstring_eqb (Vectorize.vec_id r0) (Vectorize.vec_id r))
    eqn:Hsame.
  - destruct Hin as [[= -> ->]|Hin]; [|now right].
    apply andb_true_iff in Hsame. destruct Hsame as [_ Hid].
    apply jsstring_eqb_eq in Hid. contradiction.
  - destruct Hin as [Heq|Hin]; [now left|right; auto].
Qed.

Lemma put_global_keeps r r' entries :
  In r' entries -> Vectorize.vec_id r' <> Vectorize.vec_id r ->
  In r' (Vectorize.put_global r entries).
Proof.
  intros Hin Hne. induction entries as [|r0 entries IH]; [contradiction|].
  cbn [Vectorize.put_global].
  destruct (jsstring_eqb (Vectorize.vec_id r0) (Vectorize.vec_id r)) eqn:Hsame.
  - destruct Hin as [->|Hin]; [|now right].
    apply jsstring_eqb_eq in Hsame. contradiction.
  - destruct Hin as [Heq|Hin]; [now left|right; auto].
Qed.

(** An upsert keeps every vector of another id where it was, and leaves the
    new vector in the partition of its metadata. *)
Lemma upsert_keeps env binding chunkId embedding metadata binding' ns r :
  Vectorize.upsertChunkVector env binding chunkId embedding metadata = inr binding' ->
  In r (reachable_records binding ns) -> Vectorize.vec_id r <> chunkId ->
  In r (reachable_records binding' ns).
Proof.
  unfold Vectorize.upsertChunkVector. intros Hup Hin Hne.
  destruct binding as [entries|rm del entries].
  - rewrite VectorizeFacts.isV2_namespaced in Hup. unfold Vectorize.index_upsert_namespaced in Hup.
    destruct (index_accepts env _); [|discriminate]. injection Hup as <-.
    cbn [reachable_records] in *. apply in_map_iff in Hin.
    destruct Hin as ([ns' r'] & Heq & Hin). cbn in Heq. subst r'.
    apply filter_In in Hin. destruct Hin as [Hin Hns].
    apply in_map_iff. exists (ns', r). split; [reflexivity|].
    apply filter_In. split; [|exact Hns].
    apply put_namespaced_keeps; [exact Hin|exact Hne].
  - rewrite VectorizeFacts.isV2_global in Hup. unfold Vectorize.index_upsert_global in Hup.
    destruct (index_accepts env _); [|discriminate]. injection Hup as <-.
    cbn [reachable_records] in *. apply put_global_keeps; [exact Hin|exact Hne].
Qed.

Lemma upsert_stores env binding chunkId embedding metadata binding' :
  Vectorize.upsertChunkVector env binding chunkId embedding metadata = inr binding' ->
  In {| Vectorize.vec_id := chunkId; Vectorize.vec_values := embedding;
        Vectorize.vec_metadata := Some (Vectorize.stored_of metadata) |}
    (reachable_records binding'
       (Vectorize.partitionForVisibility (Vectorize.visibility metadata)
          (Vectorize.ownerId metadata))).
Proof.
  unfold Vectorize.upsertChunkVector. intros Hup.
  destruct binding as [entries|rm del entries].
  - rewrite VectorizeFacts.isV2_namespaced in Hup. unfold Vectorize.index_upsert_namespaced in Hup.
    destruct (index_accepts env _); [|discriminate]. injection Hup as <-.
    cbn [reachable_records]. apply in_map_iff. eexists (_, _). split; [reflexivity|].
    apply filter_In. split; [apply VectorizeMoreFacts.In_put_namespaced|].
    unfold Vectorize.in_namespace. apply jsstring_eqb_refl.
  - rewrite VectorizeFacts.isV2_global in Hup. unfold Vectorize.index_upsert_global in Hup.
    destruct (index_accepts env _); [|discriminate]. injection Hup as <-.
    cbn [reachable_records]. apply VectorizeMoreFacts.In_put_global.
Qed.

(** A successful run of the loop: the counter, the rows in order, their ids
    all new, and every vector in place. *)
Lemma insert_loop_success env file embeddings : forall remaining index acc w w' n,
  insert_loop env file embeddings index remaining acc w = (w', inr n) ->
  n = acc + len remaining /\
  chunks w' = chunks w ++ rows_from env file (uuids_drawn w) index remaining /\
  (NoDup (map chunk_id (chunks w)) -> NoDup (map chunk_id (chunks w'))) /\
  (forall r ns, In r (reachable_records (MARBLE_VECTORS w) ns) ->
                In (Vectorize.vec_id r) (map chunk_id (chunks w)) ->
                In r (reachable_records (MARBLE_VECTORS w') ns)) /\
  Forall (fun row =>
            In (vectorFor embeddings file row)
              (reachable_records (MARBLE_VECTORS w')
                 (Vectorize.partitionForVisibility (file_visibility (fw_file file))
                    (file_owner_id (fw_file file)))))
    (rows_from env file (uuids_drawn w) index remaining).
Proof.
  induction remaining as [|piece rest IH]; intros index acc w w' n.
  - cbn. unfold ret. intros [= <- <-]. rewrite app_nil_r.
    split; [unfold len; cbn; lia|]. repeat split; auto.
  - cbn [insert_loop]. unfold bind at 1, freshUUID. unfold bind at 1.
    unfold Db.insertChunk at 1. cbn [chunks with_uuids_drawn chunk_id].
    destruct (existsb _ (chunks w)) eqn:Hpk; [discriminate|].
    unfold bind at 1. unfold upsertChunkVector at 1.
    cbn [MARBLE_VECTORS with_chunks with_uuids_drawn].
    destruct (Vectorize.upsertChunkVector _ _ _ _ _) as [e|binding] eqn:Hup; [discriminate|].
    intros Hrest. apply IH in Hrest.
    cbn [chunks MARBLE_VECTORS uuids_drawn with_vectors with_chunks with_uuids_drawn] in Hrest.
    destruct Hrest as (Hn & Hrows & Hnodup & Hkeep & Hvec).
    set (row := {| chunk_id := randomUUID env (uuids_drawn w);
                   chunk_file_id := file_id (fw_file file);
                   chunk_folder_id := file_folder_id (fw_file file);
                   chunk_owner_id := file_owner_id (fw_file file);
                   chunk_visibility := file_visibility (fw_file file);
                   chunk_index := index;
                   chunk_start_line := Chunk.startLine piece;
                   chunk_end_line := Chunk.endLine piece;
                   chunk_content := Chunk.content piece |}) in *.
    assert (Hnew : ~ In (chunk_id row) (map chunk_id (chunks w))).
    { intros Hin. apply in_map_iff in Hin. destruct Hin as (c & Hc & Hin).
      assert (Hex : existsb (fun c => jsstring_eqb (chunk_id c) (randomUUID env (uuids_drawn w)))
                      (chunks w) = true).
      { apply existsb_exists. exists c. split; [exact Hin|]. apply jsstring_eqb_eq. exact Hc. }
      congruence. }
    split; [rewrite Hn, ChunkFacts.len_cons; lia|].
    split; [rewrite Hrows, <- app_assoc; reflexivity|].
    split.
    { intros Hnd. apply Hnodup. rewrite map_app. cbn [map].
      eapply Permutation_NoDup; [apply Permutation_cons_append|].
      constructor; assumption. }
    split.
    { intros r ns Hin Hid. apply Hkeep.
      - eapply upsert_keeps; [exact Hup|exact Hin|]. intros Heq. apply Hnew.
        cbn [chunk_id row]. now rewrite <- Heq.
      - rewrite map_app. apply in_or_app. now left. }
    cbn [rows_from]. fold row. constructor; [|exact Hvec].
    apply Hkeep.
    + exact (upsert_stores _ _ _ _ _ _ Hup).
    + rewrite map_app. apply in_or_app. right. now left.
Qed.

Lemma rows_from_chunkOf env file drawn : forall remaining index,
  map chunkOf (rows_from env file drawn index remaining)
  = map (fun p => {| Chunk.content := Chunk.content (fst p);
                     Chunk.startLine := Chunk.startLine (fst p);
                     Chunk.endLine := Chunk.endLine (fst p);
                     Chunk.index := snd p |})
      (combine remaining (map (fun k => index + Z.of_nat k) (seq 0 (length remaining)))).
Proof.
  intros remaining. revert drawn.
  induction remaining as [|piece rest IH]; intros drawn index; [reflexivity|].
  cbn [rows_from map length seq combine fst snd]. f_equal.
  - unfold chunkOf. cbn. f_equal. lia.
  - rewrite IH. rewrite <- seq_shift, map_map. f_equal. f_equal.
    apply map_ext. intros k. lia.
Qed.

Lemma rows_from_of_file env file : forall remaining drawn index,
  Forall (fun row => chunk_file_id row = file_id (fw_file file) /\
                     chunk_folder_id row = file_folder_id (fw_file file) /\
                     chunk_owner_id row = file_owner_id (fw_file file) /\
                     chunk_visibility row = file_visibility (fw_file file))
    (rows_from env file drawn index remaining).
Proof.
  induction remaining as [|piece rest IH]; intros drawn index; constructor; auto.
Qed.

(** The chunks [chunkText] returns are numbered from 0 in order. *)
Lemma chunk_loop_indices source cs ov offsets : forall fuel position idx acc chunks,
  Chunk.chunk_loop fuel source cs ov offsets position idx acc = Some chunks ->
  exists added,
    chunks = acc ++ added /\
    map Chunk.index added = map (fun k => idx + Z.of_nat k) (seq 0 (length added)).
Proof.
  induction fuel as [|fuel IH]; intros position idx acc chunks; [discriminate|].
  cbn [Chunk.chunk_loop].
  destruct (position <? len source).
  - destruct (Chunk.locateLine offsets position) as [startLine|]; [|discriminate].
    destruct (Chunk.locateLine offsets _) as [endLine|]; [|discriminate].
    destruct (_ =? len source).
    + intros [= <-]. eexists [_]. split; [reflexivity|]. cbn. f_equal. f_equal. lia.
    + intros Hrest. apply IH in Hrest. destruct Hrest as (added & -> & Hidx).
      eexists (_ :: added). rewrite <- app_assoc. split; [reflexivity|].
      cbn [map length seq Chunk.index]. f_equal; [lia|].
      rewrite Hidx, <- seq_shift, map_map. apply map_ext. intros k. lia.
  - intros [= <-]. exists []. now rewrite app_nil_r.
Qed.

Lemma chunkText_indices fuel source options chunks :
  Chunk.chunkText fuel source options = Some (inr chunks) ->
  map Chunk.index chunks = map Z.of_nat (seq 0 (length chunks)).
Proof.
  unfold Chunk.chunkText. destruct (_ <=? 0); [discriminate|].
  destruct (Chunk.chunk_loop _ _ _ _ _ _ _ _) as [cs|] eqn:Hloop; [|discriminate].
  intros [= <-]. apply chunk_loop_indices in Hloop. destruct Hloop as (added & -> & Hidx).
  cbn [app]. rewrite Hidx. apply map_ext. intros k. lia.
Qed.

Lemma renumbered_chunks chunks :
  map Chunk.index chunks = map Z.of_nat (seq 0 (length chunks)) ->
  map (fun p => {| Chunk.content := Chunk.content (fst p);
                   Chunk.startLine := Chunk.startLine (fst p);
                   Chunk.endLine := Chunk.endLine (fst p);
                   Chunk.index := snd p |})
    (combine chunks (map (fun k => 0 + Z.of_nat k) (seq 0 (length chunks))))
  = chunks.
Proof.
  intros Hidx.
  replace (map (fun k => 0 + Z.of_nat k) (seq 0 (length chunks))) with (map Chunk.index chunks)
    by (rewrite Hidx; apply map_ext; intros k; lia).
  clear Hidx. induction chunks as [|[c s e i] chunks IH]; [reflexivity|].
  cbn. now rewrite IH.
Qed.

Lemma filter_all {A} (f : A -> bool) l : Forall (fun x => f x = true) l -> filter f l = l.
Proof.
  induction 1 as [|x l Hx _ IH]; [reflexivity|]. cbn. now rewrite Hx, IH.
Qed.

Lemma filter_none {A} (f : A -> bool) l : Forall (fun x => f x = false) l -> filter f l = [].
Proof.
  induction 1 as [|x l Hx _ IH]; [reflexivity|]. cbn. now rewrite Hx, IH.
Qed.

Lemma filter_filter_neg {A} (f : A -> bool) l :
  filter f (filter (fun x => negb (f x)) l) = [].
Proof.
  apply filter_none. apply Forall_forall. intros x Hx. apply filter_In in Hx.
  destruct Hx as [_ Hx]. now apply negb_true_iff in Hx.
Qed.

Lemma filter_idem {A} (f : A -> bool) l : filter f (filter f l) = filter f l.
Proof.
  apply filter_all. apply Forall_forall. intros x Hx. now apply filter_In in Hx.
Qed.

(** A successful run of [replaceChunks]. *)
Lemma replaceChunks_success env file pieces embeddings w w' n :
  replaceChunks env file pieces embeddings w = (w', inr n) ->
  n = len pieces /\
  chunks w' = rowsOfOthers (file_id (fw_file file)) (chunks w)
              ++ rows_from env file (uuids_drawn w) 0 pieces /\
  (NoDup (map chunk_id (chunks w)) -> NoDup (map chunk_id (chunks w'))) /\
  Forall (fun row =>
            In (vectorFor embeddings file row)
              (reachable_records (MARBLE_VECTORS w')
                 (Vectorize.partitionForVisibility (file_visibility (fw_file file))
                    (file_owner_id (fw_file file)))))
    (rows_from env file (uuids_drawn w) 0 pieces) /\
  files w' = map (fun f =>
                    if jsstring_eqb (file_id f) (file_id (fw_file file)) then
                      {| file_id := file_id f; file_folder_id := file_folder_id f;
                         file_owner_id := file_owner_id f;
                         file_visibility := file_visibility f;
                         file_name := file_name f; file_r2_key := file_r2_key f;
                         file_ready := true |}
                    else f) (files w).
Proof.
  unfold replaceChunks, bind at 1, Db.deleteChunksForFile at 1. cbv zeta.
  fold (rowsOfOthers (file_id (fw_file file)) (chunks w)).
  set (w1 := with_chunks _ w).
  unfold bind at 1.
  assert (Hdel : forall w2 r,
            match map chunk_id
                    (filter (fun c => jsstring_eqb (chunk_file_id c) (file_id (fw_file file)))
                       (chunks w)) with
            | [] => ret tt
            | _ :: _ =>
                deleteChunkVectors
                  (map chunk_id
                     (filter (fun c => jsstring_eqb (chunk_file_id c) (file_id (fw_file file)))
                        (chunks w)))
                  (file_visibility (fw_file file)) (file_owner_id (fw_file file))
            end w1 = (w2, inr r) ->
            chunks w2 = chunks w1 /\ files w2 = files w1 /\ uuids_drawn w2 = uuids_drawn w1).
  { intros w2 r. destruct (map chunk_id _).
    - unfold ret. intros [= <-]. auto.
    - unfold deleteChunkVectors. destruct (Vectorize.deleteChunkVectors _ _ _ _); [discriminate|].
      intros [= <-]. auto. }
  destruct (match map chunk_id _ with [] => ret tt | _ :: _ => _ end w1) as [w2 [e|[]]] eqn:Hvec;
    [discriminate|].
  destruct (Hdel w2 tt eq_refl) as (Hc2 & Hf2 & Hu2).
  unfold bind at 1.
  destruct (insert_loop env file embeddings 0 pieces 0 w2) as [w3 [e|n']] eqn:Hloop;
    [discriminate|].
  pose proof (insert_loop_frame _ _ _ _ _ _ _ _ _ Hloop) as (Hf3 & _).
  apply insert_loop_success in Hloop. destruct Hloop as (Hn & Hrows & Hnodup & _ & Hvecs).
  unfold bind, Db.updateFileStatus, modify, ret. intros [= <- <-].
  cbn [chunks files MARBLE_VECTORS with_files].
  rewrite Hc2, Hu2 in *. cbn [chunks uuids_drawn w1 with_chunks] in *.
  split; [lia|]. split; [exact Hrows|]. split.
  { intros Hnd. apply Hnodup. unfold rowsOfOthers.
    clear -Hnd. induction (chunks w) as [|c l IH]; [constructor|].
    cbn in *. inversion Hnd as [|? ? Hc Hl]; subst.
    destruct (negb _); auto. cbn. constructor; auto.
    intros Hin. apply Hc. apply in_map_iff in Hin. destruct Hin as (c' & Heq & Hin).
    apply filter_In in Hin. apply in_map_iff. exists c'. tauto. }
  split; [exact Hvecs|].
  rewrite Hf3, Hf2. reflexivity.
Qed.

End IngestFacts.

Module IngestMoreTheorems.
Import Js BasicFacts Examples Ingest IngestSpec VectorizeSpec IngestFacts.

Lemma rowsOfFile_after env file pieces (rows : list ChunkRecord) drawn :
  rowsOfFile (file_id (fw_file file))
    (rowsOfOthers (file_id (fw_file file)) rows ++ rows_from env file drawn 0 pieces)
  = rows_from env file drawn 0 pieces.
Proof.
  unfold rowsOfFile, rowsOfOthers. rewrite filter_app, filter_filter_neg. cbn [app].
  apply filter_all. eapply Forall_impl; [|apply rows_from_of_file].
  cbv beta. intros row (-> & _). apply jsstring_eqb_refl.
Qed.

Lemma rowsOfOthers_after env file pieces (rows : list ChunkRecord) drawn :
  rowsOfOthers (file_id (fw_file file))
    (rowsOfOthers (file_id (fw_file file)) rows ++ rows_from env file drawn 0 pieces)
  = rowsOfOthers (file_id (fw_file file)) rows.
Proof.
  unfold rowsOfOthers. rewrite filter_app, filter_idem.
  rewrite (filter_none _ (rows_from env file drawn 0 pieces)); [apply app_nil_r|].
  eapply Forall_impl; [|apply rows_from_of_file].
  cbv beta. intros row (-> & _). now rewrite jsstring_eqb_refl.
Qed.

(** X9: when [ingestFileById] returns, the count it returns is the number
    of chunks of the file's text, at least one; the rows of the file in the
    chunk table are then exactly these chunks, in order, with their contents,
    line ranges and indices 0, 1, ..., each under the file's folder, owner
    and visibility; the rows the file had before are gone, the rows of the
    other files are as before, and the file is marked ready. *)
Theorem ingest_writes_the_chunks_in_order :
  forall fuel env fileId actingUserId w w' n,
    ingestFileById fuel env fileId actingUserId w = Some (w', inr n) ->
    exists file text pieces,
      Db.getFileById fileId w = (w, inr (Some file)) /\
      Db.getObjectText (file_r2_key (fw_file file)) w = (w, inr (Some text)) /\
      Chunk.chunkText fuel text
        {| Chunk.chunkSize := parseNumber (CHUNK_SIZE env) 1500;
           Chunk.overlap := parseNumber (CHUNK_OVERLAP env) 200 |} = Some (inr pieces) /\
      n = len pieces /\ 0 < n /\
      map chunkOf (rowsOfFile fileId (chunks w')) = pieces /\
      rowsOfOthers fileId (chunks w') = rowsOfOthers fileId (chunks w) /\
      Forall (fun row => chunk_folder_id row = file_folder_id (fw_file file) /\
                         chunk_owner_id row = file_owner_id (fw_file file) /\
                         chunk_visibility row = file_visibility (fw_file file))
        (rowsOfFile fileId (chunks w')) /\
      (forall f, In f (files w') -> file_id f = fileId -> file_ready f = true).
Proof.
  intros fuel env fileId actingUserId w w' n Hrun.
  destruct (ingest_cases _ _ _ _ _ _ _ Hrun) as [[[e He] _]|Hdone]; [discriminate|].
  destruct Hdone as (file & text & pieces & raw & embeddings & Hfile & _ & Hobject & Hchunks &
                     Hne & _ & _ & _ & Hreplace).
  destruct (getFileById_found _ _ _ Hfile) as [_ Hid].
  apply replaceChunks_success in Hreplace.
  destruct Hreplace as (Hn & Hrows & _ & _ & Hfiles).
  exists file, text, pieces. subst fileId.
  split; [exact Hfile|]. split; [exact Hobject|]. split; [exact Hchunks|].
  split; [exact Hn|]. split.
  { rewrite Hn. destruct pieces; [congruence|]. rewrite ChunkFacts.len_cons.
    pose proof (ChunkFacts.len_nonneg pieces). lia. }
  rewrite Hrows. rewrite rowsOfFile_after, rowsOfOthers_after.
  split.
  { rewrite rows_from_chunkOf. apply renumbered_chunks.
    exact (chunkText_indices _ _ _ _ Hchunks). }
  split; [reflexivity|]. split.
  { eapply Forall_impl; [|apply rows_from_of_file]. cbv beta. tauto. }
  intros f Hf Hfid. rewrite Hfiles in Hf. apply in_map_iff in Hf.
  destruct Hf as (f0 & Hf0 & _).
  destruct (jsstring_eqb (file_id f0) (file_id (fw_file file))) eqn:Hsame.
  - now subst f.
  - subst f. apply jsstring_eqb_neq in Hsame. congruence.
Qed.

Lemma ingest_writes_the_chunks_in_order_witness :
  exists file text pieces,
    Db.getFileById (str "file-1") example_world = (example_world, inr (Some file)) /\
    Db.getObjectText (file_r2_key (fw_file file)) example_world
      = (example_world, inr (Some text)) /\
    Chunk.chunkText 28 text
      {| Chunk.chunkSize :=
           parseNumber (CHUNK_SIZE (test_env (embeddings_reply [[1; 1; 1]]%Q) FetchRejected)) 1500;
         Chunk.overlap :=
           parseNumber (CHUNK_OVERLAP (test_env (embeddings_reply [[1; 1; 1]]%Q) FetchRejected))
             200 |} = Some (inr pieces) /\
    1 = len pieces /\ 0 < 1 /\
    map chunkOf (rowsOfFile (str "file-1") (chunks example_world_ingested)) = pieces /\
    rowsOfOthers (str "file-1") (chunks example_world_ingested)
      = rowsOfOthers (str "file-1") (chunks example_world) /\
    Forall (fun row => chunk_folder_id row = file_folder_id (fw_file file) /\
                       chunk_owner_id row = file_owner_id (fw_file file) /\
                       chunk_visibility row = file_visibility (fw_file file))
      (rowsOfFile (str "file-1") (chunks example_world_ingested)) /\
    (forall f, In f (files example_world_ingested) -> file_id f = str "file-1" ->
               file_ready f = true).
Proof.
  apply (ingest_writes_the_chunks_in_order 28
           (test_env (embeddings_reply [[1; 1; 1]]%Q) FetchRejected)
           (str "file-1") (str "user-1") example_world example_world_ingested 1).
  vm_compute. reflexivity.
Defined.

(** X10: when [ingestFileById] returns, every row of the file in the chunk
    table has its vector in the index, in the partition of the file's
    visibility and owner: stored under the row's id, with the embedding the
    provider returned at the row's chunk index, and with metadata that
    repeats the row's id and line range and the file's ids and names.  The
    ids of the chunk table stay pairwise distinct. *)
Theorem ingested_chunks_have_their_vectors :
  forall fuel env fileId actingUserId w w' n,
    ingestFileById fuel env fileId actingUserId w = Some (w', inr n) ->
    exists file text pieces raw embeddings,
      Db.getFileById fileId w = (w, inr (Some file)) /\
      Db.getObjectText (file_r2_key (fw_file file)) w = (w, inr (Some text)) /\
      Chunk.chunkText fuel text
        {| Chunk.chunkSize := parseNumber (CHUNK_SIZE env) 1500;
           Chunk.overlap := parseNumber (CHUNK_OVERLAP env) 200 |} = Some (inr pieces) /\
      OpenAI.createEmbeddings env (map Chunk.content pieces) = inr raw /\
      normalizeEmbeddings raw = inr embeddings /\
      (forall row, In row (chunks w') -> chunk_file_id row = fileId ->
         In (vectorFor embeddings file row)
           (reachable_records (MARBLE_VECTORS w')
              (Vectorize.partitionForVisibility (file_visibility (fw_file file))
                 (file_owner_id (fw_file file))))) /\
      (NoDup (map chunk_id (chunks w)) -> NoDup (map chunk_id (chunks w'))).
Proof.
  intros fuel env fileId actingUserId w w' n Hrun.
  destruct (ingest_cases _ _ _ _ _ _ _ Hrun) as [[[e He] _]|Hdone]; [discriminate|].
  destruct Hdone as (file & text & pieces & raw & embeddings & Hfile & _ & Hobject & Hchunks &
                     _ & Hraw & Hnorm & _ & Hreplace).
  destruct (getFileById_found _ _ _ Hfile) as [_ Hid].
  apply replaceChunks_success in Hreplace.
  destruct Hreplace as (_ & Hrows & Hnodup & Hvecs & _).
  exists file, text, pieces, raw, embeddings.
  repeat (split; [assumption|]). split; [|exact Hnodup].
  intros row Hrow Hmine. rewrite Forall_forall in Hvecs. apply Hvecs.
  rewrite <- (rowsOfFile_after env file pieces (chunks w) (uuids_drawn w)), <- Hrows.
  apply filter_In. split; [exact Hrow|]. rewrite Hid, Hmine. apply jsstring_eqb_refl.
Qed.

Lemma ingested_chunks_have_their_vectors_witness :
  exists file text pieces raw embeddings,
    Db.getFileById (str "file-1") example_world = (example_world, inr (Some file)) /\
    Db.getObjectText (file_r2_key (fw_file file)) example_world
      = (example_world, inr (Some text)) /\
    Chunk.chunkText 28 text
      {| Chunk.chunkSize :=
           parseNumber (CHUNK_SIZE (test_env (embeddings_reply [[1; 1; 1]]%Q) FetchRejected)) 1500;
         Chunk.overlap :=
           parseNumber (CHUNK_OVERLAP (test_env (embeddings_reply [[1; 1; 1]]%Q) FetchRejected))
             200 |} = Some (inr pieces) /\
    OpenAI.createEmbeddings (test_env (embeddings_reply [[1; 1; 1]]%Q) FetchRejected)
      (map Chunk.content pieces) = inr raw /\
    normalizeEmbeddings raw = inr embeddings /\
    (forall row, In row (chunks example_world_ingested) -> chunk_file_id row = str "file-1" ->
       In (vectorFor embeddings file row)
         (reachable_records (MARBLE_VECTORS example_world_ingested)
            (Vectorize.partitionForVisibility (file_visibility (fw_file file))
               (file_owner_id (fw_file file))))) /\
    (NoDup (map chunk_id (chunks example_world)) ->
     NoDup (map chunk_id (chunks example_world_ingested))).
Proof.
  apply (ingested_chunks_have_their_vectors 28
           (test_env (embeddings_reply [[1; 1; 1]]%Q) FetchRejected)
           (str "file-1") (str "user-1") example_world example_world_ingested 1).
  vm_compute. reflexivity.
Defined.

Lemma In_rowsOfOthers fileId rows c :
  chunk_file_id c <> fileId -> (In c (rowsOfOthers fileId rows) <-> In c rows).
Proof.
  intros Hne. unfold rowsOfOthers. rewrite filter_In.
  apply jsstring_eqb_neq in Hne. rewrite Hne. cbn. tauto.
Qed.

(** What [replaceChunks] leaves alone, whether it returns or throws on the
    way. *)
Lemma replaceChunks_frame env file pieces embeddings w w' r :
  replaceChunks env file pieces embeddings w = (w', r) ->
  folders w' = folders w /\ messages w' = messages w /\ objects w' = objects w /\
  responses_sent w' = responses_sent w /\
  (forall c, chunk_file_id c <> file_id (fw_file file) ->
             (In c (chunks w') <-> In c (chunks w))) /\
  (forall f, file_id f <> file_id (fw_file file) -> (In f (files w') <-> In f (files w))).
Proof.
  unfold replaceChunks, bind at 1, Db.deleteChunksForFile at 1. cbv zeta.
  fold (rowsOfOthers (file_id (fw_file file)) (chunks w)).
  set (w1 := with_chunks _ w).
  assert (Hbase : folders w1 = folders w /\ messages w1 = messages w /\ objects w1 = objects w /\
                  responses_sent w1 = responses_sent w /\
                  (forall c, chunk_file_id c <> file_id (fw_file file) ->
                             (In c (chunks w1) <-> In c (chunks w))) /\
                  (forall f, file_id f <> file_id (fw_file file) ->
                             (In f (files w1) <-> In f (files w)))).
  { cbn. repeat (split; [reflexivity|]). split; [|tauto].
    intros c Hc. now apply In_rowsOfOthers. }
  unfold bind at 1.
  assert (Hdel : forall w2 r,
            match map chunk_id
                    (filter (fun c => jsstring_eqb (chunk_file_id c) (file_id (fw_file file)))
                       (chunks w)) with
            | [] => ret tt
            | _ :: _ =>
                deleteChunkVectors
                  (map chunk_id
                     (filter (fun c => jsstring_eqb (chunk_file_id c) (file_id (fw_file file)))
                        (chunks w)))
                  (file_visibility (fw_file file)) (file_owner_id (fw_file file))
            end w1 = (w2, r) ->
            chunks w2 = chunks w1 /\ files w2 = files w1 /\ folders w2 = folders w1 /\
            messages w2 = messages w1 /\ objects w2 = objects w1 /\
            responses_sent w2 = responses_sent w1).
  { intros w2 r0. destruct (map chunk_id _).
    - unfold ret. intros [= <- _]. repeat split.
    - unfold deleteChunkVectors. destruct (Vectorize.deleteChunkVectors _ _ _ _);
        intros [= <- _]; repeat split. }
  destruct (match map chunk_id _ with [] => ret tt | _ :: _ => _ end w1) as [w2 r2] eqn:Hvec.
  destruct (Hdel w2 r2 eq_refl) as (Hc2 & Hf2 & Hd2 & Hm2 & Ho2 & Hs2).
  destruct Hbase as (Hd1 & Hm1 & Ho1 & Hs1 & Hc1 & Hf1).
  assert (Hbase2 : folders w2 = folders w /\ messages w2 = messages w /\ objects w2 = objects w /\
                   responses_sent w2 = responses_sent w /\
                   (forall c, chunk_file_id c <> file_id (fw_file file) ->
                              (In c (chunks w2) <-> In c (chunks w))) /\
                   (forall f, file_id f <> file_id (fw_file file) ->
                              (In f (files w2) <-> In f (files w)))).
  { rewrite Hc2, Hf2, Hd2, Hm2, Ho2, Hs2. auto 10. }
  clear Hdel Hvec Hc2 Hf2 Hd2 Hm2 Ho2 Hs2 Hd1 Hm1 Ho1 Hs1 Hc1 Hf1.
  destruct r2 as [e|[]]; [intros [= <- _]; exact Hbase2|].
  unfold bind at 1.
  destruct (insert_loop env file embeddings 0 pieces 0 w2) as [w3 r3] eqn:Hloop.
  apply insert_loop_frame in Hloop.
  destruct Hloop as (Hf3 & Hd3 & Hm3 & Ho3 & Hs3 & rows & Hrows & Hall).
  destruct Hbase2 as (Hd2 & Hm2 & Ho2 & Hs2 & Hc2 & Hf2).
  assert (Hc3 : forall c, chunk_file_id c <> file_id (fw_file file) ->
                          (In c (chunks w3) <-> In c (chunks w))).
  { intros c Hc. rewrite Hrows, in_app_iff, (Hc2 c Hc). split; [|tauto].
    intros [H|H]; [exact H|]. rewrite Forall_forall in Hall. now apply Hall in H. }
  destruct r3 as [e|n].
  { intros [= <- _]. rewrite Hf3, Hd3, Hm3, Ho3, Hs3. auto 10. }
  unfold bind, Db.updateFileStatus, modify, ret. intros [= <- _].
  cbn [folders messages objects responses_sent chunks files with_files].
  rewrite Hd3, Hm3, Ho3, Hs3. repeat (split; [assumption|]).
  intros f Hf. rewrite Hf3, <- (Hf2 f Hf), in_map_iff. split.
  - intros (f0 & Hf0 & Hin).
    destruct (jsstring_eqb (file_id f0) (file_id (fw_file file))) eqn:Hsame.
    + subst f. cbn in Hf. apply jsstring_eqb_eq in Hsame. contradiction.
    + now subst f.
  - intros Hin. exists f. split; [|exact Hin].
    apply jsstring_eqb_neq in Hf. now rewrite Hf.
Qed.

(** X11: whatever the outcome of [ingestFileById], and also when it throws
    halfway through the replacement, it leaves the folders, the messages and
    the stored objects as they were, sends nothing to the language model,
    and neither adds, removes nor changes a chunk row or a file row of
    another file.  When it changes anything at all or returns, the file
    exists and the acting user owns it. *)
Theorem ingest_touches_only_its_file :
  forall fuel env fileId actingUserId w w' r,
    ingestFileById fuel env fileId actingUserId w = Some (w', r) ->
    folders w' = folders w /\ messages w' = messages w /\ objects w' = objects w /\
    responses_sent w' = responses_sent w /\
    (forall c, chunk_file_id c <> fileId -> (In c (chunks w') <-> In c (chunks w))) /\
    (forall f, file_id f <> fileId -> (In f (files w') <-> In f (files w))) /\
    (w' <> w \/ (exists n, r = inr n) ->
     exists file, Db.getFileById fileId w = (w, inr (Some file)) /\
                  file_owner_id (fw_file file) = actingUserId).
Proof.
  intros fuel env fileId actingUserId w w' r Hrun.
  destruct (ingest_cases _ _ _ _ _ _ _ Hrun) as [[[e ->] ->]|Hdone].
  - repeat (split; [reflexivity || tauto|]).
    intros [Hne|[n Hn]]; [congruence|discriminate].
  - destruct Hdone as (file & text & pieces & raw & embeddings & Hfile & Howner & _ & _ &
                       _ & _ & _ & _ & Hreplace).
    destruct (getFileById_found _ _ _ Hfile) as [_ Hid].
    apply replaceChunks_frame in Hreplace. rewrite Hid in Hreplace.
    destruct Hreplace as (Hd & Hm & Ho & Hs & Hc & Hf).
    repeat (split; [assumption|]). intros _. eauto.
Qed.

Lemma ingest_touches_only_its_file_witness :
  folders example_world_ingested = folders example_world /\
  messages example_world_ingested = messages example_world /\
  objects example_world_ingested = objects example_world /\
  responses_sent example_world_ingested = responses_sent example_world /\
  (forall c, chunk_file_id c <> str "file-1" ->
             (In c (chunks example_world_ingested) <-> In c (chunks example_world))) /\
  (forall f, file_id f <> str "file-1" ->
             (In f (files example_world_ingested) <-> In f (files example_world))) /\
  (example_world_ingested <> example_world \/ (exists n, @inr Failure Z 1 = inr n) ->
   exists file, Db.getFileById (str "file-1") example_world
                = (example_world, inr (Some file)) /\
                file_owner_id (fw_file file) = str "user-1").
Proof.
  apply (ingest_touches_only_its_file 28
           (test_env (embeddings_reply [[1; 1; 1]]%Q) FetchRejected)
           (str "file-1") (str "user-1") example_world example_world_ingested (inr 1)).
  vm_compute. reflexivity.
Defined.

End IngestMoreTheorems.

(** * The chat route: sources, records and requests *)

Module ChatMoreFacts.
Import Js BasicFacts Examples Chat ChatSpec.

Lemma bind_run {A B} (m : M A) (k : A -> M B) w :
  bind m k w = match m w with
               | (w', inr a) => k a w'
               | (w', inl e) => (w', inl e)
               end.
Proof. reflexivity. Qed.

(** The rows [getChunksByIds] returns are rows of the chunk table, joined
    with their file's name and their folder's name. *)
Lemma getChunksByIds_rows ids w w1 r :
  Db.getChunksByIds ids w = (w1, r) ->
  w1 = w /\
  exists rows, r = inr rows /\
    forall ch, In ch rows ->
      In (cw_chunk ch) (chunks w) /\
      In (chunk_id (cw_chunk ch)) ids /\
      exists f d, In f (files w) /\ In d (folders w) /\
                  file_id f = chunk_file_id (cw_chunk ch) /\
                  folder_id d = chunk_folder_id (cw_chunk ch) /\
                  cw_file_name ch = file_name f /\
                  cw_folder_name ch = folder_name d.
Proof.
  unfold Db.getChunksByIds. destruct ids as [|id ids].
  - unfold ret. intros [= <- <-]. split; [reflexivity|]. exists []. split; [reflexivity|].
    intros ch [].
  - unfold gets. intros [= <- <-]. split; [reflexivity|]. eexists. split; [reflexivity|].
    intros ch Hch. apply in_flat_map in Hch. destruct Hch as (c & Hc & Hch).
    destruct (_ || _) eqn:Hlisted; [|contradiction].
    apply in_flat_map in Hch. destruct Hch as (f & Hf & Hch).
    destruct (jsstring_eqb (file_id f) (chunk_file_id c)) eqn:Hfile; [|contradiction].
    apply in_map_iff in Hch. destruct Hch as (d & <- & Hd).
    apply filter_In in Hd. destruct Hd as [Hd Hfolder]. cbn.
    apply jsstring_eqb_eq in Hfile. apply jsstring_eqb_eq in Hfolder.
    split; [exact Hc|]. split.
    { apply orb_true_iff in Hlisted. destruct Hlisted as [Heq|Hlisted].
      - apply jsstring_eqb_eq in Heq. now left.
      - apply existsb_exists in Hlisted. destruct Hlisted as (id' & Hin & Heq).
        apply jsstring_eqb_eq in Heq. rewrite Heq. now right. }
    exists f, d. auto 10.
Qed.

Lemma byId_values rows : forall (init : list (jsstring * ChunkWithContext)) k v,
  In (k, v) (fold_left (fun m ch => map_set (chunk_id (cw_chunk ch)) ch m) rows init) ->
  In (k, v) init \/ (In v rows /\ k = chunk_id (cw_chunk v)).
Proof.
  induction rows as [|ch rows IH]; intros init k v; cbn [fold_left]; [now left|].
  intros Hin. apply IH in Hin. destruct Hin as [Hin|[Hin Hk]].
  - apply In_map_set in Hin. destruct Hin as [[= -> ->]|Hin]; [|now left].
    right. split; [now left|reflexivity].
  - right. split; [now right|exact Hk].
Qed.

(** The context built from the row [ch] with the rank [index]. *)
Lemma contexts_from_spec byId : forall entries index s,
  In s (contexts_from byId index entries) ->
  index <= order s < index + len entries /\
  exists e ch, In e entries /\ map_get (chunkIdOf e) byId = Some ch /\
               src_chunkId s = chunk_id (cw_chunk ch) /\
               src_folderName s = cw_folder_name ch /\
               src_fileName s = cw_file_name ch /\
               src_startLine s = chunk_start_line (cw_chunk ch) /\
               src_endLine s = chunk_end_line (cw_chunk ch) /\
               src_content s = chunk_content (cw_chunk ch).
Proof.
  induction entries as [|e entries IH]; intros index s; cbn [contexts_from]; [intros []|].
  rewrite ChunkFacts.len_cons. pose proof (ChunkFacts.len_nonneg entries) as Hlen.
  assert (Hrest : In s (contexts_from byId (index + 1) entries) ->
                  index <= order s < index + (len entries + 1) /\
                  exists e0 ch, In e0 (e :: entries) /\ map_get (chunkIdOf e0) byId = Some ch /\
                    src_chunkId s = chunk_id (cw_chunk ch) /\
                    src_folderName s = cw_folder_name ch /\
                    src_fileName s = cw_file_name ch /\
                    src_startLine s = chunk_start_line (cw_chunk ch) /\
                    src_endLine s = chunk_end_line (cw_chunk ch) /\
                    src_content s = chunk_content (cw_chunk ch)).
  { intros Hin. apply IH in Hin. destruct Hin as (Hord & e0 & ch & He0 & Hrest).
    split; [lia|]. exists e0, ch. split; [now right|exact Hrest]. }
  destruct (map_get (chunkIdOf e) byId) as [ch|] eqn:Hget; [|exact Hrest].
  intros [<-|Hin]; [|auto]. cbn. split; [lia|].
  exists e, ch. split; [now left|]. auto 10.
Qed.

Lemma contexts_from_sorted byId : forall entries index,
  StronglySorted Z.lt (map order (contexts_from byId index entries)).
Proof.
  induction entries as [|e entries IH]; intros index; cbn [contexts_from]; [constructor|].
  destruct (map_get (chunkIdOf e) byId) as [ch|]; [|apply IH].
  cbn [map order]. constructor; [apply IH|].
  apply Forall_forall. intros o Ho. apply in_map_iff in Ho. destruct Ho as (s & <- & Hs).
  apply contexts_from_spec in Hs. destruct Hs as [Hs _]. lia.
Qed.

Lemma contexts_from_length byId : forall entries index,
  len (contexts_from byId index entries) <= len entries.
Proof.
  induction entries as [|e entries IH]; intros index; cbn [contexts_from];
    [unfold len; cbn; lia|].
  rewrite ChunkFacts.len_cons. specialize (IH (index + 1)).
  destruct (map_get (chunkIdOf e) byId); [rewrite ChunkFacts.len_cons|]; lia.
Qed.

Lemma topMatches_length results k : 0 <= k -> len (topMatches results k) <= k.
Proof.
  intros Hk. unfold topMatches. rewrite take_firstn by exact Hk.
  unfold len. rewrite length_firstn. lia.
Qed.

Lemma retrieve_ranked env uid q w w1 matches :
  retrieve env uid q w = (w1, inr matches) ->
  len matches <= parseTopK (VECTOR_TOP_K env).
Proof.
  unfold retrieve. rewrite bind_run. unfold lift.
  destruct (match _ with inl e => inl _ | inr embedding => inr embedding end); [discriminate|].
  rewrite bind_run. unfold gets, ret. intros [= _ <-].
  apply topMatches_length. pose proof (MergeFacts.parseTopK_positive (VECTOR_TOP_K env)). lia.
Qed.

Lemma callResponses_returns env body w w' res :
  OpenAI.callResponses env body w = (w', inr res) ->
  w' = with_responses_sent (responses_sent w ++ [body]) w.
Proof.
  unfold OpenAI.callResponses. destruct (falsy _); [discriminate|].
  rewrite bind_run. unfold modify, throw, lift.
  destruct (fetch_responses env body); try discriminate. now intros [= <- _].
Qed.

Lemma callResponses_frame env body w w' res :
  OpenAI.callResponses env body w = (w', res) ->
  files w' = files w /\ folders w' = folders w /\ chunks w' = chunks w /\
  objects w' = objects w /\ MARBLE_VECTORS w' = MARBLE_VECTORS w /\
  messages w' = messages w /\ uuids_drawn w' = uuids_drawn w.
Proof.
  unfold OpenAI.callResponses. destruct (falsy _).
  - unfold throw. intros [= <- _]. auto 10.
  - rewrite bind_run. unfold modify, throw, lift.
    destruct (fetch_responses env body); intros [= <- _]; cbn; auto 10.
Qed.

Lemma recordChat_returns data w w' :
  Db.recordChat data w = (w', inr tt) ->
  w' = with_messages (messages w ++ [data]) w /\ ~ In (msg_id data) (map msg_id (messages w)).
Proof.
  unfold Db.recordChat. destruct (existsb _ _) eqn:Hpk; [discriminate|].
  intros [= <-]. split; [reflexivity|].
  intros Hin. apply in_map_iff in Hin. destruct Hin as (m & Hm & Hin).
  assert (existsb (fun m => jsstring_eqb (msg_id m) (msg_id data)) (messages w) = true).
  { apply existsb_exists. exists m. split; [exact Hin|]. now apply jsstring_eqb_eq. }
  congruence.
Qed.

Lemma same_documents_refl w : same_documents w w.
Proof. repeat split. Qed.

Lemma same_documents_trans w1 w2 w3 :
  same_documents w1 w2 -> same_documents w2 w3 -> same_documents w1 w3.
Proof.
  unfold same_documents. intros (? & ? & ? & ? & ?) (? & ? & ? & ? & ?).
  repeat split; congruence.
Qed.

Lemma recordChat_documents data w w' r :
  Db.recordChat data w = (w', r) -> same_documents w w'.
Proof.
  intros H. apply ChatFacts.recordChat_effect in H.
  destruct H as [[-> _]|[-> _]]; repeat split.
Qed.

Lemma callResponses_documents env body w w' r :
  OpenAI.callResponses env body w = (w', r) -> same_documents w w'.
Proof.
  intros H. apply callResponses_frame in H. unfold same_documents. tauto.
Qed.

Lemma answerFreeform_documents env uid q w w' r :
  answerFreeform env uid q w = (w', r) -> same_documents w w'.
Proof.
  unfold answerFreeform. rewrite bind_run. unfold freshUUID. rewrite bind_run.
  destruct (OpenAI.generateGeneralAnswer env q _) as [w1 [e|structured]] eqn:Hcall;
    apply callResponses_documents in Hcall.
  - intros [= <- _]. exact Hcall.
  - rewrite bind_run. destruct (Db.recordChat _ w1) as [w2 [e|[]]] eqn:Hrec;
      apply recordChat_documents in Hrec; unfold ret; intros [= <- _];
      exact (same_documents_trans _ _ _ Hcall Hrec).
Qed.

Lemma answerLookup_documents env uid rawQuestion q w w' r :
  answerLookup env uid rawQuestion q w = (w', r) -> same_documents w w'.
Proof.
  unfold answerLookup. rewrite bind_run.
  destruct (retrieve env uid q w) as [w1 [e|matches]] eqn:Hret;
    apply ChatFacts.retrieve_reads_only in Hret; subst w1.
  - intros [= <- _]. apply same_documents_refl.
  - destruct (map chunkIdOf matches) eqn:Hids.
    + rewrite ChatFacts.nothingRelevant_run. intros [= <- _]. repeat split.
    + rewrite bind_run.
      destruct (resolveContexts matches w) as [w2 rc] eqn:Hres.
      apply ChatFacts.resolveContexts_reads_only in Hres. destruct Hres as (-> & contexts & ->).
      destruct contexts as [|cxt contexts].
      * rewrite ChatFacts.nothingRelevant_run. intros [= <- _]. repeat split.
      * rewrite bind_run.
        destruct (OpenAI.generateStructuredAnswer env q _ w) as [w3 [e|structured]] eqn:Hcall;
          cbn [map OpenAI.generateStructuredAnswer] in Hcall;
          apply callResponses_documents in Hcall.
        -- intros [= <- _]. exact Hcall.
        -- rewrite bind_run. unfold freshUUID. rewrite bind_run.
           destruct (Db.recordChat _ _) as [w4 [e|[]]] eqn:Hrec;
             apply recordChat_documents in Hrec; unfold ret; intros [= <- _];
             refine (same_documents_trans _ _ _ Hcall _);
             destruct Hrec as (? & ? & ? & ? & ?); repeat split; assumption.
Qed.

End ChatMoreFacts.

Module ChatMoreTheorems.
Import Js BasicFacts Examples Chat ChatSpec ChatMoreFacts.

(** What a lookup that returns has done. *)
Lemma answerLookup_returns env uid rawQuestion q w w' resp :
  answerLookup env uid rawQuestion q w = (w', inr resp) ->
  (resp_answer resp = OpenAI.NOTHING_RELEVANT /\ resp_citations resp = [] /\
   resp_sources resp = [] /\ messages w' = messages w /\
   responses_sent w' = responses_sent w) \/
  (exists matches request,
     retrieve env uid q w = (w, inr matches) /\
     resolveContexts matches w = (w, inr (resp_sources resp)) /\
     resp_sources resp <> [] /\
     req_context request = Some (map block_of (resp_sources resp)) /\
     req_question request = q /\
     responses_sent w' = responses_sent w ++ [request] /\
     messages w' = messages w ++
       [ {| msg_id := resp_id resp; msg_user_id := uid; msg_question := rawQuestion;
            msg_answer := resp_answer resp;
            msg_citations := JSON_stringify env (VArr (resp_citations resp)) |} ] /\
     ~ In (resp_id resp) (map msg_id (messages w))).
Proof.
  unfold answerLookup. rewrite bind_run.
  destruct (retrieve env uid q w) as [w1 [e|matches]] eqn:Hret; [discriminate|].
  pose proof (ChatFacts.retrieve_reads_only _ _ _ _ _ _ Hret). subst w1.
  destruct (map chunkIdOf matches) eqn:Hids.
  { rewrite ChatFacts.nothingRelevant_run. intros [= <- <-]. left. repeat split. }
  rewrite bind_run.
  destruct (resolveContexts matches w) as [w2 rc] eqn:Hres.
  destruct (ChatFacts.resolveContexts_reads_only _ _ _ _ Hres) as (-> & contexts & ->).
  destruct contexts as [|cxt contexts].
  { rewrite ChatFacts.nothingRelevant_run. intros [= <- <-]. left. repeat split. }
  rewrite bind_run.
  destruct (OpenAI.generateStructuredAnswer env q _ w) as [w3 [e|structured]] eqn:Hcall;
    [discriminate|].
  cbn [map OpenAI.generateStructuredAnswer] in Hcall.
  apply callResponses_returns in Hcall. subst w3.
  rewrite bind_run. unfold freshUUID. rewrite bind_run.
  destruct (Db.recordChat _ _) as [w4 [e|[]]] eqn:Hrec; [discriminate|].
  apply recordChat_returns in Hrec. destruct Hrec as [-> Hnew].
  unfold ret. intros [= <- <-]. right.
  match goal with
  | |- context [with_responses_sent (_ ++ [?r]) _] => exists matches, r
  end.
  cbn [resp_id resp_answer resp_citations resp_sources messages responses_sent
       with_messages with_uuids_drawn with_responses_sent msg_id
       req_context req_question] in *.
  split; [reflexivity|]. split; [exact Hres|].
  split; [discriminate|]. split; [reflexivity|]. split; [reflexivity|].
  split; [reflexivity|]. split; [reflexivity|]. exact Hnew.
Qed.

Lemma answerFreeform_returns env uid q w w' resp :
  answerFreeform env uid q w = (w', inr resp) ->
  exists request,
    resp_sources resp = [] /\
    req_context request = None /\
    req_question request = q /\
    responses_sent w' = responses_sent w ++ [request] /\
    messages w' = messages w ++
      [ {| msg_id := resp_id resp; msg_user_id := uid; msg_question := q;
           msg_answer := resp_answer resp;
           msg_citations := JSON_stringify env (VArr (resp_citations resp)) |} ] /\
    ~ In (resp_id resp) (map msg_id (messages w)).
Proof.
  unfold answerFreeform. rewrite bind_run. unfold freshUUID. rewrite bind_run.
  destruct (OpenAI.generateGeneralAnswer env q _) as [w1 [e|structured]] eqn:Hcall;
    [discriminate|].
  unfold OpenAI.generateGeneralAnswer in Hcall.
  apply callResponses_returns in Hcall. subst w1.
  rewrite bind_run.
  destruct (Db.recordChat _ _) as [w2 [e|[]]] eqn:Hrec; [discriminate|].
  apply recordChat_returns in Hrec. destruct Hrec as [-> Hnew].
  unfold ret. intros [= <- <-].
  match goal with
  | |- context [with_responses_sent (_ ++ [?r]) _] => exists r
  end.
  cbn [resp_id resp_answer resp_citations resp_sources messages responses_sent
       with_messages with_uuids_drawn with_responses_sent msg_id
       req_context req_question] in *.
  split; [reflexivity|]. split; [reflexivity|]. split; [reflexivity|].
  split; [reflexivity|]. split; [reflexivity|]. exact Hnew.
Qed.

(** X12: every source in a chat response shows a row of the chunk table
    as it is stored now (content and line range from the row, names from
    the row's file and folder, not from the vector's metadata); the sources
    come in strictly increasing rank, each rank below the configured top-K,
    so there are at most top-K of them. *)
Theorem sources_show_stored_chunks :
  forall env uid requestBody w w' resp,
    handleChat env uid requestBody w = (w', inr resp) ->
    (forall s, In s (resp_sources resp) ->
       0 <= order s < parseTopK (VECTOR_TOP_K env) /\
       exists c f d, In c (chunks w) /\ In f (files w) /\ In d (folders w) /\
                     shows s c f d) /\
    StronglySorted Z.lt (map order (resp_sources resp)) /\
    len (resp_sources resp) <= parseTopK (VECTOR_TOP_K env).
Proof.
  intros env uid requestBody w w' resp Hrun.
  pose proof (MergeFacts.parseTopK_positive (VECTOR_TOP_K env)) as HtopK.
  assert (Hnone : resp_sources resp = [] ->
                  (forall s, In s (resp_sources resp) ->
                     0 <= order s < parseTopK (VECTOR_TOP_K env) /\
                     exists c f d, In c (chunks w) /\ In f (files w) /\ In d (folders w) /\
                                   shows s c f d) /\
                  StronglySorted Z.lt (map order (resp_sources resp)) /\
                  len (resp_sources resp) <= parseTopK (VECTOR_TOP_K env)).
  { intros ->. split; [intros s []|]. split; [constructor|]. unfold len. cbn. lia. }
  unfold handleChat in Hrun.
  destruct requestBody as [body|]; [|discriminate].
  destruct (chatInput body) as [question|]; [|discriminate].
  destruct (trim question) as [|c rawQuestion]; [discriminate|].
  destruct (lookupMatch (c :: rawQuestion)) as [captured|].
  2:{ apply answerFreeform_returns in Hrun. destruct Hrun as (request & Hsrc & _).
      exact (Hnone Hsrc). }
  destruct (trim captured) as [|c' lookupQuery]; [discriminate|].
  apply answerLookup_returns in Hrun.
  destruct Hrun as [(_ & _ & Hsrc & _)|Hdone]; [exact (Hnone Hsrc)|].
  destruct Hdone as (matches & request & Hret & Hres & _).
  apply retrieve_ranked in Hret.
  unfold resolveContexts in Hres. rewrite bind_run in Hres.
  destruct (Db.getChunksByIds (map chunkIdOf matches) w) as [w1 r1] eqn:Hrows.
  apply getChunksByIds_rows in Hrows. destruct Hrows as (-> & rows & -> & Hrows).
  unfold ret in Hres. injection Hres as Hres. rewrite <- Hres.
  pose proof (contexts_from_length
                (fold_left (fun m ch => map_set (chunk_id (cw_chunk ch)) ch m) rows [])
                matches 0) as Hlen.
  split; [|split; [apply contexts_from_sorted|lia]].
  intros s Hs. apply contexts_from_spec in Hs.
  destruct Hs as (Hord & e & ch & _ & Hget & Hid & Hfolder & Hfile & Hstart & Hend & Hcontent).
  split; [lia|].
  apply map_get_In in Hget. apply byId_values in Hget.
  destruct Hget as [[]|[Hch _]].
  destruct (Hrows ch Hch) as (Hc & _ & f & d & Hf & Hd & Hfid & Hdid & Hfname & Hdname).
  exists (cw_chunk ch), f, d. unfold shows.
  repeat split; congruence.
Qed.

Lemma sources_show_stored_chunks_witness :
  exists w' resp,
    handleChat lookup_env (str "user-1") (Some (question_body "/lookup notes"))
      example_world_ingested = (w', inr resp) /\
    resp_sources resp <> [] /\
    (forall s, In s (resp_sources resp) ->
       0 <= order s < parseTopK (VECTOR_TOP_K lookup_env) /\
       exists c f d, In c (chunks example_world_ingested) /\
                     In f (files example_world_ingested) /\
                     In d (folders example_world_ingested) /\ shows s c f d) /\
    StronglySorted Z.lt (map order (resp_sources resp)) /\
    len (resp_sources resp) <= parseTopK (VECTOR_TOP_K lookup_env).
Proof.
  destruct (handleChat lookup_env (str "user-1") (Some (question_body "/lookup notes"))
              example_world_ingested) as [w' [e|resp]] eqn:Hrun;
    [vm_compute in Hrun; discriminate|].
  exists w', resp. split; [reflexivity|]. split.
  - vm_compute in Hrun. injection Hrun as _ <-. discriminate.
  - exact (sources_show_stored_chunks _ _ _ _ _ _ Hrun).
Defined.

(** X13: a chat that returns either gave the fixed nothing-relevant answer,
    with no source and no citation, saved nothing and asked the model
    nothing; or it asked the model exactly once and saved exactly one
    message, under the response's id (new in the message table), for the
    user, with the trimmed question as typed, the response's answer and the
    serialized citations of the response.  The model was asked the lookup
    query with exactly the response's sources as context when the question
    is a lookup, and the trimmed question with no context otherwise. *)
Theorem chat_record_matches_response :
  forall env uid body w w' resp,
    handleChat env uid (Some body) w = (w', inr resp) ->
    (resp_answer resp = OpenAI.NOTHING_RELEVANT /\ resp_citations resp = [] /\
     resp_sources resp = [] /\ messages w' = messages w /\
     responses_sent w' = responses_sent w) \/
    (exists question request,
       chatInput body = Some question /\
       messages w' = messages w ++
         [ {| msg_id := resp_id resp; msg_user_id := uid; msg_question := trim question;
              msg_answer := resp_answer resp;
              msg_citations := JSON_stringify env (VArr (resp_citations resp)) |} ] /\
       ~ In (resp_id resp) (map msg_id (messages w)) /\
       responses_sent w' = responses_sent w ++ [request] /\
       match lookupMatch (trim question) with
       | Some captured =>
           req_question request = trim captured /\
           resp_sources resp <> [] /\
           req_context request = Some (map block_of (resp_sources resp))
       | None =>
           req_question request = trim question /\
           resp_sources resp = [] /\
           req_context request = None
       end).
Proof.
  intros env uid body w w' resp Hrun. unfold handleChat in Hrun.
  destruct (chatInput body) as [question|]; [|discriminate].
  destruct (trim question) as [|c rawQuestion] eqn:Htrim; [discriminate|].
  destruct (lookupMatch (c :: rawQuestion)) as [captured|] eqn:Hlookup.
  - destruct (trim captured) as [|c' lookupQuery] eqn:Hquery; [discriminate|].
    apply answerLookup_returns in Hrun. destruct Hrun as [Hnothing|Hdone]; [now left|].
    destruct Hdone as (matches & request & _ & _ & Hne & Hctx & Hq & Hsent & Hmsg & Hnew).
    right. exists question, request. rewrite Htrim, Hlookup, Hquery. auto 10.
  - apply answerFreeform_returns in Hrun.
    destruct Hrun as (request & Hsrc & Hctx & Hq & Hsent & Hmsg & Hnew).
    right. exists question, request. rewrite Htrim, Hlookup. auto 10.
Qed.

Lemma chat_record_matches_response_witness :
  exists w' resp,
    handleChat lookup_env (str "user-1") (Some (question_body "/lookup notes"))
      example_world_ingested = (w', inr resp) /\
    ((resp_answer resp = OpenAI.NOTHING_RELEVANT /\ resp_citations resp = [] /\
      resp_sources resp = [] /\ messages w' = messages example_world_ingested /\
      responses_sent w' = responses_sent example_world_ingested) \/
     (exists question request,
        chatInput (question_body "/lookup notes") = Some question /\
        messages w' = messages example_world_ingested ++
          [ {| msg_id := resp_id resp; msg_user_id := str "user-1";
               msg_question := trim question;
               msg_answer := resp_answer resp;
               msg_citations := JSON_stringify lookup_env (VArr (resp_citations resp)) |} ] /\
        ~ In (resp_id resp) (map msg_id (messages example_world_ingested)) /\
        responses_sent w' = responses_sent example_world_ingested ++ [request] /\
        match lookupMatch (trim question) with
        | Some captured =>
            req_question request = trim captured /\
            resp_sources resp <> [] /\
            req_context request = Some (map block_of (resp_sources resp))
        | None =>
            req_question request = trim question /\
            resp_sources resp = [] /\
            req_context request = None
        end)).
Proof.
  destruct (handleChat lookup_env (str "user-1") (Some (question_body "/lookup notes"))
              example_world_ingested) as [w' [e|resp]] eqn:Hrun;
    [vm_compute in Hrun; discriminate|].
  exists w', resp. split; [reflexivity|].
  exact (chat_record_matches_response _ _ _ _ _ _ Hrun).
Defined.

(** X14: whatever its outcome, [handleChat] writes to no store of
    documents: the file, folder and chunk tables, the stored objects and the
    vector index are afterwards as they were. *)
Theorem chat_writes_no_document :
  forall env uid requestBody w w' r,
    handleChat env uid requestBody w = (w', r) ->
    same_documents w w'.
Proof.
  intros env uid requestBody w w' r. unfold handleChat.
  destruct requestBody as [body|]; [|intros [= <- _]; apply same_documents_refl].
  destruct (chatInput body) as [question|]; [|intros [= <- _]; apply same_documents_refl].
  destruct (trim question) as [|c rawQuestion];
    [intros [= <- _]; apply same_documents_refl|].
  destruct (lookupMatch (c :: rawQuestion)) as [captured|].
  - destruct (trim captured) as [|c' lookupQuery];
      [intros [= <- _]; apply same_documents_refl|].
    apply answerLookup_documents.
  - apply answerFreeform_documents.
Qed.

Lemma chat_writes_no_document_witness :
  same_documents example_world_ingested
    (fst (handleChat lookup_env (str "user-1") (Some (question_body "/lookup notes"))
            example_world_ingested)).
Proof.
  apply (chat_writes_no_document lookup_env (str "user-1")
           (Some (question_body "/lookup notes")) example_world_ingested _
           (snd (handleChat lookup_env (str "user-1") (Some (question_body "/lookup notes"))
                   example_world_ingested))).
  apply surjective_pairing.
Defined.

End ChatMoreTheorems.

(** * The chat route: reading the question *)

Module QuestionFacts.
Import Js BasicFacts Examples Chat.

Lemma char_eqb_eq a b : char_eqb a b = true <-> a = b.
Proof. unfold char_eqb. apply N.eqb_eq. Qed.

Lemma startsWith_split : forall prefix s,
  startsWith s prefix = true <-> exists rest, s = prefix ++ rest.
Proof.
  induction prefix as [|p prefix IH]; intros s; cbn [startsWith].
  - split; [intros _; now exists s|reflexivity].
  - destruct s as [|c s].
    + split; [discriminate|]. intros (rest & H). discriminate.
    + rewrite andb_true_iff, char_eqb_eq, IH. split.
      * intros (-> & rest & ->). now exists rest.
      * intros (rest & [= -> ->]). split; [reflexivity|]. now exists rest.
Qed.

Lemma map_eq_app_split {A B} (f : A -> B) : forall (l : list A) l1 l2,
  map f l = l1 ++ l2 ->
  l = firstn (length l1) l ++ skipn (length l1) l /\ map f (firstn (length l1) l) = l1.
Proof.
  intros l l1 l2 H. split; [symmetry; apply firstn_skipn|].
  rewrite <- firstn_map, H, firstn_app, Nat.sub_diag, firstn_all. cbn. apply app_nil_r.
Qed.

Lemma skipWhiteSpace_split : forall s,
  exists ws, s = ws ++ skipWhiteSpace s /\
             Forall (fun c => isWhiteSpace c = true) ws /\
             (forall c rest, skipWhiteSpace s = c :: rest -> isWhiteSpace c = false).
Proof.
  induction s as [|c s (ws & Hs & Hws & Hhead)]; cbn [skipWhiteSpace].
  - exists []. split; [reflexivity|]. split; [constructor|]. discriminate.
  - destruct (isWhiteSpace c) eqn:Hc.
    + exists (c :: ws). split; [cbn; now rewrite <- Hs|]. split; [now constructor|exact Hhead].
    + exists []. split; [reflexivity|]. split; [constructor|].
      intros c' rest [= <- _]. exact Hc.
Qed.

Lemma skipWhiteSpace_app ws : forall captured,
  Forall (fun c => isWhiteSpace c = true) ws ->
  (forall c rest, captured = c :: rest -> isWhiteSpace c = false) ->
  skipWhiteSpace (ws ++ captured) = captured.
Proof.
  intros captured Hws Hhead. induction Hws as [|c ws Hc _ IH]; cbn [app skipWhiteSpace].
  - destruct captured as [|c rest]; [reflexivity|]. cbn [skipWhiteSpace].
    now rewrite (Hhead c rest eq_refl).
  - now rewrite Hc.
Qed.

Lemma trimStart_blank s :
  Forall (fun c => isWhiteSpace c = true) s -> trimStart s = [].
Proof. induction 1 as [|c s Hc _ IH]; cbn; [reflexivity|]. now rewrite Hc. Qed.

Lemma trim_blank s :
  Forall (fun c => isWhiteSpace c = true) s -> trim s = [].
Proof. intros H. unfold trim, trimEnd. now rewrite (trimStart_blank _ H). Qed.

Lemma existsb_false_Forall {A} (f : A -> bool) l :
  existsb f l = false <-> Forall (fun x => f x = false) l.
Proof.
  induction l as [|x l IH]; cbn; [split; [constructor|reflexivity]|].
  rewrite orb_false_iff, IH. split.
  - intros [? ?]. now constructor.
  - intros H. inversion H. auto.
Qed.

Lemma startsWith_refl s : startsWith s s = true.
Proof. apply startsWith_split. exists []. now rewrite app_nil_r. Qed.

Lemma lookupMatch_bare rawQuestion :
  map fold_case rawQuestion = str "/lookup" -> lookupMatch rawQuestion = Some [].
Proof.
  intros H. unfold lookupMatch. rewrite H, startsWith_refl.
  rewrite skipn_all2; [reflexivity|].
  rewrite <- H, length_map. lia.
Qed.

End QuestionFacts.

Module QuestionTheorems.
Import Js BasicFacts Examples Chat QuestionFacts.

(** X15: [lookupMatch] recognizes exactly the questions made of the command
    [/lookup] in any letter case, then white space (possibly none), then a
    rest that starts with no white space and holds no line terminator; what
    it captures is that rest.  So the command needs no space after it, and a
    question whose text after the command runs over several lines is
    not a lookup. *)
Theorem lookup_command_is_recognized :
  forall rawQuestion captured,
    lookupMatch rawQuestion = Some captured <->
    exists command ws,
      rawQuestion = command ++ ws ++ captured /\
      map fold_case command = str "/lookup" /\
      Forall (fun c => isWhiteSpace c = true) ws /\
      Forall (fun c => isLineTerminator c = false) captured /\
      (forall c rest, captured = c :: rest -> isWhiteSpace c = false).
Proof.
  intros rawQuestion captured. unfold lookupMatch. split.
  - destruct (startsWith _ _) eqn:Hstart; [|discriminate].
    apply startsWith_split in Hstart. destruct Hstart as (rest & Hrest).
    apply map_eq_app_split in Hrest. destruct Hrest as [Hsplit Hcommand].
    destruct (existsb _ _) eqn:Hline; [discriminate|]. intros [= <-].
    destruct (skipWhiteSpace_split (skipn (length (str "/lookup")) rawQuestion))
      as (ws & Hws & Hblank & Hhead).
    exists (firstn (length (str "/lookup")) rawQuestion), ws.
    split; [etransitivity; [exact Hsplit|]; f_equal; exact Hws|].
    split; [exact Hcommand|]. split; [exact Hblank|].
    split; [now apply existsb_false_Forall|exact Hhead].
  - intros (command & ws & -> & Hcommand & Hblank & Hline & Hhead).
    rewrite map_app, Hcommand.
    assert (Hstart : startsWith (str "/lookup" ++ map fold_case (ws ++ captured))
                       (str "/lookup") = true)
      by (apply startsWith_split; eauto).
    rewrite Hstart.
    assert (Hlen : length (str "/lookup") = length command)
      by (rewrite <- Hcommand; apply length_map).
    rewrite Hlen, skipn_app, Nat.sub_diag, skipn_all. cbn [app skipn].
    rewrite (skipWhiteSpace_app ws captured Hblank Hhead).
    apply existsb_false_Forall in Hline. now rewrite Hline.
Qed.

(** X16: a question of white space only is refused with status 400
    ("Question cannot be empty"), and so is the bare command [/lookup], in
    any letter case and with white space around it ("Lookup query cannot be
    empty"); nothing is asked, saved or drawn in either case. *)
Theorem blank_questions_are_refused :
  forall env uid body question w,
    chatInput body = Some question ->
    (Forall (fun c => isWhiteSpace c = true) question ->
     handleChat env uid (Some body) w
     = (w, inl (HTTPException 400 (Text "Question cannot be empty")))) /\
    (map fold_case (trim question) = str "/lookup" ->
     handleChat env uid (Some body) w
     = (w, inl (HTTPException 400 (Text "Lookup query cannot be empty")))).
Proof.
  intros env uid body question w Hinput. unfold handleChat. rewrite Hinput. split.
  - intros Hblank. now rewrite (trim_blank _ Hblank).
  - intros Hcommand.
    assert (Hmatch : lookupMatch (trim question) = Some []).
    { apply lookupMatch_bare. exact Hcommand. }
    destruct (trim question) as [|c rawQuestion]; [discriminate|].
    rewrite Hmatch. reflexivity.
Qed.

Lemma blank_questions_are_refused_witness :
  handleChat lookup_env (str "user-1") (Some (question_body "   ")) example_world
  = (example_world, inl (HTTPException 400 (Text "Question cannot be empty"))) /\
  handleChat lookup_env (str "user-1") (Some (question_body " /LookUp  ")) example_world
  = (example_world, inl (HTTPException 400 (Text "Lookup query cannot be empty"))).
Proof.
  split.
  - apply (proj1 (blank_questions_are_refused lookup_env (str "user-1")
                    (question_body "   ") (str "   ") example_world eq_refl)).
    repeat constructor.
  - apply (proj2 (blank_questions_are_refused lookup_env (str "user-1")
                    (question_body " /LookUp  ") (str " /LookUp  ") example_world eq_refl)).
    vm_compute. reflexivity.
Defined.

End QuestionTheorems.

(** * The provider clients: when they fail *)

Module ProviderTheorems.
Import Js BasicFacts Examples Ingest.

Lemma map_all_None {A B} (f : A -> option B) l :
  OpenAI.map_all f l = None <-> exists x, In x l /\ f x = None.
Proof.
  induction l as [|x l IH]; cbn [OpenAI.map_all].
  - split; [discriminate|]. intros (x & [] & _).
  - destruct (f x) as [y|] eqn:Hx.
    + destruct (OpenAI.map_all f l) as [ys|]; cbn [option_map].
      * split; [discriminate|]. intros (x' & [<-|Hin] & Hnone); [congruence|].
        assert (H : Some ys = None) by (apply IH; eauto). discriminate.
      * split; [|reflexivity]. intros _.
        destruct (proj1 IH eq_refl) as (x' & Hin & Hnone). exists x'. split; [now right|auto].
    + split; [|reflexivity]. intros _. exists x. split; [now left|exact Hx].
Qed.

(** X17: once the provider has answered with a JSON body, reading that
    body fails in one way only, a [TypeError], and exactly when the body is
    [null] or an entry of its [output] array is [null] or [undefined].  Any
    other body yields a result, whose citations all have a string [folder],
    a string [file] and an array [lines]. *)
Theorem responses_payload_fails_only_on_null :
  forall env payload,
    (forall e, OpenAI.parseResponsesPayload env payload = inl e ->
               e = TypeError) /\
    ((exists e, OpenAI.parseResponsesPayload env payload = inl e) <->
     (nullish payload = true \/
      (isArray (prop payload "output") = true /\
       exists entry, In entry (items (prop payload "output")) /\ nullish entry = true))) /\
    (forall result, OpenAI.parseResponsesPayload env payload = inr result ->
                    Forall (fun c => OpenAI.citation_ok c = true) (OpenAI.citations result)).
Proof.
  intros env payload.
  split; [|split; [|apply ChatTheorems.parseResponsesPayload_ok]].
  - unfold OpenAI.parseResponsesPayload. intros e.
    destruct (nullish payload); [now intros [= <-]|].
    destruct (OpenAI.map_all _ _); [|now intros [= <-]].
    destruct (OpenAI.extractChatResultFromCandidates _ _ _); discriminate.
  - unfold OpenAI.parseResponsesPayload.
    destruct (nullish payload) eqn:Hnull; [split; eauto|].
    destruct (OpenAI.map_all _ _) as [blockLists|] eqn:Hall.
    + split.
      * intros (e & He). destruct (OpenAI.extractChatResultFromCandidates _ _ _); discriminate.
      * intros [Hn|(Harr & entry & Hin & Hentry)]; [discriminate|]. exfalso.
        rewrite Harr in Hall.
        assert (Hnone : OpenAI.map_all OpenAI.entry_blocks (items (prop payload "output"))
                        = None).
        { apply map_all_None. exists entry. split; [exact Hin|].
          unfold OpenAI.entry_blocks. now rewrite Hentry. }
        congruence.
    + split; [|eauto]. intros _. right.
      apply map_all_None in Hall. destruct Hall as (entry & Hin & Hentry).
      destruct (isArray (prop payload "output")) eqn:Harr; [|contradiction].
      split; [reflexivity|]. exists entry. split; [exact Hin|].
      unfold OpenAI.entry_blocks in Hentry. destruct (nullish entry); [reflexivity|discriminate].
Qed.

(** X18: the embedding step of ingestion fails with an HTTP error only,
    never with a raw exception: status 502 exactly when the provider call was
    refused by the provider client itself (no API key, or a reply that is not
    2xx), status 500 in every other case (network or JSON failure, unknown
    shape, wrong number of vectors).  When it succeeds there is one embedding
    per chunk. *)
Theorem embedChunks_failures_are_http_errors :
  forall env pieces,
    (forall e, embedChunks env pieces = inl e ->
       exists status message,
         e = HTTPException status message /\
         (status = 502 \/ status = 500) /\
         (status = 502 <->
          (falsy (OPENAI_API_KEY env) = true \/
           exists code body,
             fetch_embeddings env
               (orElse (OPENAI_EMBEDDING_MODEL env) (str "text-embedding-3-small"))
               (map Chunk.content pieces) = NotOk code body))) /\
    (forall embeddings, embedChunks env pieces = inr embeddings ->
                        len embeddings = len pieces).
Proof.
  intros env pieces. split.
  - intros e. unfold embedChunks, OpenAI.createEmbeddings.
    destruct (falsy (OPENAI_API_KEY env)) eqn:Hkey.
    { cbn. intros [= <-]. do 2 eexists. split; [reflexivity|]. split; [now left|].
      split; auto. }
    destruct (fetch_embeddings env _ _) as [|code body|payload|] eqn:Hfetch.
    + cbn. intros [= <-]. do 2 eexists. split; [reflexivity|]. split; [now right|].
      split; [discriminate|]. intros [H|(code & body & H)]; discriminate.
    + cbn. intros [= <-]. do 2 eexists. split; [reflexivity|]. split; [now left|].
      split; eauto.
    + assert (Hother : forall status,
                status = 500 ->
                (status = 502 <->
                 (false = true \/ exists code body, OkJson payload = NotOk code body))).
      { intros status ->. split; [discriminate|].
        intros [H|(code & body & H)]; discriminate. }
      destruct (nullish payload).
      { cbn. intros [= <-]. do 2 eexists. split; [reflexivity|]. split; [now right|]. auto. }
      destruct (prop payload "data") as [| |b|n|s|data|o];
        try (cbn; intros [= <-]; do 2 eexists; split; [reflexivity|];
             split; [now right|]; auto).
      destruct (OpenAI.map_all OpenAI.embedding_of data) as [embeddings|].
      2:{ cbn. intros [= <-]. do 2 eexists. split; [reflexivity|]. split; [now right|]. auto. }
      destruct (normalizeEmbeddings (VArr embeddings)) as [e'|vectors].
      { intros [= <-]. do 2 eexists. split; [reflexivity|]. split; [now right|]. auto. }
      destruct (negb _); [|discriminate].
      intros [= <-]. do 2 eexists. split; [reflexivity|]. split; [now right|]. auto.
    + cbn. intros [= <-]. do 2 eexists. split; [reflexivity|]. split; [now right|].
      split; [discriminate|]. intros [H|(code & body & H)]; discriminate.
  - intros embeddings. unfold embedChunks.
    destruct (OpenAI.createEmbeddings env _) as [e|raw].
    { destruct (isOpenAIError e); discriminate. }
    destruct (normalizeEmbeddings raw) as [e|vectors]; [discriminate|].
    destruct (Z.eqb_spec (len vectors) (len pieces)) as [Heq|]; [|discriminate].
    now intros [= <-].
Qed.

End ProviderTheorems.

(** * Object keys *)

Module StorageFacts.
Import BasicFacts Storage.

Lemma isNameChar_spec c :
  isNameChar c = true <->
  (97 <= c <= 122 \/ 65 <= c <= 90 \/ 48 <= c <= 57 \/ c = 95 \/ c = 46 \/ c = 45)%N.
Proof.
  unfold isNameChar.
  rewrite !orb_true_iff, !andb_true_iff, !N.leb_le, !N.eqb_eq. tauto.
Qed.

Lemma isSafeChar_spec c :
  isSafeChar c = true <->
  (97 <= c <= 122 \/ 48 <= c <= 57 \/ c = 95 \/ c = 46 \/ c = 45)%N.
Proof.
  unfold isSafeChar.
  rewrite !orb_true_iff, !andb_true_iff, !N.leb_le, !N.eqb_eq. tauto.
Qed.

Lemma lowerChar_cases c :
  ((65 <= c <= 90)%N /\ lowerChar c = (c + 32)%N) \/
  (~ (65 <= c <= 90)%N /\ lowerChar c = c).
Proof.
  unfold lowerChar. destruct ((65 <=? c) && (c <=? 90))%N eqn:E.
  - apply andb_true_iff in E. rewrite !N.leb_le in E. now left.
  - right. split; [|reflexivity]. intros [H1 H2].
    apply N.leb_le in H1. apply N.leb_le in H2. rewrite H1, H2 in E. discriminate.
Qed.

Lemma lowerChar_safe c : isNameChar c = true -> isSafeChar (lowerChar c) = true.
Proof.
  rewrite isNameChar_spec, isSafeChar_spec.
  destruct (lowerChar_cases c) as [[H ->]|[H ->]]; lia.
Qed.

Lemma safe_is_name c : isSafeChar c = true -> isNameChar c = true.
Proof. rewrite isNameChar_spec, isSafeChar_spec. lia. Qed.

Lemma safe_is_lower c : isSafeChar c = true -> lowerChar c = c.
Proof.
  rewrite isSafeChar_spec. destruct (lowerChar_cases c) as [[H ->]|[H ->]]; lia.
Qed.

Lemma safe_below c : isSafeChar c = true -> (c <= 122)%N.
Proof. rewrite isSafeChar_spec. lia. Qed.

Lemma lowerChar_dash c : char_eqb (lowerChar c) DASH = char_eqb c DASH.
Proof.
  unfold char_eqb, DASH. destruct (lowerChar_cases c) as [[H ->]|[H ->]]; [|reflexivity].
  transitivity false; [|symmetry]; apply N.eqb_neq; lia.
Qed.

Lemma below_listed c : (c <= 122)%N -> In c (map N.of_nat (seq 0 123)).
Proof.
  intros H. rewrite <- (N2Nat.id c). apply in_map. apply in_seq. lia.
Qed.

Lemma safe_not_space c : isSafeChar c = true -> isWhiteSpace c = false.
Proof.
  intros Hsafe.
  assert (Hall : forallb (fun c => negb (isSafeChar c && isWhiteSpace c))
                   (map N.of_nat (seq 0 123)) = true) by (vm_compute; reflexivity).
  rewrite forallb_forall in Hall.
  specialize (Hall c (below_listed c (safe_below c Hsafe))).
  rewrite Hsafe in Hall. cbn in Hall. now apply negb_true_iff in Hall.
Qed.

Lemma In_collapseDashes x : forall s inRun, In x (collapseDashes inRun s) -> In x s.
Proof.
  induction s as [|c s IH]; intros inRun; cbn [collapseDashes]; [tauto|].
  destruct (char_eqb c DASH) eqn:Hc.
  - apply QuestionFacts.char_eqb_eq in Hc. subst c.
    destruct inRun; [right; eauto|]. intros [<-|H]; [now left|right; eauto].
  - intros [<-|H]; [now left|right; eauto].
Qed.

Lemma collapseDashes_lowered : forall s inRun,
  collapseDashes inRun (toLowerCase (collapseDashes inRun s))
  = toLowerCase (collapseDashes inRun s).
Proof.
  unfold toLowerCase.
  induction s as [|c s IH]; intros inRun; cbn [collapseDashes map]; [reflexivity|].
  destruct (char_eqb c DASH) eqn:Hc.
  - destruct inRun; [apply IH|].
    cbn [map collapseDashes]. rewrite lowerChar_dash. cbn. now rewrite IH.
  - cbn [map collapseDashes]. rewrite lowerChar_dash, Hc. now rewrite IH.
Qed.

Lemma replaceWhiteSpaceRuns_none : forall s inRun,
  Forall (fun c => isWhiteSpace c = false) s -> replaceWhiteSpaceRuns inRun s = s.
Proof.
  intros s inRun H. revert inRun.
  induction H as [|c s Hc _ IH]; intros inRun; cbn [replaceWhiteSpaceRuns]; [reflexivity|].
  now rewrite Hc, IH.
Qed.

Lemma trimStart_none s :
  Forall (fun c => isWhiteSpace c = false) s -> trimStart s = s.
Proof. intros [|c s' Hc _]; cbn; [reflexivity|]. now rewrite Hc. Qed.

Lemma trim_none s : Forall (fun c => isWhiteSpace c = false) s -> trim s = s.
Proof.
  intros H. unfold trim, trimEnd. rewrite (trimStart_none _ H).
  rewrite trimStart_none; [apply rev_involutive|].
  apply Forall_rev. exact H.
Qed.

Lemma filter_all_true {A} (f : A -> bool) l :
  Forall (fun x => f x = true) l -> filter f l = l.
Proof. induction 1 as [|x l Hx _ IH]; cbn; [reflexivity|]. now rewrite Hx, IH. Qed.

Lemma toLowerCase_safe s :
  Forall (fun c => isSafeChar c = true) s -> toLowerCase s = s.
Proof.
  unfold toLowerCase. induction 1 as [|c s Hc _ IH]; cbn; [reflexivity|].
  now rewrite (safe_is_lower _ Hc), IH.
Qed.

(** The name built from a non-blank file name, before the fallback. *)
Lemma lowered_safe s :
  Forall (fun c => isSafeChar c = true)
    (toLowerCase (collapseDashes false (filter isNameChar (replaceWhiteSpaceRuns false s)))).
Proof.
  unfold toLowerCase. apply Forall_forall. intros c Hc.
  apply in_map_iff in Hc. destruct Hc as (c0 & <- & Hc0).
  apply In_collapseDashes in Hc0. apply filter_In in Hc0.
  apply lowerChar_safe. apply Hc0.
Qed.

End StorageFacts.

Module StorageTheorems.
Import BasicFacts Storage StorageFacts.

(** X19: whatever the file name, [sanitizeFileName] returns a non-empty
    name made only of lower-case ASCII letters, digits, underscore, dot and
    dash; so the name holds no slash and no white space. *)
Theorem sanitizeFileName_is_safe :
  forall fileName,
    sanitizeFileName fileName <> [] /\
    Forall (fun c => isSafeChar c = true) (sanitizeFileName fileName).
Proof.
  intros fileName. unfold sanitizeFileName.
  assert (Hdefault : str "untitled.txt" <> [] /\
                     Forall (fun c => isSafeChar c = true) (str "untitled.txt")).
  { split; [discriminate|]. repeat constructor. }
  destruct (trim fileName) as [|c trimmed]; [exact Hdefault|].
  pose proof (lowered_safe (c :: trimmed)) as Hsafe.
  destruct (toLowerCase _) as [|c' lowered]; [exact Hdefault|].
  split; [discriminate|exact Hsafe].
Qed.

(** X20: sanitizing is idempotent: a sanitized name is left as it is. *)
Theorem sanitizeFileName_idempotent :
  forall fileName,
    sanitizeFileName (sanitizeFileName fileName) = sanitizeFileName fileName.
Proof.
  intros fileName.
  assert (Hdefault : sanitizeFileName (str "untitled.txt") = str "untitled.txt")
    by (vm_compute; reflexivity).
  assert (Hcases : sanitizeFileName fileName = str "untitled.txt" \/
                   (sanitizeFileName fileName <> [] /\
                    exists s, sanitizeFileName fileName
                              = toLowerCase (collapseDashes false
                                               (filter isNameChar
                                                  (replaceWhiteSpaceRuns false s))))).
  { unfold sanitizeFileName. destruct (trim fileName) as [|c trimmed]; [now left|].
    destruct (toLowerCase _) as [|c' lowered] eqn:Hlow; [now left|].
    right. split; [discriminate|]. exists (c :: trimmed). now rewrite Hlow. }
  destruct Hcases as [->|(Hne & s & Hout)]; [exact Hdefault|].
  pose proof (lowered_safe s) as Hsafe.
  pose proof (collapseDashes_lowered
                (filter isNameChar (replaceWhiteSpaceRuns false s)) false) as Hdashes.
  rewrite <- Hout in Hsafe, Hdashes.
  assert (Hspace : Forall (fun c => isWhiteSpace c = false) (sanitizeFileName fileName)).
  { eapply Forall_impl; [|exact Hsafe]. apply safe_not_space. }
  destruct (sanitizeFileName fileName) as [|c out]; [congruence|].
  unfold sanitizeFileName. rewrite (trim_none _ Hspace).
  rewrite (replaceWhiteSpaceRuns_none _ false Hspace).
  rewrite filter_all_true
    by (eapply Forall_impl; [|exact Hsafe]; apply safe_is_name).
  rewrite Hdashes. now rewrite (toLowerCase_safe _ Hsafe).
Qed.

End StorageTheorems.

(** * Deleting a file *)

Module DeleteFileTheorems.
Import Js BasicFacts Examples IngestSpec VectorizeSpec DeleteFile DeleteSpec.
Import ChatMoreFacts.

Lemma getFile_found fileId w file :
  getFile fileId w = (w, inr (Some file)) ->
  In (fw_file file) (files w) /\ file_id (fw_file file) = fileId.
Proof. exact (IngestFacts.getFileById_found fileId w file). Qed.

(** The run of [handleDeleteFile], call by call. *)
Lemma handleDeleteFile_run outage uid fileId w :
  handleDeleteFile outage uid fileId w
  = if lookup_rejects outage then (w, inl StoreError)
    else
      match getFile fileId w with
      | (_, inl e) => (w, inl e)
      | (_, inr None) => (w, inl (HTTPException 404 (Text "File not found")))
      | (_, inr (Some file)) =>
          if negb (jsstring_eqb (file_owner_id (fw_file file)) uid)
          then (w, inl (HTTPException 403 (Text "You can only delete your own files")))
          else if object_delete_rejects outage then (w, inl StoreError)
          else
            let w1 := without_object (file_r2_key (fw_file file)) w in
            if chunk_delete_rejects outage then (w1, inl StoreError)
            else
              let w2 := without_chunks fileId w1 in
              if file_delete_rejects outage then (w2, inl StoreError)
              else
                let w3 := without_file fileId w2 in
                match map chunk_id (rowsOfFile fileId (chunks w)) with
                | [] => (w3, inr tt)
                | ids =>
                    if index_delete_rejects outage then (w3, inl StoreError)
                    else Ingest.deleteChunkVectors ids (file_visibility (fw_file file))
                           (file_owner_id (fw_file file)) w3
                end
      end.
Proof.
  unfold handleDeleteFile. rewrite bind_run. unfold rejecting at 1.
  destruct (lookup_rejects outage); [reflexivity|].
  unfold getFile at 1 2, gets.
  destruct (hd_error _) as [file|]; [|reflexivity].
  destruct (negb _); [reflexivity|].
  rewrite bind_run. unfold deleteObject, rejecting at 1.
  destruct (object_delete_rejects outage); [reflexivity|].
  unfold modify at 1. rewrite bind_run. unfold rejecting at 1.
  destruct (chunk_delete_rejects outage); [reflexivity|].
  unfold Db.deleteChunksForFile at 1. cbv zeta.
  rewrite bind_run. unfold deleteFile, rejecting at 1.
  destruct (file_delete_rejects outage); [reflexivity|].
  unfold modify at 1.
  assert (Hw3 : with_chunks
                  (filter (fun c => negb (jsstring_eqb (chunk_file_id c) fileId))
                     (chunks
                        (with_chunks
                           (filter (fun c => negb (jsstring_eqb (chunk_file_id c) fileId))
                              (chunks
                                 (with_objects
                                    (filter
                                       (fun o => negb (jsstring_eqb (fst o)
                                                         (file_r2_key (fw_file file))))
                                       (objects w)) w)))
                           (with_objects
                              (filter
                                 (fun o => negb (jsstring_eqb (fst o)
                                                   (file_r2_key (fw_file file))))
                                 (objects w)) w))))
                  (with_files
                     (filter (fun f => negb (jsstring_eqb (file_id f) fileId))
                        (files
                           (with_chunks
                              (filter (fun c => negb (jsstring_eqb (chunk_file_id c) fileId))
                                 (chunks
                                    (with_objects
                                       (filter
                                          (fun o => negb (jsstring_eqb (fst o)
                                                            (file_r2_key (fw_file file))))
                                          (objects w)) w)))
                              (with_objects
                                 (filter
                                    (fun o => negb (jsstring_eqb (fst o)
                                                      (file_r2_key (fw_file file))))
                                    (objects w)) w))))
                     (with_chunks
                        (filter (fun c => negb (jsstring_eqb (chunk_file_id c) fileId))
                           (chunks
                              (with_objects
                                 (filter
                                    (fun o => negb (jsstring_eqb (fst o)
                                                      (file_r2_key (fw_file file))))
                                    (objects w)) w)))
                        (with_objects
                           (filter
                              (fun o => negb (jsstring_eqb (fst o)
                                                (file_r2_key (fw_file file))))
                              (objects w)) w)))
                = without_file fileId
                    (without_chunks fileId
                       (without_object (file_r2_key (fw_file file)) w))).
  { unfold without_file, without_chunks, without_object, rowsOfOthers,
      with_chunks, with_files, with_objects. cbn.
    now rewrite IngestFacts.filter_idem. }
  rewrite Hw3. cbv zeta. unfold rowsOfFile.
  cbn [chunks with_objects].
  destruct (map chunk_id _); [reflexivity|].
  unfold rejecting. destruct (index_delete_rejects outage); reflexivity.
Qed.

(** What is left in the stores after each step of a deletion. *)
Lemma without_object_spec key w :
  (forall o, In o (objects (without_object key w)) <-> In o (objects w) /\ fst o <> key) /\
  files (without_object key w) = files w /\ chunks (without_object key w) = chunks w /\
  folders (without_object key w) = folders w /\ messages (without_object key w) = messages w /\
  MARBLE_VECTORS (without_object key w) = MARBLE_VECTORS w.
Proof.
  split; [|repeat split].
  intros o. cbn. rewrite filter_In, negb_true_iff, jsstring_eqb_neq. tauto.
Qed.

Lemma without_chunks_spec fileId w :
  (forall c, In c (chunks (without_chunks fileId w)) <->
             In c (chunks w) /\ chunk_file_id c <> fileId) /\
  files (without_chunks fileId w) = files w /\ objects (without_chunks fileId w) = objects w /\
  folders (without_chunks fileId w) = folders w /\
  messages (without_chunks fileId w) = messages w /\
  MARBLE_VECTORS (without_chunks fileId w) = MARBLE_VECTORS w.
Proof.
  split; [|repeat split].
  intros c. cbn. unfold rowsOfOthers. rewrite filter_In, negb_true_iff, jsstring_eqb_neq. tauto.
Qed.

Lemma without_file_spec fileId w :
  (forall f, In f (files (without_file fileId w)) <-> In f (files w) /\ file_id f <> fileId) /\
  chunks (without_file fileId w) = chunks w /\ objects (without_file fileId w) = objects w /\
  folders (without_file fileId w) = folders w /\
  messages (without_file fileId w) = messages w /\
  MARBLE_VECTORS (without_file fileId w) = MARBLE_VECTORS w.
Proof.
  split; [|repeat split].
  intros f. cbn. rewrite filter_In, negb_true_iff, jsstring_eqb_neq. tauto.
Qed.

(** The stores once the object, the chunk rows and the file row are gone. *)
Lemma all_deleted fileId key w :
  let w3 := without_file fileId (without_chunks fileId (without_object key w)) in
  (forall f, In f (files w3) <-> In f (files w) /\ file_id f <> fileId) /\
  (forall c, In c (chunks w3) <-> In c (chunks w) /\ chunk_file_id c <> fileId) /\
  (forall o, In o (objects w3) <-> In o (objects w) /\ fst o <> key) /\
  folders w3 = folders w /\ messages w3 = messages w /\
  MARBLE_VECTORS w3 = MARBLE_VECTORS w.
Proof.
  cbv zeta.
  destruct (without_file_spec fileId (without_chunks fileId (without_object key w)))
    as (Hf & Hc3 & Ho3 & Hd3 & Hm3 & Hv3).
  destruct (without_chunks_spec fileId (without_object key w))
    as (Hc & Hf2 & Ho2 & Hd2 & Hm2 & Hv2).
  destruct (without_object_spec key w) as (Ho & Hf1 & Hc1 & Hd1 & Hm1 & Hv1).
  split; [|split; [|split]].
  - intros f. rewrite Hf, Hf2, Hf1. tauto.
  - intros c. rewrite Hc3, Hc, Hc1. tauto.
  - intros o. rewrite Ho3, Ho2. apply Ho.
  - rewrite Hd3, Hd2, Hm3, Hm2, Hv3, Hv2. auto.
Qed.

Lemma getFile_reads fileId w w0 r : getFile fileId w = (w0, r) -> w0 = w.
Proof. unfold getFile, gets. congruence. Qed.

(** X21: when [handleDeleteFile] answers, the acting user owned the file,
    and the file is gone from every store: its row, all its chunk rows, the
    object under its key, and, in the partition of the file, every vector
    stored under the id of one of its chunks.  The rows, objects and
    messages of everything else are as before. *)
Theorem delete_removes_the_file_everywhere :
  forall outage user_id fileId w w',
    handleDeleteFile outage user_id fileId w = (w', inr tt) ->
    exists file,
      getFile fileId w = (w, inr (Some file)) /\
      file_owner_id (fw_file file) = user_id /\
      (forall f, In f (files w') <-> In f (files w) /\ file_id f <> fileId) /\
      (forall c, In c (chunks w') <-> In c (chunks w) /\ chunk_file_id c <> fileId) /\
      (forall o, In o (objects w') <->
                 In o (objects w) /\ fst o <> file_r2_key (fw_file file)) /\
      (forall r c,
         In r (reachable_records (MARBLE_VECTORS w')
                 (Vectorize.partitionForVisibility (file_visibility (fw_file file))
                    (file_owner_id (fw_file file)))) ->
         In c (chunks w) -> chunk_file_id c = fileId ->
         Vectorize.vec_id r <> chunk_id c) /\
      folders w' = folders w /\ messages w' = messages w.
Proof.
  intros outage user_id fileId w w' Hrun. rewrite handleDeleteFile_run in Hrun.
  destruct (lookup_rejects outage); [discriminate|].
  destruct (getFile fileId w) as [w0 [e|[file|]]] eqn:Hfile; try discriminate.
  pose proof (getFile_reads _ _ _ _ Hfile). subst w0.
  destruct (jsstring_eqb (file_owner_id (fw_file file)) user_id) eqn:Howner;
    cbn [negb] in Hrun; [|discriminate].
  apply jsstring_eqb_eq in Howner.
  destruct (object_delete_rejects outage); [discriminate|].
  destruct (chunk_delete_rejects outage); [discriminate|].
  destruct (file_delete_rejects outage); [discriminate|].
  cbv zeta in Hrun.
  pose proof (all_deleted fileId (file_r2_key (fw_file file)) w) as Hrows.
  cbv zeta in Hrows. set (w3 := without_file _ _) in *.
  destruct Hrows as (Hf & Hc & Ho & Hd & Hm & Hv).
  exists file. split; [reflexivity|]. split; [exact Howner|].
  destruct (map chunk_id (rowsOfFile fileId (chunks w))) as [|id ids] eqn:Hids.
  - injection Hrun as <-.
    repeat (split; [assumption|]). split; [|auto].
    intros r c _ Hin Hmine. exfalso.
    assert (Hrow : In (chunk_id c) (map chunk_id (rowsOfFile fileId (chunks w)))).
    { apply in_map. apply filter_In. split; [exact Hin|]. rewrite Hmine.
      apply jsstring_eqb_refl. }
    rewrite Hids in Hrow. contradiction.
  - destruct (index_delete_rejects outage); [discriminate|].
    unfold Ingest.deleteChunkVectors in Hrun.
    destruct (Vectorize.deleteChunkVectors (MARBLE_VECTORS w3) (id :: ids) _ _)
      as [e|binding] eqn:Hdel; [discriminate|].
    injection Hrun as <-.
    cbn [files chunks objects folders messages MARBLE_VECTORS with_vectors].
    repeat (split; [assumption|]). split; [|auto].
    intros r c Hr Hin Hmine Hsame.
    pose proof (VectorizeMoreFacts.deleteChunkVectors_gone _ _ _ _ _ Hdel r Hr) as Hgone.
    assert (Hlisted : Vectorize.listed (id :: ids) (Vectorize.vec_id r) = true).
    { unfold Vectorize.listed. apply existsb_exists. exists (chunk_id c). split.
      - rewrite <- Hids. apply in_map. apply filter_In. split; [exact Hin|].
        rewrite Hmine. apply jsstring_eqb_refl.
      - apply jsstring_eqb_eq. exact Hsame. }
    congruence.
Qed.

Lemma delete_removes_the_file_everywhere_witness :
  let w' := fst (handleDeleteFile no_outage (str "user-1") (str "file-1")
                   example_world_ingested) in
  exists file,
    getFile (str "file-1") example_world_ingested
      = (example_world_ingested, inr (Some file)) /\
    file_owner_id (fw_file file) = str "user-1" /\
    (forall f, In f (files w') <->
               In f (files example_world_ingested) /\ file_id f <> str "file-1") /\
    (forall c, In c (chunks w') <->
               In c (chunks example_world_ingested) /\ chunk_file_id c <> str "file-1") /\
    (forall o, In o (objects w') <->
               In o (objects example_world_ingested) /\
               fst o <> file_r2_key (fw_file file)) /\
    (forall r c,
       In r (reachable_records (MARBLE_VECTORS w')
               (Vectorize.partitionForVisibility (file_visibility (fw_file file))
                  (file_owner_id (fw_file file)))) ->
       In c (chunks example_world_ingested) -> chunk_file_id c = str "file-1" ->
       Vectorize.vec_id r <> chunk_id c) /\
    folders w' = folders example_world_ingested /\
    messages w' = messages example_world_ingested.
Proof.
  intros w'.
  apply (delete_removes_the_file_everywhere no_outage (str "user-1") (str "file-1")
           example_world_ingested w').
  vm_compute. reflexivity.
Defined.

(** X22: [handleDeleteFile] is not atomic, and this is every way it can
    fail, an awaited call that rejects having changed nothing itself.
    Either nothing was changed: the lookup of the file rejected, the file
    does not exist (404), the acting user does not own it (403), or the
    delete of the object rejected.  Or the object is gone and the delete of
    the chunk rows rejected, all rows being still there.  Or the object and
    the chunk rows are gone and the delete of the file row rejected.  Or the
    object, the chunk rows and the file row are gone and the vector index
    rejected or refused the delete, holding every vector it held. *)
Theorem delete_fails_between_its_steps :
  forall outage user_id fileId w w' e,
    handleDeleteFile outage user_id fileId w = (w', inl e) ->
    (w' = w /\
     ((lookup_rejects outage = true /\ e = StoreError) \/
      (getFile fileId w = (w, inr None) /\
       e = HTTPException 404 (Text "File not found")) \/
      (exists file, getFile fileId w = (w, inr (Some file)) /\
                    file_owner_id (fw_file file) <> user_id /\
                    e = HTTPException 403 (Text "You can only delete your own files")) \/
      (exists file, getFile fileId w = (w, inr (Some file)) /\
                    file_owner_id (fw_file file) = user_id /\
                    object_delete_rejects outage = true /\ e = StoreError))) \/
    (exists file,
       getFile fileId w = (w, inr (Some file)) /\
       file_owner_id (fw_file file) = user_id /\
       let w1 := without_object (file_r2_key (fw_file file)) w in
       let w2 := without_chunks fileId w1 in
       let w3 := without_file fileId w2 in
       (w' = w1 /\ chunk_delete_rejects outage = true /\ e = StoreError) \/
       (w' = w2 /\ file_delete_rejects outage = true /\ e = StoreError) \/
       (w' = w3 /\ rowsOfFile fileId (chunks w) <> [] /\
        ((index_delete_rejects outage = true /\ e = StoreError) \/
         Vectorize.deleteChunkVectors (MARBLE_VECTORS w)
           (map chunk_id (rowsOfFile fileId (chunks w)))
           (file_visibility (fw_file file)) (file_owner_id (fw_file file)) = inl e))).
Proof.
  intros outage user_id fileId w w' e Hrun. rewrite handleDeleteFile_run in Hrun.
  destruct (lookup_rejects outage) eqn:Hlookup.
  { injection Hrun as <- <-. left. split; [reflexivity|]. now left. }
  destruct (getFile fileId w) as [w0 [e0|[file|]]] eqn:Hfile.
  - unfold getFile, gets in Hfile. discriminate.
  - pose proof (getFile_reads _ _ _ _ Hfile). subst w0.
    destruct (jsstring_eqb (file_owner_id (fw_file file)) user_id) eqn:Howner;
      cbn [negb] in Hrun.
    2:{ injection Hrun as <- <-. left. split; [reflexivity|]. right. right. left.
        exists file. split; [reflexivity|]. split; [now apply jsstring_eqb_neq|reflexivity]. }
    apply jsstring_eqb_eq in Howner.
    destruct (object_delete_rejects outage) eqn:Hobject.
    { injection Hrun as <- <-. left. split; [reflexivity|]. right. right. right.
      exists file. auto. }
    right. exists file. split; [reflexivity|]. split; [exact Howner|].
    cbv zeta in *.
    destruct (chunk_delete_rejects outage) eqn:Hchunks.
    { injection Hrun as <- <-. left. auto. }
    destruct (file_delete_rejects outage) eqn:Hrow.
    { injection Hrun as <- <-. right. left. auto. }
    right. right.
    destruct (map chunk_id (rowsOfFile fileId (chunks w))) as [|id ids] eqn:Hids;
      [discriminate|].
    assert (Hne : rowsOfFile fileId (chunks w) <> []).
    { intros Hnil. rewrite Hnil in Hids. discriminate. }
    destruct (index_delete_rejects outage) eqn:Hindex.
    { injection Hrun as <- <-. auto. }
    unfold Ingest.deleteChunkVectors in Hrun.
    cbn [MARBLE_VECTORS without_file without_chunks without_object
         with_files with_chunks with_objects] in Hrun.
    destruct (Vectorize.deleteChunkVectors (MARBLE_VECTORS w) (id :: ids) _ _)
      as [e1|binding] eqn:Hdel; [|discriminate].
    injection Hrun as <- <-. auto.
  - pose proof (getFile_reads _ _ _ _ Hfile). subst w0.
    injection Hrun as <- <-. left. split; [reflexivity|]. right. left. auto.
Qed.

Lemma delete_fails_between_its_steps_witness :
  let outage := {| lookup_rejects := false; object_delete_rejects := false;
                   chunk_delete_rejects := true; file_delete_rejects := false;
                   index_delete_rejects := false |} in
  let w := example_world_ingested in
  let w' := DeleteSpec.without_object example_key w in
  handleDeleteFile outage (str "user-1") (str "file-1") w = (w', inl StoreError) /\
  objects w' = [] /\ chunks w' = chunks w /\ chunks w <> [] /\
  ((w' = w /\
    ((lookup_rejects outage = true /\ StoreError = StoreError) \/
     (getFile (str "file-1") w = (w, inr None) /\
      StoreError = HTTPException 404 (Text "File not found")) \/
     (exists file, getFile (str "file-1") w = (w, inr (Some file)) /\
                   file_owner_id (fw_file file) <> str "user-1" /\
                   StoreError
                   = HTTPException 403 (Text "You can only delete your own files")) \/
     (exists file, getFile (str "file-1") w = (w, inr (Some file)) /\
                   file_owner_id (fw_file file) = str "user-1" /\
                   object_delete_rejects outage = true /\ StoreError = StoreError))) \/
   (exists file,
      getFile (str "file-1") w = (w, inr (Some file)) /\
      file_owner_id (fw_file file) = str "user-1" /\
      let w1 := without_object (file_r2_key (fw_file file)) w in
      let w2 := without_chunks (str "file-1") w1 in
      let w3 := without_file (str "file-1") w2 in
      (w' = w1 /\ chunk_delete_rejects outage = true /\ StoreError = StoreError) \/
      (w' = w2 /\ file_delete_rejects outage = true /\ StoreError = StoreError) \/
      (w' = w3 /\ rowsOfFile (str "file-1") (chunks w) <> [] /\
       ((index_delete_rejects outage = true /\ StoreError = StoreError) \/
        Vectorize.deleteChunkVectors (MARBLE_VECTORS w)
          (map chunk_id (rowsOfFile (str "file-1") (chunks w)))
          (file_visibility (fw_file file)) (file_owner_id (fw_file file))
        = inl StoreError)))).
Proof.
  intros outage w w'.
  assert (Hrun : handleDeleteFile outage (str "user-1") (str "file-1") w
                 = (w', inl StoreError)) by (vm_compute; reflexivity).
  split; [exact Hrun|]. split; [vm_compute; reflexivity|].
  split; [reflexivity|]. split; [vm_compute; discriminate|].
  exact (delete_fails_between_its_steps _ _ _ _ _ _ Hrun).
Defined.

End DeleteFileTheorems.

(** * Ingestion: does a run return? *)

Module IngestRunTheorems.
Import Js BasicFacts Examples MoreExamples Ingest IngestFacts.

Lemma ingest_fuel_mono fuel env fileId actingUserId w outcome :
  ingestFileById fuel env fileId actingUserId w = Some outcome ->
  forall fuel', (fuel <= fuel')%nat ->
  ingestFileById fuel' env fileId actingUserId w = Some outcome.
Proof.
  unfold ingestFileById. intros Hrun fuel' Hle.
  destruct (Db.getFileById fileId w) as [w1 [e|[file|]]]; try exact Hrun.
  destruct (negb _); [exact Hrun|].
  destruct (Db.getObjectText _ w) as [w2 [e|[text|]]]; try exact Hrun.
  destruct (Chunk.chunkText fuel text _) as [r|] eqn:Hchunks; [|discriminate].
  now rewrite (ChunkTheorems.chunkText_fuel_mono _ _ _ _ Hchunks fuel' Hle).
Qed.

Lemma getObjectText_stored key w text :
  Db.getObjectText key w = (w, inr (Some text)) -> exists key', In (key', text) (objects w).
Proof.
  unfold Db.getObjectText, gets. intros [= H].
  destruct (find _ (objects w)) as [[key' text']|] eqn:Hfind; [|discriminate].
  injection H as ->. apply find_some in Hfind. exists key'. apply Hfind.
Qed.

Lemma chunkText_returns source options :
  0 <= Chunk.overlap options < Chunk.chunkSize options ->
  exists chunks,
    Chunk.chunkText (Nat.max 1 (length source)) source options = Some (inr chunks).
Proof.
  intros Hov. destruct source as [|c source].
  - exists []. unfold Chunk.chunkText.
    destruct (Z.leb_spec (Chunk.chunkSize options) 0); [lia|]. reflexivity.
  - destruct (ChunkLayoutTheorems.chunkText_windows_run (c :: source) options)
      as (n & Hrun & _); [discriminate|exact Hov|].
    eexists. eapply ChunkTheorems.chunkText_fuel_mono; [exact Hrun|]. lia.
Qed.

(** X23: with an overlap setting that is not negative and smaller than the
    chunk size (the defaults 200 and 1500 are), [ingestFileById] always comes
    to an end, with an outcome that does not depend on the number of loop
    iterations allowed, once these are as many as the longest stored text has
    characters. *)
Theorem ingest_returns_on_sane_settings :
  forall env fileId actingUserId w,
    0 <= parseNumber (CHUNK_OVERLAP env) 200 < parseNumber (CHUNK_SIZE env) 1500 ->
    exists outcome,
      forall fuel,
        (1 <= fuel)%nat ->
        (forall key text, In (key, text) (objects w) -> (length text <= fuel)%nat) ->
        ingestFileById fuel env fileId actingUserId w = Some outcome.
Proof.
  intros env fileId actingUserId w Hov.
  assert (Hsome : exists fuel0 outcome,
            ingestFileById fuel0 env fileId actingUserId w = Some outcome /\
            forall fuel, (1 <= fuel)%nat ->
              (forall key text, In (key, text) (objects w) -> (length text <= fuel)%nat) ->
              (fuel0 <= fuel)%nat).
  { unfold ingestFileById.
    destruct (Db.getFileById fileId w) as [w1 [e|[file|]]];
      try (exists 1%nat; eexists; split; [reflexivity|auto]).
    destruct (negb _); [exists 1%nat; eexists; split; [reflexivity|auto]|].
    destruct (Db.getObjectText _ w) as [w2 [e|[text|]]] eqn:Hobject;
      try (exists 1%nat; eexists; split; [reflexivity|auto]).
    assert (w2 = w) by (unfold Db.getObjectText, gets in Hobject; congruence). subst w2.
    destruct (getObjectText_stored _ _ _ Hobject) as (key' & Hstored).
    destruct (chunkText_returns text
                {| Chunk.chunkSize := parseNumber (CHUNK_SIZE env) 1500;
                   Chunk.overlap := parseNumber (CHUNK_OVERLAP env) 200 |} Hov)
      as (pieces & Hchunks).
    exists (Nat.max 1 (length text)). rewrite Hchunks.
    assert (Hbound : forall fuel, (1 <= fuel)%nat ->
              (forall key text, In (key, text) (objects w) -> (length text <= fuel)%nat) ->
              (Nat.max 1 (length text) <= fuel)%nat).
    { intros fuel H1 Hlen. specialize (Hlen _ _ Hstored). lia. }
    destruct pieces; [eexists; split; [reflexivity|exact Hbound]|].
    destruct (embedChunks env _); eexists; (split; [reflexivity|exact Hbound]). }
  destruct Hsome as (fuel0 & outcome & Hrun & Hfuel).
  exists outcome. intros fuel H1 Hlen.
  exact (ingest_fuel_mono _ _ _ _ _ _ Hrun fuel (Hfuel fuel H1 Hlen)).
Qed.

Lemma ingest_returns_on_sane_settings_witness :
  exists outcome,
    forall fuel,
      (1 <= fuel)%nat ->
      (forall key text, In (key, text) (objects example_world) -> (length text <= fuel)%nat) ->
      ingestFileById fuel (test_env (embeddings_reply [[1; 1; 1]]%Q) FetchRejected)
        (str "file-1") (str "user-1") example_world = Some outcome.
Proof.
  apply (ingest_returns_on_sane_settings
           (test_env (embeddings_reply [[1; 1; 1]]%Q) FetchRejected)
           (str "file-1") (str "user-1") example_world).
  vm_compute. split; [discriminate|reflexivity].
Defined.

(** X24: with a chunk size that is positive but not larger than the
    overlap, ingesting the owner's file whose text is longer than one chunk
    never comes to an end: however many loop iterations are allowed, the run
    is still chunking, and nothing has been written. *)
Theorem ingest_never_returns_when_overlap_ge_chunkSize :
  forall env fileId actingUserId w file text,
    Db.getFileById fileId w = (w, inr (Some file)) ->
    file_owner_id (fw_file file) = actingUserId ->
    Db.getObjectText (file_r2_key (fw_file file)) w = (w, inr (Some text)) ->
    0 < parseNumber (CHUNK_SIZE env) 1500 <= parseNumber (CHUNK_OVERLAP env) 200 ->
    parseNumber (CHUNK_SIZE env) 1500 < len text ->
    forall fuel, ingestFileById fuel env fileId actingUserId w = None.
Proof.
  intros env fileId actingUserId w file text Hfile Howner Hobject [Hcs Hov] Hlen fuel.
  unfold ingestFileById. rewrite Hfile, Howner, jsstring_eqb_refl. cbn [negb].
  rewrite Hobject. unfold Chunk.chunkText. cbn [Chunk.chunkSize Chunk.overlap].
  destruct (Z.leb_spec (parseNumber (CHUNK_SIZE env) 1500) 0); [lia|].
  now rewrite ChunkTheorems.chunk_loop_stalls.
Qed.

Lemma ingest_never_returns_when_overlap_ge_chunkSize_witness :
  ingestFileById 1000 misconfigured_env (str "file-1") (str "user-1") example_world = None.
Proof.
  apply (ingest_never_returns_when_overlap_ge_chunkSize misconfigured_env
           (str "file-1") (str "user-1") example_world
           {| fw_file := example_file; fw_folder_name := str "My Space" |}
           ChunkSpec.example_source).
  - reflexivity.
  - reflexivity.
  - reflexivity.
  - vm_compute. split; [reflexivity|discriminate].
  - vm_compute. reflexivity.
Defined.

End IngestRunTheorems.

(** * The ingestion route *)

Module IngestRouteTheorems.
Import Js BasicFacts Examples Ingest IngestSpec VectorizeSpec IngestRoute IngestFacts.
Import IngestMoreTheorems.

(** The steps of the route behind the check of the request body are those
    of the library's [ingestFileById]. *)
Lemma handleIngest_run fuel env user_id input fileId w :
  ingestInput input = Some fileId ->
  handleIngest fuel env user_id (Some input) w = ingestFileById fuel env fileId user_id w.
Proof.
  intros Hinput. unfold handleIngest. rewrite Hinput.
  unfold ingestFileById.
  change (DeleteFile.getFile fileId w) with (Db.getFileById fileId w).
  destruct (Db.getFileById fileId w) as [w1 [e|[file|]]]; try reflexivity.
  destruct (negb _); [reflexivity|].
  destruct (Db.getObjectText _ w) as [w2 [e|[text|]]]; try reflexivity.
  cbv zeta.
  destruct (Chunk.chunkText fuel text _) as [[[]|pieces]|]; try reflexivity.
  destruct pieces as [|piece pieces]; [reflexivity|].
  unfold embedChunks.
  destruct (OpenAI.createEmbeddings env _) as [e|raw].
  { destruct (isOpenAIError e); reflexivity. }
  destruct (normalizeEmbeddings raw) as [e|embeddings]; [reflexivity|].
  destruct (negb _); reflexivity.
Qed.

(** X25: when the route [handleIngest] answers with a count, the request
    body was an object with a non-empty string [fileId], [getFile] finds
    that file and the acting user owns it; the count is the number of chunks
    of the file's stored text, at least one; the rows of the file in the
    chunk table are then exactly these chunks, in order, each under the
    file's folder, owner and visibility, and each with its vector in the
    partition of the file; the rows of the other files are as before and
    the file is marked ready. *)
Theorem handleIngest_writes_the_chunks_in_order :
  forall fuel env user_id input w w' n,
    handleIngest fuel env user_id (Some input) w = Some (w', inr n) ->
    exists fileId file text pieces raw embeddings,
      ingestInput input = Some fileId /\
      DeleteFile.getFile fileId w = (w, inr (Some file)) /\
      file_owner_id (fw_file file) = user_id /\
      Db.getObjectText (file_r2_key (fw_file file)) w = (w, inr (Some text)) /\
      Chunk.chunkText fuel text
        {| Chunk.chunkSize := parseNumber (CHUNK_SIZE env) 1500;
           Chunk.overlap := parseNumber (CHUNK_OVERLAP env) 200 |} = Some (inr pieces) /\
      OpenAI.createEmbeddings env (map Chunk.content pieces) = inr raw /\
      normalizeEmbeddings raw = inr embeddings /\
      n = len pieces /\ 0 < n /\
      map chunkOf (rowsOfFile fileId (chunks w')) = pieces /\
      rowsOfOthers fileId (chunks w') = rowsOfOthers fileId (chunks w) /\
      Forall (fun row => chunk_folder_id row = file_folder_id (fw_file file) /\
                         chunk_owner_id row = file_owner_id (fw_file file) /\
                         chunk_visibility row = file_visibility (fw_file file) /\
                         In (vectorFor embeddings file row)
                           (reachable_records (MARBLE_VECTORS w')
                              (Vectorize.partitionForVisibility
                                 (file_visibility (fw_file file))
                                 (file_owner_id (fw_file file)))))
        (rowsOfFile fileId (chunks w')) /\
      (forall f, In f (files w') -> file_id f = fileId -> file_ready f = true).
Proof.
  intros fuel env user_id input w w' n Hrun.
  destruct (ingestInput input) as [fileId|] eqn:Hinput.
  2:{ unfold handleIngest in Hrun. rewrite Hinput in Hrun. discriminate. }
  rewrite (handleIngest_run _ _ _ _ _ _ Hinput) in Hrun.
  destruct (ingest_cases _ _ _ _ _ _ _ Hrun) as [[[e He] _]|Hdone]; [discriminate|].
  destruct Hdone as (file & text & pieces & raw & embeddings & Hfile & Howner & Hobject &
                     Hchunks & Hne & Hraw & Hnorm & _ & Hreplace).
  destruct (getFileById_found _ _ _ Hfile) as [_ Hid].
  apply replaceChunks_success in Hreplace.
  destruct Hreplace as (Hn & Hrows & _ & Hvecs & Hfiles).
  exists fileId, file, text, pieces, raw, embeddings. subst fileId.
  split; [reflexivity|]. split; [exact Hfile|]. split; [exact Howner|].
  split; [exact Hobject|]. split; [exact Hchunks|].
  split; [exact Hraw|]. split; [exact Hnorm|].
  split; [exact Hn|]. split.
  { rewrite Hn. destruct pieces; [congruence|]. rewrite ChunkFacts.len_cons.
    pose proof (ChunkFacts.len_nonneg pieces). lia. }
  rewrite Hrows. rewrite rowsOfFile_after, rowsOfOthers_after.
  split.
  { rewrite rows_from_chunkOf. apply renumbered_chunks.
    exact (chunkText_indices _ _ _ _ Hchunks). }
  split; [reflexivity|]. split.
  { pose proof (rows_from_of_file env file pieces (uuids_drawn w) 0) as Hmine.
    rewrite Forall_forall in *. intros row Hrow.
    specialize (Hmine row Hrow). specialize (Hvecs row Hrow). cbv beta in Hmine. tauto. }
  intros f Hf Hfid. rewrite Hfiles in Hf. apply in_map_iff in Hf.
  destruct Hf as (f0 & Hf0 & _).
  destruct (jsstring_eqb (file_id f0) (file_id (fw_file file))) eqn:Hsame.
  - now subst f.
  - subst f. apply jsstring_eqb_neq in Hsame. congruence.
Qed.

Lemma handleIngest_writes_the_chunks_in_order_witness :
  let env := test_env (embeddings_reply [[1; 1; 1]]%Q) FetchRejected in
  let input := VObj [(str "fileId", VStr (str "file-1"))] in
  handleIngest 28 env (str "user-1") (Some input) example_world
    = Some (example_world_ingested, inr 1) /\
  exists fileId file text pieces raw embeddings,
    ingestInput input = Some fileId /\
    DeleteFile.getFile fileId example_world = (example_world, inr (Some file)) /\
    file_owner_id (fw_file file) = str "user-1" /\
    Db.getObjectText (file_r2_key (fw_file file)) example_world
      = (example_world, inr (Some text)) /\
    Chunk.chunkText 28 text
      {| Chunk.chunkSize := parseNumber (CHUNK_SIZE env) 1500;
         Chunk.overlap := parseNumber (CHUNK_OVERLAP env) 200 |} = Some (inr pieces) /\
    OpenAI.createEmbeddings env (map Chunk.content pieces) = inr raw /\
    normalizeEmbeddings raw = inr embeddings /\
    1 = len pieces /\ 0 < 1 /\
    map chunkOf (rowsOfFile fileId (chunks example_world_ingested)) = pieces /\
    rowsOfOthers fileId (chunks example_world_ingested)
      = rowsOfOthers fileId (chunks example_world) /\
    Forall (fun row => chunk_folder_id row = file_folder_id (fw_file file) /\
                       chunk_owner_id row = file_owner_id (fw_file file) /\
                       chunk_visibility row = file_visibility (fw_file file) /\
                       In (vectorFor embeddings file row)
                         (reachable_records (MARBLE_VECTORS example_world_ingested)
                            (Vectorize.partitionForVisibility
                               (file_visibility (fw_file file))
                               (file_owner_id (fw_file file)))))
      (rowsOfFile fileId (chunks example_world_ingested)) /\
    (forall f, In f (files example_world_ingested) -> file_id f = fileId ->
               file_ready f = true).
Proof.
  intros env input.
  assert (Hrun : handleIngest 28 env (str "user-1") (Some input) example_world
                 = Some (example_world_ingested, inr 1)) by (vm_compute; reflexivity).
  split; [exact Hrun|].
  exact (handleIngest_writes_the_chunks_in_order 28 env (str "user-1") input
           example_world example_world_ingested 1 Hrun).
Defined.

End IngestRouteTheorems.

(** * Rows, pieces and vectors: further properties *)

Module StoreTheorems.
Import Js BasicFacts Examples.

Lemma flat_map_nil {A B} (f : A -> list B) l :
  Forall (fun x => f x = []) l -> flat_map f l = [].
Proof. induction 1 as [|x l Hx _ IH]; cbn; [reflexivity|]. now rewrite Hx, IH. Qed.

Lemma flat_map_filter {A B} (p : A -> bool) (h : A -> list B) l :
  flat_map (fun x => if p x then h x else []) l = flat_map h (filter p l).
Proof.
  induction l as [|x l IH]; cbn; [reflexivity|].
  destruct (p x); cbn; now rewrite IH.
Qed.

(** X26: a chunk row that [insertChunk] has stored is what
    [getChunksByIds] returns for its id, alone, joined with the name of its
    file and of its folder (the file and the folder being the only rows of
    their ids). *)
Theorem inserted_chunk_is_found :
  forall record w w' f d,
    Db.insertChunk record w = (w', inr tt) ->
    filter (fun f => jsstring_eqb (file_id f) (chunk_file_id record)) (files w) = [f] ->
    filter (fun d => jsstring_eqb (folder_id d) (chunk_folder_id record)) (folders w) = [d] ->
    Db.getChunksByIds [chunk_id record] w'
    = (w', inr [ {| cw_chunk := record; cw_file_name := file_name f;
                    cw_folder_name := folder_name d |} ]).
Proof.
  intros record w w' f d Hins Hfile Hfolder.
  unfold Db.insertChunk in Hins.
  destruct (existsb _ (chunks w)) eqn:Hpk; [discriminate|]. injection Hins as <-.
  unfold Db.getChunksByIds, gets. f_equal. f_equal.
  cbn [chunks files folders with_chunks].
  rewrite flat_map_app. rewrite flat_map_nil.
  - cbn [flat_map app existsb]. rewrite jsstring_eqb_refl. cbn [orb].
    rewrite app_nil_r.
    rewrite (flat_map_filter (fun f => jsstring_eqb (file_id f) (chunk_file_id record))
               (fun f => map (fun d => {| cw_chunk := record; cw_file_name := file_name f;
                                          cw_folder_name := folder_name d |})
                           (filter (fun d => jsstring_eqb (folder_id d)
                                               (chunk_folder_id record)) (folders w)))).
    rewrite Hfile. cbn [flat_map]. rewrite Hfolder. reflexivity.
  - apply Forall_forall. intros c Hc. cbn [existsb].
    destruct (jsstring_eqb (chunk_id c) (chunk_id record)) eqn:Hsame; [|reflexivity].
    exfalso.
    assert (existsb (fun c => jsstring_eqb (chunk_id c) (chunk_id record)) (chunks w) = true)
      by (apply existsb_exists; eauto).
    congruence.
Qed.

Lemma inserted_chunk_is_found_witness :
  let record :=
    {| chunk_id := str "chunk-1"; chunk_file_id := str "file-1";
       chunk_folder_id := str "private-root"; chunk_owner_id := str "user-1";
       chunk_visibility := Private; chunk_index := 0; chunk_start_line := 1;
       chunk_end_line := 3; chunk_content := ChunkSpec.example_source |} in
  let w' := fst (Db.insertChunk record example_world) in
  Db.getChunksByIds [str "chunk-1"] w'
  = (w', inr [ {| cw_chunk := record; cw_file_name := str "notes.txt";
                  cw_folder_name := str "My Space" |} ]).
Proof.
  intros record w'.
  apply (inserted_chunk_is_found record example_world w' example_file
           {| folder_id := str "private-root"; folder_name := str "My Space" |});
    reflexivity.
Defined.

End StoreTheorems.

Module ChunkShapeTheorems.
Import BasicFacts Chunk ChunkSpec ChunkFacts ChunkLoopFacts ChunkLayout ChunkLayoutFacts.

Lemma lineNumber_positive source i : 1 <= lineNumber source i.
Proof. unfold lineNumber. pose proof (len_nonneg (filter isNewline (firstn (Z.to_nat i) source))). lia. Qed.

Lemma locateLine_lineNumber source i :
  0 <= i -> locateLine (buildLineOffsets source) i = Some (lineNumber source i).
Proof.
  intros Hi. rewrite locateLine_buildLineOffsets by exact Hi. now rewrite lineOf_lineNumber.
Qed.

(** What every chunk pushed by the loop looks like. *)
Lemma chunk_loop_pieces source cs ov :
  0 < cs ->
  forall fuel position idx acc chunks,
    0 <= position ->
    chunk_loop fuel source cs ov (buildLineOffsets source) position idx acc = Some chunks ->
    exists added,
      chunks = acc ++ added /\
      (position < len source -> added <> []) /\
      Forall (fun c =>
                content c <> [] /\ len (content c) <= cs /\
                1 <= startLine c <= endLine c /\
                exists p, 0 <= p < len source /\
                          content c = slice source p (p + cs) /\
                          startLine c = lineNumber source p) added.
Proof.
  intros Hcs. induction fuel as [|fuel IH]; intros position idx acc chunks Hpos;
    [discriminate|].
  cbn [chunk_loop].
  destruct (Z.ltb_spec position (len source)) as [Hlt|Hge].
  2:{ intros [= <-]. exists []. rewrite app_nil_r. split; [reflexivity|].
      split; [lia|constructor]. }
  set (end_ := Z.min (len source) (position + cs)).
  assert (Hend : position < end_ <= len source) by (unfold end_; lia).
  rewrite (locateLine_lineNumber source position Hpos).
  destruct (Z.ltb_spec position end_); [|lia].
  rewrite (locateLine_lineNumber source (end_ - 1)) by lia.
  set (piece := {| content := slice source position end_;
                   startLine := lineNumber source position;
                   endLine := lineNumber source (end_ - 1);
                   index := idx |}).
  assert (Hpiece : content piece <> [] /\ len (content piece) <= cs /\
                   1 <= startLine piece <= endLine piece /\
                   exists p, 0 <= p < len source /\
                             content piece = slice source p (p + cs) /\
                             startLine piece = lineNumber source p).
  { cbn [content startLine endLine piece].
    assert (Hlen : len (slice source position end_) = end_ - position).
    { rewrite slice_in_range by lia. unfold len. rewrite length_firstn, length_skipn.
      unfold len in Hend. lia. }
    split; [intros Hnil; rewrite Hnil in Hlen; unfold len in Hlen; cbn in Hlen; lia|].
    split; [rewrite Hlen; unfold end_; lia|].
    split.
    { split; [apply lineNumber_positive|].
      apply ChunkLayoutTheorems.lineNumber_mono. lia. }
    exists position. split; [lia|]. split; [|reflexivity].
    unfold end_. apply slice_clamped. lia. }
  destruct (Z.eqb_spec end_ (len source)) as [Hlast|Hmore].
  - intros [= <-]. exists [piece]. split; [reflexivity|]. split; [discriminate|].
    constructor; [exact Hpiece|constructor].
  - intros Hrest. apply IH in Hrest; [|lia].
    destruct Hrest as (added & -> & _ & Hall).
    exists (piece :: added). rewrite <- app_assoc. split; [reflexivity|].
    split; [discriminate|]. constructor; [exact Hpiece|exact Hall].
Qed.

(** X27: whatever the overlap, the chunks that [chunkText] returns are
    numbered 0, 1, 2, ... in order; each holds at least one and at most
    [chunkSize] characters, namely the window of [chunkSize] characters that
    starts at some position of the source (cut at the end of the source),
    with [startLine] the line of that position and [1 <= startLine <=
    endLine]; and no chunk is returned only for the empty source. *)
Theorem chunks_are_numbered_windows :
  forall fuel source options chunks,
    chunkText fuel source options = Some (inr chunks) ->
    map index chunks = map Z.of_nat (seq 0 (length chunks)) /\
    Forall (fun c =>
              content c <> [] /\ len (content c) <= chunkSize options /\
              1 <= startLine c <= endLine c /\
              exists p, 0 <= p < len source /\
                        content c = slice source p (p + chunkSize options) /\
                        startLine c = lineNumber source p) chunks /\
    (chunks = [] <-> source = []).
Proof.
  intros fuel source options chunks Hrun.
  split; [exact (IngestFacts.chunkText_indices _ _ _ _ Hrun)|].
  unfold chunkText in Hrun.
  destruct (Z.leb_spec (chunkSize options) 0) as [|Hcs]; [discriminate|].
  destruct (chunk_loop _ _ _ _ _ _ _ _) as [cs|] eqn:Hloop; [|discriminate].
  injection Hrun as <-.
  apply (chunk_loop_pieces source (chunkSize options) (overlap options) Hcs) in Hloop; [|lia].
  destruct Hloop as (added & -> & Hne & Hall). cbn [app].
  split; [exact Hall|]. split.
  - intros ->. destruct source as [|c source]; [reflexivity|].
    exfalso. apply Hne; [|reflexivity]. rewrite len_cons. pose proof (len_nonneg source). lia.
  - intros ->. destruct added as [|piece added]; [reflexivity|].
    inversion Hall as [|? ? (_ & _ & _ & p & Hp & _) _]. unfold len in Hp. cbn in Hp. lia.
Qed.

Lemma chunks_are_numbered_windows_witness :
  exists chunks,
    chunkText 28 example_source example_options = Some (inr chunks) /\
    map index chunks = map Z.of_nat (seq 0 (length chunks)) /\
    Forall (fun c =>
              content c <> [] /\ len (content c) <= chunkSize example_options /\
              1 <= startLine c <= endLine c /\
              exists p, 0 <= p < len example_source /\
                        content c = slice example_source p (p + chunkSize example_options) /\
                        startLine c = lineNumber example_source p) chunks /\
    (chunks = [] <-> example_source = []).
Proof.
  destruct (chunkText 28 example_source example_options) as [[e|chunks]|] eqn:Hrun;
    [vm_compute in Hrun; discriminate| |vm_compute in Hrun; discriminate].
  exists chunks. split; [reflexivity|].
  exact (chunks_are_numbered_windows _ _ _ _ Hrun).
Defined.

End ChunkShapeTheorems.

Module NormalizeMoreTheorems.
Import Js BasicFacts Examples Ingest Chat.

(** X28: the two readers of the provider's reply agree: when both accept
    a reply, the embedding the chat route takes for the question is the
    first of the embeddings the ingestion takes, unless the reply has a
    [data] array whose first entry carries no usable [embedding]. *)
Theorem question_embedding_is_the_first_embedding :
  forall maybe questionEmbedding embeddings,
    normalizeQuestionEmbedding maybe = inr questionEmbedding ->
    normalizeEmbeddings maybe = inr embeddings ->
    (isArray (prop maybe "data") = true ->
     truthy (prop (first (prop maybe "data")) "embedding") = true) ->
    hd_error embeddings = Some questionEmbedding.
Proof.
  intros maybe v vs HQ HN Hdata.
  unfold normalizeQuestionEmbedding in HQ. unfold normalizeEmbeddings in HN.
  destruct (truthy maybe) eqn:Htruthy; cbn [andb] in HQ, HN.
  - destruct (isArray (prop maybe "data")) eqn:Harr; cbn [andb] in HQ, HN.
    + rewrite (Hdata eq_refl) in HQ. injection HQ as <-.
      specialize (Hdata eq_refl).
      destruct (prop maybe "data") as [| |b|n|s|data|o]; try discriminate.
      destruct data as [|d data]; [discriminate|].
      cbn [items OpenAI.map_all] in HN. unfold first. cbn [items nth].
      unfold OpenAI.embedding_of at 1 in HN.
      destruct (nullish d) eqn:Hd; [discriminate|].
      destruct (OpenAI.map_all OpenAI.embedding_of data); [|discriminate].
      cbn in HN. now injection HN as <-.
    + destruct (isArray maybe && isArray (first maybe)) eqn:H2.
      { injection HQ as <-. injection HN as <-.
        apply andb_true_iff in H2. destruct H2 as [Ha Hf].
        unfold first in *. destruct (items maybe); [discriminate|reflexivity]. }
      destruct (isArray maybe && isNumber (first maybe)) eqn:H3.
      { injection HQ as <-. now injection HN as <-. }
      destruct (isArray (prop maybe "vectors")) eqn:H4; [|discriminate].
      cbn [andb] in HQ.
      destruct (isArray (first (prop maybe "vectors"))) eqn:H5; [|discriminate].
      injection HQ as <-. injection HN as <-.
      unfold first in *. destruct (items (prop maybe "vectors")); [discriminate|reflexivity].
  - destruct maybe; discriminate.
Qed.

Lemma question_embedding_is_the_first_embedding_witness :
  hd_error [VArr [VNum 1; VNum 0]; VArr [VNum 0; VNum 1]] = Some (VArr [VNum 1; VNum 0]).
Proof.
  apply (question_embedding_is_the_first_embedding
           (VObj [(str "data",
                   VArr [VObj [(str "embedding", VArr [VNum 1; VNum 0])];
                         VObj [(str "embedding", VArr [VNum 0; VNum 1])]])])).
  - reflexivity.
  - reflexivity.
  - reflexivity.
Defined.

End NormalizeMoreTheorems.

(** * From ingestion to retrieval *)

Module RetrievalFacts.
Import Js BasicFacts Examples Vectorize VectorizeSpec RetrievalSpec.
Import VectorizeFacts VectorizeMoreFacts.

Lemma reachable_stored binding ns r :
  In r (reachable_records binding ns) -> In r (stored_records binding).
Proof.
  destruct binding as [entries|rm del entries]; cbn; [|auto].
  intros H. apply in_map_iff in H. destruct H as (e & <- & He).
  apply filter_In in He. apply in_map. apply He.
Qed.

Lemma reachable_length binding ns :
  len (reachable_records binding ns) <= len (stored_records binding).
Proof.
  destruct binding as [entries|rm del entries]; cbn; [|lia].
  unfold len. rewrite !length_map.
  pose proof (filter_length_le (in_namespace ns) entries). lia.
Qed.

(** A vector that a query against the partition of its own metadata can
    reach is returned by that query, when [topK] is large enough. *)
Lemma reachable_vector_is_found env binding id embedding md query k :
  In {| vec_id := id; vec_values := embedding; vec_metadata := Some (stored_of md) |}
    (reachable_records binding (partitionForVisibility (visibility md) (ownerId md))) ->
  chunkId md <> [] ->
  index_accepts env query = true ->
  len (stored_records binding) <= k ->
  exists matches,
    queryNamespace env binding
      {| vector := query; topK := k;
         namespace := partitionForVisibility (visibility md) (ownerId md) |} = inr matches /\
    In {| metadata := md; score := similarity env query embedding |} matches.
Proof.
  intros Hin Hid Hquery Hk.
  set (ns := partitionForVisibility (visibility md) (ownerId md)) in *.
  set (options := {| vector := query; topK := k; namespace := ns |}).
  set (vec := {| vec_id := id; vec_values := embedding;
                 vec_metadata := Some (stored_of md) |}) in *.
  pose proof (buildMatch_of_upserted env options query id embedding md Hid) as Hbuild.
  fold vec in Hbuild.
  pose proof (reachable_length binding ns) as Hlen.
  unfold queryNamespace. destruct binding as [entries|rm del entries].
  - rewrite isV2_namespaced. unfold index_query_namespaced.
    cbn [vector topK namespace options]. rewrite Hquery.
    eexists. split; [reflexivity|].
    eapply buildMatches_keeps; [|exact Hbuild].
    apply rank_keeps_all; [|exact Hin]. cbn [reachable_records] in Hlen. lia.
  - rewrite isV2_global. unfold index_query_global.
    cbn [vector topK namespace options]. rewrite Hquery.
    unfold ns. rewrite filterFromNamespace_partition.
    cbn [reachable_records stored_records] in *.
    assert (Hfound : In {| metadata := md; score := similarity env query embedding |}
                       (buildMatches options
                          (rank env query k
                             (filter (satisfies (partition_filter (visibility md) (ownerId md)))
                                entries)))).
    { eapply buildMatches_keeps; [|exact Hbuild].
      apply rank_keeps_all.
      - unfold len in *.
        pose proof (filter_length_le
                      (satisfies (partition_filter (visibility md) (ownerId md))) entries).
        lia.
      - apply filter_In. split; [exact Hin|]. now apply satisfies_partition. }
    destruct (buildMatches options _) as [|m0 ms] eqn:E; [contradiction|].
    eexists. split; [reflexivity|exact Hfound].
Qed.

Lemma buildMatch_chunkId options env query r m :
  buildMatch options (Some (answer_of env query r)) = Some m ->
  chunkId (metadata m) = chunkIdOfRecord r.
Proof.
  unfold buildMatch, answer_of, chunkIdOfRecord. cbn.
  destruct (falsy _); [discriminate|]. now intros [= <-].
Qed.

(** Every match of a query carries the chunk id of a stored vector. *)
Lemma match_of_stored env binding options matches m :
  queryNamespace env binding options = inr matches -> In m matches ->
  In (chunkId (metadata m)) (map chunkIdOfRecord (stored_records binding)).
Proof.
  intros Hq Hin.
  destruct (queryNamespace_origin _ _ _ _ _ Hq Hin) as (r & Hr & Hbuild).
  rewrite (buildMatch_chunkId _ _ _ _ _ Hbuild).
  apply in_map. eapply reachable_stored; eauto.
Qed.

End RetrievalFacts.

Module RetrievalChatFacts.
Import Js BasicFacts Examples Chat ChatSpec ChatMoreFacts MergeFacts.
Import VectorizeSpec RetrievalSpec RetrievalFacts.

Lemma queryOrEmpty_of_stored env binding ns query k m :
  In m (queryOrEmpty env binding ns query k) ->
  In (Vectorize.chunkId (Vectorize.metadata m))
    (map chunkIdOfRecord (stored_records binding)).
Proof.
  unfold queryOrEmpty.
  destruct (Vectorize.queryNamespace env binding _) as [e|matches] eqn:Hq; [intros []|].
  intros Hin. eapply match_of_stored; eauto.
Qed.

(** The merged map holds at most one entry per stored vector. *)
Lemma merged_length env binding query k namespaces :
  len (mergeByBestScore (map (fun ns => queryOrEmpty env binding ns query k) namespaces))
  <= len (stored_records binding).
Proof.
  set (results := map _ namespaces).
  destruct (mergeByBestScore_ok results) as [Hnd Hent _].
  assert (Hincl : incl (map fst (mergeByBestScore results))
                    (map chunkIdOfRecord (stored_records binding))).
  { intros key Hkey. apply in_map_iff in Hkey. destruct Hkey as ([key' e] & <- & Hin).
    destruct (Hent _ _ Hin) as (-> & Hseen & _). cbn [fst].
    apply in_concat in Hseen. destruct Hseen as (result & Hresult & Hm).
    apply in_map_iff in Hresult. destruct Hresult as (ns & <- & _).
    unfold chunkIdOf. eapply queryOrEmpty_of_stored; eauto. }
  pose proof (NoDup_incl_length Hnd Hincl) as Hle.
  unfold len. rewrite !length_map in Hle. lia.
Qed.

(** With [topK] at least the number of stored vectors, every match of a
    namespace query is still there, under its chunk id, after the merge and
    the cut to [topK]. *)
Lemma topMatches_keeps env binding query k namespaces ns m :
  len (stored_records binding) <= k ->
  In ns namespaces ->
  In m (queryOrEmpty env binding ns query k) ->
  exists e,
    In e (topMatches (map (fun ns => queryOrEmpty env binding ns query k) namespaces) k) /\
    chunkIdOf e = Vectorize.chunkId (Vectorize.metadata m).
Proof.
  intros Hk Hns Hm.
  pose proof (merged_length env binding query k namespaces) as Hlen.
  set (results := map _ namespaces) in *.
  destruct (mergeByBestScore_ok results) as [_ Hent Hbest].
  assert (Hseen : In m (concat results)).
  { apply in_concat. eexists. split; [|exact Hm].
    unfold results. apply in_map_iff. exists ns. split; [reflexivity|exact Hns]. }
  destruct (Hbest m Hseen) as (e & He & _).
  exists e. split.
  - unfold topMatches. rewrite take_firstn
      by (pose proof (ChunkFacts.len_nonneg (stored_records binding)); lia).
    rewrite firstn_all2.
    + eapply Permutation_in; [symmetry; apply sort_desc_perm|].
      apply in_map_iff. exists (idOf m, e). split; [reflexivity|exact He].
    + rewrite (Permutation_length (sort_desc_perm _ _)), length_map.
      unfold len in *. lia.
  - destruct (Hent _ _ He) as (Hkey & _). unfold idOf in Hkey. now rewrite <- Hkey.
Qed.

(** [getChunksByIds] returns the join of every listed chunk row with a file
    row and a folder row of its ids. *)
Lemma getChunksByIds_complete ids w c f d :
  In c (chunks w) -> In (chunk_id c) ids ->
  In f (files w) -> file_id f = chunk_file_id c ->
  In d (folders w) -> folder_id d = chunk_folder_id c ->
  exists rows,
    Db.getChunksByIds ids w = (w, inr rows) /\
    In {| cw_chunk := c; cw_file_name := file_name f; cw_folder_name := folder_name d |} rows.
Proof.
  intros Hc Hid Hf Hfid Hd Hdid. unfold Db.getChunksByIds.
  destruct ids as [|id ids]; [contradiction|].
  unfold gets. eexists. split; [reflexivity|].
  apply in_flat_map. exists c. split; [exact Hc|].
  assert (Hlisted : existsb (jsstring_eqb (chunk_id c)) (id :: ids) = true).
  { apply existsb_exists. exists (chunk_id c). split; [exact Hid|apply jsstring_eqb_refl]. }
  rewrite Hlisted. apply in_flat_map. exists f. split; [exact Hf|].
  rewrite Hfid, jsstring_eqb_refl. apply in_map_iff. exists d. split; [reflexivity|].
  apply filter_In. split; [exact Hd|]. rewrite Hdid. apply jsstring_eqb_refl.
Qed.

Lemma map_set_keys {V} (m : list (jsstring * V)) k v key :
  In key (map fst (map_set k v m)) <-> key = k \/ In key (map fst m).
Proof.
  induction m as [|[k0 v0] m IH]; cbn [map_set map fst In].
  - split; [intros [H|[]]; auto|intros [H|[]]; auto].
  - destruct (jsstring_eqb k0 k) eqn:E; cbn [map fst In].
    + apply jsstring_eqb_eq in E. subst k0. split; [intros [H|H]; auto|].
      intros [H|[H|H]]; auto.
    + rewrite IH. tauto.
Qed.

Lemma byId_keys rows : forall (init : list (jsstring * ChunkWithContext)) key,
  In key (map fst (fold_left (fun m ch => map_set (chunk_id (cw_chunk ch)) ch m) rows init))
  <-> In key (map fst init) \/ In key (map (fun ch => chunk_id (cw_chunk ch)) rows).
Proof.
  induction rows as [|ch rows IH]; intros init key; cbn [fold_left map In]; [tauto|].
  rewrite IH, map_set_keys. split; intros H; intuition auto.
Qed.

(** The map from ids to rows knows every returned row's id, with a
    returned row of that id. *)
Lemma byId_complete rows ch :
  In ch rows ->
  exists ch',
    map_get (chunk_id (cw_chunk ch))
      (fold_left (fun m ch => map_set (chunk_id (cw_chunk ch)) ch m) rows []) = Some ch' /\
    In ch' rows /\ chunk_id (cw_chunk ch') = chunk_id (cw_chunk ch).
Proof.
  intros Hch.
  destruct (map_get (chunk_id (cw_chunk ch)) (fold_left _ rows [])) as [ch'|] eqn:Hget.
  - exists ch'. split; [reflexivity|].
    apply map_get_In in Hget. apply byId_values in Hget.
    destruct Hget as [[]|[Hin Hkey]]. auto.
  - exfalso. apply map_get_None in Hget. apply Hget. apply byId_keys. right.
    apply in_map_iff. exists ch. auto.
Qed.

Lemma contexts_from_complete byId : forall entries index e ch,
  In e entries -> map_get (chunkIdOf e) byId = Some ch ->
  exists s, In s (contexts_from byId index entries) /\
            src_chunkId s = chunk_id (cw_chunk ch) /\
            src_content s = chunk_content (cw_chunk ch) /\
            src_startLine s = chunk_start_line (cw_chunk ch) /\
            src_endLine s = chunk_end_line (cw_chunk ch) /\
            src_fileName s = cw_file_name ch /\
            src_folderName s = cw_folder_name ch.
Proof.
  induction entries as [|e0 entries IH]; intros index e ch; [intros []|].
  intros [->|Hin] Hget; cbn [contexts_from].
  - rewrite Hget. eexists. split; [now left|]. cbn. auto 10.
  - destruct (IH (index + 1) e ch Hin Hget) as (s & Hs & Hrest).
    exists s. split; [|exact Hrest].
    destruct (map_get (chunkIdOf e0) byId); [now right|exact Hs].
Qed.

Lemma NoDup_map_inj {A B} (f : A -> B) l a b :
  NoDup (map f l) -> In a l -> In b l -> f a = f b -> a = b.
Proof.
  induction l as [|x l IH]; [intros _ []|].
  cbn [map]. intros Hnd Ha Hb Hab. inversion Hnd as [|? ? Hx Hl]; subst.
  destruct Ha as [->|Ha], Hb as [->|Hb]; auto.
  - exfalso. apply Hx. rewrite Hab. now apply in_map.
  - exfalso. apply Hx. rewrite <- Hab. now apply in_map.
Qed.

(** The ranked matches and the contexts of a lookup that returned. *)
Lemma answerLookup_sources env uid rawQuestion q w w' resp :
  answerLookup env uid rawQuestion q w = (w', inr resp) ->
  exists matches,
    retrieve env uid q w = (w, inr matches) /\
    resolveContexts matches w = (w, inr (resp_sources resp)).
Proof.
  unfold answerLookup. rewrite bind_run.
  destruct (retrieve env uid q w) as [w1 [e|matches]] eqn:Hret; [discriminate|].
  pose proof (ChatFacts.retrieve_reads_only _ _ _ _ _ _ Hret). subst w1.
  intros Hrun.
  enough (Hgoal : resolveContexts matches w = (w, inr (resp_sources resp)))
    by (exists matches; split; [reflexivity|exact Hgoal]).
  revert Hrun.
  destruct (map chunkIdOf matches) eqn:Hids.
  { rewrite ChatFacts.nothingRelevant_run. intros [= <- <-]. cbn [resp_sources].
    destruct matches; [reflexivity|discriminate]. }
  rewrite bind_run.
  destruct (resolveContexts matches w) as [w2 rc] eqn:Hres.
  destruct (ChatFacts.resolveContexts_reads_only _ _ _ _ Hres) as (-> & contexts & ->).
  destruct contexts as [|cxt contexts].
  { rewrite ChatFacts.nothingRelevant_run. now intros [= <- <-]. }
  rewrite bind_run.
  destruct (OpenAI.generateStructuredAnswer env q _ w) as [w3 [e|structured]];
    [discriminate|].
  rewrite bind_run. unfold freshUUID. rewrite bind_run.
  destruct (Db.recordChat _ _) as [w4 [e|[]]]; [discriminate|].
  unfold ret. now intros [= <- <-].
Qed.

Lemma retrieve_returns env uid q w matches :
  retrieve env uid q w = (w, inr matches) ->
  exists raw embedding,
    OpenAI.createEmbeddings env [q] = inr raw /\
    normalizeQuestionEmbedding raw = inr embedding /\
    matches = topMatches
                (map (fun ns => queryOrEmpty env (MARBLE_VECTORS w) ns embedding
                                  (parseTopK (VECTOR_TOP_K env)))
                   [Vectorize.publicNamespace; Vectorize.privateNamespace uid])
                (parseTopK (VECTOR_TOP_K env)).
Proof.
  unfold retrieve. rewrite bind_run. unfold lift.
  destruct (OpenAI.createEmbeddings env [q]) as [e|raw]; [discriminate|].
  destruct (normalizeQuestionEmbedding raw) as [e|embedding] eqn:Hnorm; [discriminate|].
  rewrite bind_run. unfold gets, ret. intros [= <-].
  exists raw, embedding. split; [reflexivity|]. split; [exact Hnorm|reflexivity].
Qed.

End RetrievalChatFacts.

Module RetrievalTheorems.
Import Js BasicFacts Examples Ingest IngestSpec Chat ChatSpec.
Import VectorizeSpec RetrievalSpec IngestFacts ChatMoreFacts RetrievalFacts RetrievalChatFacts.

Lemma getFileById_folder fileId w file :
  Db.getFileById fileId w = (w, inr (Some file)) ->
  exists d, In d (folders w) /\ folder_id d = file_folder_id (fw_file file).
Proof.
  unfold Db.getFileById, gets. intros [= H].
  destruct (flat_map _ (files w)) as [|x l] eqn:Hflat; [discriminate|].
  injection H as ->.
  assert (Hin : In file (flat_map
                 (fun f =>
                    if jsstring_eqb (file_id f) fileId then
                      map (fun d => {| fw_file := f; fw_folder_name := folder_name d |})
                        (filter (fun d => jsstring_eqb (folder_id d) (file_folder_id f))
                           (folders w))
                    else [])
                 (files w))) by (rewrite Hflat; now left).
  apply in_flat_map in Hin. destruct Hin as (f & Hf & Hin).
  destruct (jsstring_eqb (file_id f) fileId); [|contradiction].
  apply in_map_iff in Hin. destruct Hin as (d & <- & Hd).
  apply filter_In in Hd. destruct Hd as [Hd Hsame]. cbn.
  exists d. split; [exact Hd|]. now apply jsstring_eqb_eq.
Qed.

(** The namespaces a lookup of [uid] queries hold the partition of every
    file that is public or owned by [uid]. *)
Lemma partition_is_queried visibility uid :
  In (Vectorize.partitionForVisibility visibility uid)
    [Vectorize.publicNamespace; Vectorize.privateNamespace uid].
Proof. destruct visibility; [now left|right; now left]. Qed.

(** X29: what is ingested can be looked up.  After [ingestFileById]
    returned for a file, a lookup by the same user that returns shows every
    chunk row of the file (with a non-empty id) among its sources, with the
    row's content and line range, provided the chunk ids were pairwise
    distinct before the ingestion, the index accepts the question's
    embedding, and the configured top-K is at least the number of vectors in
    the index. *)
Theorem ingested_file_is_retrievable :
  forall fuel env fileId uid w w1 n body question captured w2 resp,
    NoDup (map chunk_id (chunks w)) ->
    ingestFileById fuel env fileId uid w = Some (w1, inr n) ->
    chatInput body = Some question ->
    lookupMatch (trim question) = Some captured ->
    handleChat env uid (Some body) w1 = (w2, inr resp) ->
    (forall raw embedding,
       OpenAI.createEmbeddings env [trim captured] = inr raw ->
       normalizeQuestionEmbedding raw = inr embedding ->
       index_accepts env embedding = true) ->
    len (stored_records (MARBLE_VECTORS w1)) <= parseTopK (VECTOR_TOP_K env) ->
    forall row,
      In row (chunks w1) -> chunk_file_id row = fileId -> chunk_id row <> [] ->
      exists s,
        In s (resp_sources resp) /\
        src_chunkId s = chunk_id row /\
        src_content s = chunk_content row /\
        src_startLine s = chunk_start_line row /\
        src_endLine s = chunk_end_line row.
Proof.
  intros fuel env fileId uid w w1 n body question captured w2 resp
         Hnodup Hingest Hinput Hlookup Hchat Haccepts HtopK row Hrow Hmine Hid.
  (* the ingestion *)
  destruct (ingest_cases _ _ _ _ _ _ _ Hingest) as [[[e He] _]|Hdone]; [discriminate|].
  destruct Hdone as (file & text & pieces & raw0 & embeddings & Hfile & Howner & _ & _ &
                     _ & _ & _ & _ & Hreplace).
  destruct (getFileById_found _ _ _ Hfile) as [Hfrow Hfid].
  destruct (getFileById_folder _ _ _ Hfile) as (d & Hd & Hdid).
  pose proof (IngestMoreTheorems.replaceChunks_frame _ _ _ _ _ _ _ Hreplace)
    as (Hfolders & _).
  apply replaceChunks_success in Hreplace.
  destruct Hreplace as (_ & Hrows & Hkeys & Hvecs & Hfiles).
  specialize (Hkeys Hnodup).
  assert (Hwritten : In row (rows_from env file (uuids_drawn w) 0 pieces)).
  { rewrite <- (IngestMoreTheorems.rowsOfFile_after env file pieces (chunks w) (uuids_drawn w)),
      <- Hrows.
    apply filter_In. split; [exact Hrow|]. rewrite Hfid, Hmine. apply jsstring_eqb_refl. }
  pose proof (proj1 (Forall_forall _ _) Hvecs row Hwritten) as Hvec.
  pose proof (proj1 (Forall_forall _ _) (rows_from_of_file env file pieces (uuids_drawn w) 0)
                row Hwritten) as (_ & Hrfolder & _).
  (* the lookup *)
  unfold handleChat in Hchat. rewrite Hinput in Hchat.
  destruct (trim question) as [|c rawQuestion] eqn:Htrim; [discriminate|].
  rewrite Hlookup in Hchat.
  destruct (trim captured) as [|c' lookupQuery] eqn:Hquery; [discriminate|].
  apply answerLookup_sources in Hchat. destruct Hchat as (matches & Hretrieve & Hresolve).
  apply retrieve_returns in Hretrieve.
  destruct Hretrieve as (raw & embedding & Hraw & Hnorm & Hmatches).
  specialize (Haccepts raw embedding Hraw Hnorm).
  (* the vector of the row is found *)
  destruct (reachable_vector_is_found env (MARBLE_VECTORS w1) (chunk_id row)
              (embedding_at embeddings (chunk_index row)) (metadataFor file row)
              embedding (parseTopK (VECTOR_TOP_K env)) Hvec Hid Haccepts HtopK)
    as (found & Hq & Hfound).
  cbn [metadataFor Vectorize.visibility Vectorize.ownerId] in Hq.
  rewrite Howner in Hq.
  assert (Hentry : exists e, In e matches /\ chunkIdOf e = chunk_id row).
  { rewrite Hmatches.
    destruct (topMatches_keeps env (MARBLE_VECTORS w1) embedding
                (parseTopK (VECTOR_TOP_K env))
                [Vectorize.publicNamespace; Vectorize.privateNamespace uid]
                (Vectorize.partitionForVisibility (file_visibility (fw_file file)) uid)
                {| Vectorize.metadata := metadataFor file row;
                   Vectorize.score :=
                     similarity env embedding (embedding_at embeddings (chunk_index row)) |}
                HtopK (partition_is_queried _ _)) as (e & He & Hkey).
    - unfold queryOrEmpty. rewrite Hq. exact Hfound.
    - exists e. split; [exact He|exact Hkey]. }
  destruct Hentry as (e & He & Hkey).
  (* the row is read back *)
  set (stored := if jsstring_eqb (file_id (fw_file file)) (file_id (fw_file file)) then
                   {| file_id := file_id (fw_file file);
                      file_folder_id := file_folder_id (fw_file file);
                      file_owner_id := file_owner_id (fw_file file);
                      file_visibility := file_visibility (fw_file file);
                      file_name := file_name (fw_file file);
                      file_r2_key := file_r2_key (fw_file file);
                      file_ready := true |}
                 else fw_file file).
  assert (Hstored : In stored (files w1) /\ file_id stored = chunk_file_id row).
  { split.
    - rewrite Hfiles. apply in_map_iff. exists (fw_file file). split; [reflexivity|exact Hfrow].
    - unfold stored. rewrite jsstring_eqb_refl. cbn. now rewrite Hfid, Hmine. }
  destruct Hstored as [Hstored Hsid].
  destruct (getChunksByIds_complete (map chunkIdOf matches) w1 row stored d)
    as (joined & Hjoined & Hjoin); auto.
  { rewrite <- Hkey. now apply in_map. }
  { now rewrite Hfolders. }
  { now rewrite Hrfolder. }
  unfold resolveContexts in Hresolve. rewrite bind_run, Hjoined in Hresolve.
  unfold ret in Hresolve. injection Hresolve as Hsources. rewrite <- Hsources.
  destruct (byId_complete joined _ Hjoin) as (ch & Hget & Hch & Hsame).
  cbn [cw_chunk] in Hget, Hsame.
  pose proof (getChunksByIds_rows _ _ _ _ Hjoined) as (_ & rows' & Heq & Hspec).
  injection Heq as <-. destruct (Hspec ch Hch) as (Hin & _).
  assert (Hch_row : cw_chunk ch = row)
    by (exact (NoDup_map_inj chunk_id (chunks w1) _ _ Hkeys Hin Hrow Hsame)).
  rewrite <- Hkey in Hget.
  destruct (contexts_from_complete _ matches 0 e ch He Hget)
    as (s & Hs & Hsid' & Hcontent & Hstart & Hend & _).
  exists s. rewrite Hch_row in *. auto.
Qed.

Lemma ingested_file_is_retrievable_witness :
  let body := question_body "/lookup notes" in
  let run := handleChat lookup_env (str "user-1") (Some body) example_world_ingested in
  exists resp row,
    snd run = inr resp /\
    chunks example_world_ingested = [row] /\
    exists s,
      In s (resp_sources resp) /\
      src_chunkId s = chunk_id row /\
      src_content s = chunk_content row /\
      src_startLine s = chunk_start_line row /\
      src_endLine s = chunk_end_line row.
Proof.
  intros body run.
  destruct run as [w2 [e|resp]] eqn:Hrun; [vm_compute in Hrun; discriminate|].
  assert (Hchunks : exists row, chunks example_world_ingested = [row])
    by (vm_compute; eexists; reflexivity).
  destruct Hchunks as [row Hchunks].
  exists resp, row. split; [reflexivity|]. split; [exact Hchunks|].
  apply (ingested_file_is_retrievable 28 lookup_env (str "file-1") (str "user-1")
           example_world example_world_ingested 1 body (str "/lookup notes") (str "notes")
           w2 resp).
  - constructor.
  - vm_compute. reflexivity.
  - reflexivity.
  - vm_compute. reflexivity.
  - exact Hrun.
  - intros raw embedding _ _. reflexivity.
  - vm_compute. discriminate.
  - rewrite Hchunks. now left.
  - vm_compute in Hchunks. injection Hchunks as <-. reflexivity.
  - vm_compute in Hchunks. injection Hchunks as <-. discriminate.
Defined.

End RetrievalTheorems.

(** * From deletion to retrieval *)

Module DeletionTheorems.
Import Js BasicFacts Examples Chat ChatSpec IngestSpec DeleteFile.
Import ChatMoreFacts RetrievalChatFacts.

(** Every source of a chat response carries the id of a row of the chunk
    table. *)
Lemma sources_are_rows env uid requestBody w w' resp s :
  handleChat env uid requestBody w = (w', inr resp) ->
  In s (resp_sources resp) ->
  exists c, In c (chunks w) /\ src_chunkId s = chunk_id c.
Proof.
  unfold handleChat. intros Hrun Hs.
  destruct requestBody as [body|]; [|discriminate].
  destruct (chatInput body) as [question|]; [|discriminate].
  destruct (trim question) as [|c0 rawQuestion]; [discriminate|].
  destruct (lookupMatch (c0 :: rawQuestion)) as [captured|].
  2:{ apply ChatMoreTheorems.answerFreeform_returns in Hrun.
      destruct Hrun as (request & Hnone & _). rewrite Hnone in Hs. contradiction. }
  destruct (trim captured) as [|c1 lookupQuery]; [discriminate|].
  apply answerLookup_sources in Hrun. destruct Hrun as (matches & _ & Hresolve).
  unfold resolveContexts in Hresolve. rewrite bind_run in Hresolve.
  destruct (Db.getChunksByIds (map chunkIdOf matches) w) as [w1 r1] eqn:Hrows.
  apply getChunksByIds_rows in Hrows. destruct Hrows as (-> & rows & -> & Hrows).
  unfold ret in Hresolve. injection Hresolve as Hsources. rewrite <- Hsources in Hs.
  apply contexts_from_spec in Hs.
  destruct Hs as (_ & e & ch & _ & Hget & Hid & _).
  apply map_get_In in Hget. apply byId_values in Hget. destruct Hget as [[]|[Hch _]].
  exists (cw_chunk ch). split; [apply (Hrows ch Hch)|exact Hid].
Qed.

(** The chunk table after the owner's [handleDeleteFile], once the delete
    of the chunk rows went through: whatever happened afterwards, the rows
    of the file are gone. *)
Lemma handleDeleteFile_chunks outage uid fileId w w1 r file :
  lookup_rejects outage = false ->
  object_delete_rejects outage = false ->
  chunk_delete_rejects outage = false ->
  getFile fileId w = (w, inr (Some file)) ->
  file_owner_id (fw_file file) = uid ->
  handleDeleteFile outage uid fileId w = (w1, r) ->
  forall c, In c (chunks w1) <-> In c (chunks w) /\ chunk_file_id c <> fileId.
Proof.
  intros Hlookup Hobject Hchunks Hfile Howner Hrun.
  rewrite DeleteFileTheorems.handleDeleteFile_run, Hlookup, Hfile, Hobject, Hchunks in Hrun.
  apply jsstring_eqb_eq in Howner. rewrite Howner in Hrun. cbn [negb] in Hrun.
  cbv zeta in Hrun.
  pose proof (DeleteFileTheorems.all_deleted fileId (file_r2_key (fw_file file)) w) as Hrows.
  cbv zeta in Hrows.
  destruct Hrows as (_ & Hc & _).
  assert (Hsame : chunks w1
                  = chunks (DeleteSpec.without_file fileId
                              (DeleteSpec.without_chunks fileId
                                 (DeleteSpec.without_object (file_r2_key (fw_file file)) w)))).
  { destruct (file_delete_rejects outage); [now injection Hrun as <- _|].
    destruct (map chunk_id (rowsOfFile fileId (chunks w))) as [|id ids].
    - now injection Hrun as <- _.
    - destruct (index_delete_rejects outage); [now injection Hrun as <- _|].
      unfold Ingest.deleteChunkVectors in Hrun.
      destruct (Vectorize.deleteChunkVectors _ _ _ _); now injection Hrun as <- _. }
  intros c. rewrite Hsame. apply Hc.
Qed.

(** X30: what is deleted is not shown.  Once the owner's
    [handleDeleteFile] has run past the delete of the chunk rows, whether it
    answered or failed afterwards, at the file row or at the vector index
    (so that vectors of the file may still be in the index), no chat
    response shows a chunk of the file: no source carries the id of one of
    its chunk rows (chunk ids being pairwise distinct). *)
Theorem deleted_file_is_not_shown :
  forall env outage user_id fileId w w1 r file asking requestBody w2 resp,
    NoDup (map chunk_id (chunks w)) ->
    lookup_rejects outage = false ->
    object_delete_rejects outage = false ->
    chunk_delete_rejects outage = false ->
    getFile fileId w = (w, inr (Some file)) ->
    file_owner_id (fw_file file) = user_id ->
    handleDeleteFile outage user_id fileId w = (w1, r) ->
    handleChat env asking requestBody w1 = (w2, inr resp) ->
    forall s c,
      In s (resp_sources resp) -> In c (chunks w) -> chunk_file_id c = fileId ->
      src_chunkId s <> chunk_id c.
Proof.
  intros env outage user_id fileId w w1 r file asking requestBody w2 resp
         Hnodup Hlookup Hobject Hchunks Hfile Howner Hdelete Hchat s c Hs Hc Hmine Hsame.
  destruct (sources_are_rows _ _ _ _ _ _ _ Hchat Hs) as (c' & Hc' & Hid).
  apply (handleDeleteFile_chunks _ _ _ _ _ _ _ Hlookup Hobject Hchunks Hfile Howner Hdelete)
    in Hc'.
  destruct Hc' as [Hc' Hother].
  assert (c' = c).
  { apply (NoDup_map_inj chunk_id (chunks w)); auto. congruence. }
  subst c'. contradiction.
Qed.

Lemma deleted_file_is_not_shown_witness :
  let w := with_vectors (Vectorize.GlobalIndex false false
                           (VectorizeSpec.stored_records
                              (MARBLE_VECTORS example_world_ingested)))
             example_world_ingested in
  let w1 := fst (handleDeleteFile no_outage (str "user-1") (str "file-1") w) in
  let run := handleChat lookup_env (str "user-1") (Some (question_body "/lookup notes")) w1 in
  exists resp,
    MARBLE_VECTORS w1 = MARBLE_VECTORS w /\
    snd run = inr resp /\
    forall s c,
      In s (resp_sources resp) -> In c (chunks w) -> chunk_file_id c = str "file-1" ->
      src_chunkId s <> chunk_id c.
Proof.
  intros w w1 run.
  destruct run as [w2 [e|resp]] eqn:Hrun; [vm_compute in Hrun; discriminate|].
  exists resp. split; [vm_compute; reflexivity|]. split; [reflexivity|].
  apply (deleted_file_is_not_shown lookup_env no_outage (str "user-1") (str "file-1") w w1
           (snd (handleDeleteFile no_outage (str "user-1") (str "file-1") w))
           {| fw_file := hd example_file (files w); fw_folder_name := str "My Space" |}
           (str "user-1") (Some (question_body "/lookup notes")) w2 resp).
  - vm_compute. repeat constructor. intros [].
  - reflexivity.
  - reflexivity.
  - reflexivity.
  - vm_compute. reflexivity.
  - vm_compute. reflexivity.
  - apply surjective_pairing.
  - exact Hrun.
Defined.

End DeletionTheorems.

